(** * The bytecode virtual machine of the interpreter: handlers of
      [libinterp/parse-tree/pt-bytecode-vm.cc] as functions on an explicit
      machine state, and the properties of the specification that concern
      them.

    The operand stack, the code bytes and the name table are flat memories
    addressed by integer pointers, as [vm::execute_code] addresses them; a
    handler is a function from the state at its label to the control
    transfer it ends with ([DISPATCH ()], [goto unwind], ...). *)

From Stdlib Require Import ZArith Lia Bool Ascii String.
From Stdlib Require Import Floats.SpecFloat.
From stdpp Require Import base list strings gmap pretty.

Open Scope Z_scope.

(** ** Machine numbers *)

(** A C [double] is an IEEE 754 binary64 value. *)
Definition double : Type := spec_float.

Definition prec : Z := 53.
Definition emax : Z := 1024.

Definition dbl_of_Z (z : Z) : double := binary_normalize prec emax z 0 false.
Definition dbl_sub (x y : double) : double := SFsub prec emax x y.
Definition dbl_add (x y : double) : double := SFadd prec emax x y.
Definition dbl_mul (x y : double) : double := SFmul prec emax x y.
Definition dbl_div (x y : double) : double := SFdiv prec emax x y.
(** [==] and [!=] of C on doubles: a NaN differs from everything. *)
Definition dbl_eqb (x y : double) : bool := SFeqb x y.
Definition dbl_neb (x y : double) : bool := negb (SFeqb x y).
Definition dbl_ltb (x y : double) : bool := SFltb x y.

Definition idx_min : Z := - 2 ^ 63.
Definition idx_max : Z := 2 ^ 63 - 1.

(** [static_cast<octave_idx_type> (d)]: truncation towards zero.  Outside
    the range of the 64-bit [octave_idx_type] (and for NaN) the conversion
    yields the "integer indefinite" value [idx_min], as [cvttsd2si] does on
    the x86-64 targets of the VM. *)
Definition dbl_to_idx (d : double) : Z :=
  match d with
  | S754_zero _ => 0
  | S754_finite s m e =>
      let a := if decide (0 ≤ e) then Z.pos m * 2 ^ e
               else Z.pos m `quot` 2 ^ (- e) in
      let v := if s then - a else a in
      if decide (idx_min ≤ v ≤ idx_max) then v else idx_min
  | _ => idx_min
  end.

(** [static_cast<double> (i)] *)
Definition idx_to_dbl (i : Z) : double := dbl_of_Z i.

(** [static_cast<signed char> (b)] of a code byte. *)
Definition signed_char (b : Z) : Z := if decide (b < 128) then b else b - 256.

(** [USHORT_FROM_UCHARS (c1, c2)], little endian. *)
Definition USHORT_FROM_UCHARS (c1 c2 : Z) : Z := Z.lor c1 (Z.shiftl c2 8).

(** ** Values *)

(** The slots a reference wrapper forwards to: a named global, or a
    persistent cell of a scope. *)
Variant ref_target :=
  | ref_global (name : string)
  | ref_persistent (scope : Z) (offset : Z).

Definition dim_vector : Type := list Z.

(** Modelled from the spec: the value system ([octave_value] and the
    classes under it) is not part of the VM source; this is the tagged
    representation of section 9, with one arm per kind of value the
    handlers tell apart. *)
#[warnings="-register-all"]
Inductive octave_value : Type :=
  | val_undef
  | val_scalar (d : double)
  | val_bool (b : bool)
  | val_int64 (i : Z)
  | val_matrix (dv : dim_vector) (elems : list double)
  | val_string (dv : dim_vector) (chars : string)
  | val_cell (dv : dim_vector) (elems : list octave_value)
  | val_struct (dv : dim_vector)
              (fields : list (string * (dim_vector * list octave_value)))
  | val_range (base increment limit : double) (n : Z)
  | val_trivial_range (base increment : double) (n : Z)
  | val_cs_list (l : list octave_value)
  | val_ref (r : ref_target)
  | val_other (tid : Z).

Definition Cell : Type := dim_vector * list octave_value.

(** The integer [type_id ()] of a value, as a tag. *)
Variant ov_type :=
  | t_undef | t_scalar | t_bool | t_int64 | t_matrix | t_string | t_cell
  | t_struct | t_range | t_trivial_range | t_cs_list | t_ref
  | t_other (tid : Z).

#[global] Instance ov_type_eq_dec : EqDecision ov_type.
Proof. solve_decision. Defined.

#[global] Instance ref_target_eq_dec : EqDecision ref_target.
Proof. solve_decision. Defined.

Definition type_id (v : octave_value) : ov_type :=
  match v with
  | val_undef => t_undef
  | val_scalar _ => t_scalar
  | val_bool _ => t_bool
  | val_int64 _ => t_int64
  | val_matrix _ _ => t_matrix
  | val_string _ _ => t_string
  | val_cell _ _ => t_cell
  | val_struct _ _ => t_struct
  | val_range _ _ _ _ => t_range
  | val_trivial_range _ _ _ => t_trivial_range
  | val_cs_list _ => t_cs_list
  | val_ref _ => t_ref
  | val_other n => t_other n
  end.

(** The type-ids the VM caches at construction
    ([CHECK (octave_scalar::static_type_id () == m_scalar_typeid)] ...). *)
Definition m_scalar_typeid : ov_type := t_scalar.
Definition m_bool_typeid : ov_type := t_bool.
Definition m_matrix_typeid : ov_type := t_matrix.
Definition m_cslist_typeid : ov_type := t_cs_list.

Definition is_defined (v : octave_value) : bool :=
  match v with val_undef => false | _ => true end.
Definition is_undefined (v : octave_value) : bool := negb (is_defined v).
Definition is_cs_list (v : octave_value) : bool :=
  match v with val_cs_list _ => true | _ => false end.
Definition list_value (v : octave_value) : list octave_value :=
  match v with val_cs_list l => l | _ => [] end.
Definition is_ref (v : octave_value) : bool :=
  match v with val_ref _ => true | _ => false end.
Definition iscell (v : octave_value) : bool :=
  match v with val_cell _ _ => true | _ => false end.
Definition isstruct (v : octave_value) : bool :=
  match v with val_struct _ _ => true | _ => false end.
Definition is_string (v : octave_value) : bool :=
  match v with val_string _ _ => true | _ => false end.
Definition is_range (v : octave_value) : bool :=
  match v with val_range _ _ _ _ => true | _ => false end.
Definition is_trivial_range (v : octave_value) : bool :=
  match v with val_trivial_range _ _ _ => true | _ => false end.
Definition is_matrix_type (v : octave_value) : bool :=
  match v with val_matrix _ _ => true | _ => false end.
Definition is_full_num_matrix (v : octave_value) : bool :=
  match v with val_matrix _ _ => true | _ => false end.
Definition is_scalar_type (v : octave_value) : bool :=
  match v with val_scalar _ | val_bool _ | val_int64 _ => true | _ => false end.
Definition is_double_type (v : octave_value) : bool :=
  match v with
  | val_scalar _ | val_matrix _ _ | val_range _ _ _ _
  | val_trivial_range _ _ _ => true
  | _ => false
  end.

(** [dim_vector::numel]: the product of the extents. *)
Definition dv_numel (dv : dim_vector) : Z := foldr Z.mul 1 dv.

(** [dim_vector::redim (2)]: the trailing extents are folded into the
    second one; a shorter vector is padded with ones. *)
Definition redim2 (dv : dim_vector) : Z * Z :=
  match dv with
  | [] => (1, 1)
  | [r] => (r, 1)
  | r :: rest => (r, dv_numel rest)
  end.

Definition dims (v : octave_value) : dim_vector :=
  match v with
  | val_undef => [0; 0]
  | val_matrix dv _ | val_string dv _ | val_cell dv _ | val_struct dv _ => dv
  | val_range _ _ _ n | val_trivial_range _ _ n => [1; n]
  | val_cs_list l => [1; Z.of_nat (length l)]
  | _ => [1; 1]
  end.

Definition numel (v : octave_value) : Z := dv_numel (dims v).

(** ** The instruction set

    The opcodes, in the order of the table of label addresses [instr] of
    [vm::execute_code]: the byte of an opcode is its position there. *)
Variant INSTR :=
  | POP | DUP | LOAD_CST | MUL | DIV | ADD | SUB | RET | ASSIGN | JMP_IF
  | JMP | JMP_IFN | PUSH_SLOT_NARGOUT0 | LE | LE_EQ | GR | GR_EQ | EQ | NEQ
  | INDEX_ID_NARGOUT0 | PUSH_SLOT_INDEXED | POW | LDIV | EL_MUL | EL_DIV
  | EL_POW | EL_AND | EL_OR | EL_LDIV | NOT | UADD | USUB | TRANS | HERM
  | INCR_ID_PREFIX | DECR_ID_PREFIX | INCR_ID_POSTFIX | DECR_ID_POSTFIX
  | FOR_SETUP | FOR_COND | POP_N_INTS | PUSH_SLOT_NARGOUT1
  | INDEX_ID_NARGOUT1 | PUSH_FCN_HANDLE | COLON3 | COLON2 | COLON3_CMD
  | COLON2_CMD | PUSH_TRUE | PUSH_FALSE | UNARY_TRUE | INDEX_IDN | ASSIGNN
  | PUSH_SLOT_NARGOUTN | SUBASSIGN_ID | END_ID | MATRIX | TRANS_MUL
  | MUL_TRANS | HERM_MUL | MUL_HERM | TRANS_LDIV | HERM_LDIV | WORDCMD
  | HANDLE_SIGNALS | PUSH_CELL | INDEX_CELL_ID_NARGOUT0
  | INDEX_CELL_ID_NARGOUT1 | INDEX_CELL_ID_NARGOUTN | INCR_PREFIX | ROT
  | GLOBAL_INIT | ASSIGN_COMPOUND | JMP_IFDEF | JMP_IFNCASEMATCH
  | BRAINDEAD_PRECONDITION | BRAINDEAD_WARNING | FORCE_ASSIGN | PUSH_NIL
  | THROW_IFERROBJ | INDEX_STRUCT_NARGOUTN | SUBASSIGN_STRUCT
  | SUBASSIGN_CELL_ID | INDEX_OBJ | SUBASSIGN_OBJ | MATRIX_UNEVEN
  | LOAD_FAR_CST | END_OBJ | SET_IGNORE_OUTPUTS | CLEAR_IGNORE_OUTPUTS
  | SUBASSIGN_CHAINED | SET_SLOT_TO_STACK_DEPTH | DUPN | DEBUG
  | INDEX_STRUCT_CALL | END_X_N | EVAL | BIND_ANS | PUSH_ANON_FCN_HANDLE
  | FOR_COMPLEX_SETUP | FOR_COMPLEX_COND | PUSH_SLOT_NARGOUT1_SPECIAL
  | DISP | PUSH_SLOT_DISP | LOAD_CST_ALT2 | LOAD_CST_ALT3 | LOAD_CST_ALT4
  | LOAD_2_CST | MUL_DBL | ADD_DBL | SUB_DBL | DIV_DBL | POW_DBL | LE_DBL
  | LE_EQ_DBL | GR_DBL | GR_EQ_DBL | EQ_DBL | NEQ_DBL | INDEX_ID1_MAT_1D
  | INDEX_ID1_MAT_2D | PUSH_PI | INDEX_ID1_MATHY_UFUN | SUBASSIGN_ID_MAT_1D
  | INCR_ID_PREFIX_DBL | DECR_ID_PREFIX_DBL | INCR_ID_POSTFIX_DBL
  | DECR_ID_POSTFIX_DBL | PUSH_DBL_0 | PUSH_DBL_1 | PUSH_DBL_2
  | JMP_IF_BOOL | JMP_IFN_BOOL | USUB_DBL | NOT_DBL | NOT_BOOL
  | PUSH_FOLDED_CST | SET_FOLDED_CST | WIDE | SUBASSIGN_ID_MAT_2D
  | ENTER_SCRIPT_FRAME | EXIT_SCRIPT_FRAME | RET_ANON | INDEX_IDNX
  | INDEX_CELL_IDNX | PUSH_SLOT_NX | EXT_NARGOUT | WORDCMD_NX
  | ANON_MAYBE_SET_IGNORE_OUTPUT | ENTER_NESTED_FRAME | INSTALL_FUNCTION
  | DUP_MOVE | MUL_CST_DBL | MUL_CST | ADD_CST_DBL | ADD_CST | DIV_CST_DBL
  | DIV_CST | SUB_CST_DBL | SUB_CST | LE_CST_DBL | LE_CST | LE_EQ_CST_DBL
  | LE_EQ_CST | GR_CST_DBL | GR_CST | GR_EQ_CST_DBL | GR_EQ_CST
  | EQ_CST_DBL | EQ_CST | NEQ_CST_DBL | NEQ_CST | POW_CST_DBL | POW_CST
  | PUSH_I | PUSH_E | INDEX_STRUCT_SUBCALL | PUSH_CELL_BIG | APPEND_CELL.

Definition instr_table : list INSTR :=
  [POP; DUP; LOAD_CST; MUL; DIV; ADD; SUB; RET; ASSIGN; JMP_IF; JMP;
   JMP_IFN; PUSH_SLOT_NARGOUT0; LE; LE_EQ; GR; GR_EQ; EQ; NEQ;
   INDEX_ID_NARGOUT0; PUSH_SLOT_INDEXED; POW; LDIV; EL_MUL; EL_DIV; EL_POW;
   EL_AND; EL_OR; EL_LDIV; NOT; UADD; USUB; TRANS; HERM; INCR_ID_PREFIX;
   DECR_ID_PREFIX; INCR_ID_POSTFIX; DECR_ID_POSTFIX; FOR_SETUP; FOR_COND;
   POP_N_INTS; PUSH_SLOT_NARGOUT1; INDEX_ID_NARGOUT1; PUSH_FCN_HANDLE;
   COLON3; COLON2; COLON3_CMD; COLON2_CMD; PUSH_TRUE; PUSH_FALSE;
   UNARY_TRUE; INDEX_IDN; ASSIGNN; PUSH_SLOT_NARGOUTN; SUBASSIGN_ID;
   END_ID; MATRIX; TRANS_MUL; MUL_TRANS; HERM_MUL; MUL_HERM; TRANS_LDIV;
   HERM_LDIV; WORDCMD; HANDLE_SIGNALS; PUSH_CELL; INDEX_CELL_ID_NARGOUT0;
   INDEX_CELL_ID_NARGOUT1; INDEX_CELL_ID_NARGOUTN; INCR_PREFIX; ROT;
   GLOBAL_INIT; ASSIGN_COMPOUND; JMP_IFDEF; JMP_IFNCASEMATCH;
   BRAINDEAD_PRECONDITION; BRAINDEAD_WARNING; FORCE_ASSIGN; PUSH_NIL;
   THROW_IFERROBJ; INDEX_STRUCT_NARGOUTN; SUBASSIGN_STRUCT;
   SUBASSIGN_CELL_ID; INDEX_OBJ; SUBASSIGN_OBJ; MATRIX_UNEVEN;
   LOAD_FAR_CST; END_OBJ; SET_IGNORE_OUTPUTS; CLEAR_IGNORE_OUTPUTS;
   SUBASSIGN_CHAINED; SET_SLOT_TO_STACK_DEPTH; DUPN; DEBUG;
   INDEX_STRUCT_CALL; END_X_N; EVAL; BIND_ANS; PUSH_ANON_FCN_HANDLE;
   FOR_COMPLEX_SETUP; FOR_COMPLEX_COND; PUSH_SLOT_NARGOUT1_SPECIAL; DISP;
   PUSH_SLOT_DISP; LOAD_CST_ALT2; LOAD_CST_ALT3; LOAD_CST_ALT4; LOAD_2_CST;
   MUL_DBL; ADD_DBL; SUB_DBL; DIV_DBL; POW_DBL; LE_DBL; LE_EQ_DBL; GR_DBL;
   GR_EQ_DBL; EQ_DBL; NEQ_DBL; INDEX_ID1_MAT_1D; INDEX_ID1_MAT_2D; PUSH_PI;
   INDEX_ID1_MATHY_UFUN; SUBASSIGN_ID_MAT_1D; INCR_ID_PREFIX_DBL;
   DECR_ID_PREFIX_DBL; INCR_ID_POSTFIX_DBL; DECR_ID_POSTFIX_DBL;
   PUSH_DBL_0; PUSH_DBL_1; PUSH_DBL_2; JMP_IF_BOOL; JMP_IFN_BOOL; USUB_DBL;
   NOT_DBL; NOT_BOOL; PUSH_FOLDED_CST; SET_FOLDED_CST; WIDE;
   SUBASSIGN_ID_MAT_2D; ENTER_SCRIPT_FRAME; EXIT_SCRIPT_FRAME; RET_ANON;
   INDEX_IDNX; INDEX_CELL_IDNX; PUSH_SLOT_NX; EXT_NARGOUT; WORDCMD_NX;
   ANON_MAYBE_SET_IGNORE_OUTPUT; ENTER_NESTED_FRAME; INSTALL_FUNCTION;
   DUP_MOVE; MUL_CST_DBL; MUL_CST; ADD_CST_DBL; ADD_CST; DIV_CST_DBL;
   DIV_CST; SUB_CST_DBL; SUB_CST; LE_CST_DBL; LE_CST; LE_EQ_CST_DBL;
   LE_EQ_CST; GR_CST_DBL; GR_CST; GR_EQ_CST_DBL; GR_EQ_CST; EQ_CST_DBL;
   EQ_CST; NEQ_CST_DBL; NEQ_CST; POW_CST_DBL; POW_CST; PUSH_I; PUSH_E;
   INDEX_STRUCT_SUBCALL; PUSH_CELL_BIG; APPEND_CELL].

(** The handler labels of the dispatch loop. *)
Variant label :=
  | L_pop | L_dup | L_load_cst | L_mul | L_div | L_add | L_sub | L_ret
  | L_assign | L_jmp_if | L_jmp | L_jmp_ifn | L_push_slot_nargout0 | L_le
  | L_le_eq | L_gr | L_gr_eq | L_eq | L_neq | L_index_id_nargout0
  | L_push_slot_indexed | L_pow | L_ldiv | L_el_mul | L_el_div | L_el_pow
  | L_el_and | L_el_or | L_el_ldiv | L_op_not | L_uadd | L_usub | L_trans
  | L_herm | L_incr_id_prefix | L_decr_id_prefix | L_incr_id_postfix
  | L_decr_id_postfix | L_for_setup | L_for_cond | L_pop_n_ints
  | L_push_slot_nargout1 | L_index_id1 | L_push_fcn_handle | L_colon
  | L_colon_cmd | L_push_true | L_push_false | L_unary_true | L_index_idn
  | L_assign_n | L_push_slot_nargoutn | L_subassign_id | L_end_id
  | L_matrix | L_trans_mul | L_mul_trans | L_herm_mul | L_mul_herm
  | L_trans_ldiv | L_herm_ldiv | L_wordcmd | L_handle_signals | L_push_cell
  | L_index_cell_id0 | L_index_cell_id1 | L_index_cell_idn | L_incr_prefix
  | L_rot | L_init_global | L_assign_compound | L_jmp_ifdef | L_switch_cmp
  | L_braindead_precond | L_braindead_warning | L_force_assign | L_push_nil
  | L_throw_iferrorobj | L_index_struct_n | L_subasgn_struct
  | L_subasgn_cell_id | L_index_obj | L_subassign_obj | L_matrix_big
  | L_load_far_cst | L_end_obj | L_set_ignore_outputs
  | L_clear_ignore_outputs | L_subassign_chained
  | L_set_slot_to_stack_depth | L_dupn | L_debug | L_index_struct_call
  | L_end_x_n | L_eval | L_bind_ans | L_push_anon_fcn_handle
  | L_for_complex_setup | L_for_complex_cond | L_push_slot1_special
  | L_disp | L_push_slot_disp | L_load_cst_alt2 | L_load_cst_alt3
  | L_load_cst_alt4 | L_load_2_cst | L_mul_dbl | L_add_dbl | L_sub_dbl
  | L_div_dbl | L_pow_dbl | L_le_dbl | L_le_eq_dbl | L_gr_dbl | L_gr_eq_dbl
  | L_eq_dbl | L_neq_dbl | L_index_id1_mat_1d | L_index_id1_mat_2d
  | L_push_pi | L_index_math_ufun_id1 | L_subassign_id_mat_1d
  | L_incr_id_prefix_dbl | L_decr_id_prefix_dbl | L_incr_id_postfix_dbl
  | L_decr_id_postfix_dbl | L_push_cst_dbl_0 | L_push_cst_dbl_1
  | L_push_cst_dbl_2 | L_jmp_if_bool | L_jmp_ifn_bool | L_usub_dbl
  | L_not_dbl | L_not_bool | L_push_folded_cst | L_set_folded_cst | L_wide
  | L_subassign_id_mat_2d | L_enter_script_frame | L_exit_script_frame
  | L_ret_anon | L_index_idnx | L_index_cell_idnx | L_push_slot_nx
  | L_ext_nargout | L_wordcmd_nx | L_anon_maybe_set_ignore_output
  | L_enter_nested_frame | L_install_function | L_dup_move | L_mul_cst_dbl
  | L_mul_cst | L_add_cst_dbl | L_add_cst | L_div_cst_dbl | L_div_cst
  | L_sub_cst_dbl | L_sub_cst | L_le_cst_dbl | L_le_cst | L_le_eq_cst_dbl
  | L_le_eq_cst | L_gr_cst_dbl | L_gr_cst | L_gr_eq_cst_dbl | L_gr_eq_cst
  | L_eq_cst_dbl | L_eq_cst | L_neq_cst_dbl | L_neq_cst | L_pow_cst_dbl
  | L_pow_cst | L_push_i | L_push_e | L_index_struct_subcall
  | L_push_cell_big | L_append_cell
  (* labels that are no opcode of their own *)
  | L_assign_dispath | L_unwind | L_varargin_call | L_make_nested_handle_call
  | L_bytecode_call | L_cmd_fcn_or_undef_error.

(** [instr [opcode]]: the label an opcode dispatches to. *)
Definition instr (i : INSTR) : label :=
  match i with
  | POP => L_pop
  | DUP => L_dup
  | LOAD_CST => L_load_cst
  | MUL => L_mul
  | DIV => L_div
  | ADD => L_add
  | SUB => L_sub
  | RET => L_ret
  | ASSIGN => L_assign
  | JMP_IF => L_jmp_if
  | JMP => L_jmp
  | JMP_IFN => L_jmp_ifn
  | PUSH_SLOT_NARGOUT0 => L_push_slot_nargout0
  | LE => L_le
  | LE_EQ => L_le_eq
  | GR => L_gr
  | GR_EQ => L_gr_eq
  | EQ => L_eq
  | NEQ => L_neq
  | INDEX_ID_NARGOUT0 => L_index_id_nargout0
  | PUSH_SLOT_INDEXED => L_push_slot_indexed
  | POW => L_pow
  | LDIV => L_ldiv
  | EL_MUL => L_el_mul
  | EL_DIV => L_el_div
  | EL_POW => L_el_pow
  | EL_AND => L_el_and
  | EL_OR => L_el_or
  | EL_LDIV => L_el_ldiv
  | NOT => L_op_not
  | UADD => L_uadd
  | USUB => L_usub
  | TRANS => L_trans
  | HERM => L_herm
  | INCR_ID_PREFIX => L_incr_id_prefix
  | DECR_ID_PREFIX => L_decr_id_prefix
  | INCR_ID_POSTFIX => L_incr_id_postfix
  | DECR_ID_POSTFIX => L_decr_id_postfix
  | FOR_SETUP => L_for_setup
  | FOR_COND => L_for_cond
  | POP_N_INTS => L_pop_n_ints
  | PUSH_SLOT_NARGOUT1 => L_push_slot_nargout1
  | INDEX_ID_NARGOUT1 => L_index_id1
  | PUSH_FCN_HANDLE => L_push_fcn_handle
  | COLON3 => L_colon
  | COLON2 => L_colon
  | COLON3_CMD => L_colon_cmd
  | COLON2_CMD => L_colon_cmd
  | PUSH_TRUE => L_push_true
  | PUSH_FALSE => L_push_false
  | UNARY_TRUE => L_unary_true
  | INDEX_IDN => L_index_idn
  | ASSIGNN => L_assign_n
  | PUSH_SLOT_NARGOUTN => L_push_slot_nargoutn
  | SUBASSIGN_ID => L_subassign_id
  | END_ID => L_end_id
  | MATRIX => L_matrix
  | TRANS_MUL => L_trans_mul
  | MUL_TRANS => L_mul_trans
  | HERM_MUL => L_herm_mul
  | MUL_HERM => L_mul_herm
  | TRANS_LDIV => L_trans_ldiv
  | HERM_LDIV => L_herm_ldiv
  | WORDCMD => L_wordcmd
  | HANDLE_SIGNALS => L_handle_signals
  | PUSH_CELL => L_push_cell
  | INDEX_CELL_ID_NARGOUT0 => L_index_cell_id0
  | INDEX_CELL_ID_NARGOUT1 => L_index_cell_id1
  | INDEX_CELL_ID_NARGOUTN => L_index_cell_idn
  | INCR_PREFIX => L_incr_prefix
  | ROT => L_rot
  | GLOBAL_INIT => L_init_global
  | ASSIGN_COMPOUND => L_assign_compound
  | JMP_IFDEF => L_jmp_ifdef
  | JMP_IFNCASEMATCH => L_switch_cmp
  | BRAINDEAD_PRECONDITION => L_braindead_precond
  | BRAINDEAD_WARNING => L_braindead_warning
  | FORCE_ASSIGN => L_force_assign
  | PUSH_NIL => L_push_nil
  | THROW_IFERROBJ => L_throw_iferrorobj
  | INDEX_STRUCT_NARGOUTN => L_index_struct_n
  | SUBASSIGN_STRUCT => L_subasgn_struct
  | SUBASSIGN_CELL_ID => L_subasgn_cell_id
  | INDEX_OBJ => L_index_obj
  | SUBASSIGN_OBJ => L_subassign_obj
  | MATRIX_UNEVEN => L_matrix_big
  | LOAD_FAR_CST => L_load_far_cst
  | END_OBJ => L_end_obj
  | SET_IGNORE_OUTPUTS => L_set_ignore_outputs
  | CLEAR_IGNORE_OUTPUTS => L_clear_ignore_outputs
  | SUBASSIGN_CHAINED => L_subassign_chained
  | SET_SLOT_TO_STACK_DEPTH => L_set_slot_to_stack_depth
  | DUPN => L_dupn
  | DEBUG => L_debug
  | INDEX_STRUCT_CALL => L_index_struct_call
  | END_X_N => L_end_x_n
  | EVAL => L_eval
  | BIND_ANS => L_bind_ans
  | PUSH_ANON_FCN_HANDLE => L_push_anon_fcn_handle
  | FOR_COMPLEX_SETUP => L_for_complex_setup
  | FOR_COMPLEX_COND => L_for_complex_cond
  | PUSH_SLOT_NARGOUT1_SPECIAL => L_push_slot1_special
  | DISP => L_disp
  | PUSH_SLOT_DISP => L_push_slot_disp
  | LOAD_CST_ALT2 => L_load_cst_alt2
  | LOAD_CST_ALT3 => L_load_cst_alt3
  | LOAD_CST_ALT4 => L_load_cst_alt4
  | LOAD_2_CST => L_load_2_cst
  | MUL_DBL => L_mul_dbl
  | ADD_DBL => L_add_dbl
  | SUB_DBL => L_sub_dbl
  | DIV_DBL => L_div_dbl
  | POW_DBL => L_pow_dbl
  | LE_DBL => L_le_dbl
  | LE_EQ_DBL => L_le_eq_dbl
  | GR_DBL => L_gr_dbl
  | GR_EQ_DBL => L_gr_eq_dbl
  | EQ_DBL => L_eq_dbl
  | NEQ_DBL => L_neq_dbl
  | INDEX_ID1_MAT_1D => L_index_id1_mat_1d
  | INDEX_ID1_MAT_2D => L_index_id1_mat_2d
  | PUSH_PI => L_push_pi
  | INDEX_ID1_MATHY_UFUN => L_index_math_ufun_id1
  | SUBASSIGN_ID_MAT_1D => L_subassign_id_mat_1d
  | INCR_ID_PREFIX_DBL => L_incr_id_prefix_dbl
  | DECR_ID_PREFIX_DBL => L_decr_id_prefix_dbl
  | INCR_ID_POSTFIX_DBL => L_incr_id_postfix_dbl
  | DECR_ID_POSTFIX_DBL => L_decr_id_postfix_dbl
  | PUSH_DBL_0 => L_push_cst_dbl_0
  | PUSH_DBL_1 => L_push_cst_dbl_1
  | PUSH_DBL_2 => L_push_cst_dbl_2
  | JMP_IF_BOOL => L_jmp_if_bool
  | JMP_IFN_BOOL => L_jmp_ifn_bool
  | USUB_DBL => L_usub_dbl
  | NOT_DBL => L_not_dbl
  | NOT_BOOL => L_not_bool
  | PUSH_FOLDED_CST => L_push_folded_cst
  | SET_FOLDED_CST => L_set_folded_cst
  | WIDE => L_wide
  | SUBASSIGN_ID_MAT_2D => L_subassign_id_mat_2d
  | ENTER_SCRIPT_FRAME => L_enter_script_frame
  | EXIT_SCRIPT_FRAME => L_exit_script_frame
  | RET_ANON => L_ret_anon
  | INDEX_IDNX => L_index_idnx
  | INDEX_CELL_IDNX => L_index_cell_idnx
  | PUSH_SLOT_NX => L_push_slot_nx
  | EXT_NARGOUT => L_ext_nargout
  | WORDCMD_NX => L_wordcmd_nx
  | ANON_MAYBE_SET_IGNORE_OUTPUT => L_anon_maybe_set_ignore_output
  | ENTER_NESTED_FRAME => L_enter_nested_frame
  | INSTALL_FUNCTION => L_install_function
  | DUP_MOVE => L_dup_move
  | MUL_CST_DBL => L_mul_cst_dbl
  | MUL_CST => L_mul_cst
  | ADD_CST_DBL => L_add_cst_dbl
  | ADD_CST => L_add_cst
  | DIV_CST_DBL => L_div_cst_dbl
  | DIV_CST => L_div_cst
  | SUB_CST_DBL => L_sub_cst_dbl
  | SUB_CST => L_sub_cst
  | LE_CST_DBL => L_le_cst_dbl
  | LE_CST => L_le_cst
  | LE_EQ_CST_DBL => L_le_eq_cst_dbl
  | LE_EQ_CST => L_le_eq_cst
  | GR_CST_DBL => L_gr_cst_dbl
  | GR_CST => L_gr_cst
  | GR_EQ_CST_DBL => L_gr_eq_cst_dbl
  | GR_EQ_CST => L_gr_eq_cst
  | EQ_CST_DBL => L_eq_cst_dbl
  | EQ_CST => L_eq_cst
  | NEQ_CST_DBL => L_neq_cst_dbl
  | NEQ_CST => L_neq_cst
  | POW_CST_DBL => L_pow_cst_dbl
  | POW_CST => L_pow_cst
  | PUSH_I => L_push_i
  | PUSH_E => L_push_e
  | INDEX_STRUCT_SUBCALL => L_index_struct_subcall
  | PUSH_CELL_BIG => L_push_cell_big
  | APPEND_CELL => L_append_cell
  end.
(** The byte of an opcode. *)
Definition opcode_of (i : INSTR) : Z :=
  match i with
  | POP => 0 | DUP => 1 | LOAD_CST => 2 | MUL => 3 | DIV => 4 | ADD => 5
  | SUB => 6 | RET => 7 | ASSIGN => 8 | JMP_IF => 9 | JMP => 10
  | JMP_IFN => 11 | PUSH_SLOT_NARGOUT0 => 12 | LE => 13 | LE_EQ => 14
  | GR => 15 | GR_EQ => 16 | EQ => 17 | NEQ => 18 | INDEX_ID_NARGOUT0 => 19
  | PUSH_SLOT_INDEXED => 20 | POW => 21 | LDIV => 22 | EL_MUL => 23
  | EL_DIV => 24 | EL_POW => 25 | EL_AND => 26 | EL_OR => 27
  | EL_LDIV => 28 | NOT => 29 | UADD => 30 | USUB => 31 | TRANS => 32
  | HERM => 33 | INCR_ID_PREFIX => 34 | DECR_ID_PREFIX => 35
  | INCR_ID_POSTFIX => 36 | DECR_ID_POSTFIX => 37 | FOR_SETUP => 38
  | FOR_COND => 39 | POP_N_INTS => 40 | PUSH_SLOT_NARGOUT1 => 41
  | INDEX_ID_NARGOUT1 => 42 | PUSH_FCN_HANDLE => 43 | COLON3 => 44
  | COLON2 => 45 | COLON3_CMD => 46 | COLON2_CMD => 47 | PUSH_TRUE => 48
  | PUSH_FALSE => 49 | UNARY_TRUE => 50 | INDEX_IDN => 51 | ASSIGNN => 52
  | PUSH_SLOT_NARGOUTN => 53 | SUBASSIGN_ID => 54 | END_ID => 55
  | MATRIX => 56 | TRANS_MUL => 57 | MUL_TRANS => 58 | HERM_MUL => 59
  | MUL_HERM => 60 | TRANS_LDIV => 61 | HERM_LDIV => 62 | WORDCMD => 63
  | HANDLE_SIGNALS => 64 | PUSH_CELL => 65 | INDEX_CELL_ID_NARGOUT0 => 66
  | INDEX_CELL_ID_NARGOUT1 => 67 | INDEX_CELL_ID_NARGOUTN => 68
  | INCR_PREFIX => 69 | ROT => 70 | GLOBAL_INIT => 71
  | ASSIGN_COMPOUND => 72 | JMP_IFDEF => 73 | JMP_IFNCASEMATCH => 74
  | BRAINDEAD_PRECONDITION => 75 | BRAINDEAD_WARNING => 76
  | FORCE_ASSIGN => 77 | PUSH_NIL => 78 | THROW_IFERROBJ => 79
  | INDEX_STRUCT_NARGOUTN => 80 | SUBASSIGN_STRUCT => 81
  | SUBASSIGN_CELL_ID => 82 | INDEX_OBJ => 83 | SUBASSIGN_OBJ => 84
  | MATRIX_UNEVEN => 85 | LOAD_FAR_CST => 86 | END_OBJ => 87
  | SET_IGNORE_OUTPUTS => 88 | CLEAR_IGNORE_OUTPUTS => 89
  | SUBASSIGN_CHAINED => 90 | SET_SLOT_TO_STACK_DEPTH => 91 | DUPN => 92
  | DEBUG => 93 | INDEX_STRUCT_CALL => 94 | END_X_N => 95 | EVAL => 96
  | BIND_ANS => 97 | PUSH_ANON_FCN_HANDLE => 98 | FOR_COMPLEX_SETUP => 99
  | FOR_COMPLEX_COND => 100 | PUSH_SLOT_NARGOUT1_SPECIAL => 101
  | DISP => 102 | PUSH_SLOT_DISP => 103 | LOAD_CST_ALT2 => 104
  | LOAD_CST_ALT3 => 105 | LOAD_CST_ALT4 => 106 | LOAD_2_CST => 107
  | MUL_DBL => 108 | ADD_DBL => 109 | SUB_DBL => 110 | DIV_DBL => 111
  | POW_DBL => 112 | LE_DBL => 113 | LE_EQ_DBL => 114 | GR_DBL => 115
  | GR_EQ_DBL => 116 | EQ_DBL => 117 | NEQ_DBL => 118
  | INDEX_ID1_MAT_1D => 119 | INDEX_ID1_MAT_2D => 120 | PUSH_PI => 121
  | INDEX_ID1_MATHY_UFUN => 122 | SUBASSIGN_ID_MAT_1D => 123
  | INCR_ID_PREFIX_DBL => 124 | DECR_ID_PREFIX_DBL => 125
  | INCR_ID_POSTFIX_DBL => 126 | DECR_ID_POSTFIX_DBL => 127
  | PUSH_DBL_0 => 128 | PUSH_DBL_1 => 129 | PUSH_DBL_2 => 130
  | JMP_IF_BOOL => 131 | JMP_IFN_BOOL => 132 | USUB_DBL => 133
  | NOT_DBL => 134 | NOT_BOOL => 135 | PUSH_FOLDED_CST => 136
  | SET_FOLDED_CST => 137 | WIDE => 138 | SUBASSIGN_ID_MAT_2D => 139
  | ENTER_SCRIPT_FRAME => 140 | EXIT_SCRIPT_FRAME => 141 | RET_ANON => 142
  | INDEX_IDNX => 143 | INDEX_CELL_IDNX => 144 | PUSH_SLOT_NX => 145
  | EXT_NARGOUT => 146 | WORDCMD_NX => 147
  | ANON_MAYBE_SET_IGNORE_OUTPUT => 148 | ENTER_NESTED_FRAME => 149
  | INSTALL_FUNCTION => 150 | DUP_MOVE => 151 | MUL_CST_DBL => 152
  | MUL_CST => 153 | ADD_CST_DBL => 154 | ADD_CST => 155
  | DIV_CST_DBL => 156 | DIV_CST => 157 | SUB_CST_DBL => 158
  | SUB_CST => 159 | LE_CST_DBL => 160 | LE_CST => 161
  | LE_EQ_CST_DBL => 162 | LE_EQ_CST => 163 | GR_CST_DBL => 164
  | GR_CST => 165 | GR_EQ_CST_DBL => 166 | GR_EQ_CST => 167
  | EQ_CST_DBL => 168 | EQ_CST => 169 | NEQ_CST_DBL => 170 | NEQ_CST => 171
  | POW_CST_DBL => 172 | POW_CST => 173 | PUSH_I => 174 | PUSH_E => 175
  | INDEX_STRUCT_SUBCALL => 176 | PUSH_CELL_BIG => 177 | APPEND_CELL => 178
  end.

(** Decoding of an opcode byte. *)
Definition INSTR_of_opcode (b : Z) : option INSTR :=
  if decide (0 ≤ b) then instr_table !! Z.to_nat b else None.

(** ** Errors *)

(** The tags a handler pushes before [goto unwind]. *)
Variant error_type :=
  | BAD_ALLOC | DEBUG_QUIT | EXECUTION_EXC | EXIT_EXCEPTION | ID_UNDEFINED
  | IF_UNDEFINED | INDEX_ERROR | INTERRUPT_EXC
  | INVALID_N_EL_RHS_IN_ASSIGNMENT | RHS_UNDEF_IN_ASSIGNMENT.

#[global] Instance error_type_eq_dec : EqDecision error_type.
Proof. solve_decision. Defined.

(** [execution_exception {err_type, id, message}] *)
Record execution_exception := mk_execution_exception {
  err_type : string;
  identifier : string;
  message : string
}.

(** The host's [index_exception]: its message and the variable it is
    attributed to. *)
Record index_exception := mk_index_exception {
  ie_message : string;
  ie_var : string
}.

(** What a call into the host can throw. *)
Variant host_exception :=
  | exc_interrupt
  | exc_index (ie : index_exception)
  | exc_execution (ee : execution_exception)
  | exc_bad_alloc
  | exc_exit
  | exc_quit_debug.

Variant host_result (A : Type) :=
  | h_ok (a : A)
  | h_throw (e : host_exception).
Arguments h_ok {A} a.
Arguments h_throw {A} e.

(** ** The operand stack *)

(** A stack element is a union; the constructor is the member the writer
    used.  [se_dead] is storage that holds no object: never constructed, or
    destroyed by [~octave_value ()]. *)
Variant stack_element :=
  | se_ov (v : octave_value)          (* .ov, .ov_vm, .ovb *)
  | se_i (i : Z)                      (* .i, .u *)
  | se_err (t : error_type)           (* .i holding an error_type tag *)
  | se_puc (p : Z)                    (* .puc: pointer into the code *)
  | se_pse (p : Z)                    (* .pse: pointer to a stack element *)
  | se_ps (p : Z)                     (* .ps: pointer to names *)
  | se_pov (p : Z)                    (* .pov: pointer to constants *)
  | se_pud (p : Z)                    (* .pud: pointer to unwind data *)
  | se_pee (e : execution_exception)  (* .pee: heap-owned error object *)
  | se_pie (e : index_exception)      (* .pee holding an index exception *)
  | se_str (s : string)               (* .ps: heap-owned string *)
  | se_dead.

(** ** The host: tree evaluator and runtime *)

Variant host_event :=
  | ev_octave_quit                              (* the signal check ran *)
  | ev_maybe_call_dtor (v : octave_value)
  | ev_warning (id : string)
  | ev_set_active_bytecode_ip (off : Z)
  | ev_vm_unwinds
  | ev_pop_return_stack_frame.

(** Modelled from the spec: the state of the host that the handlers reach
    through [m_tw] and the runtime (section 6.2): the process-wide bindings
    the reference wrappers forward to, the IGNORED auto-variable of the
    current frame, the signal awaiting the next signal check, and a log of
    the host calls made. *)
Record interp : Type := mk_interp {
  globals : gmap string octave_value;
  persistents : gmap (Z * Z) octave_value;
  auto_var_IGNORED : octave_value;
  pending_signal : option host_exception;
  trace : list host_event
}.

Definition log (e : host_event) (h : interp) : interp :=
  mk_interp (globals h) (persistents h) (auto_var_IGNORED h)
    (pending_signal h) (trace h ++ [e]).

(** Modelled from the spec: [octave_quit ()], the signal-check function of
    the runtime: a signal that arrived since the last check is delivered as
    an exception, and is then no longer pending. *)
Definition octave_quit (h : interp) : interp * option host_exception :=
  let h' := log ev_octave_quit h in
  match pending_signal h with
  | Some e =>
      (mk_interp (globals h') (persistents h') (auto_var_IGNORED h') None
         (trace h'), Some e)
  | None => (h', None)
  end.

(** Modelled from the spec: [ref_rep ()->set_value (v)] of a reference
    wrapper writes the binding it forwards to. *)
Definition ref_set_value (r : ref_target) (v : octave_value) (h : interp)
  : interp :=
  match r with
  | ref_global name =>
      mk_interp (<[name := v]> (globals h)) (persistents h)
        (auto_var_IGNORED h) (pending_signal h) (trace h)
  | ref_persistent scope off =>
      mk_interp (globals h) (<[(scope, off) := v]> (persistents h))
        (auto_var_IGNORED h) (pending_signal h) (trace h)
  end.

(** Modelled from the spec: [ref_rep ()->deref ()]; a binding never written
    reads as undefined. *)
Definition ref_deref (r : ref_target) (h : interp) : octave_value :=
  match r with
  | ref_global name => default val_undef (globals h !! name)
  | ref_persistent scope off => default val_undef (persistents h !! (scope, off))
  end.

(** A call of a function of the host: it runs in the state of the host,
    may do there what it likes (run code of the user, check for signals),
    and returns or throws. *)
Definition host_call (A : Type) : Type := interp → host_result A * interp.

(** A call that leaves the host as it is. *)
Definition host_ret {A : Type} (r : host_result A) : host_call A :=
  λ h, (r, h).

(** ** The machine state: the registers of [vm::execute_code] and the
    memories they point into *)

Record vm : Type := mk_vm {
  arg0 : Z;  (* the first operand byte, read by the dispatcher *)
  sp : Z;  (* stack pointer: first unused element *)
  ip : Z;  (* instruction pointer *)
  bsp : Z;  (* base stack pointer: slot 0 of the frame *)
  rsp : Z;  (* root stack pointer *)
  code : Z;  (* the instruction base register *)
  data : Z;  (* constants of the unit *)
  name_data : Z;  (* identifier names of the unit, by slot *)
  unwind_data : Z;  (* unwind tables of the unit *)
  stack_mem : list stack_element;  (* the operand stack [m_stack] *)
  code_mem : list Z;  (* the code bytes of all the units *)
  name_mem : list string;  (* the name tables of all the units *)
  m_tw : interp  (* the tree evaluator and the runtime *)
}.

Definition set_arg0 (x : Z) (s : vm) : vm :=
  mk_vm x (sp s) (ip s) (bsp s) (rsp s) (code s) (data s) (name_data s)
    (unwind_data s) (stack_mem s) (code_mem s) (name_mem s) (m_tw s).
Definition set_sp (x : Z) (s : vm) : vm :=
  mk_vm (arg0 s) x (ip s) (bsp s) (rsp s) (code s) (data s) (name_data s)
    (unwind_data s) (stack_mem s) (code_mem s) (name_mem s) (m_tw s).
Definition set_ip (x : Z) (s : vm) : vm :=
  mk_vm (arg0 s) (sp s) x (bsp s) (rsp s) (code s) (data s) (name_data s)
    (unwind_data s) (stack_mem s) (code_mem s) (name_mem s) (m_tw s).
Definition set_bsp (x : Z) (s : vm) : vm :=
  mk_vm (arg0 s) (sp s) (ip s) x (rsp s) (code s) (data s) (name_data s)
    (unwind_data s) (stack_mem s) (code_mem s) (name_mem s) (m_tw s).
Definition set_code (x : Z) (s : vm) : vm :=
  mk_vm (arg0 s) (sp s) (ip s) (bsp s) (rsp s) x (data s) (name_data s)
    (unwind_data s) (stack_mem s) (code_mem s) (name_mem s) (m_tw s).
Definition set_data (x : Z) (s : vm) : vm :=
  mk_vm (arg0 s) (sp s) (ip s) (bsp s) (rsp s) (code s) x (name_data s)
    (unwind_data s) (stack_mem s) (code_mem s) (name_mem s) (m_tw s).
Definition set_name_data (x : Z) (s : vm) : vm :=
  mk_vm (arg0 s) (sp s) (ip s) (bsp s) (rsp s) (code s) (data s) x
    (unwind_data s) (stack_mem s) (code_mem s) (name_mem s) (m_tw s).
Definition set_unwind_data (x : Z) (s : vm) : vm :=
  mk_vm (arg0 s) (sp s) (ip s) (bsp s) (rsp s) (code s) (data s)
    (name_data s) x (stack_mem s) (code_mem s) (name_mem s) (m_tw s).
Definition set_stack_mem (x : list stack_element) (s : vm) : vm :=
  mk_vm (arg0 s) (sp s) (ip s) (bsp s) (rsp s) (code s) (data s)
    (name_data s) (unwind_data s) x (code_mem s) (name_mem s) (m_tw s).
Definition set_code_mem (x : list Z) (s : vm) : vm :=
  mk_vm (arg0 s) (sp s) (ip s) (bsp s) (rsp s) (code s) (data s)
    (name_data s) (unwind_data s) (stack_mem s) x (name_mem s) (m_tw s).
Definition set_m_tw (x : interp) (s : vm) : vm :=
  mk_vm (arg0 s) (sp s) (ip s) (bsp s) (rsp s) (code s) (data s)
    (name_data s) (unwind_data s) (stack_mem s) (code_mem s) (name_mem s) x.

(** ** Control transfers *)

(** How a handler ends. *)
Variant outcome :=
  | Dispatch (s : vm)            (* DISPATCH () *)
  | Dispatch1 (s : vm)           (* DISPATCH_1BYTEOP () *)
  | Unwind (s : vm)              (* goto unwind, the error pushed *)
  | Goto (l : label) (s : vm)    (* goto label *)
  | Call (s : vm)                (* the handler goes on to call a function *)
  | Return (ret : list octave_value) (s : vm)  (* return from execute_code *)
  | Throw (e : host_exception) (s : vm)  (* an exception no clause catches *)
  | Fault.                       (* undefined behaviour: a wild access, or
                                    the wrong member of a stack element *)

(** ** Memory access *)

Section memory.
Context {A : Type}.

(** [p[0]] for a pointer [p] into a memory. *)
Definition load (m : list A) (p : Z) : option A :=
  if decide (0 ≤ p) then m !! Z.to_nat p else None.

(** [p[0] = x]; nothing is stored outside the memory. *)
Definition store (p : Z) (x : A) (m : list A) : list A :=
  if decide (0 ≤ p) then <[Z.to_nat p := x]> m else m.
End memory.

(** Reads that fail are undefined behaviour. *)
Definition bind_load {A : Type} (o : option A) (k : A → outcome) : outcome :=
  match o with
  | Some a => k a
  | None => Fault
  end.

Notation "'let?' x := o 'in' k" := (bind_load o (fun x => k))
  (at level 10, x name, k at level 200).
Notation "'let?' ( x , y ) := o 'in' k" :=
  (bind_load o (fun p => let x := fst p in let y := snd p in k))
  (at level 10, x name, y name, k at level 200).

(** The members of the union. *)
Definition as_ov (e : stack_element) : option octave_value :=
  match e with se_ov v => Some v | _ => None end.
Definition as_i (e : stack_element) : option Z :=
  match e with se_i i => Some i | _ => None end.
Definition as_puc (e : stack_element) : option Z :=
  match e with se_puc p => Some p | _ => None end.
Definition as_pse (e : stack_element) : option Z :=
  match e with se_pse p => Some p | _ => None end.
Definition as_ps (e : stack_element) : option Z :=
  match e with se_ps p => Some p | _ => None end.
Definition as_pov (e : stack_element) : option Z :=
  match e with se_pov p => Some p | _ => None end.
Definition as_pud (e : stack_element) : option Z :=
  match e with se_pud p => Some p | _ => None end.

(** [p->ov] *)
Definition load_ov (s : vm) (p : Z) : option octave_value :=
  load (stack_mem s) p ≫= as_ov.
(** [p->i] *)
Definition load_i (s : vm) (p : Z) : option Z :=
  load (stack_mem s) p ≫= as_i.

(** [TOP_OV ()], [SEC_OV ()], [THIRD_OV ()] *)
Definition TOP_OV (s : vm) : option octave_value := load_ov s (sp s - 1).
Definition SEC_OV (s : vm) : option octave_value := load_ov s (sp s - 2).
Definition THIRD_OV (s : vm) : option octave_value := load_ov s (sp s - 3).

(** [p[0] = e] on the operand stack. *)
Definition poke (p : Z) (e : stack_element) (s : vm) : vm :=
  set_stack_mem (store p e (stack_mem s)) s.

(** [new (sp++) octave_value (v)], and the raw pushes of the other members
    of the union. *)
Definition push (e : stack_element) (s : vm) : vm :=
  set_sp (sp s + 1) (poke (sp s) e s).
Definition PUSH_OV (v : octave_value) (s : vm) : vm := push (se_ov v) s.

(** [STACK_SHRINK (n)] *)
Definition STACK_SHRINK (n : Z) (s : vm) : vm := set_sp (sp s - n) s.

(** [STACK_DESTROY (n)]: the destructor of the top value runs and [sp] steps
    down, [n] times. *)
Fixpoint STACK_DESTROY (n : nat) (s : vm) : vm :=
  match n with
  | O => s
  | S n' => STACK_DESTROY n' (set_sp (sp s - 1) (poke (sp s - 1) se_dead s))
  end.

(** [ip[k]] and [ip[k] = b] *)
Definition code_at (s : vm) (p : Z) : option Z := load (code_mem s) p.
Definition code_write (p : Z) (b : Z) (s : vm) : vm :=
  set_code_mem (store p b (code_mem s)) s.

(** [bsp[slot]] *)
Definition slot_addr (s : vm) (slot : Z) : Z := bsp s + slot.
Definition load_slot (s : vm) (slot : Z) : option octave_value :=
  load_ov s (slot_addr s slot).
Definition store_slot (slot : Z) (v : octave_value) (s : vm) : vm :=
  poke (slot_addr s slot) (se_ov v) s.

(** [name_data[slot]] *)
Definition name_at (s : vm) (slot : Z) : option string :=
  load (name_mem s) (name_data s + slot).

(** [N_RETURNS ()], [N_ARGS ()], [N_LOCALS ()]: the frame header. *)
Definition N_RETURNS (s : vm) : option Z := signed_char <$> code_at s (code s).
Definition N_ARGS (s : vm) : option Z := signed_char <$> code_at s (code s + 1).
Definition N_LOCALS (s : vm) : option Z :=
  b0 ← code_at s (code s + 2); b1 ← code_at s (code s + 3);
  Some (b0 + Z.shiftl b1 8).

(** [POP_CODE_USHORT ()]: reads a short at [ip] and steps over it. *)
Definition POP_CODE_USHORT (s : vm) : option (Z * vm) :=
  b0 ← code_at s (ip s); b1 ← code_at s (ip s + 1);
  Some (Z.lor b0 (Z.shiftl b1 8), set_ip (ip s + 2) s).

(** The write discipline of a slot: through the setter of the reference
    wrapper the slot holds, directly otherwise.
    [if (! lhs.is_ref ()) lhs = v; else lhs.ref_rep ()->set_value (v);] *)
Definition assign_slot (slot : Z) (lhs v : octave_value) (s : vm) : vm :=
  match lhs with
  | val_ref r => set_m_tw (ref_set_value r v (m_tw s)) s
  | _ => store_slot slot v s
  end.

(** ** The operations of the value system the handlers call

    The semantics of the value classes is the host's: storable
    transforms, truth values, operators and index operations are taken as
    an interface. *)

(** [octave_value::binary_op] and [compound_binary_op], as far as the
    handlers name them. *)
Variant binary_op :=
  | op_add | op_sub | op_mul | op_div | op_pow | op_ldiv
  | op_lt | op_le | op_eq | op_ge | op_gt | op_ne
  | op_el_mul | op_el_div | op_el_pow | op_el_ldiv | op_el_and | op_el_or
  | op_trans_mul | op_mul_trans | op_herm_mul | op_mul_herm
  | op_trans_ldiv | op_herm_ldiv.

#[global] Instance binary_op_eq_dec : EqDecision binary_op.
Proof. solve_decision. Defined.

Definition binary_op_fcn : Type :=
  octave_value → octave_value → host_call octave_value.

(** The classification [vm_dispatch_call ()] returns. *)
Variant vm_call_dispatch_type :=
  | OCT_SUBSREF | OCT_FN_LOOKUP | OCT_CALL | OCT_HANDLE | OCT_OBJECT
  | OCT_NESTED_HANDLE.

Class host_ops : Type := {
  (* lazy-copy types: conversions of the value classes *)
  vm_need_storable_call : octave_value → bool;
  make_storable_value : octave_value → octave_value;
  storable_value : octave_value → host_result octave_value;
  (* truth value of a condition; the calls from here to [simple_subsasgn]
     may run overloaded methods, code of the user, in the interpreter *)
  is_true : octave_value → host_call bool;
  (* the table of the typed operator dispatch, [m_ti] *)
  lookup_binary_op : binary_op → ov_type → ov_type → option binary_op_fcn;
  (* what the typed dispatch does when the table has no entry: type
     conversions, or an error *)
  binary_op_no_entry : binary_op → binary_op_fcn;
  (* index operations with the selector '(' *)
  simple_subsref :
    octave_value → list octave_value → Z → host_call (list octave_value);
  simple_subsasgn :
    octave_value → list octave_value → octave_value
    → host_call octave_value;
  (* ranges and loops *)
  maybe_as_trivial_range : octave_value → octave_value;
  vm_extract_forloop_value : octave_value → Z → octave_value;
  (* how a value of a class outside the tagged ones is called *)
  other_dispatch_call : Z → vm_call_dispatch_type;
  (* a part of the VM that is declared outside [pt-bytecode-vm.cc]: the
     macro that pushes the results of a host call, on [sp] and the stack
     memory *)
  EXPAND_CSLIST_PUSH_N_OVL_ELEMENTS_TO_STACK :
    list octave_value → Z → Z * list stack_element → Z * list stack_element
}.

(** ** The handlers *)

Section handlers.
Context {host : host_ops}.

(** *** Exceptions of host calls: the CATCH_ clauses *)

Variant catch_clause :=
  | CATCH_INTERRUPT_EXCEPTION
  | CATCH_INDEX_EXCEPTION
  | CATCH_INDEX_EXCEPTION_WITH_NAME (slot : Z)
  | CATCH_EXECUTION_EXCEPTION
  | CATCH_BAD_ALLOC
  | CATCH_EXIT_EXCEPTION.

(** Modelled from the spec: the CATCH_ macros are defined in
    [pt-bytecode-vm-internal.h]; per section 4.11 a caught exception is
    pushed as a heap-owned error object and its tag, or as the tag alone,
    and the handler jumps to [unwind]; per section 7 an index error of a
    named variable carries the name.  An index exception is an execution
    exception. *)
Definition catch_one (c : catch_clause) (e : host_exception) (s : vm)
  : option outcome :=
  match c, e with
  | CATCH_INTERRUPT_EXCEPTION, exc_interrupt =>
      Some (Unwind (push (se_err INTERRUPT_EXC) s))
  | CATCH_INDEX_EXCEPTION, exc_index ie =>
      Some (Unwind (push (se_err INDEX_ERROR) (push (se_pie ie) s)))
  | CATCH_INDEX_EXCEPTION_WITH_NAME slot, exc_index ie =>
      Some (let? name := name_at s slot in
            let ie := mk_index_exception (ie_message ie) name in
            Unwind (push (se_err INDEX_ERROR) (push (se_pie ie) s)))
  | CATCH_EXECUTION_EXCEPTION, exc_execution ee =>
      Some (Unwind (push (se_err EXECUTION_EXC) (push (se_pee ee) s)))
  | CATCH_EXECUTION_EXCEPTION, exc_index ie =>
      let ee := mk_execution_exception "error" "Octave:index-out-of-bounds"
                  (ie_message ie) in
      Some (Unwind (push (se_err EXECUTION_EXC) (push (se_pee ee) s)))
  | CATCH_BAD_ALLOC, exc_bad_alloc =>
      Some (Unwind (push (se_err BAD_ALLOC) s))
  | CATCH_EXIT_EXCEPTION, exc_exit =>
      Some (Unwind (push (se_err EXIT_EXCEPTION) s))
  | _, _ => None
  end.

(** The clauses after a [try] block, in their order. *)
Fixpoint catch (cs : list catch_clause) (e : host_exception) (s : vm)
  : outcome :=
  match cs with
  | [] => Throw e s
  | c :: cs' =>
      match catch_one c e s with
      | Some o => o
      | None => catch cs' e s
      end
  end.

(** The five clauses most [try] blocks of the handlers end with. *)
Definition catch_all : list catch_clause :=
  [CATCH_INTERRUPT_EXCEPTION; CATCH_INDEX_EXCEPTION;
   CATCH_EXECUTION_EXCEPTION; CATCH_BAD_ALLOC; CATCH_EXIT_EXCEPTION].
Definition catch_all_with_name (slot : Z) : list catch_clause :=
  [CATCH_INTERRUPT_EXCEPTION; CATCH_INDEX_EXCEPTION_WITH_NAME slot;
   CATCH_EXECUTION_EXCEPTION; CATCH_BAD_ALLOC; CATCH_EXIT_EXCEPTION].

(** [try { x = ...; } CATCH_...] followed by the rest of the handler, for
    a computation of the handler itself or of a value class, which does
    not run in the host. *)
Definition try_catch {A : Type} (cs : list catch_clause) (s : vm)
  (r : host_result A) (k : A → outcome) : outcome :=
  match r with
  | h_ok a => k a
  | h_throw e => catch cs e s
  end.

(** [try { x = call; } CATCH_...] for a call that runs in the host: the
    handler goes on, or the exception is caught, in the state the call has
    left the host in. *)
Definition try_call {A : Type} (cs : list catch_clause) (s : vm)
  (call : host_call A) (k : A → vm → outcome) : outcome :=
  let r := call (m_tw s) in
  let s := set_m_tw (snd r) s in
  match fst r with
  | h_ok a => k a s
  | h_throw e => catch cs e s
  end.

(** [ov.maybe_call_dtor ()]: the host decides whether a destructor of a
    class object runs; the call is recorded. *)
Definition maybe_call_dtor (v : octave_value) (s : vm) : vm :=
  set_m_tw (log (ev_maybe_call_dtor v) (m_tw s)) s.

(** [if (v.vm_need_storable_call ()) v.make_storable_value ();] *)
Definition storable (v : octave_value) : octave_value :=
  if vm_need_storable_call v then make_storable_value v else v.

(** Modelled from the spec: [vm_need_dispatch_assign_rhs] and
    [vm_need_dispatch_assign_lhs] are methods of the value classes; per
    section 4.4 and the comment in [assign] the right-hand side takes the
    slow path when it is undefined, a cs-list or of a lazy-copy type, and
    the left-hand side when the slot holds a reference wrapper or an object
    whose destructor may have to run. *)
Definition vm_need_dispatch_assign_rhs (v : octave_value) : bool :=
  is_undefined v || is_cs_list v || vm_need_storable_call v.
Definition vm_need_dispatch_assign_lhs (v : octave_value) : bool :=
  is_ref v || match v with val_other _ => true | _ => false end.

(** *** [assign_dispath]: the slow path of ASSIGN; no opcode of its own *)
Definition assign_dispath (s : vm) : outcome :=
  let slot := arg0 s in
  let? ov_rhs := TOP_OV s in
  (* if (ov_rhs.is_cs_list ()): ov_rhs = lst (0), or the error *)
  match (if is_cs_list ov_rhs
         then match list_value ov_rhs with
              | [] => None
              | v0 :: _ => Some (v0, poke (sp s - 1) (se_ov v0) s)
              end
         else Some (ov_rhs, s)) with
  | None => Unwind (push (se_err INVALID_N_EL_RHS_IN_ASSIGNMENT) s)
  | Some (ov_rhs, s) =>
      if is_undefined ov_rhs
      then Unwind (push (se_err RHS_UNDEF_IN_ASSIGNMENT) s)
      else
        let? ov_lhs := load_slot s slot in
        let s := maybe_call_dtor ov_lhs s in
        let ov_rhs := storable ov_rhs in
        let s := assign_slot slot ov_lhs ov_rhs s in
        Dispatch (STACK_DESTROY 1 s)
  end.

(** *** [assign]: ASSIGN slot *)
Definition assign (s : vm) : outcome :=
  let slot := arg0 s in
  let? ov_rhs := TOP_OV s in
  if vm_need_dispatch_assign_rhs ov_rhs then Goto L_assign_dispath s
  else
    let? ov_lhs := load_slot s slot in
    if vm_need_dispatch_assign_lhs ov_lhs then Goto L_assign_dispath s
    else
      let s := store_slot slot ov_rhs s in
      Dispatch (STACK_SHRINK 1 (poke (sp s - 1) se_dead s)).

(** *** Conditional jumps: JMP_IF, JMP_IFN and their boolean variants *)

(** The body of [jmp_if_bool] ([negate = false]) and [jmp_ifn_bool]
    ([negate = true]). *)
Definition jmp_bool (negate : bool) (generic : INSTR) (target_label : label)
  (s : vm) : outcome :=
  let? ov_1 := TOP_OV s in
  if decide (type_id ov_1 ≠ m_bool_typeid) then
    (* Change the specialized opcode to the generic one *)
    Goto target_label (code_write (ip s - 2) (opcode_of generic) s)
  else
    let b0 := arg0 s in
    let? b1 := code_at s (ip s) in
    let s := set_ip (ip s + 1) s in
    let target := USHORT_FROM_UCHARS b0 b1 in
    let is_true := match ov_1 with val_bool b => b | _ => false end in
    let s := STACK_SHRINK 1 (poke (sp s - 1) se_dead s) in
    Dispatch (if xorb negate is_true then set_ip (code s + target) s else s).

Definition jmp_if_bool : vm → outcome := jmp_bool false JMP_IF L_jmp_if.
Definition jmp_ifn_bool : vm → outcome := jmp_bool true JMP_IFN L_jmp_ifn.

(** The body of [jmp_if] ([negate = false]) and [jmp_ifn]. *)
Definition jmp_generic (negate : bool) (special : INSTR)
  (target_label : label) (s : vm) : outcome :=
  let? ov_1 := TOP_OV s in
  if decide (type_id ov_1 = m_bool_typeid) then
    (* Change the generic opcode to the specialized one *)
    Goto target_label (code_write (ip s - 2) (opcode_of special) s)
  else
    let b0 := arg0 s in
    let? b1 := code_at s (ip s) in
    let s := set_ip (ip s + 1) s in
    let target := USHORT_FROM_UCHARS b0 b1 in
    if is_defined ov_1 then
      try_call catch_all s (is_true ov_1) (fun is_true s =>
        let s := STACK_DESTROY 1 s in
        Dispatch (if xorb negate is_true then set_ip (code s + target) s
                  else s))
    else Unwind (push (se_err IF_UNDEFINED) s).

Definition jmp_if : vm → outcome := jmp_generic false JMP_IF_BOOL L_jmp_if_bool.
Definition jmp_ifn : vm → outcome :=
  jmp_generic true JMP_IFN_BOOL L_jmp_ifn_bool.

(** [jmp]: JMP target *)
Definition jmp (s : vm) : outcome :=
  let b0 := arg0 s in
  let? b1 := code_at s (ip s) in
  Dispatch (set_ip (code s + USHORT_FROM_UCHARS b0 b1) s).

(** *** [handle_signals]: HANDLE_SIGNALS *)

(** [try { octave_quit (); } CATCH_...] *)
Definition poll_signals (s : vm) (k : vm → outcome) : outcome :=
  let (h, e) := octave_quit (m_tw s) in
  let s := set_m_tw h s in
  match e with
  | Some e => catch catch_all e s
  | None => k s
  end.

Definition handle_signals (s : vm) : outcome :=
  poll_signals s Dispatch1.

(** *** Numeric for loops: FOR_SETUP and FOR_COND *)

(** [int n_rows = dv (0)]: the conversion of an [octave_idx_type] to a
    32-bit [int] keeps the low 32 bits. *)
Definition to_int (z : Z) : Z :=
  let r := z `mod` 2 ^ 32 in
  if decide (r < 2 ^ 31) then r else r - 2 ^ 32.

(** The class predicates of [for_setup].  Of the tagged values only
    [val_int64] has an integer class; none has class single. *)
Definition is_int64_type (v : octave_value) : bool :=
  match v with val_int64 _ => true | _ => false end.
Definition is_uint64_type (v : octave_value) : bool := false.
Definition is_int32_type (v : octave_value) : bool := false.
Definition is_uint32_type (v : octave_value) : bool := false.
Definition is_int16_type (v : octave_value) : bool := false.
Definition is_uint16_type (v : octave_value) : bool := false.
Definition is_int8_type (v : octave_value) : bool := false.
Definition is_uint8_type (v : octave_value) : bool := false.
Definition is_single_type (v : octave_value) : bool := false.

Definition isinf (d : double) : bool :=
  match d with S754_infinity _ => true | _ => false end.

(** The first part of [for_setup]: the iterable as it is left on the stack,
    and the iteration count; [None] is [TODO ("Unsupported for rhs type")]. *)
Definition for_setup_count (ov_range : octave_value)
  : option (octave_value * Z) :=
  let n := numel ov_range in
  let is_range := is_range ov_range in
  if is_range &&
     (is_double_type ov_range || is_int64_type ov_range ||
      is_uint64_type ov_range || is_int32_type ov_range ||
      is_uint32_type ov_range || is_int16_type ov_range ||
      is_uint16_type ov_range || is_int16_type ov_range ||
      is_int8_type ov_range || is_int8_type ov_range ||
      is_uint8_type ov_range || is_single_type ov_range)
  then Some (maybe_as_trivial_range ov_range, n)
  else if is_range || is_matrix_type ov_range || iscell ov_range ||
          is_string ov_range || isstruct ov_range
  then
    (* The iteration is column wise for these *)
    let dv := redim2 (dims ov_range) in
    let n_rows := to_int (fst dv) in
    Some (ov_range, if decide (n_rows ≠ 0) then snd dv else 0)
  else if is_scalar_type ov_range || is_undefined ov_range
  then Some (ov_range, n)
  else None.

(** The warning for a range with an infinite limit or base. *)
Definition for_setup_warn (is_range : bool) (ov_range : octave_value)
  (s : vm) : vm :=
  if negb (is_trivial_range ov_range) && is_range then
    match ov_range with
    | val_range base _ limit _ =>
        if isinf limit || isinf base
        then set_m_tw (log (ev_warning "Octave:infinite-loop") (m_tw s)) s
        else s
    | _ => s
    end
  else s.

(** The slot of the FOR_COND that follows a FOR_SETUP: the next opcode is
    in [arg0], and is either WIDE or FOR_COND. *)
Definition for_setup_slot (s : vm) : option Z :=
  if decide (arg0 s = opcode_of WIDE)
  then b0 ← code_at s (ip s + 1); b1 ← code_at s (ip s + 2);
       Some (b0 + Z.shiftl b1 8)
  else code_at s (ip s).

Definition for_setup (s : vm) : outcome :=
  let? ov_range0 := TOP_OV s in
  match for_setup_count ov_range0 with
  | None =>
      Throw (exc_execution (mk_execution_exception "error" ""
               "Not done yet: Unsupported for rhs type")) s
  | Some (ov_range, n) =>
      let s := poke (sp s - 1) (se_ov ov_range) s in
      let s := for_setup_warn (is_range ov_range0) ov_range s in
      (* Push n to the stack *)
      let s := push (se_i n) s in
      (* Push a counter to the stack, initialized so that it will
         increment to 0. *)
      let s := push (se_i (-1)) s in
      (* For empty rhs just assign it to lhs *)
      if bool_decide (n = 0) && is_defined ov_range then
        let? slot := for_setup_slot s in
        let? lhs_ov := load_slot s slot in
        try_catch [CATCH_EXECUTION_EXCEPTION] s (storable_value ov_range)
          (fun v => Dispatch1 (assign_slot slot lhs_ov v s))
      else Dispatch1 s
  end.

(** Modelled from the spec: [vm_extract_forloop_double] of a trivial range,
    the inline extractor of section 4.7: element [counter] is
    [base + counter * increment]. *)
Definition vm_extract_forloop_double (ov_range : octave_value) (counter : Z)
  : double :=
  match ov_range with
  | val_trivial_range base increment _ =>
      dbl_add base (dbl_mul (idx_to_dbl counter) increment)
  | _ => S754_nan
  end.

(** Modelled from the spec: [maybe_update_double] updates a scalar double
    held by the slot in place (section 4.7) and reports whether it did. *)
Definition maybe_update_double (ov_it : octave_value) (val : double)
  : option octave_value :=
  match ov_it with
  | val_scalar _ => Some (val_scalar val)
  | _ => None
  end.

Definition for_cond (s : vm) : outcome :=
  (* Check if we should exit the loop due to e.g. ctrl-c, or handle any
     other signals. *)
  poll_signals s (fun s =>
    (* Increase counter *)
    let? counter := load_i s (sp s - 1) in
    let counter := counter + 1 in
    let s := poke (sp s - 1) (se_i counter) s in
    (* n is second element on the stack *)
    let? n := load_i s (sp s - 2) in
    if decide (counter = n) then
      let? b0 := code_at s (ip s) in
      let? b1 := code_at s (ip s + 1) in
      let after := USHORT_FROM_UCHARS b0 b1 in
      Dispatch (set_ip (code s + after) s)
    else
      (* Write the iteration's value to the for loop variable *)
      let slot := arg0 s in
      let s := set_ip (ip s + 2) s in
      let? ov_range := THIRD_OV s in
      let? ov_it := load_slot s slot in
      if is_trivial_range ov_range then
        let val := vm_extract_forloop_double ov_range counter in
        match maybe_update_double ov_it val with
        | Some v => Dispatch (store_slot slot v s)
        | None => Dispatch (assign_slot slot ov_it (val_scalar val) s)
        end
      else
        Dispatch (assign_slot slot ov_it
                    (vm_extract_forloop_value ov_range counter) s)).

(** [pop_n_ints]: POP_N_INTS n *)
Definition pop_n_ints (s : vm) : outcome :=
  Dispatch (set_sp (sp s - arg0 s) s).

(** *** Struct for loops: FOR_COMPLEX_SETUP and FOR_COMPLEX_COND *)

(** [map_value ().keys ()] and [map_value ().contents (key)] *)
Definition map_keys (v : octave_value) : option (list string) :=
  match v with
  | val_struct _ fields => Some (fst <$> fields)
  | _ => None
  end.
Definition map_contents (v : octave_value) (key : string) : option Cell :=
  match v with
  | val_struct _ fields => snd <$> list_find (λ f, fst f = key) fields ≫= (λ p, Some (snd p))
  | _ => None
  end.

(** An [octave_value] made from a [std::string]: a row of characters. *)
Definition ov_of_string (str : string) : octave_value :=
  val_string [1; Z.of_nat (String.length str)] str.

Definition for_complex_setup (s : vm) : outcome :=
  let? ov_rhs := TOP_OV s in
  let b0 := arg0 s in
  let? b1 := code_at s (ip s) in
  let s := set_ip (ip s + 1) s in
  let target := USHORT_FROM_UCHARS b0 b1 in
  if is_undefined ov_rhs then
    (* Need two native ints on the stack so they can be popped by the
       POP_N_INTS after the for loop body. *)
    Dispatch (set_ip (code s + target) (push (se_i 2) (push (se_i 1) s)))
  else if negb (isstruct ov_rhs) then
    let s := push (se_i 2) (push (se_i 1) s) in
    let ee := mk_execution_exception "error" ""
                "in statement 'for [X, Y] = VAL', VAL must be a structure" in
    Unwind (push (se_err EXECUTION_EXC) (push (se_pee ee) s))
  else
    let? keys := map_keys ov_rhs in
    let n := Z.of_nat (length keys) in
    Dispatch (push (se_i (-1)) (push (se_i n) s)).

Definition for_complex_cond (s : vm) : outcome :=
  (* Increase counter *)
  let? counter := load_i s (sp s - 1) in
  let counter := counter + 1 in
  let s := poke (sp s - 1) (se_i counter) s in
  let? n := load_i s (sp s - 2) in
  if decide (counter = n) then
    let b0 := arg0 s in
    let? b1 := code_at s (ip s) in
    let after := USHORT_FROM_UCHARS b0 b1 in
    Dispatch (set_ip (code s + after) s)
  else
    let s := set_ip (ip s + 1) s in (* Skip 2nd part of afteraddress *)
    let? (slot_key, s) := POP_CODE_USHORT s in
    let? (slot_value, s) := POP_CODE_USHORT s in
    let? ov_rhs := THIRD_OV s in (* This is always a struct *)
    let? keys := map_keys ov_rhs in
    let? key := load keys counter in
    let? val_lst := map_contents ov_rhs key in
    let n := Z.of_nat (length (snd val_lst)) in
    let? val := (if decide (n = 1) then head (snd val_lst)
                 else Some (val_cell (fst val_lst) (snd val_lst))) in
    let? ov_val := load_slot s slot_value in
    let? ov_key := load_slot s slot_key in
    let s := if decide (counter = 0)
             then maybe_call_dtor ov_key (maybe_call_dtor ov_val s)
             else s in
    (* if (ov_val.is_ref ()) ov_val.ref_rep ()->set_value (val);
       else ov_val = val; *)
    let s := assign_slot slot_value ov_val val s in
    let? ov_val := load_slot s slot_value in
    let? ov_key := load_slot s slot_key in
    (* if (ov_val.is_ref ()) ov_key.ref_rep ()->set_value (key);
       else ov_key = key; *)
    if is_ref ov_val then
      match ov_key with
      | val_ref r =>
          Dispatch (set_m_tw (ref_set_value r (ov_of_string key) (m_tw s)) s)
      | _ => Fault (* ref_rep () of a value that is no reference wrapper *)
      end
    else Dispatch (store_slot slot_key (ov_of_string key) s).

(** *** Multi-target assignment: ASSIGNN *)

(** [name.size () >= 2 && name[0] == '%' && name[1] == '~'] *)
Definition name_is_black_hole (name : string) : bool :=
  match name with
  | String c0 (String c1 _) =>
      bool_decide (c0 = "%"%char) && bool_decide (c1 = "~"%char)
  | _ => false
  end.

(** Modelled from the spec: [matrix_value ()] of the value system. *)
Definition matrix_value (v : octave_value) : list double :=
  match v with
  | val_matrix _ elems => elems
  | val_scalar d => [d]
  | _ => []
  end.

(** Modelled from the spec: [Array<double>::lookup (value)] of the host, on
    data in ascending order: the number of leading elements that are not
    greater than [value]. *)
Fixpoint Array_lookup (a : list double) (value : double) : Z :=
  match a with
  | [] => 0
  | x :: a' => if dbl_ltb value x then 0 else 1 + Array_lookup a' value
  end.

(** [idx > 0 && ignored (idx - 1) == outputnum] *)
Definition ignored_lookup_hit (ignored : list double) (outputnum : Z) : bool :=
  let idx := Array_lookup ignored (idx_to_dbl outputnum) in
  bool_decide (idx > 0) &&
  match load ignored (idx - 1) with
  | Some x => dbl_eqb x (idx_to_dbl outputnum)
  | None => false
  end.

(** The frame's number of returns as [assign_n] reads it. *)
Definition abs_n_returns (n_returns : Z) : Z :=
  if decide (n_returns = -128) then 1
  else if decide (n_returns < 0) then - n_returns
  else n_returns.

(** Whether an undefined value may be assigned to [slot]: the block
    [bool is_ignored = false; ...] of [assign_n]. *)
Definition is_ignored (s : vm) (slot : Z) : option bool :=
  name ← name_at s slot;
  (* If the return value is ignored, undefined is OK *)
  let is_ignored := name_is_black_hole name in
  let tmp := auto_var_IGNORED (m_tw s) in
  if is_defined tmp then
    let ignored := matrix_value tmp in
    n_returns ← N_RETURNS s;
    let n_returns := abs_n_returns n_returns in
    if decide (slot < n_returns) then
      let outputnum := n_returns - 1 - slot in
      Some (ignored_lookup_hit ignored outputnum)
    else Some is_ignored
  else Some is_ignored.

(** A handler that goes on, or ends. *)
Variant progress (A : Type) :=
  | Continue (a : A)
  | Stop (o : outcome).
#[global] Arguments Continue {A} a.
#[global] Arguments Stop {A} o.

Definition undefined_in_return_list (n_actual : Z) : execution_exception :=
  mk_execution_exception "error" ""
    ("element number " +:+ pretty (n_actual + 1) +:+
     " undefined in return list").

(** The assignment of one value to the slot; the source has this block
    twice, for the elements of a cs-list and for a plain value.  The result
    is the new [n_actual]. *)
Definition assign_n_value (slot : Z) (v : octave_value) (n_actual : Z)
  (s : vm) : progress (Z * vm) :=
  match load_slot s slot with
  | None => Stop Fault
  | Some lhs_ov =>
      let s := maybe_call_dtor lhs_ov s in
      let v := storable v in
      match (if is_undefined v then is_ignored s slot else Some true) with
      | None => Stop Fault
      | Some false =>
          Stop (Unwind (push (se_err EXECUTION_EXC)
                          (push (se_pee (undefined_in_return_list n_actual)) s)))
      | Some true =>
          Continue (n_actual + 1, assign_slot slot lhs_ov v s)
      end
  end.

(** [for (int i = 0; i < args.length (); i++)] over an expanded cs-list. *)
Fixpoint assign_n_cs_list (slot : Z) (args : list octave_value)
  (n_actual : Z) (s : vm) : progress (Z * vm) :=
  match args with
  | [] => Continue (n_actual, s)
  | ov_1 :: args' =>
      match assign_n_value slot ov_1 n_actual s with
      | Continue (n_actual, s) => assign_n_cs_list slot args' n_actual s
      | Stop o => Stop o
      end
  end.

(** The body of the [do ... while (n_actual < n_slots)].  Every round takes
    one element off the stack, so the rounds are bounded by [sp]. *)
Fixpoint assign_n_loop (fuel : nat) (n_slots n_actual : Z) (s : vm)
  : outcome :=
  match fuel with
  | O => Fault
  | S fuel' =>
      let s := set_sp (sp s - 1) s in
      let? arg := load_ov s (sp s) in
      let? (slot, s) := POP_CODE_USHORT s in
      match (if is_cs_list arg
             then assign_n_cs_list slot (list_value arg) n_actual s
             else assign_n_value slot arg n_actual s) with
      | Stop o => o
      | Continue (n_actual, s0) =>
          let s := poke (sp s0) se_dead s0 in (* Destroy the operand *)
          if decide (n_actual < n_slots)
          then assign_n_loop fuel' n_slots n_actual s
          else Dispatch s
      end
  end.

Definition assign_n (s : vm) : outcome :=
  let n_slots := arg0 s in
  assign_n_loop (Z.to_nat (sp s) + 1) n_slots 0 s.

(** *** Indexed assignment: SUBASSIGN_ID and its matrix specializations *)

(** If WIDE is used, the opcode is one byte further back. *)
Definition wide_opcode_offset (slot : Z) : Z :=
  if decide (slot < 256) then 0 else -1.

Definition dbl_one : double := dbl_of_Z 1.

(** [NDArray::rows ()], [cols ()], [dims ().ndims ()] *)
Definition dv_rows (dv : dim_vector) : Z := default 1 (dv !! 0%nat).
Definition dv_cols (dv : dim_vector) : Z := default 1 (dv !! 1%nat).
Definition dv_ndims (dv : dim_vector) : Z := Z.of_nat (length dv).

Definition subassign_id_mat_2d (s : vm) : outcome :=
  let slot := arg0 s in
  let s := set_ip (ip s + 1) s in (* nargs always two *)
  (* The top of the stack is the rhs value *)
  let? rhs := TOP_OV s in
  let? arg2 := SEC_OV s in
  let? arg1 := THIRD_OV s in
  (* The ov to subassign to *)
  let? mat_ov := load_slot s slot in
  if bool_decide (type_id rhs ≠ m_scalar_typeid) ||
     bool_decide (type_id mat_ov ≠ m_matrix_typeid) ||
     bool_decide (type_id arg2 ≠ m_scalar_typeid) ||
     bool_decide (type_id arg1 ≠ type_id arg2)
  then
    (* Rewind ip to the 2nd byte of the opcode *)
    let s := set_ip (ip s - 1) s in
    (* Change the specialized opcode to the general one *)
    Goto L_subassign_id
      (code_write (ip s - 2 + wide_opcode_offset slot)
         (opcode_of SUBASSIGN_ID) s)
  else
    match rhs, arg1, arg2, mat_ov with
    | val_scalar val, val_scalar idx1_dbl, val_scalar idx2_dbl,
      val_matrix dv elems =>
        let idx2 := dbl_to_idx (dbl_sub idx2_dbl dbl_one) in
        let idx1 := dbl_to_idx (dbl_sub idx1_dbl dbl_one) in
        (* Handle out-of-bound or non-integer index in the generic opcode *)
        if bool_decide (idx1 >= dv_rows dv) || bool_decide (idx1 < 0) ||
           dbl_neb (idx_to_dbl idx1) (dbl_sub idx1_dbl dbl_one)
        then Goto L_subassign_id (set_ip (ip s - 1) s)
        else if bool_decide (idx2 >= dv_cols dv) || bool_decide (idx2 < 0) ||
                dbl_neb (idx_to_dbl idx2) (dbl_sub idx2_dbl dbl_one)
        then Goto L_subassign_id (set_ip (ip s - 1) s)
        else if bool_decide (dv_ndims dv ≠ 2)
        then Goto L_subassign_id (set_ip (ip s - 1) s)
        else
          (* arr.xelem (idx1, idx2) = val *)
          let elems := store (idx1 + dv_rows dv * idx2) val elems in
          Dispatch (STACK_DESTROY 3 (store_slot slot (val_matrix dv elems) s))
    | _, _, _, _ => Fault
    end.

Definition subassign_id_mat_1d (s : vm) : outcome :=
  let slot := arg0 s in
  let s := set_ip (ip s + 1) s in (* nargs always one *)
  (* The top of the stack is the rhs value *)
  let? rhs := TOP_OV s in
  let? arg := SEC_OV s in
  (* The ov to subassign to *)
  let? mat_ov := load_slot s slot in
  if bool_decide (type_id rhs ≠ m_scalar_typeid) ||
     bool_decide (type_id mat_ov ≠ m_matrix_typeid) ||
     bool_decide (type_id arg ≠ m_scalar_typeid)
  then
    (* Rewind ip to the 2nd byte of the opcode *)
    let s := set_ip (ip s - 1) s in
    (* Change the specialized opcode to the general one *)
    Goto L_subassign_id
      (code_write (ip s - 2 + wide_opcode_offset slot)
         (opcode_of SUBASSIGN_ID) s)
  else
    match rhs, arg, mat_ov with
    | val_scalar val, val_scalar idx_dbl, val_matrix dv elems =>
        let idx := dbl_to_idx (dbl_sub idx_dbl dbl_one) in
        (* Handle out-of-bound or non-integer index in the generic opcode *)
        if bool_decide (idx >= dv_numel dv) || bool_decide (idx < 0) ||
           dbl_neb (idx_to_dbl idx) (dbl_sub idx_dbl dbl_one)
        then Goto L_subassign_id (set_ip (ip s - 1) s)
        else
          (* arr.xelem (idx) = val *)
          let elems := store idx val elems in
          Dispatch (STACK_DESTROY 2 (store_slot slot (val_matrix dv elems) s))
    | _, _, _ => Fault
    end.

(** The values of [n] consecutive stack elements from [p] on. *)
Fixpoint load_ovs (s : vm) (p : Z) (n : nat) : option (list octave_value) :=
  match n with
  | O => Some []
  | S n' => v ← load_ov s p; vs ← load_ovs s (p + 1) n'; Some (v :: vs)
  end.

(** An argument list with the cs-lists among the arguments expanded. *)
Definition expand_cs_lists (args : list octave_value) : list octave_value :=
  concat ((λ arg, if is_cs_list arg then list_value arg else [arg]) <$> args).

Definition all_of_type (t : ov_type) (args : list octave_value) : bool :=
  forallb (λ arg, bool_decide (type_id arg = t)) args.

Definition subassign_id (s : vm) : outcome :=
  (* The args to the subassign are on the operand stack *)
  let slot := arg0 s in
  let? nargs := code_at s (ip s) in
  let s := set_ip (ip s + 1) s in
  (* The top of the stack is the rhs value *)
  let? rhs := TOP_OV s in
  (* First argument *)
  let parg := sp s - 1 - nargs in
  let? args_on_stack := load_ovs s parg (Z.to_nat nargs) in
  let all_args_are_scalar := all_of_type m_scalar_typeid args_on_stack in
  let args := expand_cs_lists args_on_stack in
  (* The ov to subassign to *)
  let? ov := load_slot s slot in
  let wide_opcode_offset := wide_opcode_offset slot in
  let opcode := if decide (nargs = 1) then opcode_of SUBASSIGN_ID_MAT_1D
                else opcode_of SUBASSIGN_ID_MAT_2D in
  let? respecialize :=
    (if (bool_decide (nargs = 1) || bool_decide (nargs = 2)) &&
        all_args_are_scalar &&
        bool_decide (type_id ov = m_matrix_typeid) &&
        bool_decide (type_id rhs = m_scalar_typeid)
     then
       (* If the opcode allready is SUBASSIGN_ID_MAT_1D we were sent back
          to SUBASSIGN_ID to handle some error or edgecase, so don't go
          back. *)
       cur ← code_at s (ip s - 3 + wide_opcode_offset);
       Some (bool_decide (cur ≠ opcode))
     else Some false) in
  if respecialize then
    (* Rewind ip to the 2nd byte of the opcode *)
    let s := set_ip (ip s - 1) s in
    (* Change the general opcode to the specialized one *)
    let s := code_write (ip s - 2 + wide_opcode_offset) opcode s in
    Goto (if decide (nargs = 1) then L_subassign_id_mat_1d
          else L_subassign_id_mat_2d) s
  else
    match (if is_cs_list rhs
           then match list_value rhs with
                | [] => None
                | v0 :: _ => Some (v0, poke (sp s - 1) (se_ov v0) s)
                end
           else Some (rhs, s)) with
    | None => Unwind (push (se_err INVALID_N_EL_RHS_IN_ASSIGNMENT) s)
    | Some (rhs, s) =>
        try_call (catch_all_with_name slot) s
          (simple_subsasgn ov args rhs)
          (fun ov s =>
             (* Destroy the args on the operand stack aswell as rhs *)
             Dispatch (STACK_DESTROY (Z.to_nat (nargs + 1))
                         (store_slot slot ov s)))
    end.

(** *** Indexing: INDEX_ID_NARGOUT1 and its matrix specializations *)

(** Modelled from the spec: [err_invalid_index] of the host throws an
    index exception; [checked_full_matrix_elem] reads an element of a full
    matrix and throws one when the index is out of bound (section 6.2). *)
Definition err_invalid_index : host_exception :=
  exc_index (mk_index_exception
    "subscripts must be either integers 1 to (2^63)-1 or logicals" "").
Definition out_of_bound : host_exception :=
  exc_index (mk_index_exception "out of bound; value out of bound" "").

Definition checked_full_matrix_elem (mat : octave_value) (i : Z)
  : host_result octave_value :=
  match mat with
  | val_matrix dv elems =>
      if bool_decide (0 ≤ i < dv_numel dv) then
        match load elems i with
        | Some d => h_ok (val_scalar d)
        | None => h_throw out_of_bound
        end
      else h_throw out_of_bound
  | _ => h_throw out_of_bound
  end.
Definition checked_full_matrix_elem2 (mat : octave_value) (i j : Z)
  : host_result octave_value :=
  match mat with
  | val_matrix dv elems =>
      if bool_decide (0 ≤ i < dv_rows dv) && bool_decide (0 ≤ j < dv_cols dv)
      then
        match load elems (i + dv_rows dv * j) with
        | Some d => h_ok (val_scalar d)
        | None => h_throw out_of_bound
        end
      else h_throw out_of_bound
  | _ => h_throw out_of_bound
  end.

(** The checks of one scalar index: a [double] that is a positive
    integer. *)
Definition checked_index (idx_double : double) : host_result Z :=
  let idx := dbl_to_idx idx_double in
  if dbl_neb (idx_to_dbl idx) idx_double then h_throw err_invalid_index
  else if bool_decide (idx <= 0) then h_throw err_invalid_index
  else h_ok idx.

Definition index_id1_mat_1d (s : vm) : outcome :=
  let slot := arg0 s in
  let s := set_ip (ip s + 1) s in (* n_args_on_stack ignored *)
  let? arg1 := TOP_OV s in
  let? mat := SEC_OV s in
  let is_scalar := bool_decide (type_id arg1 = m_scalar_typeid) in
  let is_mat := is_full_num_matrix mat in
  (* If the args have change types we need to use the generic index opcode *)
  if negb is_scalar || negb is_mat then
    let s := set_ip (ip s - 1) s in
    (* Change the specialized opcode to the generic one *)
    Goto L_index_id1
      (code_write (ip s - 2 + wide_opcode_offset slot)
         (opcode_of INDEX_ID_NARGOUT1) s)
  else
    match arg1 with
    | val_scalar idx_double =>
        try_catch (catch_all_with_name slot) s
          (match checked_index idx_double with
           | h_ok idx => checked_full_matrix_elem mat (idx - 1)
           | h_throw e => h_throw e
           end)
          (fun ans => Dispatch (PUSH_OV ans (STACK_DESTROY 2 s)))
    | _ => Fault
    end.

Definition index_id1_mat_2d (s : vm) : outcome :=
  let slot := arg0 s in
  let s := set_ip (ip s + 1) s in (* n_args_on_stack ignored *)
  let? arg2 := TOP_OV s in (* Collumn index *)
  let? arg1 := SEC_OV s in (* Row index *)
  let? mat := THIRD_OV s in
  let is_scalar := bool_decide (type_id arg2 = m_scalar_typeid) &&
                   bool_decide (type_id arg1 = m_scalar_typeid) in
  let is_mat := is_full_num_matrix mat in
  if negb is_scalar || negb is_mat then
    let s := set_ip (ip s - 1) s in
    Goto L_index_id1
      (code_write (ip s - 2 + wide_opcode_offset slot)
         (opcode_of INDEX_ID_NARGOUT1) s)
  else
    match arg1, arg2 with
    | val_scalar idx1_double, val_scalar idx2_double =>
        try_catch (catch_all_with_name slot) s
          (match checked_index idx1_double with
           | h_ok idx1 =>
               match checked_index idx2_double with
               | h_ok idx2 => checked_full_matrix_elem2 mat (idx1 - 1) (idx2 - 1)
               | h_throw e => h_throw e
               end
           | h_throw e => h_throw e
           end)
          (fun ans => Dispatch (PUSH_OV ans (STACK_DESTROY 3 s)))
    | _, _ => Fault
    end.

(** Modelled from the spec: [vm_dispatch_call ()] of the value classes,
    the classification of section 4.5: a nil value needs a function
    lookup, arrays, cells and structs are read with subsref. *)
Definition vm_dispatch_call (v : octave_value) : vm_call_dispatch_type :=
  match v with
  | val_undef => OCT_FN_LOOKUP
  | val_other tid => other_dispatch_call tid
  | _ => OCT_SUBSREF
  end.

(** [CHECK (cond)]: a failed check is a host error. *)
Definition CHECK_failed : host_exception :=
  exc_execution (mk_execution_exception "error" ""
    "VM error: Internal VM conistency check failed").

(** The common part of the [name (args)] handlers, after an entry has set
    [nargout] and [specialization_ok].  The branch of subsref and the one
    of nested handles are as the source has them.  For the other classes
    the source installs a function cache in the slot, looks the function
    up, which can unwind with an undefined identifier, and calls it; none
    of this is part of the development, which stops with [Call] at the
    state in which the branch is entered. *)
Definition index_id_common (nargout : Z) (specialization_ok : bool)
  (s : vm) : outcome :=
  let slot := arg0 s in
  let? n_args_on_stack := code_at s (ip s) in
  let s := set_ip (ip s + 1) s in
  (* The object to index is before the args on the stack *)
  let? ov := load_ov s (sp s - 1 - n_args_on_stack) in
  match vm_dispatch_call ov with
  | OCT_SUBSREF =>
      (* The operands are on the top of the stack *)
      let? args := load_ovs s (sp s - n_args_on_stack)
                     (Z.to_nat n_args_on_stack) in
      let all_args_double := all_of_type m_scalar_typeid args in
      let ovl := expand_cs_lists args in
      let w := wide_opcode_offset slot in
      (* If the ov is a "full matrix" and the arguments are all scalar, we
         modify this opcode to a specialized opcode for matrix scalar
         indexing. *)
      if bool_decide (nargout = 1) && all_args_double &&
         is_full_num_matrix ov && specialization_ok &&
         (bool_decide (n_args_on_stack = 1) ||
          bool_decide (n_args_on_stack = 2))
      then
        let s := set_ip (ip s - 1) s in
        let? cur := code_at s (ip s - 2 + w) in
        if decide (cur = opcode_of INDEX_ID_NARGOUT1) then
          if decide (n_args_on_stack = 1) then
            Goto L_index_id1_mat_1d
              (code_write (ip s - 2 + w) (opcode_of INDEX_ID1_MAT_1D) s)
          else
            Goto L_index_id1_mat_2d
              (code_write (ip s - 2 + w) (opcode_of INDEX_ID1_MAT_2D) s)
        else Throw CHECK_failed s
      else
        let s := set_m_tw (log (ev_set_active_bytecode_ip (ip s - code s))
                             (m_tw s)) s in
        try_call (catch_all_with_name slot) s
          (simple_subsref ov ovl nargout)
          (fun retval s =>
             let s := poke (sp s - 1 - n_args_on_stack) (se_ov val_undef) s in
             let s := STACK_DESTROY (Z.to_nat (n_args_on_stack + 1)) s in
             let r := EXPAND_CSLIST_PUSH_N_OVL_ELEMENTS_TO_STACK retval
                        nargout (sp s, stack_mem s) in
             Dispatch (set_sp (fst r) (set_stack_mem (snd r) s)))
  | OCT_FN_LOOKUP | OCT_CALL | OCT_HANDLE | OCT_OBJECT =>
      (* the lookup and the call of the function: outside the
         development *)
      Call s
  | OCT_NESTED_HANDLE =>
      let s := push (se_i n_args_on_stack) s in
      let s := push (se_i nargout) s in
      let s := push (se_i nargout) s in (* "caller_nvalback" *)
      let s := push (se_i slot) s in
      Goto L_make_nested_handle_call s
  end.

Definition index_idnx (s : vm) : outcome :=
  let? nargout := load_i s (bsp s) in
  index_id_common nargout false s.
Definition index_idn (s : vm) : outcome :=
  let? nargout := code_at s (ip s) in
  index_id_common nargout false (set_ip (ip s + 1) s).
Definition index_id1 (s : vm) : outcome := index_id_common 1 true s.
Definition index_id_nargout0 (s : vm) : outcome := index_id_common 0 false s.

(** [push_slot_indexed]: PUSH_SLOT_INDEXED slot *)
Definition push_slot_indexed (s : vm) : outcome :=
  let slot := arg0 s in
  let? ov := load_slot s slot in
  match ov with
  | val_ref r => Dispatch (PUSH_OV (ref_deref r (m_tw s)) s)
  | _ => Dispatch (PUSH_OV ov s)
  end.

(** *** Return from a bytecode call: RET

    The profiler, the output-ignore side structure and the cache of frame
    pointers, which [ret] also attends to, live outside the state modelled
    here; the calls into the tree evaluator are recorded. *)

(** The destructors of [n] values from [p] on, bottom up. *)
Fixpoint destroy_range (p : Z) (n : nat) (s : vm) : vm :=
  match n with
  | O => s
  | S n' => destroy_range (p + 1) n' (poke p se_dead s)
  end.

(** [PUSH_OV ()], [n] times. *)
Fixpoint push_nils (n : nat) (s : vm) : vm :=
  match n with
  | O => s
  | S n' => push_nils n' (PUSH_OV val_undef s)
  end.

(** The values [first[k - 1], ..., first[0]] are moved to the top of the
    stack in this order, such that [a b c] on the callee stack becomes
    [c b a] on the caller stack. *)
Fixpoint move_returns (first : Z) (k : nat) (s : vm) : option vm :=
  match k with
  | O => Some s
  | S k' =>
      v ← load_ov s (first + Z.of_nat k');
      move_returns first k'
        (PUSH_OV v (poke (first + Z.of_nat k') (se_ov val_undef) s))
  end.

(** Placement new of the values [vs] from [p] on. *)
Fixpoint place_values (p : Z) (vs : list octave_value) (s : vm) : vm :=
  match vs with
  | [] => s
  | v :: vs' => place_values (p + 1) vs' (poke p (se_ov v) s)
  end.

(** A return value is read through the reference wrapper that holds it. *)
Definition deref (h : interp) (v : octave_value) : octave_value :=
  match v with
  | val_ref r => ref_deref r h
  | _ => v
  end.

Definition cell_value (v : octave_value) : option (list octave_value) :=
  match v with
  | val_cell _ elems => Some elems
  | _ => None
  end.

(** The return to the host from the root frame: the values are collected
    in a list; [%nargout], the first slot, is skipped. *)
Definition ret_root (is_varargout : bool) (n_returns_callee : Z) (s : vm)
  : outcome :=
  let? root_nargout := load_i s (bsp s) in
  (* nargout 0 should still give one return value, if there is one *)
  let n_root_wanted := Z.max root_nargout 1 in
  if is_varargout then
    if decide (n_returns_callee < 2) then Throw CHECK_failed s else
    let? ov_vararg := load_ov s (sp s - 1) in
    let n_fixed := Z.min (n_returns_callee - 2) n_root_wanted in
    let? fixed := load_ovs s (bsp s + 1) (Z.to_nat n_fixed) in
    let j := 1 + Z.max n_fixed 0 in
    let? extra :=
      (if is_defined ov_vararg && bool_decide (j < n_root_wanted + 1)
       then elems ← cell_value ov_vararg;
            Some (take (Z.to_nat (n_root_wanted + 1 - j)) elems)
       else Some []) in
    let s := destroy_range (bsp s + 1) (Z.to_nat (n_returns_callee - 1)) s in
    Return ((deref (m_tw s) <$> fixed) ++ extra) s
  else
    let n_fixed := Z.min (n_returns_callee - 1) n_root_wanted in
    let? fixed := load_ovs s (bsp s + 1) (Z.to_nat n_fixed) in
    let s := destroy_range (bsp s + 1) (Z.to_nat (n_returns_callee - 1)) s in
    Return (deref (m_tw s) <$> fixed) s.

(** The expansion of a trailing varargout cell at the end of the callee
    stack; the result is the state and the new [n_args_callee_has]. *)
Definition ret_expand_varargout (caller_stack_end : Z)
  (n_args_caller_expects n_args_callee_has : Z) (s : vm)
  : progress (Z * vm) :=
  match load_ov s (caller_stack_end + n_args_callee_has) with
  | None => Stop Fault
  | Some ov_vararg =>
      let s := poke (caller_stack_end + n_args_callee_has) (se_ov val_undef) s in
      let n_args_callee_has := n_args_callee_has - 1 in (* Assume empty varargout *)
      if is_defined ov_vararg then
        match cell_value ov_vararg with
        | None => Stop Fault
        | Some cell_vararg =>
            let n := Z.of_nat (length cell_vararg) in
            (* Atleast one (for 'ans') and deduct the amount of args
               already on the stack *)
            let n_to_push := Z.max 1 n_args_caller_expects - n_args_callee_has in
            (* Can't be negative *)
            let n_to_push := if decide (n_to_push < 0) then 0 else n_to_push in
            (* Can't push more than amount of elements in cell *)
            let n_to_push := Z.min n n_to_push in
            (* CHECK_STACK_N (n_to_push) *)
            if decide (sp s + n_to_push ≤ Z.of_nat (length (stack_mem s))) then
              let s := place_values (caller_stack_end + n_args_callee_has + 1)
                         (take (Z.to_nat n_to_push) cell_vararg) s in
              Continue (n_args_callee_has + n_to_push, s)
            else Stop (Throw CHECK_failed s)
        end
      else if decide (n_args_caller_expects ≠ 0) then
        (* Push an empty varargout *)
        let s := poke (caller_stack_end + n_args_callee_has + 1)
                   (se_ov val_undef) s in
        Continue (n_args_callee_has + 1, s)
      else Continue (n_args_callee_has, s)
  end.

(** The move of the return values to the caller; [sp] is the caller's. *)
(** The first loop of [copy_many_args_to_caller]: the args
    [caller_stack_end[0]], ..., [caller_stack_end[n - 1]] are moved to an
    ovl, in this order. *)
Fixpoint move_args_to_ovl (caller_stack_end : Z) (n : nat)
  (m : list stack_element) : option (list octave_value * list stack_element) :=
  match n with
  | O => Some ([], m)
  | S n' =>
      r ← move_args_to_ovl caller_stack_end n' m;
      arg ← load (snd r) (caller_stack_end + Z.of_nat n') ≫= as_ov;
      Some (fst r ++ [arg],
            store (caller_stack_end + Z.of_nat n') (se_ov val_undef) (snd r))
  end.

(** [PUSH_OV] of each value of a list on the [sp] of
    [copy_many_args_to_caller], which is its own: the function is given the
    stack pointer by value. *)
Fixpoint push_ovs (vs : list octave_value) (sp : Z) (m : list stack_element)
  : Z * list stack_element :=
  match vs with
  | [] => (sp, m)
  | v :: vs' => push_ovs vs' (sp + 1) (store sp (se_ov v) m)
  end.

(** If there are too many return values we can't just move them since the
    stacks will overlap so we need to copy the args first with this proc.
    The result is the stack memory; the stack pointer of the caller is
    advanced by [ret]. *)
Definition copy_many_args_to_caller (sp caller_stack_end : Z)
  (n_args_to_move n_args_caller_expects : Z) (m : list stack_element)
  : option (list stack_element) :=
  (* Move args to an ovl *)
  r ← move_args_to_ovl caller_stack_end (Z.to_nat n_args_to_move) m;
  (* backwards *)
  let r := push_ovs (reverse (fst r)) sp (snd r) in
  (* Push missing args *)
  let r := push_ovs
             (replicate (Z.to_nat (n_args_caller_expects - n_args_to_move))
                val_undef) (fst r) (snd r) in
  Some (snd r).

Definition ret_move (caller_stack_end : Z)
  (n_args_caller_expects n_args_callee_has : Z) (s : vm) : option vm :=
  let n_args_to_move := Z.min n_args_caller_expects n_args_callee_has in
  (* If no return values is requested but there exists return values, we
     need to push one to be able to write it to ans. *)
  if bool_decide (n_args_caller_expects = 0) &&
     bool_decide (n_args_callee_has ≠ 0) then
    v ← load_ov s (caller_stack_end + 1);
    Some (PUSH_OV v (poke (caller_stack_end + 1) (se_ov val_undef) s))
  (* If the callee aint returning anything, we need to push a nil object,
     since the caller always anticipates atleast one object, even for
     nargout == 0. *)
  else if bool_decide (n_args_caller_expects = 0) &&
          bool_decide (n_args_callee_has = 0) then
    Some (PUSH_OV val_undef s)
  (* If the stacks will overlap due to many returns, do copy via
     container *)
  else if bool_decide (sp s + n_args_caller_expects >= caller_stack_end) then
    (* This pushes 'n_args_to_move' number of return values and
       'n_args_caller_expects - n_args_to_move' number of nils. *)
    m ← copy_many_args_to_caller (sp s) (caller_stack_end + 1)
          n_args_to_move n_args_caller_expects (stack_mem s);
    Some (set_sp (sp s + n_args_caller_expects) (set_stack_mem m s))
  (* Move 'n_args_to_move' return value from callee to caller *)
  else
    (* If the caller wants '[a, b, ~]' and the callee has 'd e' we need to
       push 'nil' 'd' 'e' *)
    let s := push_nils (Z.to_nat (n_args_caller_expects - n_args_to_move)) s in
    move_returns (caller_stack_end + 1) (Z.to_nat n_args_to_move) s.

(** The frame of the caller is restored from the bookkeeping words under
    [caller_stack_end], and the object that was called is destroyed; the
    result is [caller_nval_back] and the state. *)
Definition ret_restore_caller (caller_stack_end : Z) (s : vm)
  : option (Z * vm) :=
  (* The amount of return values the caller wants, as stored last on the
     caller stack. *)
  caller_nval_back ← load_i s (caller_stack_end - 1);
  ip' ← load (stack_mem s) (caller_stack_end - 2) ≫= as_puc;
  bsp' ← load (stack_mem s) (caller_stack_end - 3) ≫= as_pse;
  name_data' ← load (stack_mem s) (caller_stack_end - 4) ≫= as_ps;
  data' ← load (stack_mem s) (caller_stack_end - 5) ≫= as_pov;
  code' ← load (stack_mem s) (caller_stack_end - 6) ≫= as_puc;
  unwind_data' ← load (stack_mem s) (caller_stack_end - 7) ≫= as_pud;
  (* Restore the stack pointer. The stored address is the first arg on
     the caller stack, or where it would have been if there are no
     args. *)
  sp' ← load (stack_mem s) (caller_stack_end - 8) ≫= as_pse;
  let s := set_ip ip' (set_bsp bsp' (set_name_data name_data'
             (set_data data' (set_code code'
               (set_unwind_data unwind_data' (set_sp sp' s)))))) in
  (* We now have the object that was called on the stack, destroy it *)
  Some (caller_nval_back, STACK_DESTROY 1 s).

(** The return from a bytecode routine to another bytecode routine. *)
Definition ret_to_caller (is_varargout : bool) (n_returns_callee : Z)
  (s : vm) : outcome :=
  (* The sp now points one past the last return value *)
  let caller_stack_end := sp s - n_returns_callee in
  let? (caller_nval_back, s) := ret_restore_caller caller_stack_end s in
  (* Move the callee's return values to the top of the stack of the
     caller. *)
  let n_args_caller_expects := caller_nval_back in
  let n_args_callee_has := n_returns_callee - 1 in (* Exclude %nargout *)
  match (if is_varargout
         then ret_expand_varargout caller_stack_end n_args_caller_expects
                n_args_callee_has s
         else Continue (n_args_callee_has, s)) with
  | Stop o => o
  | Continue (n_args_callee_has, s) =>
      let? s := ret_move caller_stack_end n_args_caller_expects
                  n_args_callee_has s in
      (* Destroy the unused return values on the callee stack *)
      let s := destroy_range (caller_stack_end + 1)
                 (Z.to_nat n_args_callee_has) s in
      (* Pop the current dynamic stack frame *)
      let s := set_m_tw (log ev_pop_return_stack_frame (m_tw s)) s in
      (* Continue execution back in the caller *)
      Dispatch s
  end.

Definition ret (s : vm) : outcome :=
  (* We need to tell the bytecode frame we are unwinding *)
  let s := set_m_tw (log ev_vm_unwinds (m_tw s)) s in
  (* Assert that the stack pointer is back where it should be *)
  let? n_locals_callee := N_LOCALS s in
  if decide (bsp s + n_locals_callee ≠ sp s) then Fault else
  let? n_returns_callee := N_RETURNS s in
  let is_varargout := bool_decide (n_returns_callee < 0) in
  let n_returns_callee :=
    if is_varargout then - n_returns_callee else n_returns_callee in
  if decide (n_returns_callee ≤ 0) then Fault else
  (* Destroy locals *)
  let n_dtor := n_locals_callee - n_returns_callee in
  if decide (n_dtor < 0) then Fault else
  let s := destroy_range (sp s - n_dtor) (Z.to_nat n_dtor) s in
  let s := set_sp (sp s - n_dtor) s in
  (* Check that varargout is a cell or undefined *)
  let? vararg_ok :=
    (if is_varargout
     then ov_vararg ← load_ov s (sp s - 1);
          Some (negb (is_defined ov_vararg && negb (iscell ov_vararg)))
     else Some true) in
  if negb vararg_ok then
    let ee := mk_execution_exception "error" ""
                "varargout must be a cell array object" in
    Unwind (push (se_err EXECUTION_EXC) (push (se_pee ee) s))
  else
  (* Are we at the root routine? *)
  if decide (bsp s = rsp s) then ret_root is_varargout n_returns_callee s
  else
    (* If the root stack pointer is not the same as the base pointer, we
       are returning from a bytecode routine to another bytecode
       routine. *)
    ret_to_caller is_varargout n_returns_callee s.

(** *** Cell construction: PUSH_CELL and APPEND_CELL *)

(** Modelled from the spec: the [Cell] class of the host, a column-major
    array of values; new elements are empty matrices. *)
Definition cell_fill : octave_value := val_matrix [0; 0] [].

Definition new_Cell (n_rows n_cols : Z) : octave_value :=
  val_cell [n_rows; n_cols] (replicate (Z.to_nat (n_rows * n_cols)) cell_fill).

Definition cell_elem (dv : dim_vector) (elems : list octave_value) (i j : Z)
  : option octave_value :=
  if bool_decide (0 ≤ i < dv_rows dv) && bool_decide (0 ≤ j < dv_cols dv)
  then load elems (i + dv_rows dv * j)
  else None.

(** [cell.resize (dim_vector (r, c))]: an element keeps its row and column;
    the others are filled. *)
Definition cell_resize (r c : Z) (cell : octave_value) : octave_value :=
  match cell with
  | val_cell dv elems =>
      val_cell [r; c]
        ((λ k, default cell_fill (cell_elem dv elems (k `mod` r) (k `div` r)))
           <$> seqZ 0 (r * c))
  | _ => cell
  end.

(** [cell (i, j) = v]; the access is not checked. *)
Definition cell_assign (i j : Z) (v : octave_value) (cell : octave_value)
  : option octave_value :=
  match cell with
  | val_cell dv elems =>
      if bool_decide (0 ≤ i < dv_rows dv) && bool_decide (0 ≤ j < dv_cols dv)
      then Some (val_cell dv (store (i + dv_rows dv * j) v elems))
      else None
  | _ => None
  end.

(** [for (i = 0; i < n; i++) cell (i_row_idx, i_col_idx + i) = ovl (i);] *)
Fixpoint cell_assign_row (i_row_idx i_col_idx : Z) (ovl : list octave_value)
  (cell : octave_value) : option octave_value :=
  match ovl with
  | [] => Some cell
  | v :: ovl' =>
      cell ← cell_assign i_row_idx i_col_idx v cell;
      cell_assign_row i_row_idx (i_col_idx + 1) ovl' cell
  end.

Definition cell_dims (cell : octave_value) : option (Z * Z) :=
  match cell with
  | val_cell dv _ => Some (dv_rows dv, dv_cols dv)
  | _ => None
  end.

Definition as_int64 (v : octave_value) : option Z :=
  match v with val_int64 i => Some i | _ => None end.

(** The cell and the two counters that [PUSH_CELL] and [PUSH_CELL_BIG]
    push. *)
Definition push_cell_common (n_rows n_cols : Z) (s : vm) : outcome :=
  (* The size is a guess. In the end, the size might differ. *)
  let s := PUSH_OV (new_Cell n_rows n_cols) s in
  let s := PUSH_OV (val_int64 0) s in
  let s := PUSH_OV (val_int64 0) s in
  Dispatch s.

Definition push_cell (s : vm) : outcome :=
  let n_rows := arg0 s in
  let? n_cols := code_at s (ip s) in
  push_cell_common n_rows n_cols (set_ip (ip s + 1) s).

(** [POP_CODE_INT ()]: four bytes, little endian, as an [int]. *)
Definition POP_CODE_INT (s : vm) : option (Z * vm) :=
  b0 ← code_at s (ip s); b1 ← code_at s (ip s + 1);
  b2 ← code_at s (ip s + 2); b3 ← code_at s (ip s + 3);
  Some (to_int (Z.lor (Z.lor b0 (Z.shiftl b1 8))
                  (Z.lor (Z.shiftl b2 16) (Z.shiftl b3 24))),
        set_ip (ip s + 4) s).

Definition push_cell_big (s : vm) : outcome :=
  let s := set_ip (ip s - 1) s in
  let? (n_rows, s) := POP_CODE_INT s in
  let? (n_cols, s) := POP_CODE_INT s in
  push_cell_common n_rows n_cols s.

(** The first part of [append_cell]: the element is put into the cell.
    The result is the cell, its number of columns, and the column index
    after the insert. *)
Definition append_cell_insert (ov cell : octave_value)
  (n_rows n_cols i_row_idx i_col_idx : Z)
  : option (octave_value * Z * Z) :=
  if is_cs_list ov then
    let ovl := list_value ov in
    let n := Z.of_nat (length ovl) in
    (* If we are operating on the first row, increase its size if we are
       about to overflow. *)
    let '(cell, n_cols) :=
      if bool_decide (i_row_idx = 0) && bool_decide (i_col_idx + n > n_cols)
      then (cell_resize n_rows (i_col_idx + n) cell, i_col_idx + n)
      else (cell, n_cols) in
    (* If there is room in the row, insert the elements into it. *)
    cell ← (if bool_decide (i_col_idx + n <= n_cols)
            then cell_assign_row i_row_idx i_col_idx ovl cell
            else Some cell);
    Some (cell, n_cols, i_col_idx + n)
  else if is_defined ov then
    let '(cell, n_cols) :=
      if bool_decide (i_row_idx = 0) && bool_decide (i_col_idx >= n_cols)
      then (cell_resize 1 (i_col_idx + 1) cell, n_cols + 1)
      else (cell, n_cols) in
    cell ← (if bool_decide (i_col_idx < n_cols)
            then cell_assign i_row_idx i_col_idx ov cell
            else Some cell);
    Some (cell, n_cols, i_col_idx + 1)
  else
    (* If the arg is undefined, nothing is added to the row in the cell. *)
    Some (cell, n_cols, i_col_idx).

Definition columns_must_match (s : vm) : outcome :=
  let ee := mk_execution_exception "error" ""
              "number of columns must match" in
  Unwind (push (se_err EXECUTION_EXC) (push (se_pee ee) s)).

Definition append_cell (s : vm) : outcome :=
  (* The stack looks like this:
     top: Element to add
      -1: Row counter
      -2: Column counter
      -3: The cell to add elements to *)
  let last := arg0 s in
  (* The element we need to insert into the cell *)
  let? ov := TOP_OV s in
  let s := STACK_SHRINK 1 (poke (sp s - 1) (se_ov val_undef) s) in
  (* The cell we are adding the element to *)
  let? cell := THIRD_OV s in
  let? (n_rows, n_cols) := cell_dims cell in
  (* The column counter and the row counter *)
  let? i_col := SEC_OV s ≫= as_int64 in
  let? i_row := TOP_OV s ≫= as_int64 in
  let? ins := append_cell_insert ov cell n_rows n_cols i_row i_col in
  let cell := fst (fst ins) in
  let n_cols := snd (fst ins) in
  let i_col_idx := snd ins in
  let i_row_idx := i_row in
  let s := poke (sp s - 3) (se_ov cell) s in
  let s := poke (sp s - 2) (se_ov (val_int64 i_col_idx)) s in
  if decide (last = 1) then
    (* Last element in a middle row in a cell with multiple rows.  The
       amount of columns in a row has to match the first row's. *)
    if bool_decide (i_col_idx ≠ 0) && bool_decide (i_col_idx ≠ n_cols)
    then columns_must_match s
    else
      (* Prepare for APPEND_CELL to operate on the next row. *)
      let i_row := i_row + (if decide (i_col_idx ≠ 0) then 1 else 0) in
      let s := poke (sp s - 1) (se_ov (val_int64 i_row)) s in
      Dispatch (poke (sp s - 2) (se_ov (val_int64 0)) s)
  else if decide (last = 2) then
    (* Last element in the last row in a cell with multiple rows. *)
    if bool_decide (i_col_idx ≠ 0) && bool_decide (i_col_idx ≠ n_cols)
    then columns_must_match s
    else
      let i_row_idx :=
        if decide (i_col_idx ≠ 0) then i_row_idx + 1
        else if decide (n_cols = 0) then i_row_idx + 1
        else i_row_idx in
      (* there might be trailing empty rows that we need to remove *)
      let cell := if decide (i_row_idx ≠ n_rows)
                  then cell_resize i_row_idx n_cols cell else cell in
      let s := poke (sp s - 3) (se_ov cell) s in
      (* Destroy the col and row counters *)
      Dispatch (STACK_DESTROY 2 s)
  else if decide (last = 3) then
    (* Last element in row in a cell with one row.  If a smaller number of
       columns were inserted than there are arguments we need to shrink
       the cell; if the row is empty, the resulting cell should be 0x0. *)
    let cell := if decide (i_col_idx < n_cols)
                then cell_resize (if decide (i_col_idx ≠ 0) then 1 else 0)
                       i_col_idx cell
                else cell in
    let s := poke (sp s - 3) (se_ov cell) s in
    Dispatch (STACK_DESTROY 2 s)
  else if decide (last = 4) then
    (* Last element in the first row, more than one row total *)
    let cell := if decide (i_col_idx < n_cols)
                then cell_resize n_rows i_col_idx cell else cell in
    let s := poke (sp s - 3) (se_ov cell) s in
    (* Prepare for APPEND_CELL to operate on the next row *)
    let s := poke (sp s - 2) (se_ov (val_int64 0)) s in
    Dispatch (poke (sp s - 1) (se_ov (val_int64 (i_row + 1))) s)
  else Dispatch s.

(** *** Binary operators *)

(** Modelled from the spec: [binary_op (ti, op, lhs, rhs)], the typed
    operator dispatch of the host (sections 4.3 and 6.2): the function
    that the table of the type information holds for the operator and the
    two type-ids is applied. *)
Definition typed_binary_op (op : binary_op) (lhs rhs : octave_value)
  : host_call octave_value :=
  match lookup_binary_op op (type_id lhs) (type_id rhs) with
  | Some f => f lhs rhs
  | None => binary_op_no_entry op lhs rhs
  end.

(** The function pointers [m_fn_dbl_mul], ... that the constructor of the
    VM looks up:
    [m_fn_dbl_mul = m_ti->lookup_binary_op (op_mul, m_scalar_typeid,
    m_scalar_typeid)]. *)
Definition m_fn_dbl (op : binary_op) : option binary_op_fcn :=
  lookup_binary_op op m_scalar_typeid m_scalar_typeid.

(** Modelled from the spec: the macro [MAKE_BINOP] of
    [pt-bytecode-vm-internal.h]; per section 4.3 the generic binary handler
    pops two values, applies the typed operator dispatch of the host, and
    pushes the result. *)
Definition MAKE_BINOP (op : binary_op) (s : vm) : outcome :=
  let? rhs := TOP_OV s in
  let? lhs := SEC_OV s in
  try_call catch_all s (typed_binary_op op lhs rhs)
    (fun ans s => Dispatch1 (PUSH_OV ans (STACK_DESTROY 2 s))).

(** Modelled from the spec: the macro [MAKE_BINOP_SELFMODIFYING]; per
    section 4.3 the generic handler inspects the two operand type-ids, and
    if both are the cached scalar-double type-id it overwrites its own
    opcode byte with the specialized variant, which then runs. *)
Definition MAKE_BINOP_SELFMODIFYING (op : binary_op) (jmp_target : label)
  (op_target : INSTR) (s : vm) : outcome :=
  let? rhs := TOP_OV s in
  let? lhs := SEC_OV s in
  if bool_decide (type_id rhs = type_id lhs) &&
     bool_decide (type_id rhs = m_scalar_typeid)
  then Goto jmp_target (code_write (ip s - 2) (opcode_of op_target) s)
  else
    try_call catch_all s (typed_binary_op op lhs rhs)
      (fun ans s => Dispatch1 (PUSH_OV ans (STACK_DESTROY 2 s))).

(** Modelled from the spec: the macro [MAKE_BINOP_SPECIALIZED]; per
    section 4.3 the specialized variant checks the type-ids on entry; if
    they no longer match it rewrites the opcode back to the generic form
    and re-dispatches, and else it calls the precomputed operator function
    directly. *)
Definition MAKE_BINOP_SPECIALIZED (op_fn : option binary_op_fcn)
  (jmp_target : label) (op_target : INSTR) (target_type : ov_type) (s : vm)
  : outcome :=
  let? rhs := TOP_OV s in
  let? lhs := SEC_OV s in
  if bool_decide (type_id lhs ≠ target_type) ||
     bool_decide (type_id rhs ≠ target_type)
  then Goto jmp_target (code_write (ip s - 2) (opcode_of op_target) s)
  else
    let? op_fn := op_fn in
    try_call catch_all s (op_fn lhs rhs)
      (fun ans s => Dispatch1 (PUSH_OV ans (STACK_DESTROY 2 s))).

(** The generic binary handlers that rewrite themselves, as the source
    instantiates the macro: the operator, the label and the opcode of the
    specialized variant. *)
Definition binop_selfmodifying (l : label)
  : option (binary_op * label * INSTR) :=
  match l with
  | L_mul => Some (op_mul, L_mul_dbl, MUL_DBL)
  | L_div => Some (op_div, L_div_dbl, DIV_DBL)
  | L_add => Some (op_add, L_add_dbl, ADD_DBL)
  | L_sub => Some (op_sub, L_sub_dbl, SUB_DBL)
  | L_le => Some (op_lt, L_le_dbl, LE_DBL)
  | L_le_eq => Some (op_le, L_le_eq_dbl, LE_EQ_DBL)
  | L_gr => Some (op_gt, L_gr_dbl, GR_DBL)
  | L_gr_eq => Some (op_ge, L_gr_eq_dbl, GR_EQ_DBL)
  | L_eq => Some (op_eq, L_eq_dbl, EQ_DBL)
  | L_neq => Some (op_ne, L_neq_dbl, NEQ_DBL)
  | L_pow => Some (op_pow, L_pow_dbl, POW_DBL)
  | _ => None
  end.

(** The specialized binary handlers: the operator whose scalar-double
    function they call, the label and the opcode of the generic form. *)
Definition binop_specialized (l : label)
  : option (binary_op * label * INSTR) :=
  match l with
  | L_mul_dbl => Some (op_mul, L_mul, MUL)
  | L_div_dbl => Some (op_div, L_div, DIV)
  | L_add_dbl => Some (op_add, L_add, ADD)
  | L_sub_dbl => Some (op_sub, L_sub, SUB)
  | L_le_dbl => Some (op_lt, L_le, LE)
  | L_le_eq_dbl => Some (op_le, L_le_eq, LE_EQ)
  | L_gr_dbl => Some (op_gt, L_gr, GR)
  | L_gr_eq_dbl => Some (op_ge, L_gr_eq, GR_EQ)
  | L_eq_dbl => Some (op_eq, L_eq, EQ)
  | L_neq_dbl => Some (op_ne, L_neq, NEQ)
  | L_pow_dbl => Some (op_pow, L_pow, POW)
  | _ => None
  end.

(** The binary handlers that are the plain macro. *)
Definition binop_plain (l : label) : option binary_op :=
  match l with
  | L_ldiv => Some op_ldiv
  | L_el_mul => Some op_el_mul
  | L_el_div => Some op_el_div
  | L_el_pow => Some op_el_pow
  | L_el_and => Some op_el_and
  | L_el_or => Some op_el_or
  | L_el_ldiv => Some op_el_ldiv
  | L_trans_mul => Some op_trans_mul
  | L_mul_trans => Some op_mul_trans
  | L_herm_mul => Some op_herm_mul
  | L_mul_herm => Some op_mul_herm
  | L_trans_ldiv => Some op_trans_ldiv
  | L_herm_ldiv => Some op_herm_ldiv
  | _ => None
  end.

(** *** The dispatch loop *)

(** [wide]: the prefix WIDE.  The opcode to execute next is in [arg0]; its
    first operand is a short. *)
Definition wide (s : vm) : outcome :=
  let opcode := arg0 s in
  let? (arg0, s) := POP_CODE_USHORT s in
  let? i := INSTR_of_opcode opcode in
  Goto (instr i) (set_arg0 arg0 s).

(** The handlers of this development, by label. *)
Definition handler (l : label) : option (vm → outcome) :=
  match binop_selfmodifying l, binop_specialized l, binop_plain l with
  | Some (op, jmp_target, op_target), _, _ =>
      Some (MAKE_BINOP_SELFMODIFYING op jmp_target op_target)
  | _, Some (op, jmp_target, op_target), _ =>
      Some (MAKE_BINOP_SPECIALIZED (m_fn_dbl op) jmp_target op_target
              m_scalar_typeid)
  | _, _, Some op => Some (MAKE_BINOP op)
  | None, None, None =>
      match l with
      | L_ret => Some ret
      | L_assign => Some assign
      | L_assign_dispath => Some assign_dispath
      | L_jmp_if => Some jmp_if
      | L_jmp_if_bool => Some jmp_if_bool
      | L_jmp_ifn => Some jmp_ifn
      | L_jmp_ifn_bool => Some jmp_ifn_bool
      | L_jmp => Some jmp
      | L_handle_signals => Some handle_signals
      | L_for_setup => Some for_setup
      | L_for_cond => Some for_cond
      | L_pop_n_ints => Some pop_n_ints
      | L_for_complex_setup => Some for_complex_setup
      | L_for_complex_cond => Some for_complex_cond
      | L_assign_n => Some assign_n
      | L_subassign_id => Some subassign_id
      | L_subassign_id_mat_1d => Some subassign_id_mat_1d
      | L_subassign_id_mat_2d => Some subassign_id_mat_2d
      | L_index_id1 => Some index_id1
      | L_index_idn => Some index_idn
      | L_index_idnx => Some index_idnx
      | L_index_id_nargout0 => Some index_id_nargout0
      | L_index_id1_mat_1d => Some index_id1_mat_1d
      | L_index_id1_mat_2d => Some index_id1_mat_2d
      | L_push_slot_indexed => Some push_slot_indexed
      | L_push_cell => Some push_cell
      | L_push_cell_big => Some push_cell_big
      | L_append_cell => Some append_cell
      | L_wide => Some wide
      | _ => None
      end
  end.

(** A handler runs, and the handlers it jumps to with [goto]; the jumps
    followed are bounded by [fuel]. *)
Fixpoint exec (fuel : nat) (l : label) (s : vm) : outcome :=
  match handler l with
  | None => Goto l s
  | Some h =>
      match h s with
      | Goto l' s' =>
          match fuel with
          | O => Goto l' s'
          | S fuel' => exec fuel' l' s'
          end
      | o => o
      end
  end.

(** [DISPATCH ()]: the opcode and its first operand byte are read, and
    control goes to the label of the opcode.  (The flag of the debugger,
    the profiler and echo is taken to be off.) *)
Definition DISPATCH (s : vm) : option (label * vm) :=
  opcode ← code_at s (ip s);
  arg0 ← code_at s (ip s + 1);
  i ← INSTR_of_opcode opcode;
  Some (instr i, set_ip (ip s + 2) (set_arg0 arg0 s)).

(** [DISPATCH_1BYTEOP ()]: the opcode is in [arg0] already. *)
Definition DISPATCH_1BYTEOP (s : vm) : option (label * vm) :=
  let opcode := arg0 s in
  arg0 ← code_at s (ip s);
  i ← INSTR_of_opcode opcode;
  Some (instr i, set_ip (ip s + 1) (set_arg0 arg0 s)).

(** One instruction: dispatch, and the handler. *)
Definition step (fuel : nat) (s : vm) : outcome :=
  let? (l, s) := DISPATCH s in
  exec fuel l s.

End handlers.

(** ** Observations on states

    What the statements below say about a state. *)

(** The top of the stack is the error tag [t]: the handler signalled it. *)
Definition signalled (s : vm) (t : error_type) : Prop :=
  load (stack_mem s) (sp s - 1) = Some (se_err t).

(** [v] was written to [slot], which held [lhs], by the discipline of
    invariant 3: when [lhs] is a reference wrapper the wrapper stays and the
    binding it forwards to is [v]; else the slot holds [v]. *)
Definition written_through (lhs : octave_value) (slot : Z) (v : octave_value)
  (s' : vm) : Prop :=
  match lhs with
  | val_ref r => load_slot s' slot = Some lhs ∧ ref_deref r (m_tw s') = v
  | _ => load_slot s' slot = Some v
  end.

(** The state a handler ends in; an execution that faults has none. *)
Definition outcome_state (o : outcome) : option vm :=
  match o with
  | Dispatch s | Dispatch1 s | Unwind s | Goto _ s | Call s | Return _ s
  | Throw _ s => Some s
  | Fault => None
  end.



Section host_steps.
Context {host : host_ops}.





End host_steps.

(** The number of columns of a value: the second extent of its dimensions
    folded to two. *)
Definition columns (v : octave_value) : Z := snd (redim2 (dims v)).
Definition rows (v : octave_value) : Z := fst (redim2 (dims v)).

(** A scalar index of an indexed assignment is in bounds: the double
    denotes an integer, and its zero-based value [index0] lies in
    [0, bound). *)
Definition index0 (idx_dbl : double) : Z :=
  dbl_to_idx (dbl_sub idx_dbl dbl_one).
Definition index_in_bounds (idx_dbl : double) (bound : Z) : bool :=
  bool_decide (0 ≤ index0 idx_dbl < bound) &&
  dbl_eqb (idx_to_dbl (index0 idx_dbl)) (dbl_sub idx_dbl dbl_one).

(** The specialization of SUBASSIGN_ID for [nargs] scalar indices. *)
Definition subassign_id_mat (nargs : Z) : INSTR :=
  if decide (nargs = 1) then SUBASSIGN_ID_MAT_1D else SUBASSIGN_ID_MAT_2D.

(** The doubles of a list of real scalars; none when a value of another
    type is among them. *)
Fixpoint double_values (args : list octave_value) : option (list double) :=
  match args with
  | [] => Some []
  | val_scalar d :: args => (d ::.) <$> double_values args
  | _ :: _ => None
  end.

(** The element of a full matrix of dimensions [dv] that the indices
    [idxs] denote, as a zero-based offset in column-major order: one index
    has to be in bounds of the number of elements; two indices have to be
    in bounds of the rows and the columns of a matrix with two
    dimensions. *)
Definition in_place_element (dv : dim_vector) (idxs : list double)
  : option Z :=
  match idxs with
  | [idx_dbl] =>
      if index_in_bounds idx_dbl (dv_numel dv)
      then Some (index0 idx_dbl) else None
  | [idx1_dbl; idx2_dbl] =>
      if index_in_bounds idx1_dbl (dv_rows dv) &&
         index_in_bounds idx2_dbl (dv_cols dv) &&
         bool_decide (dv_ndims dv = 2)
      then Some (index0 idx1_dbl + dv_rows dv * index0 idx2_dbl) else None
  | _ => None
  end.

(** The opcode that the types of the operands select for a binary
    operator with a generic and a specialized form. *)
Definition binop_opcode (generic specialized : INSTR)
  (lhs rhs : octave_value) : INSTR :=
  if bool_decide (type_id lhs = m_scalar_typeid) &&
     bool_decide (type_id rhs = m_scalar_typeid)
  then specialized else generic.

(** What a call left under the frame of the callee, as RET finds it: in
    the last of the bookkeeping words the number of values the caller
    wants back, and in the first of them the address of the first argument
    on the stack of the caller.  The object that was called lies under the
    first argument: there the operand stack of the caller ended before the
    call. *)
Definition caller_nval_back (s : vm) : option Z := load_i s (bsp s - 1).
Definition caller_top (s : vm) : option Z :=
  pse ← load (stack_mem s) (bsp s - 8) ≫= as_pse; Some (pse - 1).

(** The values a callee returns, as RET finds them: the values of the
    return slots after [%nargout], and for a frame with varargout the
    slots before the last, followed by the elements of the cell in the
    last when it is defined. *)
Definition callee_returns (s : vm) : option (list octave_value) :=
  n_returns ← N_RETURNS s;
  if decide (n_returns < 0) then
    fixed ← load_ovs s (bsp s + 1) (Z.to_nat (- n_returns - 2));
    ov_vararg ← load_ov s (bsp s + (- n_returns - 1));
    if is_defined ov_vararg
    then elems ← cell_value ov_vararg; Some (fixed ++ elems)
    else Some fixed
  else load_ovs s (bsp s + 1) (Z.to_nat (n_returns - 1)).

(** The triple of a cell under construction on the top of the stack. *)
Definition cell_triple (s : vm) (cell : octave_value) (i_col i_row : Z)
  : Prop :=
  THIRD_OV s = Some cell ∧ SEC_OV s = Some (val_int64 i_col) ∧
  TOP_OV s = Some (val_int64 i_row).

(** An element expression of a cell row has left [ov] on the stack, and
    the APPEND_CELL after it runs, with [last] for its operand byte. *)
Definition append_cell_arg (ov : octave_value) (last : Z) (s : vm)
  : outcome :=
  append_cell (set_arg0 last (PUSH_OV ov s)).

(** The APPEND_CELLs of a cell with one row, after the values [ovs] of its
    element expressions: there is an APPEND_CELL after each element, and
    that of the last element has 3 for its operand byte. *)
Fixpoint append_cell_row (ovs : list octave_value) (s : vm) : outcome :=
  match ovs with
  | [] => Dispatch s
  | [ov] => append_cell_arg ov 3 s
  | ov :: ovs =>
      match append_cell_arg ov 0 s with
      | Dispatch s => append_cell_row ovs s
      | o => o
      end
  end.

(** [{e1, ..., en}] from its PUSH_CELL on. *)
Definition cell_row (ovs : list octave_value) (s : vm) : outcome :=
  match push_cell s with
  | Dispatch s => append_cell_row ovs s
  | o => o
  end.

(** The second way of the specification for an undefined value to be
    accepted by ASSIGNN: the output index of the position appears in the
    IGNORED auto-variable.  The outputs of a frame are its return slots:
    [ret] hands [bsp[j]] out as the value number [j], and
    SET_IGNORE_OUTPUTS numbers the ignored outputs from 1
    ([set_ignored.find (i + 1)]), so the output index of the return slot
    [slot] is [slot] itself. *)
Definition output_index (slot : Z) : Z := slot.
Definition output_index_ignored (s : vm) (slot : Z) : bool :=
  match N_RETURNS s with
  | Some n_returns =>
      bool_decide (0 < slot < abs_n_returns n_returns) &&
      existsb (dbl_eqb (idx_to_dbl (output_index slot)))
        (matrix_value (auto_var_IGNORED (m_tw s)))
  | None => false
  end.


(** ** A small host

    Enough of a value system to run the handlers on concrete states: the
    operators of scalar doubles in the table of the typed dispatch, no
    lazy-copy types, and index operations that refuse everything. *)
Module small_host.

Definition not_implemented {A : Type} (what : string) : host_result A :=
  h_throw (exc_execution (mk_execution_exception "error" "" what)).

Definition scalar_fcn (f : double → double → octave_value) : binary_op_fcn :=
  λ lhs rhs,
    host_ret match lhs, rhs with
             | val_scalar x, val_scalar y => h_ok (f x y)
             | _, _ => not_implemented "binary operator"
             end.

Definition lookup (op : binary_op) (t1 t2 : ov_type)
  : option binary_op_fcn :=
  match t1, t2 with
  | t_scalar, t_scalar =>
      match op with
      | op_add => Some (scalar_fcn (λ x y, val_scalar (dbl_add x y)))
      | op_sub => Some (scalar_fcn (λ x y, val_scalar (dbl_sub x y)))
      | op_mul | op_el_mul =>
          Some (scalar_fcn (λ x y, val_scalar (dbl_mul x y)))
      | op_div | op_el_div =>
          Some (scalar_fcn (λ x y, val_scalar (dbl_div x y)))
      | op_lt => Some (scalar_fcn (λ x y, val_bool (dbl_ltb x y)))
      | op_gt => Some (scalar_fcn (λ x y, val_bool (dbl_ltb y x)))
      | op_eq => Some (scalar_fcn (λ x y, val_bool (dbl_eqb x y)))
      | op_ne => Some (scalar_fcn (λ x y, val_bool (dbl_neb x y)))
      | _ => None
      end
  | _, _ => None
  end.

Definition truth (v : octave_value) : host_result bool :=
  match v with
  | val_bool b => h_ok b
  | val_scalar d => h_ok (dbl_neb d (dbl_of_Z 0))
  | _ => not_implemented "is_true"
  end.

(** Assignment of a scalar to an element of a row vector by one index:
    the vector grows, filled with zeros, when the index is beyond its
    end. *)
Definition subsasgn (ov : octave_value) (idx : list octave_value)
  (rhs : octave_value) : host_result octave_value :=
  match ov, idx, rhs with
  | val_matrix [1; n] elems, [val_scalar idx_dbl], val_scalar val =>
      let k := index0 idx_dbl in
      if bool_decide (0 ≤ k) &&
         dbl_eqb (idx_to_dbl k) (dbl_sub idx_dbl dbl_one)
      then
        let elems := elems ++ replicate (Z.to_nat (k + 1 - n)) (dbl_of_Z 0) in
        h_ok (val_matrix [1; Z.max n (k + 1)] (store k val elems))
      else h_throw err_invalid_index
  | _, _, _ => not_implemented "subsasgn"
  end.

(** The first result of a call is pushed; a call without results leaves
    a nil value. *)
Definition push_results (retval : list octave_value) (nargout : Z)
  (st : Z * list stack_element) : Z * list stack_element :=
  (fst st + 1, store (fst st) (se_ov (default val_undef (head retval))) (snd st)).

#[export] Instance ops : host_ops := {
  vm_need_storable_call := λ _, false;
  make_storable_value := λ v, v;
  storable_value := λ v, h_ok v;
  is_true := λ v, host_ret (truth v);
  lookup_binary_op := lookup;
  binary_op_no_entry := λ _ _ _, host_ret (not_implemented "binary operator");
  simple_subsref := λ _ _ _, host_ret (not_implemented "subsref");
  simple_subsasgn := λ ov idx rhs, host_ret (subsasgn ov idx rhs);
  maybe_as_trivial_range := λ v, v;
  vm_extract_forloop_value := λ v _, v;
  other_dispatch_call := λ _, OCT_CALL;
  EXPAND_CSLIST_PUSH_N_OVL_ELEMENTS_TO_STACK := push_results
}.

(** An interpreter without bindings and without a pending signal. *)
Definition idle : interp := mk_interp ∅ ∅ val_undef None [].

(** A state with one code unit and one frame at the bottom of the
    stack. *)
Definition machine (code_bytes : list Z) (names : list string)
  (stack : list stack_element) (sp ip arg0 : Z) (h : interp) : vm :=
  mk_vm arg0 sp ip 0 0 0 0 0 0 stack code_bytes names h.

Definition two : double := dbl_of_Z 2.
Definition three : double := dbl_of_Z 3.

(** [x = 1; c = {2, 3}; x = c{:}] at the ASSIGN of slot 1. *)
Definition at_assign (rhs : octave_value) : vm :=
  machine [opcode_of ASSIGN; 1; opcode_of POP; 0] ["%nargout"; "x"]
    [se_i 0; se_ov (val_scalar dbl_one); se_ov rhs; se_dead]
    3 2 1 idle.

Definition seven : double := dbl_of_Z 7.

(** [for [k, v] = struct ("f", 7)] at the FOR_COMPLEX_COND of the first
    round: the struct, the number of fields and the counter are on the
    stack; slot 1 is the key slot, slot 2 the value slot. *)
Definition at_for_complex_cond (key_slot val_slot : octave_value) : vm :=
  machine [opcode_of FOR_COMPLEX_COND; 20; 0; 1; 0; 2; 0; opcode_of POP; 0]
    ["%nargout"; "k"; "v"]
    [se_i 0; se_ov key_slot; se_ov val_slot;
     se_ov (val_struct [1; 1] [("f", ([1; 1], [val_scalar seven]))]);
     se_i 1; se_i (-1); se_dead]
    6 2 20 idle.

(** [if (c) ...] at the JMP_IF (or JMP_IFN), the condition on the stack,
    while an interrupt is pending. *)
Definition at_jmp (opcode : INSTR) (cond : octave_value) : vm :=
  machine [opcode_of opcode; 6; 0; opcode_of POP; 0; 0; opcode_of POP; 0]
    ["%nargout"]
    [se_i 0; se_ov cond; se_dead]
    2 2 6 (mk_interp ∅ ∅ val_undef (Some exc_interrupt) []).

(** [for x = iterable] at the FOR_SETUP: the iterable is on the stack, the
    FOR_COND of slot 1 follows. *)
Definition at_for_setup (iterable : octave_value) : vm :=
  machine [opcode_of FOR_SETUP; opcode_of FOR_COND; 1; 9; 0; opcode_of POP; 0]
    ["%nargout"; "x"]
    [se_i 0; se_ov val_undef; se_ov iterable; se_dead; se_dead]
    3 2 (opcode_of FOR_COND) idle.

(** [function [a, b, c] = g ()] at the ASSIGNN of [[a, b] = f ()], where
    [f] has set its first value only: the value for [a] is on the top of
    the stack and an undefined value for [b] under it.  The header of the
    frame counts [n_returns] return slots, %nargout included, and
    [ignored] is the IGNORED auto-variable that the call of [g] has
    set. *)
Definition at_assign_n_outputs (n_returns : Z) (ignored : octave_value)
  : vm :=
  machine [n_returns; 0; 4; 0; opcode_of ASSIGNN; 2; 1; 0; 2; 0;
           opcode_of POP; 0]
    ["%nargout"; "a"; "b"; "c"]
    [se_i 2; se_ov val_undef; se_ov val_undef; se_ov val_undef;
     se_ov val_undef; se_ov (val_scalar dbl_one); se_dead; se_dead]
    6 6 2 (mk_interp ∅ ∅ ignored None []).

(** [x (idx) = rhs] at the assignment to the element, with the opcode
    given, of slot 1: the index and the right-hand side are on the
    stack. *)
Definition at_subassign (opcode : INSTR) (x idx rhs : octave_value) : vm :=
  machine [opcode_of opcode; 1; 1; opcode_of POP; 0] ["%nargout"; "x"]
    [se_i 0; se_ov x; se_ov idx; se_ov rhs; se_dead]
    4 2 1 idle.

Definition one_two_three : octave_value :=
  val_matrix [1; 3] [dbl_one; two; three].

(** [x (idx)] at the indexing, with the opcode given, of slot 1: the
    value of [x] and the index are on the stack. *)
Definition at_index (opcode : INSTR) (x idx : octave_value) : vm :=
  machine [opcode_of opcode; 1; 1; opcode_of POP; 0] ["%nargout"; "x"]
    [se_i 1; se_ov x; se_ov x; se_ov idx; se_dead; se_dead]
    4 2 1 idle.

Definition one_and_a_half : double := dbl_div three two.

(** [c = {a{:}, a{:}}] at its PUSH_CELL: one row, and a guess of
    [n_cols] columns. *)
Definition at_push_cell (n_cols : Z) : vm :=
  machine [opcode_of PUSH_CELL; 1; n_cols; opcode_of POP; 0]
    ["%nargout"; "a"; "c"]
    [se_i 0; se_ov (val_cell [0; 0] []); se_ov val_undef;
     se_dead; se_dead; se_dead; se_dead; se_dead]
    3 2 1 idle.

(** [f ();] at the RET of [f], a function with one return value and one
    more local, called for no value from the root frame.  The frame of
    the caller is at the bottom of the stack: [%nargout], a local and the
    object that was called; the eight bookkeeping words of the call
    follow, and the frame of the callee, whose return slot holds [r]. *)
Definition at_ret (r : octave_value) : vm :=
  mk_vm 0 14 5 11 0 0 0 0 0
    [se_i 0; se_ov val_undef; se_ov (val_other 0);
     se_pse 3; se_pud 0; se_puc 8; se_pov 0; se_ps 2; se_pse 0; se_puc 14;
     se_i 0;
     se_i 0; se_ov r; se_ov (val_scalar two); se_dead; se_dead]
    [2; 0; 3; 0; opcode_of RET; 0; 0; 0;
     1; 0; 2; 0; opcode_of INDEX_ID_NARGOUT0; 1; 0; opcode_of POP; 0]
    ["%nargout"; "r"; "%nargout"; "f"]
    idle.

(** [lhs op rhs] at the handler of a binary operator, whose opcode is the
    byte before the two bytes that the dispatch has read. *)
Definition at_binop (opcode : INSTR) (lhs rhs : octave_value) : vm :=
  machine [opcode_of opcode; opcode_of POP; 0; opcode_of POP; 0]
    ["%nargout"]
    [se_i 0; se_ov lhs; se_ov rhs; se_dead]
    3 2 (opcode_of POP) idle.

End small_host.

(** * More of the machine *)

(** ** More observations on states *)

(** Two states with the same registers but [sp], and the same code and
    names: they differ in the operand stack and in the host at most. *)
Definition same_frame (s1 s2 : vm) : Prop :=
  arg0 s1 = arg0 s2 ∧ ip s1 = ip s2 ∧ bsp s1 = bsp s2 ∧ rsp s1 = rsp s2 ∧
  code s1 = code s2 ∧ data s1 = data s2 ∧ name_data s1 = name_data s2 ∧
  unwind_data s1 = unwind_data s2 ∧
  code_mem s1 = code_mem s2 ∧ name_mem s1 = name_mem s2.

(** The registers of the caller that a call saved under the frame of the
    callee: the return address, the base of the frame, the names, the
    constants, the code and the unwind data. *)
Record saved_registers := mk_saved_registers {
  saved_ip : Z;
  saved_bsp : Z;
  saved_name_data : Z;
  saved_data : Z;
  saved_code : Z;
  saved_unwind_data : Z
}.

Definition caller_registers (s : vm) : option saved_registers :=
  ip' ← load (stack_mem s) (bsp s - 2) ≫= as_puc;
  bsp' ← load (stack_mem s) (bsp s - 3) ≫= as_pse;
  name_data' ← load (stack_mem s) (bsp s - 4) ≫= as_ps;
  data' ← load (stack_mem s) (bsp s - 5) ≫= as_pov;
  code' ← load (stack_mem s) (bsp s - 6) ≫= as_puc;
  unwind_data' ← load (stack_mem s) (bsp s - 7) ≫= as_pud;
  Some (mk_saved_registers ip' bsp' name_data' data' code' unwind_data').

(** The number of return slots of a frame, [%nargout] included, as RET
    reads the header. *)
Definition n_returns_callee (n_returns : Z) : Z :=
  if bool_decide (n_returns < 0) then - n_returns else n_returns.

(** The value that ASSIGN stores for the right-hand side [rhs]: the first
    element of a cs-list, the value itself otherwise. *)
Definition assigned_value (rhs : octave_value) : octave_value :=
  match rhs with
  | val_cs_list (v0 :: _) => v0
  | _ => rhs
  end.

(** A numeric for loop between two rounds, as FOR_COND finds it: the
    iterable, the number of rounds and the counter on the top of the
    stack, the loop variable in a slot under them, and no signal
    pending. *)
Definition in_for_loop (slot : Z) (ov_range : octave_value) (n counter : Z)
  (s : vm) : Prop :=
  THIRD_OV s = Some ov_range ∧
  load_i s (sp s - 2) = Some n ∧
  load_i s (sp s - 1) = Some counter ∧
  slot_addr s slot < sp s - 3 ∧
  (∃ v, load_slot s slot = Some v) ∧
  pending_signal (m_tw s) = None.

(** The cell of a row under construction: the values filled in so far,
    and the fill value in the columns after them. *)
Definition row_cell (filled : list octave_value) (n_cols : Z)
  : octave_value :=
  val_cell [1; n_cols]
    (filled ++
     replicate (Z.to_nat (n_cols - Z.of_nat (length filled))) cell_fill).

(** A value that an element expression of a cell leaves for one
    element. *)
Definition is_element (ov : octave_value) : bool :=
  is_defined ov && negb (is_cs_list ov).

(** Where a handler goes with [goto]: every label and state it goes to
    satisfy [P]. *)
Definition goes_to (P : label → vm → Prop) (o : outcome) : Prop :=
  ∀ l' s', o = Goto l' s' → P l' s'.

(** The operands that the specializations of the indexed read and of the
    indexed assignment are made for: scalar indices, one or two of them,
    on a full matrix, and for the assignment a scalar right-hand side. *)
Definition index_operands (n_args : Z) (s : vm) : Prop :=
  (n_args = 1 ∧
   ∃ arg1 mat, TOP_OV s = Some arg1 ∧ SEC_OV s = Some mat ∧
     type_id arg1 = m_scalar_typeid ∧ is_full_num_matrix mat = true) ∨
  (n_args = 2 ∧
   ∃ arg2 arg1 mat, TOP_OV s = Some arg2 ∧ SEC_OV s = Some arg1 ∧
     THIRD_OV s = Some mat ∧
     type_id arg2 = m_scalar_typeid ∧ type_id arg1 = m_scalar_typeid ∧
     is_full_num_matrix mat = true).

Definition subassign_operands (nargs : Z) (s : vm) : Prop :=
  ∃ rhs mat,
    TOP_OV s = Some rhs ∧ load_slot s (arg0 s) = Some mat ∧
    type_id rhs = m_scalar_typeid ∧ type_id mat = m_matrix_typeid ∧
    ((nargs = 1 ∧
      ∃ arg, SEC_OV s = Some arg ∧ type_id arg = m_scalar_typeid) ∨
     (nargs = 2 ∧
      ∃ arg1 arg2, THIRD_OV s = Some arg1 ∧ SEC_OV s = Some arg2 ∧
        type_id arg2 = m_scalar_typeid ∧ type_id arg1 = type_id arg2)).

(** The place of the opcode of the instruction that runs, for a handler
    whose first operand is a slot. *)
Definition opcode_addr (s : vm) : Z :=
  ip s - 2 + wide_opcode_offset (arg0 s).

(** ** More handlers *)

(** The [n] shorts of the code from [p] on, as [n] POP_CODE_USHORTs read
    them: the slot operands of ASSIGNN. *)
Fixpoint code_ushorts (s : vm) (p : Z) (n : nat) : option (list Z) :=
  match n with
  | O => Some []
  | S n' =>
      b0 ← code_at s p; b1 ← code_at s (p + 1);
      slots ← code_ushorts s (p + 2) n';
      Some (Z.lor b0 (Z.shiftl b1 8) :: slots)
  end.

(** [(n == 1) ? val_lst (0) : octave_value (val_lst)]: the value of the
    value variable of a struct loop in the round of a field with the
    contents [val_lst]. *)
Definition field_value (val_lst : Cell) : octave_value :=
  match snd val_lst with
  | [v] => v
  | _ => val_cell (fst val_lst) (snd val_lst)
  end.

(** The state of a struct loop [for [v, k] = ov_rhs] at a
    FOR_COMPLEX_COND: the struct, the number of its fields and the counter
    are the three elements on the top of the stack, and the slots of the
    key and of the value are plain variables of the frame under them. *)
Definition in_struct_loop (slot_key slot_value : Z) (ov_rhs : octave_value)
  (counter : Z) (s : vm) : Prop :=
  THIRD_OV s = Some ov_rhs ∧
  (∃ keys, map_keys ov_rhs = Some keys ∧
           load_i s (sp s - 2) = Some (Z.of_nat (length keys))) ∧
  load_i s (sp s - 1) = Some counter ∧
  slot_addr s slot_key < sp s - 3 ∧ slot_addr s slot_value < sp s - 3 ∧
  (∃ v, load_slot s slot_key = Some v ∧ is_ref v = false) ∧
  (∃ v, load_slot s slot_value = Some v ∧ is_ref v = false).

Section more_handlers.
Context {host : host_ops}.

(** A label without a handler in this development. *)
Definition outside (l : label) (s : vm) : Prop := handler l = None.

(** [rot]: ROT *)
Definition rot (s : vm) : outcome :=
  let? top_ov := TOP_OV s in
  let? sec_ov := SEC_OV s in
  let s := STACK_DESTROY 2 s in
  let s := PUSH_OV top_ov s in
  let s := PUSH_OV sec_ov s in
  Dispatch1 s.

(** [for (int i = 0; i < n; i++) PUSH_OV (first[i].ov);] from [i] on, for
    [k] more rounds. *)
Fixpoint dupn_loop (first i : Z) (k : nat) (s : vm) : option vm :=
  match k with
  | O => Some s
  | S k' => ov ← load_ov s (first + i);
            dupn_loop first (i + 1) k' (PUSH_OV ov s)
  end.

(** [dupn]: DUPN offset n *)
Definition dupn (s : vm) : outcome :=
  let offset := arg0 s in
  let? n := code_at s (ip s) in
  let s := set_ip (ip s + 1) s in
  let first := sp s - n - offset in
  let? s := dupn_loop first 0 (Z.to_nat n) s in
  Dispatch s.

(** [force_assign]: FORCE_ASSIGN slot *)
Definition force_assign (s : vm) : outcome :=
  (* The next instruction is the slot number *)
  let slot := arg0 s in
  let? ov_rhs := TOP_OV s in
  let? ov_lhs := load_slot s slot in
  let s := maybe_call_dtor ov_lhs s in
  let ov_rhs := storable ov_rhs in (* Some types have lazy copy *)
  let s := assign_slot slot ov_lhs ov_rhs s in
  Dispatch (STACK_DESTROY 1 s).

(** The FOR_COND of a loop when it is met for the [k + 1]-th time, for a
    body that leaves the stack, the loop variable and the host as they
    are: the jump at the end of the body and the dispatch of the FOR_COND
    put [ip] and [arg0] back to what they were at the first time.  The
    outcome is that of the last FOR_COND, or of the first one that did not
    dispatch. *)
Fixpoint for_cond_rounds (k : nat) (s : vm) : outcome :=
  match k with
  | O => for_cond s
  | S k' =>
      match for_cond s with
      | Dispatch s' =>
          for_cond_rounds k' (set_arg0 (arg0 s) (set_ip (ip s) s'))
      | o => o
      end
  end.

(** [k] rounds of a struct loop whose body leaves the stack and the two
    loop variables' slots as they are, and the FOR_COMPLEX_COND after
    them. *)
Fixpoint for_complex_cond_rounds (k : nat) (s : vm) : outcome :=
  match k with
  | O => for_complex_cond s
  | S k' =>
      match for_complex_cond s with
      | Dispatch s' =>
          for_complex_cond_rounds k' (set_arg0 (arg0 s) (set_ip (ip s) s'))
      | o => o
      end
  end.

End more_handlers.

(** ** More example states *)

Module more_examples.
Import small_host.

(** [at_ret] for a function [varargout = f ()]: the header has -2 for the
    number of return slots, [%nargout] and varargout, and the varargout
    slot holds [v]. *)
Definition at_ret_varargout (v : octave_value) : vm :=
  mk_vm 0 14 5 11 0 0 0 0 0
    [se_i 0; se_ov val_undef; se_ov (val_other 0);
     se_pse 3; se_pud 0; se_puc 8; se_pov 0; se_ps 2; se_pse 0; se_puc 14;
     se_i 0;
     se_i 0; se_ov v; se_ov (val_scalar two); se_dead; se_dead]
    [254; 0; 3; 0; opcode_of RET; 0; 0; 0;
     1; 0; 2; 0; opcode_of INDEX_ID_NARGOUT0; 1; 0; opcode_of POP; 0]
    ["%nargout"; "varargout"; "%nargout"; "f"]
    idle.

(** [[a, b] = f ()] at the RET of [f] in the root frame, which the host
    entered for [nargout] values; the return slots hold [a] and [b]. *)
Definition at_ret_root (nargout : Z) (a b : octave_value) : vm :=
  mk_vm 0 3 5 0 0 0 0 0 0
    [se_i nargout; se_ov a; se_ov b; se_dead]
    [3; 0; 3; 0; opcode_of RET; 0]
    ["%nargout"; "a"; "b"]
    idle.

(** [x = 1; 2; 3] with the three values on the stack above the frame, at
    an instruction with the operand bytes [arg0] and [b1]. *)
Definition at_stack_op (opcode : INSTR) (arg0 b1 : Z) : vm :=
  machine [opcode_of opcode; arg0; b1; opcode_of POP; 0] ["%nargout"; "x"]
    [se_i 0; se_ov (val_scalar dbl_one); se_ov (val_scalar two);
     se_ov (val_scalar three); se_dead; se_dead; se_dead]
    4 2 arg0 idle.

(** [for x = 1:3] at its first FOR_COND: FOR_SETUP has left the range,
    the number of rounds and the counter on the stack; the loop variable
    is slot 1, and the loop ends at the code offset 9. *)
Definition at_for_cond : vm :=
  machine [opcode_of FOR_SETUP; opcode_of FOR_COND; 1; 9; 0; opcode_of POP;
           0; opcode_of JMP; 1; opcode_of POP_N_INTS; 2]
    ["%nargout"; "x"]
    [se_i 0; se_ov val_undef;
     se_ov (val_trivial_range dbl_one dbl_one 3); se_i 3; se_i (-1);
     se_dead]
    5 3 1 idle.

(** [{1, 2; 3}] before the value of the last element expression is
    pushed: the cell of two rows and two columns with its first row
    filled, the column counter 0 and the row counter 1 are on the
    stack. *)
Definition at_append_cell : vm :=
  machine [opcode_of APPEND_CELL; 2; opcode_of POP; 0] ["%nargout"]
    [se_i 0;
     se_ov (val_cell [2; 2]
              [val_scalar dbl_one; cell_fill; val_scalar two; cell_fill]);
     se_ov (val_int64 0); se_ov (val_int64 1); se_dead; se_dead; se_dead]
    4 2 2 idle.

(** [[a, b] = f ()] at its ASSIGNN, with the values [top] and [second]
    of the call on the stack: the slots 1 and 2 are [a] and [b]. *)
Definition at_assign_two (second top : octave_value) : vm :=
  machine [1; 0; 3; 0; opcode_of ASSIGNN; 2; 1; 0; 2; 0; opcode_of POP; 0]
    ["%nargout"; "a"; "b"]
    [se_i 0; se_ov val_undef; se_ov (val_scalar dbl_one);
     se_ov second; se_ov top; se_dead]
    5 6 2 idle.

(** [for [v, k] = struct ("f", 7, "g", {{2, 3}})] at its
    FOR_COMPLEX_SETUP, the struct on the stack: slot 1 is the key [k],
    slot 2 the value [v], and the loop ends at the code offset 12. *)
Definition at_for_complex_setup : vm :=
  machine [opcode_of FOR_COMPLEX_SETUP; 12; 0;
           opcode_of FOR_COMPLEX_COND; 12; 0; 1; 0; 2; 0;
           opcode_of POP; 0; opcode_of POP_N_INTS; 2]
    ["%nargout"; "k"; "v"]
    [se_i 0; se_ov val_undef; se_ov val_undef;
     se_ov (val_struct [1; 1]
              [("f", ([1; 1], [val_scalar seven]));
               ("g", ([1; 2], [val_scalar two; val_scalar three]))]);
     se_dead; se_dead; se_dead]
    4 2 12 idle.

(** [at_ret] for a caller that wants two values: [[x, y] = f ()]. *)
Definition at_ret_for_two (r : octave_value) : vm :=
  mk_vm 0 14 5 11 0 0 0 0 0
    [se_i 0; se_ov val_undef; se_ov (val_other 0);
     se_pse 3; se_pud 0; se_puc 8; se_pov 0; se_ps 2; se_pse 0; se_puc 14;
     se_i 2;
     se_i 2; se_ov r; se_ov (val_scalar two); se_dead; se_dead]
    [2; 0; 3; 0; opcode_of RET; 0; 0; 0;
     1; 0; 2; 0; opcode_of INDEX_IDN; 1; 2; 0; opcode_of POP; 0]
    ["%nargout"; "r"; "%nargout"; "f"]
    idle.

End more_examples.

(** * Properties *)

(** ** Opcode bytes *)

Lemma INSTR_of_opcode_of (i : INSTR) : INSTR_of_opcode (opcode_of i) = Some i.
Proof. destruct i; reflexivity. Qed.

Lemma opcode_of_inj (i j : INSTR) : opcode_of i = opcode_of j → i = j.
Proof.
  intros E. pose proof (INSTR_of_opcode_of i) as Hi.
  rewrite E, INSTR_of_opcode_of in Hi. congruence.
Qed.

Lemma opcode_of_byte (i : INSTR) : 0 ≤ opcode_of i < 256.
Proof. destruct i; cbn; lia. Qed.

(** ** Memories *)

Section memory_facts.
Context {A : Type}.
Implicit Types (m : list A) (p q : Z) (x : A).

Lemma load_store_eq m p x :
  0 ≤ p < Z.of_nat (length m) → load (store p x m) p = Some x.
Proof.
  intros H. unfold load, store. rewrite !decide_True by lia.
  apply list_lookup_insert_eq. lia.
Qed.

Lemma load_store_ne m p q x : p ≠ q → load (store p x m) q = load m q.
Proof.
  intros H. unfold load, store.
  destruct (decide (0 ≤ q)); [|done].
  destruct (decide (0 ≤ p)); [|done].
  apply list_lookup_insert_ne. lia.
Qed.

Lemma length_store m p x : length (store p x m) = length m.
Proof. unfold store. destruct (decide _); [apply length_insert | done]. Qed.

Lemma load_Some_lt m p x : load m p = Some x → 0 ≤ p < Z.of_nat (length m).
Proof.
  unfold load. destruct (decide _); [|done].
  intros H%lookup_lt_Some. lia.
Qed.
End memory_facts.

(** ** The slot discipline *)

Lemma ref_deref_set_value r v h : ref_deref r (ref_set_value r v h) = v.
Proof. destruct r; cbn; by rewrite lookup_insert_eq. Qed.

Section state_facts.
Implicit Types (s : vm) (p q slot : Z) (e : stack_element)
  (v lhs : octave_value).

Lemma signalled_push s t :
  0 ≤ sp s < Z.of_nat (length (stack_mem s)) →
  signalled (push (se_err t) s) t.
Proof.
  intros H. unfold signalled, push. cbn.
  replace (sp s + 1 - 1) with (sp s) by lia. by apply load_store_eq.
Qed.

Lemma load_slot_push s e slot :
  slot_addr s slot ≠ sp s → load_slot (push e s) slot = load_slot s slot.
Proof.
  intros H. unfold load_slot, load_ov, push, slot_addr in *. cbn.
  by rewrite load_store_ne.
Qed.

Lemma load_slot_poke_ne s p e slot :
  slot_addr s slot ≠ p → load_slot (poke p e s) slot = load_slot s slot.
Proof.
  intros H. unfold load_slot, load_ov, slot_addr in *. cbn.
  by rewrite load_store_ne.
Qed.

Lemma load_slot_store_slot s slot v :
  0 ≤ slot_addr s slot < Z.of_nat (length (stack_mem s)) →
  load_slot (store_slot slot v s) slot = Some v.
Proof.
  intros H. unfold load_slot, load_ov, store_slot, slot_addr in *. cbn.
  by rewrite load_store_eq.
Qed.

Lemma load_slot_Some_lt s slot v :
  load_slot s slot = Some v →
  0 ≤ slot_addr s slot < Z.of_nat (length (stack_mem s)).
Proof.
  unfold load_slot, load_ov.
  destruct (load (stack_mem s) (slot_addr s slot)) eqn:E; [|done].
  intros _. by apply load_Some_lt in E.
Qed.

Lemma load_slot_STACK_DESTROY_1 s slot :
  slot_addr s slot ≠ sp s - 1 →
  load_slot (STACK_DESTROY 1 s) slot = load_slot s slot.
Proof.
  intros H. unfold load_slot, load_ov, slot_addr in *. cbn.
  by rewrite load_store_ne.
Qed.

Lemma sp_assign_slot slot lhs v s : sp (assign_slot slot lhs v s) = sp s.
Proof. by destruct lhs. Qed.
Lemma bsp_assign_slot slot lhs v s : bsp (assign_slot slot lhs v s) = bsp s.
Proof. by destruct lhs. Qed.
Lemma ip_assign_slot slot lhs v s : ip (assign_slot slot lhs v s) = ip s.
Proof. by destruct lhs. Qed.
Lemma code_mem_assign_slot slot lhs v s :
  code_mem (assign_slot slot lhs v s) = code_mem s.
Proof. by destruct lhs. Qed.
Lemma length_stack_assign_slot slot lhs v s :
  length (stack_mem (assign_slot slot lhs v s)) = length (stack_mem s).
Proof. destruct lhs; cbn; try apply length_store; done. Qed.

Lemma written_through_assign_slot s slot lhs v :
  load_slot s slot = Some lhs →
  written_through lhs slot v (assign_slot slot lhs v s).
Proof.
  intros H. pose proof (load_slot_Some_lt _ _ _ H) as Hlt.
  destruct lhs; cbn; try by apply load_slot_store_slot.
  split; [done | apply ref_deref_set_value].
Qed.

Lemma written_through_frame lhs slot v s s' :
  load_slot s' slot = load_slot s slot → m_tw s' = m_tw s →
  written_through lhs slot v s → written_through lhs slot v s'.
Proof. intros H1 H2. unfold written_through. rewrite H1, H2. done. Qed.
End state_facts.

Create Rewrite HintDb vm.
#[local] Hint Rewrite sp_assign_slot bsp_assign_slot ip_assign_slot
  code_mem_assign_slot length_stack_assign_slot @length_store : vm.

(** Closed comparisons of integers, by evaluation. *)
Ltac by_compute :=
  repeat split;
  first [ apply Z.leb_le | apply Z.ltb_lt | apply Z.geb_le | apply Z.gtb_lt
        | idtac ];
  vm_compute; reflexivity.

(** Arithmetic on the pointers of a state. *)
Ltac vm_simpl := autorewrite with vm in *; cbn in *.
Ltac vm_lia := unfold slot_addr in *; do 3 vm_simpl; lia.

(** ** ASSIGN with a cs-list on the right-hand side *)

Section assign_facts.
Context {host : host_ops}.

(** C10, as the handler has it.  ASSIGN of a cs-list into a slot that lies
    under the operand: an empty cs-list raises
    INVALID_N_EL_RHS_IN_ASSIGNMENT and the slot and the bindings are
    unchanged; a cs-list whose first element is defined is assigned by
    that element alone (in its storable form, by the slot discipline), the
    operand is popped and there is no error, whatever the other elements
    are; a cs-list whose first element is undefined raises
    RHS_UNDEF_IN_ASSIGNMENT and the slot is unchanged. *)
Theorem assign_cs_list_rhs (s : vm) (l : list octave_value)
  (lhs : octave_value) :
  TOP_OV s = Some (val_cs_list l) →
  load_slot s (arg0 s) = Some lhs →
  0 ≤ slot_addr s (arg0 s) < sp s - 1 →
  sp s < Z.of_nat (length (stack_mem s)) →
  match l with
  | [] =>
      ∃ s', exec 1 L_assign s = Unwind s' ∧
            signalled s' INVALID_N_EL_RHS_IN_ASSIGNMENT ∧
            load_slot s' (arg0 s) = Some lhs ∧ m_tw s' = m_tw s
  | v0 :: _ =>
      if is_defined v0 then
        ∃ s', exec 1 L_assign s = Dispatch s' ∧ sp s' = sp s - 1 ∧
              written_through lhs (arg0 s) (storable v0) s'
      else
        ∃ s', exec 1 L_assign s = Unwind s' ∧
              signalled s' RHS_UNDEF_IN_ASSIGNMENT ∧
              load_slot s' (arg0 s) = Some lhs ∧ m_tw s' = m_tw s
  end.
Proof.
  intros Htop Hslot Hlt Hroom.
  cbn [exec handler binop_selfmodifying binop_specialized binop_plain].
  unfold assign. rewrite Htop. cbn.
  unfold assign_dispath. rewrite Htop. cbn.
  destruct l as [|v0 l'].
  - eexists. split; [reflexivity|]. split; [apply signalled_push; lia|].
    split; [|done]. rewrite load_slot_push; [done | lia].
  - unfold is_undefined. destruct (is_defined v0) eqn:Hdef; cbn.
    + assert (Hs : load_slot (poke (sp s - 1) (se_ov v0) s) (arg0 s)
                   = Some lhs).
      { rewrite load_slot_poke_ne; [done | lia]. }
      rewrite Hs. cbn. eexists. split; [reflexivity|].
      split. { cbn. by rewrite sp_assign_slot. }
      eapply written_through_frame; last first.
      * apply written_through_assign_slot
          with (s := maybe_call_dtor lhs (poke (sp s - 1) (se_ov v0) s)).
        exact Hs.
      * destruct lhs; reflexivity.
      * apply load_slot_STACK_DESTROY_1. vm_lia.
    + eexists. split; [reflexivity|].
      split; [apply signalled_push; vm_lia|].
      split; [|done]. rewrite load_slot_push; [|vm_lia].
      rewrite load_slot_poke_ne; [done | lia].
Qed.

End assign_facts.

Section assign_examples.
Import small_host.

(** The theorem at a cs-list of two defined values: the slot gets the
    first. *)
Lemma assign_cs_list_rhs_witness :
  let s := at_assign (val_cs_list [val_scalar two; val_scalar three]) in
  (TOP_OV s = Some (val_cs_list [val_scalar two; val_scalar three]) ∧
   load_slot s (arg0 s) = Some (val_scalar dbl_one) ∧
   0 ≤ slot_addr s (arg0 s) < sp s - 1 ∧
   sp s < Z.of_nat (length (stack_mem s))) ∧
  ∃ s', exec 1 L_assign s = Dispatch s' ∧ sp s' = sp s - 1 ∧
        written_through (val_scalar dbl_one) (arg0 s)
          (storable (val_scalar two)) s'.
Proof.
  intros s.
  assert (H1 : TOP_OV s
               = Some (val_cs_list [val_scalar two; val_scalar three]))
    by reflexivity.
  assert (H2 : load_slot s (arg0 s) = Some (val_scalar dbl_one))
    by reflexivity.
  assert (H3 : 0 ≤ slot_addr s (arg0 s) < sp s - 1) by by_compute.
  assert (H4 : sp s < Z.of_nat (length (stack_mem s))) by by_compute.
  split; [done|].
  exact (assign_cs_list_rhs s _ _ H1 H2 H3 H4).
Defined.

(** The claim as the specification has it fails where the first element
    of the cs-list is undefined: nothing is assigned, the slot keeps its
    value, and RHS_UNDEF_IN_ASSIGNMENT is raised. *)
Lemma assign_cs_list_undefined_first :
  let s := at_assign (val_cs_list [val_undef; val_scalar two]) in
  ¬ (∃ s', exec 1 L_assign s = Dispatch s') ∧
  ∃ s', exec 1 L_assign s = Unwind s' ∧
        signalled s' RHS_UNDEF_IN_ASSIGNMENT ∧
        load_slot s' 1 = Some (val_scalar dbl_one).
Proof.
  intros s. split.
  - intros [s' H]. vm_compute in H. discriminate.
  - eexists. split; [vm_compute; reflexivity|]. split; reflexivity.
Qed.

End assign_examples.

(** ** The struct for loop: FOR_COMPLEX_COND *)

Section for_complex_examples.
Import small_host.

(** C9, the code at the failing inputs.  With a global in the key slot and
    a plain value slot, the key is stored over the reference wrapper and the
    global is not written: the branch of the key write is taken by the
    wrapper status of the value slot.  With a global in the value slot and
    a plain key slot, the key write calls the setter of a wrapper the key
    slot does not hold. *)
Theorem for_complex_cond_key_write_tests_value_slot :
  (let s := at_for_complex_cond (val_ref (ref_global "k")) val_undef in
   ∃ s', exec 0 L_for_complex_cond s = Dispatch s' ∧
         written_through val_undef 2 (val_scalar seven) s' ∧
         load_slot s' 1 = Some (ov_of_string "f") ∧
         ref_deref (ref_global "k") (m_tw s') = val_undef ∧
         ¬ written_through (val_ref (ref_global "k")) 1 (ov_of_string "f") s')
  ∧
  (let s := at_for_complex_cond (val_scalar dbl_one) (val_ref (ref_global "v")) in
   exec 0 L_for_complex_cond s = Fault).
Proof.
  split.
  - eexists. split; [vm_compute; reflexivity|].
    split; [reflexivity|]. split; [reflexivity|]. split; [reflexivity|].
    intros [H _]. vm_compute in H. discriminate.
  - vm_compute. reflexivity.
Qed.

End for_complex_examples.

(** ** Signal checks: HANDLE_SIGNALS, FOR_COND and the conditional jumps *)

Section signal_checks.
Context {host : host_ops}.
Implicit Types (s : vm) (o : outcome).














Lemma catch_not_Goto cs e s l1 s1 : catch cs e s ≠ Goto l1 s1.
Proof.
  induction cs as [|c cs IH]; cbn [catch]; [done|].
  destruct c, e; cbn; try done.
  destruct (name_at s slot); done.
Qed.






Lemma exec_0 l h s : handler l = Some h → exec 0 l s = h s.
Proof. intros H. cbn [exec]. rewrite H. by destruct (h s). Qed.

End signal_checks.


(** ** The numeric for loop: FOR_SETUP *)

Section for_setup_facts.
Context {host : host_ops}.
Implicit Types (s : vm) (v : octave_value) (dv : dim_vector).

Lemma to_int_small z : - 2 ^ 31 ≤ z < 2 ^ 31 → to_int z = z.
Proof.
  intros H. unfold to_int.
  destruct (decide (0 ≤ z)).
  - rewrite Z.mod_small by lia. rewrite decide_True by lia. done.
  - replace (z `mod` 2 ^ 32) with (z + 2 ^ 32).
    + rewrite decide_False by lia. lia.
    + apply Z.mod_unique with (q := -1); lia.
Qed.

(** The iteration count of FOR_SETUP by the kind of the iterable, for
    values whose number of rows fits an [int]: the number of elements for
    scalars and ranges; for matrices, cells, strings and structs the number
    of columns when there are rows, and zero when there are none. *)
Lemma for_setup_iteration_count v :
  - 2 ^ 31 ≤ rows v < 2 ^ 31 →
  match v with
  | val_scalar _ | val_bool _ | val_int64 _ =>
      for_setup_count v = Some (v, 1)
  | val_range _ _ _ n =>
      for_setup_count v = Some (maybe_as_trivial_range v, numel v)
  | val_matrix _ _ | val_string _ _ | val_cell _ _ | val_struct _ _ =>
      for_setup_count v =
        Some (v, if decide (rows v = 0) then 0 else columns v)
  | val_undef => for_setup_count v = Some (v, 0)
  | _ => True
  end.
Proof.
  intros Hr. unfold rows, columns in *.
  destruct v; try done; unfold for_setup_count; cbn in *;
    rewrite ?(to_int_small _ Hr); try done;
    by repeat destruct (decide _).
Qed.

(** What FOR_SETUP leaves: the iteration count and a counter of -1 on top
    of the iterable, and, when the count is zero and the iterable is
    defined, the iterable assigned to the induction slot of the FOR_COND
    that follows. *)
Lemma for_setup_pushes s v v' n slot lhs_ov :
  TOP_OV s = Some v →
  for_setup_count v = Some (v', n) →
  1 ≤ sp s ∧ sp s + 1 < Z.of_nat (length (stack_mem s)) →
  for_setup_slot s = Some slot →
  load_slot s slot = Some lhs_ov →
  0 ≤ slot_addr s slot < sp s - 1 →
  storable_value v' = h_ok v' →
  ∃ s', exec 0 L_for_setup s = Dispatch1 s' ∧
        sp s' = sp s + 2 ∧
        load_ov s' (sp s) = None ∧
        load_i s' (sp s) = Some n ∧
        load_i s' (sp s + 1) = Some (-1) ∧
        (n = 0 → is_defined v' = true → written_through lhs_ov slot v' s').
Proof.
  intros Htop Hcount [Hsp Hroom] Hslot Hlhs Haddr Hst.
  rewrite (exec_0 _ for_setup) by done.
  unfold for_setup. rewrite Htop. cbn. rewrite Hcount. cbn.
  set (s1 := for_setup_warn (is_range v) v' (poke (sp s - 1) (se_ov v') s)).
  assert (Hs1 : sp s1 = sp s ∧ bsp s1 = bsp s ∧ ip s1 = ip s ∧
                arg0 s1 = arg0 s ∧ code_mem s1 = code_mem s ∧
                stack_mem s1 = store (sp s - 1) (se_ov v') (stack_mem s)).
  { unfold s1, for_setup_warn.
    destruct (negb _ && _); [|done]. destruct v'; try done.
    by destruct (isinf _ || isinf _). }
  destruct Hs1 as (E1 & E2 & E3 & E4 & E5 & E6).
  set (s2 := push (se_i (-1)) (push (se_i n) s1)).
  assert (Hlen : length (stack_mem s2) = length (stack_mem s)).
  { unfold s2, push. cbn. rewrite !length_store, E6, length_store. done. }
  assert (Hn : load (stack_mem s2) (sp s) = Some (se_i n)).
  { unfold s2, push. cbn. rewrite E1.
    rewrite load_store_ne by lia. apply load_store_eq.
    rewrite E6, length_store. lia. }
  assert (Hc : load (stack_mem s2) (sp s + 1) = Some (se_i (-1))).
  { unfold s2, push. cbn. rewrite E1. apply load_store_eq.
    rewrite length_store, E6, length_store. lia. }
  assert (Hslot2 : load_slot s2 slot = Some lhs_ov).
  { unfold load_slot, load_ov, slot_addr in *. unfold s2, push. cbn.
    rewrite E1, E2, E6. rewrite !load_store_ne by lia. done. }
  assert (Hfs : for_setup_slot s2 = Some slot).
  { unfold for_setup_slot, code_at in *. unfold s2, push. cbn.
    rewrite E3, E4, E5. done. }
  destruct (bool_decide (n = 0) && is_defined v') eqn:Hz; cbn.
  - rewrite Hfs. cbn. fold s2. rewrite Hslot2. cbn.
    rewrite Hst. cbn. eexists. split; [reflexivity|].
    assert (Hw : written_through lhs_ov slot v' (assign_slot slot lhs_ov v' s2))
      by by apply written_through_assign_slot.
    rewrite sp_assign_slot.
    assert (Hmem : ∀ p, p ≠ slot_addr s slot →
              load (stack_mem (assign_slot slot lhs_ov v' s2)) p
              = load (stack_mem s2) p).
    { intros p Hp. destruct lhs_ov; cbn; try done;
        apply load_store_ne; unfold slot_addr in *; cbn; rewrite E2; lia. }
    split; [unfold s2, push; cbn; rewrite E1; lia|].
    unfold load_ov, load_i. rewrite !Hmem by lia. rewrite Hn, Hc. done.
  - eexists. split; [reflexivity|]. fold s2.
    split; [unfold s2, push; cbn; rewrite E1; lia|].
    unfold load_ov, load_i. rewrite Hn, Hc. cbn.
    repeat split; try done.
    intros -> Hd. rewrite Hd in Hz. done.
Qed.

End for_setup_facts.

Section for_setup_examples.
Import small_host.

(** C3, the code at the failing input: an array of 2^32 rows and one
    column.  The row count is read into an [int], which is 0: the iteration
    count is 0 and not the one column, and the array is assigned to the
    loop variable as if it were empty. *)
Theorem for_setup_row_count_is_truncated (elems : list double) :
  let m := val_matrix [4294967296; 1] elems in
  rows m ≠ 0 ∧ columns m = 1 ∧
  for_setup_count m = Some (m, 0) ∧
  ∃ s', exec 0 L_for_setup (at_for_setup m) = Dispatch1 s' ∧
        load_i s' (sp s' - 2) = Some 0 ∧
        load_i s' (sp s' - 1) = Some (-1) ∧
        load_slot s' 1 = Some m.
Proof.
  intros m. split; [by vm_compute|]. split; [reflexivity|].
  split; [reflexivity|].
  eexists. split; [vm_compute; reflexivity|]. repeat split.
Qed.

(** The boundary cases of section 8: a 0x3 cell and a 3x0 matrix give zero
    iterations, a scalar gives one. *)
Lemma for_setup_boundary_cases :
  for_setup_count (new_Cell 0 3) = Some (new_Cell 0 3, 0) ∧
  for_setup_count (val_matrix [3; 0] []) = Some (val_matrix [3; 0] [], 0) ∧
  for_setup_count (val_scalar seven) = Some (val_scalar seven, 1).
Proof. repeat split. Qed.

End for_setup_examples.

(** ** Multi-target assignment: ASSIGNN *)

Section assign_n_examples.
Import small_host.

(** C4, the code at the failing inputs.  In [function [a, b] = g ()] called
    as [[x, ~] = g ()], IGNORED is [2]: the second output [b], the return
    slot 2, is ignored.  ASSIGNN of an undefined value to [b] looks up
    [n_returns - 1 - slot], that is 0, in IGNORED, finds nothing, and
    raises "element number 2 undefined in return list", where the output
    index 2 of the position is in IGNORED.  The other way round, in
    [function [a, b, c] = g ()] called as [[~, y, z] = g ()], an undefined
    value for [b] is accepted, because the lookup is that of 1, though the
    output index 2 is not in IGNORED. *)
Theorem assign_n_refuses_ignored_output :
  (let s := at_assign_n_outputs 3 (val_matrix [1; 1] [two]) in
   N_RETURNS s = Some 3 ∧ name_at s 2 = Some "b" ∧
   load_ov s (sp s - 2) = Some val_undef ∧
   output_index_ignored s 2 = true ∧
   ∃ s', exec 0 L_assign_n s = Unwind s' ∧
         signalled s' EXECUTION_EXC ∧
         load (stack_mem s') (sp s' - 2) =
           Some (se_pee (mk_execution_exception "error" ""
                           "element number 2 undefined in return list")))
  ∧
  (let s := at_assign_n_outputs 4 (val_matrix [1; 1] [dbl_one]) in
   N_RETURNS s = Some 4 ∧ name_at s 2 = Some "b" ∧
   load_ov s (sp s - 2) = Some val_undef ∧
   output_index_ignored s 2 = false ∧
   ∃ s', exec 0 L_assign_n s = Dispatch s' ∧ sp s' = sp s - 2 ∧
         load_slot s' 1 = Some (val_scalar dbl_one) ∧
         load_slot s' 2 = Some val_undef).
Proof.
  split.
  - split; [reflexivity|]. split; [reflexivity|]. split; [reflexivity|].
    split; [vm_compute; reflexivity|].
    eexists. split; [vm_compute; reflexivity|]. split; reflexivity.
  - split; [reflexivity|]. split; [reflexivity|]. split; [reflexivity|].
    split; [vm_compute; reflexivity|].
    eexists. split; [vm_compute; reflexivity|].
    split; [reflexivity|]. split; reflexivity.
Qed.

End assign_n_examples.

(** ** Proof steps for the handlers *)

(** Simplification that leaves the pointer arithmetic and the clauses
    as they are written. *)
Ltac hcbn :=
  cbn -[catch STACK_DESTROY Z.to_nat Z.add Z.sub Z.mul dbl_one dbl_sub
        dbl_to_idx idx_to_dbl dbl_of_Z].

(** The decisions whose proposition is settled at once. *)
Ltac settle := first [ done | lia | congruence | (intros ?; done)
                     | (intros ?; lia) | (intros ?; congruence) ].
Ltac decided :=
  repeat first
    [ rewrite bool_decide_eq_true_2 by settle
    | rewrite bool_decide_eq_false_2 by settle
    | rewrite decide_True by settle
    | rewrite decide_False by settle ].

(** ** Indexed assignment: SUBASSIGN_ID_MAT_1D and SUBASSIGN_ID_MAT_2D *)

Section subassign_facts.
Context {host : host_ops}.
Implicit Types (s : vm) (rhs arg mat : octave_value).

Lemma set_ip_ip s : set_ip (ip s) s = s.
Proof. by destruct s. Qed.

Lemma set_ip_set_ip x y s : set_ip x (set_ip y s) = set_ip x s.
Proof. done. Qed.

Lemma load_ovs_ext s s' p n :
  stack_mem s = stack_mem s' → load_ovs s p n = load_ovs s' p n.
Proof.
  intros H. revert p. induction n as [|n IH]; intros p; cbn; [done|].
  unfold load_ov. rewrite H.
  destruct (load (stack_mem s') p ≫= as_ov); cbn; [|done].
  by rewrite IH.
Qed.

Lemma load_ovs_1 s p v : load_ov s p = Some v → load_ovs s p 1 = Some [v].
Proof. intros H. cbn. rewrite H. done. Qed.

Lemma load_ovs_2 s p v w :
  load_ov s p = Some v → load_ov s (p + 1) = Some w →
  load_ovs s p 2 = Some [v; w].
Proof. intros H1 H2. cbn. rewrite H1. cbn. rewrite H2. done. Qed.

(** The generic handler when it was sent back to by the specialization
    for one index: it does not go back, and has the host assign. *)
Lemma subassign_id_sent_back_1d s val idx_dbl dv elems :
  TOP_OV s = Some (val_scalar val) →
  SEC_OV s = Some (val_scalar idx_dbl) →
  load_slot s (arg0 s) = Some (val_matrix dv elems) →
  code_at s (ip s) = Some 1 →
  code_at s (ip s - 2 + wide_opcode_offset (arg0 s))
    = Some (opcode_of SUBASSIGN_ID_MAT_1D) →
  subassign_id s =
    try_call (catch_all_with_name (arg0 s)) (set_ip (ip s + 1) s)
      (simple_subsasgn (val_matrix dv elems) [val_scalar idx_dbl]
         (val_scalar val))
      (fun ov s1 => Dispatch (STACK_DESTROY 2 (store_slot (arg0 s) ov s1))).
Proof.
  intros Htop Hsec Hslot Hn Hop.
  unfold subassign_id. rewrite Hn. hcbn.
  change (TOP_OV (set_ip (ip s + 1) s)) with (TOP_OV s). rewrite Htop. hcbn.
  rewrite (load_ovs_1 _ _ (val_scalar idx_dbl)); last first.
  { unfold SEC_OV in Hsec. rewrite <- Hsec. unfold load_ov. hcbn.
    do 2 f_equal. lia. }
  hcbn.
  change (load_slot (set_ip (ip s + 1) s) (arg0 s)) with (load_slot s (arg0 s)).
  rewrite Hslot. hcbn.
  replace (ip s + 1 - 3 + wide_opcode_offset (arg0 s))
    with (ip s - 2 + wide_opcode_offset (arg0 s)) by lia.
  change (code_at (set_ip (ip s + 1) s)) with (code_at s).
  rewrite Hop. hcbn. decided. hcbn. decided. reflexivity.
Qed.

(** The state after [ip++] and [ip -= 1]. *)
Lemma set_ip_back s : set_ip (ip s + 1 - 1) (set_ip (ip s + 1) s) = s.
Proof.
  destruct s as [a0 sp0 ip0 ? ? ? ? ? ? ? ? ? ?]. unfold set_ip.
  cbn [arg0 sp ip bsp rsp code data name_data unwind_data stack_mem
         code_mem name_mem m_tw].
  f_equal. lia.
Qed.

Lemma mat_1d_mismatch s rhs arg mat :
  TOP_OV s = Some rhs → SEC_OV s = Some arg →
  load_slot s (arg0 s) = Some mat →
  type_id rhs ≠ t_scalar ∨ type_id mat ≠ t_matrix ∨ type_id arg ≠ t_scalar →
  subassign_id_mat_1d s =
    Goto L_subassign_id
      (code_write (ip s - 2 + wide_opcode_offset (arg0 s))
         (opcode_of SUBASSIGN_ID) s).
Proof.
  intros Htop Hsec Hslot Hty. unfold subassign_id_mat_1d.
  change (TOP_OV (set_ip (ip s + 1) s)) with (TOP_OV s).
  change (SEC_OV (set_ip (ip s + 1) s)) with (SEC_OV s).
  change (load_slot (set_ip (ip s + 1) s) (arg0 s)) with (load_slot s (arg0 s)).
  rewrite Htop, Hsec, Hslot. hcbn.
  assert (Hc : bool_decide (type_id rhs ≠ m_scalar_typeid) ||
               bool_decide (type_id mat ≠ m_matrix_typeid) ||
               bool_decide (type_id arg ≠ m_scalar_typeid) = true).
  { destruct Hty as [H|[H|H]]; rewrite (bool_decide_eq_true_2 _ H);
      by rewrite ?orb_true_r. }
  rewrite Hc. rewrite set_ip_back.
  do 2 f_equal. lia.
Qed.

Lemma mat_1d_scalars s val idx_dbl dv elems :
  TOP_OV s = Some (val_scalar val) →
  SEC_OV s = Some (val_scalar idx_dbl) →
  load_slot s (arg0 s) = Some (val_matrix dv elems) →
  subassign_id_mat_1d s =
    if index_in_bounds idx_dbl (dv_numel dv)
    then Dispatch (STACK_DESTROY 2
           (store_slot (arg0 s)
              (val_matrix dv (store (index0 idx_dbl) val elems))
              (set_ip (ip s + 1) s)))
    else Goto L_subassign_id s.
Proof.
  intros Htop Hsec Hslot. unfold subassign_id_mat_1d.
  change (TOP_OV (set_ip (ip s + 1) s)) with (TOP_OV s).
  change (SEC_OV (set_ip (ip s + 1) s)) with (SEC_OV s).
  change (load_slot (set_ip (ip s + 1) s) (arg0 s)) with (load_slot s (arg0 s)).
  rewrite Htop, Hsec, Hslot. hcbn. decided. hcbn.
  rewrite set_ip_back.
  unfold index_in_bounds, index0, dbl_neb, dbl_eqb.
  destruct (SFeqb _ _); repeat case_bool_decide; hcbn; try lia; done.
Qed.

(** The generic handler goes to a specialization only when all the types
    fit. *)
Lemma subassign_id_Goto s l' s' :
  subassign_id s = Goto l' s' →
  ∃ nargs args rhs mat,
    code_at s (ip s) = Some nargs ∧ TOP_OV s = Some rhs ∧
    load_ovs s (sp s - 1 - nargs) (Z.to_nat nargs) = Some args ∧
    load_slot s (arg0 s) = Some mat ∧
    all_of_type t_scalar args = true ∧
    type_id mat = t_matrix ∧ type_id rhs = t_scalar.
Proof.
  unfold subassign_id.
  destruct (code_at s (ip s)) as [nargs|]; [|done]. hcbn.
  change (TOP_OV (set_ip (ip s + 1) s)) with (TOP_OV s).
  destruct (TOP_OV s) as [rhs|]; [|done]. hcbn.
  rewrite (load_ovs_ext (set_ip (ip s + 1) s) s) by done.
  destruct (load_ovs _ _ _) as [args|] eqn:Hargs; [|done]. hcbn.
  change (load_slot (set_ip (ip s + 1) s) (arg0 s)) with (load_slot s (arg0 s)).
  destruct (load_slot s (arg0 s)) as [mat|]; [|done]. hcbn.
  destruct (_ && _ && _ && _) eqn:Hc.
  - intros _. exists nargs, args, rhs, mat.
    apply andb_true_iff in Hc as [Hc H4].
    apply andb_true_iff in Hc as [Hc H3].
    apply andb_true_iff in Hc as [_ H2].
    apply bool_decide_eq_true_1 in H3, H4. done.
  - hcbn.
    destruct (is_cs_list rhs); [destruct (list_value rhs)|]; try done;
      unfold try_call; destruct (fst (simple_subsasgn _ _ _ _)); try done;
      intros H; by apply catch_not_Goto in H.
Qed.

Lemma code_at_code_write_ne s p q b :
  p ≠ q → code_at (code_write p b s) q = code_at s q.
Proof. intros. unfold code_at, code_write. cbn. by apply load_store_ne. Qed.

Lemma code_at_code_write_eq s p b :
  0 ≤ p < Z.of_nat (length (code_mem s)) →
  code_at (code_write p b s) p = Some b.
Proof. intros. unfold code_at, code_write. cbn. by apply load_store_eq. Qed.

Lemma wide_opcode_offset_cases slot :
  wide_opcode_offset slot = 0 ∨ wide_opcode_offset slot = -1.
Proof. unfold wide_opcode_offset. destruct (decide _); auto. Qed.

(** After the specialization for one index has rewritten its opcode, the
    generic handler stays. *)
Lemma mat_1d_mismatch_stays s rhs arg mat l' s' :
  TOP_OV s = Some rhs → SEC_OV s = Some arg →
  load_slot s (arg0 s) = Some mat →
  code_at s (ip s) = Some 1 →
  type_id rhs ≠ t_scalar ∨ type_id mat ≠ t_matrix ∨ type_id arg ≠ t_scalar →
  subassign_id (code_write (ip s - 2 + wide_opcode_offset (arg0 s))
                  (opcode_of SUBASSIGN_ID) s) ≠ Goto l' s'.
Proof.
  intros Htop Hsec Hslot Hn Hty H.
  apply subassign_id_Goto in H
    as (nargs & args & rhs' & mat' & H1 & H2 & H3 & H4 & H5 & H6 & H7).
  revert H1 H2 H3 H4.
  set (s1 := code_write _ _ s).
  change (TOP_OV s1) with (TOP_OV s).
  change (load_slot s1 (arg0 s1)) with (load_slot s (arg0 s)).
  rewrite (load_ovs_ext s1 s) by done.
  change (ip s1) with (ip s). change (sp s1) with (sp s).
  unfold s1. rewrite code_at_code_write_ne
    by (destruct (wide_opcode_offset_cases (arg0 s)) as [-> | ->]; lia).
  intros H1 H2 H3 H4.
  rewrite Htop in H2. rewrite Hslot in H4. rewrite Hn in H1.
  injection H1 as <-. injection H2 as <-. injection H4 as <-.
  change (Z.to_nat 1) with 1%nat in H3. cbn [load_ovs] in H3.
  replace (sp s - 1 - 1) with (sp s - 2) in H3 by lia.
  unfold SEC_OV in Hsec. rewrite Hsec in H3. cbn in H3.
  injection H3 as <-. cbn in H5. rewrite andb_true_r in H5.
  apply bool_decide_eq_true_1 in H5.
  destruct Hty as [?|[?|?]]; done.
Qed.

Lemma mat_2d_mismatch s rhs arg1 arg2 mat :
  TOP_OV s = Some rhs → SEC_OV s = Some arg2 → THIRD_OV s = Some arg1 →
  load_slot s (arg0 s) = Some mat →
  type_id rhs ≠ t_scalar ∨ type_id mat ≠ t_matrix ∨
  type_id arg2 ≠ t_scalar ∨ type_id arg1 ≠ type_id arg2 →
  subassign_id_mat_2d s =
    Goto L_subassign_id
      (code_write (ip s - 2 + wide_opcode_offset (arg0 s))
         (opcode_of SUBASSIGN_ID) s).
Proof.
  intros Htop Hsec Hthird Hslot Hty. unfold subassign_id_mat_2d.
  change (TOP_OV (set_ip (ip s + 1) s)) with (TOP_OV s).
  change (SEC_OV (set_ip (ip s + 1) s)) with (SEC_OV s).
  change (THIRD_OV (set_ip (ip s + 1) s)) with (THIRD_OV s).
  change (load_slot (set_ip (ip s + 1) s) (arg0 s)) with (load_slot s (arg0 s)).
  rewrite Htop, Hsec, Hthird, Hslot. hcbn.
  assert (Hc : bool_decide (type_id rhs ≠ m_scalar_typeid) ||
               bool_decide (type_id mat ≠ m_matrix_typeid) ||
               bool_decide (type_id arg2 ≠ m_scalar_typeid) ||
               bool_decide (type_id arg1 ≠ type_id arg2) = true).
  { destruct Hty as [H|[H|[H|H]]]; rewrite (bool_decide_eq_true_2 _ H);
      by rewrite ?orb_true_r. }
  rewrite Hc. rewrite set_ip_back.
  do 2 f_equal. lia.
Qed.

Lemma mat_2d_scalars s val idx1_dbl idx2_dbl dv elems :
  TOP_OV s = Some (val_scalar val) →
  SEC_OV s = Some (val_scalar idx2_dbl) →
  THIRD_OV s = Some (val_scalar idx1_dbl) →
  load_slot s (arg0 s) = Some (val_matrix dv elems) →
  subassign_id_mat_2d s =
    if index_in_bounds idx1_dbl (dv_rows dv) &&
       index_in_bounds idx2_dbl (dv_cols dv) &&
       bool_decide (dv_ndims dv = 2)
    then Dispatch (STACK_DESTROY 3
           (store_slot (arg0 s)
              (val_matrix dv
                 (store (index0 idx1_dbl + dv_rows dv * index0 idx2_dbl)
                    val elems))
              (set_ip (ip s + 1) s)))
    else Goto L_subassign_id s.
Proof.
  intros Htop Hsec Hthird Hslot. unfold subassign_id_mat_2d.
  change (TOP_OV (set_ip (ip s + 1) s)) with (TOP_OV s).
  change (SEC_OV (set_ip (ip s + 1) s)) with (SEC_OV s).
  change (THIRD_OV (set_ip (ip s + 1) s)) with (THIRD_OV s).
  change (load_slot (set_ip (ip s + 1) s) (arg0 s)) with (load_slot s (arg0 s)).
  rewrite Htop, Hsec, Hthird, Hslot. hcbn. decided. hcbn.
  rewrite set_ip_back.
  unfold index_in_bounds, index0, dbl_neb, dbl_eqb.
  destruct (SFeqb _ _), (SFeqb _ _); repeat case_bool_decide; hcbn;
    try lia; done.
Qed.

(** The generic handler when it was sent back to by the specialization
    for two indices. *)
Lemma subassign_id_sent_back_2d s val idx1_dbl idx2_dbl dv elems :
  TOP_OV s = Some (val_scalar val) →
  SEC_OV s = Some (val_scalar idx2_dbl) →
  THIRD_OV s = Some (val_scalar idx1_dbl) →
  load_slot s (arg0 s) = Some (val_matrix dv elems) →
  code_at s (ip s) = Some 2 →
  code_at s (ip s - 2 + wide_opcode_offset (arg0 s))
    = Some (opcode_of SUBASSIGN_ID_MAT_2D) →
  subassign_id s =
    try_call (catch_all_with_name (arg0 s)) (set_ip (ip s + 1) s)
      (simple_subsasgn (val_matrix dv elems)
         [val_scalar idx1_dbl; val_scalar idx2_dbl] (val_scalar val))
      (fun ov s1 => Dispatch (STACK_DESTROY 3 (store_slot (arg0 s) ov s1))).
Proof.
  intros Htop Hsec Hthird Hslot Hn Hop.
  unfold subassign_id. rewrite Hn. hcbn.
  change (TOP_OV (set_ip (ip s + 1) s)) with (TOP_OV s). rewrite Htop. hcbn.
  rewrite (load_ovs_2 _ _ (val_scalar idx1_dbl) (val_scalar idx2_dbl));
    last first.
  { unfold SEC_OV in Hsec. rewrite <- Hsec. unfold load_ov. hcbn.
    do 2 f_equal. lia. }
  { unfold THIRD_OV in Hthird. rewrite <- Hthird. unfold load_ov. hcbn.
    do 2 f_equal. lia. }
  hcbn.
  change (load_slot (set_ip (ip s + 1) s) (arg0 s)) with (load_slot s (arg0 s)).
  rewrite Hslot. hcbn.
  replace (ip s + 1 - 3 + wide_opcode_offset (arg0 s))
    with (ip s - 2 + wide_opcode_offset (arg0 s)) by lia.
  change (code_at (set_ip (ip s + 1) s)) with (code_at s).
  rewrite Hop. hcbn. decided. hcbn. decided. reflexivity.
Qed.

Lemma mat_2d_mismatch_stays s rhs arg1 arg2 mat l' s' :
  TOP_OV s = Some rhs → SEC_OV s = Some arg2 → THIRD_OV s = Some arg1 →
  load_slot s (arg0 s) = Some mat →
  code_at s (ip s) = Some 2 →
  type_id rhs ≠ t_scalar ∨ type_id mat ≠ t_matrix ∨
  type_id arg2 ≠ t_scalar ∨ type_id arg1 ≠ type_id arg2 →
  subassign_id (code_write (ip s - 2 + wide_opcode_offset (arg0 s))
                  (opcode_of SUBASSIGN_ID) s) ≠ Goto l' s'.
Proof.
  intros Htop Hsec Hthird Hslot Hn Hty H.
  apply subassign_id_Goto in H
    as (nargs & args & rhs' & mat' & H1 & H2 & H3 & H4 & H5 & H6 & H7).
  revert H1 H2 H3 H4.
  set (s1 := code_write _ _ s).
  change (TOP_OV s1) with (TOP_OV s).
  change (load_slot s1 (arg0 s1)) with (load_slot s (arg0 s)).
  rewrite (load_ovs_ext s1 s) by done.
  change (ip s1) with (ip s). change (sp s1) with (sp s).
  unfold s1. rewrite code_at_code_write_ne
    by (destruct (wide_opcode_offset_cases (arg0 s)) as [-> | ->]; lia).
  intros H1 H2 H3 H4.
  rewrite Htop in H2. rewrite Hslot in H4. rewrite Hn in H1.
  injection H1 as <-. injection H2 as <-. injection H4 as <-.
  change (Z.to_nat 2) with 2%nat in H3. cbn [load_ovs] in H3.
  replace (sp s - 1 - 2 + 1) with (sp s - 2) in H3 by lia.
  replace (sp s - 1 - 2) with (sp s - 3) in H3 by lia.
  unfold SEC_OV in Hsec. unfold THIRD_OV in Hthird.
  rewrite Hthird in H3. cbn in H3. rewrite Hsec in H3. cbn in H3.
  injection H3 as <-. cbn in H5. rewrite andb_true_r in H5.
  apply andb_true_iff in H5 as [H5 H5'].
  apply bool_decide_eq_true_1 in H5, H5'.
  destruct Hty as [?|[?|[?|?]]]; try done. congruence.
Qed.

(** A specialization that goes to the generic handler: the generic
    handler runs next. *)
Lemma exec_goto_generic l h s s1 :
  handler l = Some h → h s = Goto L_subassign_id s1 →
  exec 1 l s = subassign_id s1.
Proof.
  intros Hh Hg.
  change (exec 1 l s) with
    (match handler l with
     | None => Goto l s
     | Some h => match h s with
                 | Goto l' s' => exec 0 l' s'
                 | o => o
                 end
     end).
  rewrite Hh, Hg. by apply exec_0.
Qed.

Lemma exec_Dispatch n l h s s' :
  handler l = Some h → h s = Dispatch s' → exec n l s = Dispatch s'.
Proof. intros Hh Hd. destruct n; cbn [exec]; by rewrite Hh, Hd. Qed.

Lemma rewritten_to_generic s b :
  code_at s (ip s - 2 + wide_opcode_offset (arg0 s)) = Some b →
  let s1 := code_write (ip s - 2 + wide_opcode_offset (arg0 s))
              (opcode_of SUBASSIGN_ID) s in
  code_at s1 (ip s1 - 2 + wide_opcode_offset (arg0 s1))
    = Some (opcode_of SUBASSIGN_ID).
Proof.
  intros H%load_Some_lt s1. by apply code_at_code_write_eq.
Qed.

(** C5, as the handlers have it.  SUBASSIGN_ID_MAT_1D and
    SUBASSIGN_ID_MAT_2D run on a right-hand side, [nargs] indices (one or
    two) and a slot.  When the right-hand side and all the indices are real
    scalars, the slot holds a full real matrix and the indices denote an
    element of it ([in_place_element]: integers in bounds, and two
    dimensions for two indices), the element is written in place and the
    operands are destroyed.  When the types fit but the indices denote no
    such element (out of bound, not an integer), the generic handler has
    the host assign, and the opcode byte is left as it is: the handler has
    not rewritten itself.  Only when a type does not fit is the opcode byte
    rewritten to SUBASSIGN_ID; the generic handler then runs on the
    rewritten code and does not go back. *)
Theorem subassign_id_mat_cases (s : vm) (nargs : Z)
    (rhs mat : octave_value) (args : list octave_value) :
  nargs = 1 ∨ nargs = 2 →
  code_at s (ip s) = Some nargs →
  code_at s (ip s - 2 + wide_opcode_offset (arg0 s))
    = Some (opcode_of (subassign_id_mat nargs)) →
  TOP_OV s = Some rhs →
  load_ovs s (sp s - 1 - nargs) (Z.to_nat nargs) = Some args →
  load_slot s (arg0 s) = Some mat →
  let l := instr (subassign_id_mat nargs) in
  let s1 := code_write (ip s - 2 + wide_opcode_offset (arg0 s))
              (opcode_of SUBASSIGN_ID) s in
  match rhs, mat, double_values args with
  | val_scalar val, val_matrix dv elems, Some idxs =>
      match in_place_element dv idxs with
      | Some k =>
          exec 1 l s =
            Dispatch (STACK_DESTROY (Z.to_nat (nargs + 1))
              (store_slot (arg0 s) (val_matrix dv (store k val elems))
                 (set_ip (ip s + 1) s)))
      | None =>
          exec 1 l s =
            try_call (catch_all_with_name (arg0 s)) (set_ip (ip s + 1) s)
              (simple_subsasgn mat args rhs)
              (fun ov s1 => Dispatch (STACK_DESTROY (Z.to_nat (nargs + 1))
                              (store_slot (arg0 s) ov s1)))
      end
  | _, _, _ =>
      exec 1 l s = subassign_id s1 ∧
      code_at s1 (ip s1 - 2 + wide_opcode_offset (arg0 s1))
        = Some (opcode_of SUBASSIGN_ID) ∧
      ∀ l' s', subassign_id s1 ≠ Goto l' s'
  end.
Proof.
  intros [-> | ->] Hn Hop Htop Hargs Hslot l s1.
  - (* one index *)
    change (Z.to_nat 1) with 1%nat in Hargs. cbn [load_ovs] in Hargs.
    replace (sp s - 1 - 1) with (sp s - 2) in Hargs by lia.
    destruct (load_ov s (sp s - 2)) as [arg|] eqn:Hsec; [|done].
    cbn in Hargs. injection Hargs as <-.
    change (load_ov s (sp s - 2)) with (SEC_OV s) in Hsec.
    assert (Hl : handler l = Some subassign_id_mat_1d) by done.
    destruct (decide (type_id rhs = t_scalar)) as [Hr|Hr];
      [destruct (decide (type_id mat = t_matrix)) as [Hm|Hm];
       [destruct (decide (type_id arg = t_scalar)) as [Ha|Ha]|]|].
    1: { destruct rhs; try done. destruct mat; try done.
         destruct arg; try done. cbn [double_values fmap option_fmap option_map in_place_element].
         pose proof (mat_1d_scalars _ _ _ _ _ Htop Hsec Hslot) as E.
         destruct (index_in_bounds _ _).
         - by apply (exec_Dispatch _ _ _ _ _ Hl).
         - rewrite (exec_goto_generic _ _ _ _ Hl E).
           by apply subassign_id_sent_back_1d. }
    all: assert (Hty : type_id rhs ≠ t_scalar ∨ type_id mat ≠ t_matrix ∨
                       type_id arg ≠ t_scalar) by tauto.
    all: assert (P : exec 1 l s = subassign_id s1 ∧
                code_at s1 (ip s1 - 2 + wide_opcode_offset (arg0 s1))
                  = Some (opcode_of SUBASSIGN_ID) ∧
                ∀ l' s', subassign_id s1 ≠ Goto l' s')
      by (split; [apply (exec_goto_generic _ _ _ _ Hl);
                  by eapply mat_1d_mismatch|];
          split; [by eapply rewritten_to_generic|];
          intros l' s'; by eapply mat_1d_mismatch_stays).
    all: destruct rhs; try exact P; destruct mat; try exact P;
         destruct arg; try exact P; done.
  - (* two indices *)
    change (Z.to_nat 2) with 2%nat in Hargs. cbn [load_ovs] in Hargs.
    replace (sp s - 1 - 2 + 1) with (sp s - 2) in Hargs by lia.
    replace (sp s - 1 - 2) with (sp s - 3) in Hargs by lia.
    destruct (load_ov s (sp s - 3)) as [arg1|] eqn:Hthird; [|done].
    cbn in Hargs.
    destruct (load_ov s (sp s - 2)) as [arg2|] eqn:Hsec; [|done].
    cbn in Hargs. injection Hargs as <-.
    change (load_ov s (sp s - 2)) with (SEC_OV s) in Hsec.
    change (load_ov s (sp s - 3)) with (THIRD_OV s) in Hthird.
    assert (Hl : handler l = Some subassign_id_mat_2d) by done.
    destruct (decide (type_id rhs = t_scalar)) as [Hr|Hr];
      [destruct (decide (type_id mat = t_matrix)) as [Hm|Hm];
       [destruct (decide (type_id arg2 = t_scalar)) as [Ha|Ha];
        [destruct (decide (type_id arg1 = type_id arg2)) as [Hb|Hb]|]|]|].
    1: { destruct rhs; try done. destruct mat; try done.
         destruct arg2; try done. destruct arg1; try done.
         cbn [double_values fmap option_fmap option_map in_place_element].
         pose proof (mat_2d_scalars _ _ _ _ _ _ Htop Hsec Hthird Hslot) as E.
         destruct (_ && _ && _).
         - by apply (exec_Dispatch _ _ _ _ _ Hl).
         - rewrite (exec_goto_generic _ _ _ _ Hl E).
           by apply subassign_id_sent_back_2d. }
    all: assert (Hty : type_id rhs ≠ t_scalar ∨ type_id mat ≠ t_matrix ∨
                       type_id arg2 ≠ t_scalar ∨
                       type_id arg1 ≠ type_id arg2) by tauto.
    all: assert (P : exec 1 l s = subassign_id s1 ∧
                code_at s1 (ip s1 - 2 + wide_opcode_offset (arg0 s1))
                  = Some (opcode_of SUBASSIGN_ID) ∧
                ∀ l' s', subassign_id s1 ≠ Goto l' s')
      by (split; [apply (exec_goto_generic _ _ _ _ Hl);
                  by eapply mat_2d_mismatch|];
          split; [by eapply rewritten_to_generic|];
          intros l' s'; by eapply mat_2d_mismatch_stays).
    all: destruct rhs; try exact P; destruct mat; try exact P;
         destruct arg1; try exact P; destruct arg2; try exact P; done.
Qed.

End subassign_facts.

Section subassign_examples.
Import small_host.

(** The theorem at [x (2) = 7] for [x = [1 2 3]]: the second element is
    written in place. *)
Lemma subassign_id_mat_cases_witness :
  let s := at_subassign SUBASSIGN_ID_MAT_1D one_two_three
             (val_scalar two) (val_scalar seven) in
  ((1 = 1 ∨ 1 = 2) ∧
   code_at s (ip s) = Some 1 ∧
   code_at s (ip s - 2 + wide_opcode_offset (arg0 s))
     = Some (opcode_of (subassign_id_mat 1)) ∧
   TOP_OV s = Some (val_scalar seven) ∧
   load_ovs s (sp s - 1 - 1) (Z.to_nat 1) = Some [val_scalar two] ∧
   load_slot s (arg0 s) = Some one_two_three) ∧
  exec 1 L_subassign_id_mat_1d s =
    Dispatch (STACK_DESTROY 2
      (store_slot 1 (val_matrix [1; 3] [dbl_one; seven; three])
         (set_ip 3 s))).
Proof.
  intros s.
  assert (H1 : 1 = 1 ∨ 1 = 2) by (left; reflexivity).
  assert (H2 : code_at s (ip s) = Some 1) by reflexivity.
  assert (H3 : code_at s (ip s - 2 + wide_opcode_offset (arg0 s))
               = Some (opcode_of (subassign_id_mat 1))) by reflexivity.
  assert (H4 : TOP_OV s = Some (val_scalar seven)) by reflexivity.
  assert (H5 : load_ovs s (sp s - 1 - 1) (Z.to_nat 1)
               = Some [val_scalar two]) by reflexivity.
  assert (H6 : load_slot s (arg0 s) = Some one_two_three) by reflexivity.
  split; [done|].
  exact (subassign_id_mat_cases s 1 _ _ _ H1 H2 H3 H4 H5 H6).
Defined.

(** The claim as the specification has it fails at [x (5) = 7] for
    [x = [1 2 3]]: the index is out of bound, the generic handler has the
    host assign (the vector grows), and the opcode byte is still that of
    SUBASSIGN_ID_MAT_1D: the handler has not rewritten itself back to
    SUBASSIGN_ID. *)
Lemma subassign_id_mat_1d_out_of_bound_keeps_opcode :
  let s := at_subassign SUBASSIGN_ID_MAT_1D one_two_three
             (val_scalar (dbl_of_Z 5)) (val_scalar seven) in
  index_in_bounds (dbl_of_Z 5) 3 = false ∧
  ∃ s', exec 1 L_subassign_id_mat_1d s = Dispatch s' ∧
        load_slot s' 1 =
          Some (val_matrix [1; 5]
                  [dbl_one; two; three; dbl_of_Z 0; seven]) ∧
        code_at s' 0 = Some (opcode_of SUBASSIGN_ID_MAT_1D) ∧
        code_at s' 0 ≠ Some (opcode_of SUBASSIGN_ID).
Proof.
  intros s. split; [vm_compute; reflexivity|].
  eexists. split; [vm_compute; reflexivity|].
  split; [vm_compute; reflexivity|]. split; [reflexivity|].
  intros H. vm_compute in H. discriminate H.
Qed.

End subassign_examples.

(** ** Indexing: INDEX_ID1_MAT_1D *)

Section index_facts.
Context {host : host_ops}.
Implicit Types (s : vm) (mat : octave_value).

Lemma store_store {A : Type} (m : list A) p x y :
  store p x (store p y m) = store p x m.
Proof. unfold store. destruct (decide _); [|done]. apply list_insert_insert_eq. Qed.

Lemma store_load {A : Type} (m : list A) p x :
  load m p = Some x → store p x m = m.
Proof.
  unfold load, store. destruct (decide _); [|done]. apply list_insert_id.
Qed.

(** Writing the generic opcode and then the specialized one gives the
    code back that has the specialized opcode. *)
Lemma code_write_back s p b c :
  code_at s p = Some b → code_write p b (code_write p c s) = s.
Proof.
  intros H. destruct s as [? ? ? ? ? ? ? ? ? ? cm ? ?].
  unfold code_write, code_at, set_code_mem in *. cbn in *.
  rewrite store_store, (store_load _ _ _ H). done.
Qed.

(** An index that is not an integer: the specialization signals the
    index error itself. *)
Lemma index_id1_mat_1d_invalid s idx_double mat name :
  TOP_OV s = Some (val_scalar idx_double) →
  SEC_OV s = Some mat →
  is_full_num_matrix mat = true →
  dbl_neb (idx_to_dbl (dbl_to_idx idx_double)) idx_double = true →
  name_at s (arg0 s) = Some name →
  index_id1_mat_1d s =
    Unwind (push (se_err INDEX_ERROR)
              (push (se_pie (mk_index_exception
                 "subscripts must be either integers 1 to (2^63)-1 or logicals"
                 name))
                 (set_ip (ip s + 1) s))).
Proof.
  intros Htop Hsec Hmat Hni Hname. unfold index_id1_mat_1d.
  change (TOP_OV (set_ip (ip s + 1) s)) with (TOP_OV s).
  change (SEC_OV (set_ip (ip s + 1) s)) with (SEC_OV s).
  rewrite Htop, Hsec. hcbn. rewrite Hmat. hcbn.
  unfold checked_index. rewrite Hni. hcbn. cbn [catch catch_all_with_name catch_one err_invalid_index].
  change (name_at (set_ip (ip s + 1) s) (arg0 s)) with (name_at s (arg0 s)).
  rewrite Hname. done.
Qed.

(** The generic handler on a scalar index and a full matrix: it rewrites
    its opcode to the specialization for one index and goes there. *)
Lemma index_id1_specializes s idx_double mat :
  code_at s (ip s) = Some 1 →
  TOP_OV s = Some (val_scalar idx_double) →
  SEC_OV s = Some mat →
  is_full_num_matrix mat = true →
  code_at s (ip s - 2 + wide_opcode_offset (arg0 s))
    = Some (opcode_of INDEX_ID_NARGOUT1) →
  index_id1 s =
    Goto L_index_id1_mat_1d
      (code_write (ip s - 2 + wide_opcode_offset (arg0 s))
         (opcode_of INDEX_ID1_MAT_1D) s).
Proof.
  intros Hn Htop Hsec Hmat Hop. unfold index_id1, index_id_common.
  rewrite Hn. hcbn.
  replace (sp s - 1 - 1) with (sp s - 2) by lia.
  change (load_ov (set_ip (ip s + 1) s) (sp s - 2)) with (SEC_OV s).
  rewrite Hsec. hcbn.
  destruct mat; try done. hcbn.
  rewrite (load_ovs_1 _ _ (val_scalar idx_double)) by exact Htop.
  hcbn. rewrite set_ip_back.
  replace (ip s + 1 - 1 - 2 + wide_opcode_offset (arg0 s))
    with (ip s - 2 + wide_opcode_offset (arg0 s)) by lia.
  rewrite Hop. hcbn. decided. done.
Qed.

(** C6, as the handlers have it.  INDEX_ID1_MAT_1D on a full matrix with a
    scalar index whose value is not an integer does not fall back to the
    generic opcode: the handler signals the index error itself, with the
    name of the variable, and unwinds; its opcode byte stays that of the
    specialization.  The generic INDEX_ID_NARGOUT1 at the same place on the
    same operands rewrites itself to the specialization, goes there, and
    ends in the same state. *)
Theorem index_id1_mat_1d_non_integer_index (s : vm) (idx_double : double)
    (mat : octave_value) (name : string) :
  TOP_OV s = Some (val_scalar idx_double) →
  SEC_OV s = Some mat →
  is_full_num_matrix mat = true →
  dbl_neb (idx_to_dbl (dbl_to_idx idx_double)) idx_double = true →
  name_at s (arg0 s) = Some name →
  code_at s (ip s) = Some 1 →
  code_at s (ip s - 2 + wide_opcode_offset (arg0 s))
    = Some (opcode_of INDEX_ID1_MAT_1D) →
  let opcode_at := ip s - 2 + wide_opcode_offset (arg0 s) in
  let s' := push (se_err INDEX_ERROR)
              (push (se_pie (mk_index_exception
                 "subscripts must be either integers 1 to (2^63)-1 or logicals"
                 name))
                 (set_ip (ip s + 1) s)) in
  exec 1 L_index_id1_mat_1d s = Unwind s' ∧
  code_at s' opcode_at = Some (opcode_of INDEX_ID1_MAT_1D) ∧
  exec 1 L_index_id1
    (code_write opcode_at (opcode_of INDEX_ID_NARGOUT1) s) = Unwind s'.
Proof.
  intros Htop Hsec Hmat Hni Hname Hn Hop opcode_at s'.
  pose proof (index_id1_mat_1d_invalid _ _ _ _ Htop Hsec Hmat Hni Hname) as E.
  assert (E1 : exec 0 L_index_id1_mat_1d s = Unwind s')
    by (by rewrite (exec_0 _ index_id1_mat_1d)).
  split; [|split].
  - change (exec 1 L_index_id1_mat_1d s) with
      (match index_id1_mat_1d s with
       | Goto l' s' => exec 0 l' s'
       | o => o
       end).
    by rewrite E.
  - exact Hop.
  - set (s0 := code_write opcode_at (opcode_of INDEX_ID_NARGOUT1) s).
    assert (Hg : index_id1 s0 =
                 Goto L_index_id1_mat_1d
                   (code_write opcode_at (opcode_of INDEX_ID1_MAT_1D) s0)).
    { apply (index_id1_specializes s0 idx_double mat); try done.
      - unfold s0. rewrite code_at_code_write_ne; [done|].
        change (ip (code_write _ _ s)) with (ip s). unfold opcode_at.
        destruct (wide_opcode_offset_cases (arg0 s)) as [-> | ->]; lia.
      - apply code_at_code_write_eq. by eapply load_Some_lt. }
    change (exec 1 L_index_id1 s0) with
      (match index_id1 s0 with
       | Goto l' s' => exec 0 l' s'
       | o => o
       end).
    rewrite Hg. unfold s0. by rewrite code_write_back.
Qed.

End index_facts.

Section index_examples.
Import small_host.

(** The theorem at [x (1.5)] for [x = [1 2 3]]. *)
Lemma index_id1_mat_1d_non_integer_index_witness :
  let s := at_index INDEX_ID1_MAT_1D one_two_three
             (val_scalar one_and_a_half) in
  let s' := push (se_err INDEX_ERROR)
              (push (se_pie (mk_index_exception
                 "subscripts must be either integers 1 to (2^63)-1 or logicals"
                 "x"))
                 (set_ip 3 s)) in
  (TOP_OV s = Some (val_scalar one_and_a_half) ∧
   SEC_OV s = Some one_two_three ∧
   is_full_num_matrix one_two_three = true ∧
   dbl_neb (idx_to_dbl (dbl_to_idx one_and_a_half)) one_and_a_half = true ∧
   name_at s (arg0 s) = Some "x" ∧
   code_at s (ip s) = Some 1 ∧
   code_at s (ip s - 2 + wide_opcode_offset (arg0 s))
     = Some (opcode_of INDEX_ID1_MAT_1D)) ∧
  exec 1 L_index_id1_mat_1d s = Unwind s' ∧
  code_at s' 0 = Some (opcode_of INDEX_ID1_MAT_1D) ∧
  exec 1 L_index_id1 (code_write 0 (opcode_of INDEX_ID_NARGOUT1) s)
    = Unwind s'.
Proof.
  intros s s'.
  assert (H1 : TOP_OV s = Some (val_scalar one_and_a_half)) by reflexivity.
  assert (H2 : SEC_OV s = Some one_two_three) by reflexivity.
  assert (H3 : is_full_num_matrix one_two_three = true) by reflexivity.
  assert (H4 : dbl_neb (idx_to_dbl (dbl_to_idx one_and_a_half))
                 one_and_a_half = true) by (vm_compute; reflexivity).
  assert (H5 : name_at s (arg0 s) = Some "x") by reflexivity.
  assert (H6 : code_at s (ip s) = Some 1) by reflexivity.
  assert (H7 : code_at s (ip s - 2 + wide_opcode_offset (arg0 s))
               = Some (opcode_of INDEX_ID1_MAT_1D)) by reflexivity.
  split; [exact (conj H1 (conj H2 (conj H3 (conj H4 (conj H5 (conj H6 H7))))))|].
  exact (index_id1_mat_1d_non_integer_index s _ _ _ H1 H2 H3 H4 H5 H6 H7).
Defined.

(** The claim as the specification has it fails at [x (1.5)] for
    [x = [1 2 3]]: the specialization does not go to the generic handler
    and does not rewrite its opcode byte; it unwinds with the index error
    it signalled itself. *)
Lemma index_id1_mat_1d_non_integer_no_fall_back :
  let s := at_index INDEX_ID1_MAT_1D one_two_three
             (val_scalar one_and_a_half) in
  (∀ s1, index_id1_mat_1d s ≠ Goto L_index_id1 s1) ∧
  ∃ s', index_id1_mat_1d s = Unwind s' ∧
        signalled s' INDEX_ERROR ∧
        code_at s' 0 = Some (opcode_of INDEX_ID1_MAT_1D) ∧
        code_at s' 0 ≠ Some (opcode_of INDEX_ID_NARGOUT1).
Proof.
  intros s.
  assert (E : ∃ s', index_id1_mat_1d s = Unwind s' ∧
                    signalled s' INDEX_ERROR ∧
                    code_at s' 0 = Some (opcode_of INDEX_ID1_MAT_1D)).
  { eexists. split; [vm_compute; reflexivity|]. split; reflexivity. }
  destruct E as (s' & E & Hs & Hc). split.
  - intros s1 H. rewrite E in H. discriminate H.
  - exists s'. repeat split; try done. rewrite Hc. discriminate.
Qed.

End index_examples.

(** ** Cell construction: PUSH_CELL and APPEND_CELL *)

Lemma load_store_same {A : Type} (m : list A) p q x :
  p = q → 0 ≤ p < Z.of_nat (length m) → load (store p x m) q = Some x.
Proof. intros <-. apply load_store_eq. Qed.

(** Reads of the stack after writes to it. *)
Ltac stack_reads :=
  repeat first
    [ rewrite length_store
    | rewrite load_store_same by (rewrite ?length_store; lia)
    | rewrite load_store_ne by lia ].

Section cell_facts.
Context {host : host_ops}.
Implicit Types (s : vm).

Lemma push_cell_triple s n_cols :
  code_at s (ip s) = Some n_cols →
  0 ≤ sp s → sp s + 3 ≤ Z.of_nat (length (stack_mem s)) →
  ∃ s1, push_cell s = Dispatch s1 ∧ sp s1 = sp s + 3 ∧
        length (stack_mem s1) = length (stack_mem s) ∧
        cell_triple s1 (new_Cell (arg0 s) n_cols) 0 0.
Proof.
  intros Hn H0 Hroom. unfold push_cell. rewrite Hn.
  eexists. split; [reflexivity|].
  unfold cell_triple, THIRD_OV, SEC_OV, TOP_OV, load_ov, PUSH_OV, push, poke.
  cbn -[new_Cell Z.add Z.sub]. stack_reads.
  split; [lia|]. split; [done|]. done.
Qed.

(** An empty cs-list adds nothing to a row. *)
Lemma append_cell_insert_empty cell n_rows n_cols i_row_idx :
  0 ≤ n_cols →
  append_cell_insert (val_cs_list []) cell n_rows n_cols i_row_idx 0
    = Some (cell, n_cols, 0).
Proof.
  intros H. unfold append_cell_insert. cbn.
  rewrite (bool_decide_eq_false_2 (0 > n_cols)) by lia.
  rewrite andb_false_r. by rewrite bool_decide_eq_true_2 by lia.
Qed.

(** APPEND_CELL of an empty cs-list that is not the last element of its
    row: the cell and the counters are as they were. *)
Lemma append_cell_arg_empty_0 s dv elems i_row :
  cell_triple s (val_cell dv elems) 0 i_row →
  3 ≤ sp s < Z.of_nat (length (stack_mem s)) →
  0 ≤ dv_cols dv →
  ∃ s2, append_cell_arg (val_cs_list []) 0 s = Dispatch s2 ∧
        sp s2 = sp s ∧
        length (stack_mem s2) = length (stack_mem s) ∧
        cell_triple s2 (val_cell dv elems) 0 i_row.
Proof.
  intros (H3 & H2 & H1) Hsp Hcols.
  destruct s as [a0 sp0 ip0 ? ? ? ? ? ? stk ? ? ?].
  unfold append_cell_arg, append_cell.
  unfold cell_triple, THIRD_OV, SEC_OV, TOP_OV, load_ov, PUSH_OV, push, poke,
    STACK_SHRINK in *.
  cbn -[Z.add Z.sub append_cell_insert] in *. stack_reads.
  rewrite !Z.add_simpl_r. stack_reads. rewrite H3, H2, H1.
  cbn -[Z.add Z.sub append_cell_insert].
  rewrite append_cell_insert_empty by done.
  cbn -[Z.add Z.sub].
  eexists. split; [reflexivity|]. cbn -[Z.add Z.sub]. stack_reads.
  rewrite ?Z.add_0_r. done.
Qed.

(** APPEND_CELL of an empty cs-list that ends the one row of a cell, with
    nothing in the row: a cell with a guess of columns is shrunk to 0x0,
    the counters are destroyed. *)
Lemma append_cell_arg_empty_3 s dv elems i_row :
  cell_triple s (val_cell dv elems) 0 i_row →
  3 ≤ sp s < Z.of_nat (length (stack_mem s)) →
  0 ≤ dv_cols dv →
  ∃ s3, append_cell_arg (val_cs_list []) 3 s = Dispatch s3 ∧
        sp s3 = sp s - 2 ∧
        TOP_OV s3 = Some (if decide (0 < dv_cols dv)
                          then val_cell [0; 0] []
                          else val_cell dv elems).
Proof.
  intros (H3 & H2 & H1) Hsp Hcols.
  destruct s as [a0 sp0 ip0 ? ? ? ? ? ? stk ? ? ?].
  unfold append_cell_arg, append_cell.
  unfold cell_triple, THIRD_OV, SEC_OV, TOP_OV, load_ov, PUSH_OV, push, poke,
    STACK_SHRINK in *.
  cbn -[Z.add Z.sub append_cell_insert] in *. stack_reads.
  rewrite !Z.add_simpl_r. stack_reads. rewrite H3, H2, H1.
  cbn -[Z.add Z.sub append_cell_insert].
  rewrite append_cell_insert_empty by done.
  cbn -[Z.add Z.sub].
  eexists. split; [reflexivity|]. unfold poke. cbn -[Z.add Z.sub].
  split; [lia|].
  replace (sp0 - 1 - 1 - 1) with (sp0 - 3) by lia. stack_reads.
  by destruct (decide (0 < dv_cols dv)).
Qed.

(** C8, as the handlers have it.  A cell of one row whose two element
    expressions yield empty cs-lists, [c = {a{:}, a{:}}] for [a = {}]:
    PUSH_CELL for one row and a guess of [n_cols] columns, APPEND_CELL 0
    and APPEND_CELL 3.  Where the guess is positive (the number of the
    element expressions sets it), the rule of APPEND_CELL 3 shrinks the
    row that was not filled, and for an empty row it makes the cell 0x0,
    not 1x0; a cell of size 1x0 is left only by a guess of no columns,
    where nothing is resized. *)
Theorem cell_row_of_empty_cs_lists (s : vm) (n_cols : Z) :
  arg0 s = 1 →
  code_at s (ip s) = Some n_cols →
  0 ≤ n_cols →
  0 ≤ sp s → sp s + 3 < Z.of_nat (length (stack_mem s)) →
  ∃ s', cell_row [val_cs_list []; val_cs_list []] s = Dispatch s' ∧
        sp s' = sp s + 1 ∧
        TOP_OV s' = Some (if decide (0 < n_cols) then val_cell [0; 0] []
                          else val_cell [1; 0] []).
Proof.
  intros Ha Hn Hcols H0 Hroom.
  destruct (push_cell_triple s n_cols Hn H0) as (s1 & E1 & Hsp1 & Hl1 & T1);
    [lia|].
  rewrite Ha in T1. unfold new_Cell in T1.
  destruct (append_cell_arg_empty_0 s1 _ _ _ T1) as (s2 & E2 & Hsp2 & Hl2 & T2);
    [lia|done|].
  destruct (append_cell_arg_empty_3 s2 _ _ _ T2) as (s3 & E3 & Hsp3 & T3);
    [lia|done|].
  exists s3. unfold cell_row. rewrite E1. cbn [append_cell_row].
  rewrite E2, E3. split; [done|]. split; [lia|].
  rewrite T3. change (dv_cols [1; n_cols]) with n_cols.
  destruct (decide (0 < n_cols)); [done|].
  by replace n_cols with 0 by lia.
Qed.

End cell_facts.

Section cell_examples.
Import small_host.

(** The theorem at the guess of two columns, one for each element
    expression. *)
Lemma cell_row_of_empty_cs_lists_witness :
  let s := at_push_cell 2 in
  (arg0 s = 1 ∧ code_at s (ip s) = Some 2 ∧ 0 ≤ 2 ∧ 0 ≤ sp s ∧
   sp s + 3 < Z.of_nat (length (stack_mem s))) ∧
  ∃ s', cell_row [val_cs_list []; val_cs_list []] s = Dispatch s' ∧
        sp s' = 4 ∧
        TOP_OV s' = Some (val_cell [0; 0] []).
Proof.
  intros s.
  assert (H1 : arg0 s = 1) by reflexivity.
  assert (H2 : code_at s (ip s) = Some 2) by reflexivity.
  assert (H3 : 0 ≤ 2) by lia.
  assert (H4 : 0 ≤ sp s) by by_compute.
  assert (H5 : sp s + 3 < Z.of_nat (length (stack_mem s))) by by_compute.
  split; [done|].
  exact (cell_row_of_empty_cs_lists s 2 H1 H2 H3 H4 H5).
Defined.

(** The claim as the specification has it fails: [c = {a{:}, a{:}}] for
    [a = {}] leaves a cell of size 0x0, not 1x0. *)
Lemma cell_row_of_empty_cs_lists_is_not_1x0 :
  ∃ s', cell_row [val_cs_list []; val_cs_list []] (at_push_cell 2)
          = Dispatch s' ∧
        TOP_OV s' ≫= cell_dims = Some (0, 0) ∧
        TOP_OV s' ≫= cell_dims ≠ Some (1, 0).
Proof.
  eexists. split; [vm_compute; reflexivity|].
  split; [reflexivity|]. intros H. vm_compute in H. discriminate H.
Qed.

End cell_examples.

(** ** Return from a bytecode call: RET *)

Section ret_facts.
Context {host : host_ops}.
Implicit Types (s : vm) (p : Z) (n k : nat).

Lemma sp_destroy_range p n s : sp (destroy_range p n s) = sp s.
Proof. revert p s. induction n as [|n IH]; intros p s; [done|]. cbn. by rewrite IH. Qed.

Lemma sp_place_values p vs s : sp (place_values p vs s) = sp s.
Proof. revert p s. induction vs as [|v vs IH]; intros p s; [done|]. cbn. by rewrite IH. Qed.

Lemma sp_push_nils n s : sp (push_nils n s) = sp s + Z.of_nat n.
Proof.
  revert s. induction n as [|n IH]; intros s; cbn [push_nils]; [lia|].
  rewrite IH. cbn. lia.
Qed.

Lemma sp_move_returns first k s s' :
  move_returns first k s = Some s' → sp s' = sp s + Z.of_nat k.
Proof.
  revert s. induction k as [|k IH]; intros s; cbn [move_returns].
  - intros [= <-]. lia.
  - destruct (load_ov s _) as [v|]; [|done]. cbn. intros H%IH.
    rewrite H. cbn. lia.
Qed.

(** The move of the return values leaves [max 1 expects] values on the
    stack of the caller. *)
Lemma sp_ret_move cse expects has s s' :
  ret_move cse expects has s = Some s' →
  0 ≤ expects → 0 ≤ has →
  sp s' = sp s + Z.max 1 expects.
Proof.
  unfold ret_move. intros H He Hh.
  repeat case_bool_decide; cbn in H.
  all: try (destruct (load_ov s _); [|done]).
  all: try (destruct (copy_many_args_to_caller _ _ _ _ _); [|done]).
  all: try (injection H as <-; cbn; lia).
  all: try lia.
  all: apply sp_move_returns in H; rewrite H, sp_push_nils; lia.
Qed.

Lemma load_destroy_range p n s q :
  q < p → load (stack_mem (destroy_range p n s)) q = load (stack_mem s) q.
Proof.
  revert p s. induction n as [|n IH]; intros p s Hq; [done|].
  cbn [destroy_range]. rewrite IH by lia. unfold poke. cbn.
  apply load_store_ne. lia.
Qed.

(** The expansion of varargout leaves the stack pointer, and a frame with
    varargout and [%nargout] has no less than no values after it. *)
Lemma ret_expand_varargout_Continue cse expects has s has' s' :
  ret_expand_varargout cse expects has s = Continue (has', s') →
  1 ≤ has →
  sp s' = sp s ∧ 0 ≤ has'.
Proof.
  unfold ret_expand_varargout. intros H Hh.
  destruct (load_ov s _) as [ov_vararg|]; [|done].
  destruct (is_defined ov_vararg).
  - destruct (cell_value ov_vararg) as [cell_vararg|]; [|done].
    destruct (decide (sp _ + _ ≤ _)); [|done].
    injection H as <- <-. rewrite sp_place_values. cbn.
    split; [done|]. destruct (decide (_ < 0)); lia.
  - destruct (decide (expects ≠ 0)); injection H as <- <-; cbn; split; lia.
Qed.

Lemma bsp_destroy_range p n s : bsp (destroy_range p n s) = bsp s.
Proof. revert p s. induction n as [|n IH]; intros p s; [done|]. cbn. by rewrite IH. Qed.

Lemma ret_root_not_Dispatch is_varargout (n_returns_callee : Z) s s' :
  ret_root is_varargout n_returns_callee s ≠ Dispatch s'.
Proof.
  unfold ret_root. destruct (load_i s (bsp s)); [|done]. cbn.
  destruct is_varargout.
  - destruct (decide _); [done|]. destruct (load_ov _ _); [|done]. cbn.
    destruct (load_ovs _ _ _); [|done]. cbn.
    by destruct (if _ && _ then _ else _).
  - by destruct (load_ovs _ _ _).
Qed.

Lemma ret_expand_varargout_Stop cse expects has s o s' :
  ret_expand_varargout cse expects has s = Stop o → o ≠ Dispatch s'.
Proof.
  unfold ret_expand_varargout.
  destruct (load_ov s _) as [ov_vararg|]; [|by intros [= <-]].
  destruct (is_defined ov_vararg).
  - destruct (cell_value ov_vararg) as [cell_vararg|]; [|by intros [= <-]].
    destruct (decide (sp _ + _ ≤ _)); [done|]. by intros [= <-].
  - by destruct (decide (expects ≠ 0)).
Qed.

(** What the restoring of the frame of the caller gives. *)
Lemma ret_restore_caller_Some cse s r :
  ret_restore_caller cse s = Some r →
  load_i s (cse - 1) = Some (fst r) ∧
  ∃ pse, load (stack_mem s) (cse - 8) ≫= as_pse = Some pse ∧
         sp (snd r) = pse - 1 ∧
         stack_mem (snd r) = store (pse - 1) se_dead (stack_mem s) ∧
         m_tw (snd r) = m_tw s.
Proof.
  unfold ret_restore_caller. intros H.
  destruct (load_i s (cse - 1)) as [e|]; [|done]. cbn [mbind option_bind] in H.
  destruct (load (stack_mem s) (cse - 2) ≫= as_puc); [|done].
  cbn [mbind option_bind] in H.
  destruct (load (stack_mem s) (cse - 3) ≫= as_pse); [|done].
  cbn [mbind option_bind] in H.
  destruct (load (stack_mem s) (cse - 4) ≫= as_ps); [|done].
  cbn [mbind option_bind] in H.
  destruct (load (stack_mem s) (cse - 5) ≫= as_pov); [|done].
  cbn [mbind option_bind] in H.
  destruct (load (stack_mem s) (cse - 6) ≫= as_puc); [|done].
  cbn [mbind option_bind] in H.
  destruct (load (stack_mem s) (cse - 7) ≫= as_pud); [|done].
  cbn [mbind option_bind] in H.
  destruct (load (stack_mem s) (cse - 8) ≫= as_pse) as [pse|]; [|done].
  cbn [mbind option_bind] in H.
  apply (inj Some) in H. subst r. split; [done|]. exists pse. done.
Qed.

Lemma load_ovs_agree s s' p n :
  (∀ q, p ≤ q < p + Z.of_nat n →
        load (stack_mem s) q = load (stack_mem s') q) →
  load_ovs s p n = load_ovs s' p n.
Proof.
  revert p. induction n as [|n IH]; intros p H; [done|].
  cbn [load_ovs]. unfold load_ov. rewrite (H p) by lia.
  destruct (load (stack_mem s') p ≫= as_ov); [|done]. cbn.
  rewrite (IH (p + 1)); [done|]. intros q Hq. apply H. lia.
Qed.

Lemma head_load_ovs s p n l :
  load_ovs s p n = Some l →
  match n with
  | O => l = []
  | S _ => ∃ v, load_ov s p = Some v ∧ head l = Some v
  end.
Proof.
  destruct n as [|n]; cbn [load_ovs]; [by intros [= <-]|].
  destruct (load_ov s p) as [v|]; [|done]. cbn.
  destruct (load_ovs s (p + 1) n); [|done]. cbn. intros [= <-]. by exists v.
Qed.

(** The move of the return values for a caller that expects none: one
    value is pushed, the first value of the callee if it has any, and nil
    if not. *)
Lemma ret_move_zero cse has s s4 :
  ret_move cse 0 has s = Some s4 →
  0 ≤ sp s < Z.of_nat (length (stack_mem s)) → sp s < cse + 1 →
  sp s4 = sp s + 1 ∧
  ∃ v, load (stack_mem s4) (sp s) = Some (se_ov v) ∧
       (∀ q, q ≠ sp s → q ≠ cse + 1 →
             load (stack_mem s4) q = load (stack_mem s) q) ∧
       if decide (has = 0) then v = val_undef
       else load_ov s (cse + 1) = Some v.
Proof.
  unfold ret_move. intros H Hsp Hcse.
  rewrite (bool_decide_eq_true_2 (0 = 0)) in H by done. cbn [andb] in H.
  destruct (decide (has = 0)) as [->|Hhas].
  - cbn in H. injection H as <-. split; [done|]. exists val_undef.
    cbn. split; [by apply load_store_eq|]. split; [|done].
    intros q Hq _. by apply load_store_ne.
  - rewrite (bool_decide_eq_true_2 (has ≠ 0)) in H by done.
    destruct (load_ov s (cse + 1)) as [v|]; [|done].
    cbn in H. injection H as <-. split; [done|]. exists v.
    cbn. split; [|split; [|done]].
    + apply load_store_eq. rewrite length_store. lia.
    + intros q Hq Hq'. by rewrite !load_store_ne by lia.
Qed.

(** The expansion of varargout for a caller that expects no value: the
    stack under the callee is untouched, and the first value of the callee
    is in the first slot after [%nargout] if it has any value. *)
Lemma ret_expand_varargout_zero cse (n : Z) s has s3 fixed ov_vararg returns :
  ret_expand_varargout cse 0 (n - 1) s = Continue (has, s3) →
  2 ≤ n → 0 ≤ cse →
  load_ovs s (cse + 1) (Z.to_nat (n - 2)) = Some fixed →
  load_ov s (cse + (n - 1)) = Some ov_vararg →
  (if is_defined ov_vararg
   then ∃ elems, cell_value ov_vararg = Some elems ∧ returns = fixed ++ elems
   else returns = fixed) →
  sp s3 = sp s ∧
  length (stack_mem s3) = length (stack_mem s) ∧
  (∀ q, q < cse + 1 → load (stack_mem s3) q = load (stack_mem s) q) ∧
  if decide (has = 0) then returns = []
  else ∃ v, load_ov s3 (cse + 1) = Some v ∧ head returns = Some v.
Proof.
  unfold ret_expand_varargout. intros H Hn Hcse Hfixed Hov Hret.
  rewrite Hov in H.
  assert (Hin : 0 ≤ cse + (n - 1) < Z.of_nat (length (stack_mem s))).
  { unfold load_ov in Hov.
    destruct (load (stack_mem s) _) eqn:E; [|done].
    by apply load_Some_lt in E. }
  apply head_load_ovs in Hfixed.
  destruct (is_defined ov_vararg).
  - destruct Hret as (elems & Hcell & ->). rewrite Hcell in H.
    destruct (decide (sp _ + _ ≤ _)); [|done].
    injection H as <- <-. rewrite sp_place_values.
    destruct (decide (n = 2)) as [->|Hn2].
    + change (Z.to_nat (2 - 2)) with 0%nat in Hfixed. cbn in Hfixed.
      subst fixed.
      destruct elems as [|e elems].
      * replace (Z.min _ _) with 0
          by (cbn [length]; destruct (decide (_ < 0)); lia).
        change (Z.to_nat 0) with 0%nat. rewrite take_0. cbn [place_values].
        rewrite decide_True by lia.
        cbn [sp poke stack_mem set_stack_mem set_sp].
        split; [done|]. split; [by rewrite length_store|].
        split; [|done]. intros q Hq. apply load_store_ne. lia.
      * replace (Z.min _ _) with 1
          by (cbn [length]; destruct (decide (_ < 0)); lia).
        change (Z.to_nat 1) with 1%nat. cbn [take place_values].
        rewrite take_0. cbn [place_values].
        rewrite decide_False by lia.
        cbn [sp poke stack_mem set_stack_mem set_sp].
        split; [done|]. split; [by rewrite !length_store|].
        split.
        -- intros q Hq. by rewrite !load_store_ne by lia.
        -- exists e. split; [|done]. unfold load_ov.
           cbn [sp poke stack_mem set_stack_mem set_sp].
           rewrite load_store_same; [done|lia|].
           rewrite length_store. lia.
    + replace (Z.min _ _) with 0 by (destruct (decide (_ < 0)); lia).
      change (Z.to_nat 0) with 0%nat. rewrite take_0. cbn [place_values].
      cbn [sp poke stack_mem set_stack_mem set_sp].
      split; [done|]. split; [by rewrite length_store|].
      split; [intros q Hq; apply load_store_ne; lia|].
      rewrite decide_False by lia.
      destruct (Z.to_nat (n - 2)) as [|k] eqn:Hk; [lia|].
      destruct Hfixed as (v & Hv & Hhead). exists v. split.
      * unfold load_ov in *. cbn. by rewrite load_store_ne by lia.
      * destruct fixed; [done|]. done.
  - subst returns. rewrite decide_False in H by lia.
    injection H as <- <-. cbn [sp poke stack_mem set_stack_mem].
    split; [done|]. split; [by rewrite length_store|].
    split; [intros q Hq; apply load_store_ne; lia|].
    destruct (decide (n - 1 - 1 = 0)) as [E|E].
    + replace (Z.to_nat (n - 2)) with 0%nat in Hfixed by lia. done.
    + destruct (Z.to_nat (n - 2)) as [|k] eqn:Hk; [lia|].
      destruct Hfixed as (v & Hv & Hhead). exists v. split; [|done].
      unfold load_ov in *. cbn. by rewrite load_store_ne by lia.
Qed.

Lemma length_destroy_range p n s :
  length (stack_mem (destroy_range p n s)) = length (stack_mem s).
Proof.
  revert p s. induction n as [|n IH]; intros p s; [done|].
  cbn [destroy_range]. rewrite IH. cbn. apply length_store.
Qed.

(** C2, as the handler has it.  A RET that returns to a bytecode caller
    (it ends in the dispatch of the next instruction of the caller), from
    a frame whose header is that of a function (a frame with varargout has
    [%nargout] and varargout for return slots, no less), to a caller that
    wants [expects] values back: the operand stack of the caller ends at
    [top + max 1 expects], where [top] is the place of the object that was
    called.  When the caller wants no value, the one value pushed is the
    first of the values the callee returns, and a nil value if the callee
    returns none. *)
Theorem ret_frame_balance (s s' : vm) (expects top : Z)
    (returns : list octave_value) :
  ret s = Dispatch s' →
  N_RETURNS s ≠ Some (-1) →
  caller_nval_back s = Some expects → 0 ≤ expects →
  caller_top s = Some top → 0 ≤ top < bsp s →
  callee_returns s = Some returns →
  sp s' = top + Z.max 1 expects ∧
  (expects = 0 → TOP_OV s' = Some (default val_undef (head returns))).
Proof.
  unfold ret, caller_nval_back, caller_top.
  set (s0 := set_m_tw _ s). intros H Hwf Hexp He Htop Hbelow Hreturns.
  change (N_LOCALS s0) with (N_LOCALS s) in H.
  change (N_RETURNS s0) with (N_RETURNS s) in H.
  destruct (N_LOCALS s) as [n_locals|] eqn:Hl; [|done]. cbn [bind_load] in H.
  destruct (decide (_ ≠ _)) as [|Hsp]; [done|].
  unfold callee_returns in Hreturns.
  destruct (N_RETURNS s) as [n_ret|] eqn:Hr; [|done]. cbn [bind_load] in H.
  cbn [mbind option_bind] in Hreturns.
  set (n := if bool_decide (n_ret < 0) then - n_ret else n_ret) in *.
  destruct (decide (n ≤ 0)) as [|Hpos]; [done|].
  destruct (decide (_ < 0)) as [|Hdtor]; [done|].
  set (s1 := set_sp _ (destroy_range _ _ s0)) in H.
  assert (Hsp' : bsp s + n_locals = sp s).
  { destruct (decide (bsp s + n_locals = sp s)); [done|by destruct Hsp]. }
  assert (Hend : sp s1 - n = bsp s).
  { unfold s1. cbn [sp set_sp]. rewrite sp_destroy_range.
    change (sp s0) with (sp s). lia. }
  assert (Hmem : ∀ q, q < bsp s + n →
                      load (stack_mem s1) q = load (stack_mem s) q).
  { intros q Hq. unfold s1. cbn [stack_mem set_sp].
    rewrite load_destroy_range; [done|].
    change (sp s0) with (sp s). lia. }
  assert (Hlen : length (stack_mem s1) = length (stack_mem s)).
  { unfold s1. cbn [stack_mem set_sp]. by rewrite length_destroy_range. }
  assert (Hn : bool_decide (n_ret < 0) = true → 2 ≤ n).
  { unfold n. case_bool_decide; [|done]. intros _.
    assert (n_ret ≠ -1) by congruence. lia. }
  destruct (if bool_decide (n_ret < 0) then _ else Some true)
    as [vararg_ok|]; [|done].
  cbn [bind_load] in H. destruct (negb vararg_ok); [done|].
  destruct (decide (bsp s1 = rsp s1)).
  { by apply ret_root_not_Dispatch in H. }
  unfold ret_to_caller in H. rewrite Hend in H.
  destruct (ret_restore_caller (bsp s) s1) as [[e s2]|] eqn:Hrest; [|done].
  cbn [bind_load fst snd] in H.
  apply ret_restore_caller_Some in Hrest
    as (He' & pse & Hpse & Hs2 & Hmem2 & _).
  cbn [fst snd] in He', Hs2, Hmem2.
  unfold load_i in He', Hexp. rewrite Hmem in He', Hpse by lia.
  rewrite Hexp in He'. injection He' as <-.
  rewrite Hpse in Htop. cbn in Htop. injection Htop as <-.
  assert (Hin : bsp s - 1 < Z.of_nat (length (stack_mem s))).
  { destruct (load (stack_mem s) (bsp s - 1)) eqn:E; [|done].
    apply load_Some_lt in E. lia. }
  assert (Hmem2' : ∀ q, q ≠ pse - 1 → q < bsp s + n →
                        load (stack_mem s2) q = load (stack_mem s) q).
  { intros q Hq1 Hq2. rewrite Hmem2, load_store_ne by lia. by apply Hmem. }
  destruct (if bool_decide (n_ret < 0) then ret_expand_varargout _ _ _ _
            else _) as [[has s3]|o] eqn:Hexpand; [|].
  - assert (sp s3 = sp s2 ∧ 0 ≤ has) as [Hs3 Hhas].
    { destruct (bool_decide (n_ret < 0)).
      - apply ret_expand_varargout_Continue in Hexpand; [done|].
        specialize (Hn eq_refl). lia.
      - injection Hexpand as <- <-. split; [done|lia]. }
    destruct (ret_move _ _ _ _) as [s4|] eqn:Hmove; [|done].
    cbn [bind_load] in H. injection H as <-. cbn [sp set_m_tw].
    rewrite sp_destroy_range. split.
    { apply sp_ret_move in Hmove; [|done..]. lia. }
    intros ->.
    assert (Hfirst : length (stack_mem s3) = length (stack_mem s) ∧
              (if decide (has = 0) then returns = []
               else ∃ v, load_ov s3 (bsp s + 1) = Some v ∧
                         head returns = Some v)).
    { unfold n in *. case_bool_decide as Hneg.
      - (* a frame with varargout *)
        rewrite decide_True in Hreturns by done.
        destruct (load_ovs s _ _) as [fixed|] eqn:Hfixed; [|done].
        cbn [mbind option_bind] in Hreturns.
        destruct (load_ov s _) as [ov_vararg|] eqn:Hov; [|done].
        cbn [mbind option_bind] in Hreturns.
        specialize (Hn eq_refl).
        eapply (ret_expand_varargout_zero _ _ _ _ _ fixed ov_vararg returns)
          in Hexpand as (_ & Hlen3 & _ & Hcase); [| lia | lia | | |].
        + split; [|done]. rewrite Hlen3, Hmem2, length_store. done.
        + rewrite <- Hfixed. apply load_ovs_agree. intros q Hq.
          apply Hmem2'; lia.
        + unfold load_ov in *. rewrite Hmem2' by lia. exact Hov.
        + destruct (is_defined ov_vararg); [|congruence].
          destruct (cell_value ov_vararg) as [elems|]; [|done].
          injection Hreturns as <-. by exists elems.
      - (* a frame without varargout *)
        rewrite decide_False in Hreturns by done.
        injection Hexpand as <- <-.
        split; [by rewrite Hmem2, length_store|].
        apply head_load_ovs in Hreturns.
        destruct (decide (n_ret - 1 = 0)) as [E|E].
        + by replace (Z.to_nat (n_ret - 1)) with 0%nat in Hreturns by lia.
        + destruct (Z.to_nat (n_ret - 1)) eqn:Hk; [lia|].
          destruct Hreturns as (v & Hv & Hhead). exists v. split; [|done].
          unfold load_ov in *. rewrite Hmem2' by lia. done. }
    destruct Hfirst as [Hlen3 Hfirst].
    apply ret_move_zero in Hmove as (Hsp4 & v & Hv & _ & Hcase);
      [| lia | lia].
    unfold TOP_OV, load_ov. cbn [sp stack_mem set_m_tw].
    rewrite sp_destroy_range, load_destroy_range by lia.
    replace (sp s4 - 1) with (sp s3) by lia. rewrite Hv. cbn.
    destruct (decide (has = 0)).
    + by subst.
    + destruct Hfirst as (v' & Hv' & ->). cbn. congruence.
  - destruct (bool_decide (n_ret < 0)); [|done].
    by apply (ret_expand_varargout_Stop _ _ _ _ _ s') in Hexpand.
Qed.

End ret_facts.

Section ret_examples.
Import small_host.

(** The theorem at a call for no value of a function that returns 7: the
    value is moved to the caller all the same. *)
Lemma ret_frame_balance_witness :
  let s := at_ret (val_scalar seven) in
  let s' := match ret s with Dispatch s' => s' | _ => s end in
  (ret s = Dispatch s' ∧
   N_RETURNS s ≠ Some (-1) ∧
   caller_nval_back s = Some 0 ∧ 0 ≤ 0 ∧
   caller_top s = Some 2 ∧ 0 ≤ 2 < bsp s ∧
   callee_returns s = Some [val_scalar seven]) ∧
  sp s' = 2 + Z.max 1 0 ∧
  (0 = 0 → TOP_OV s' = Some (val_scalar seven)).
Proof.
  intros s s'.
  assert (H1 : ret s = Dispatch s') by (vm_compute; reflexivity).
  assert (H2 : N_RETURNS s ≠ Some (-1)) by (intros H; discriminate H).
  assert (H3 : caller_nval_back s = Some 0) by reflexivity.
  assert (H4 : 0 ≤ 0) by lia.
  assert (H5 : caller_top s = Some 2) by reflexivity.
  assert (H6 : 0 ≤ 2 < bsp s) by by_compute.
  assert (H7 : callee_returns s = Some [val_scalar seven]) by reflexivity.
  split; [exact (conj H1 (conj H2 (conj H3 (conj H4 (conj H5 (conj H6 H7))))))|].
  exact (ret_frame_balance s s' 0 2 _ H1 H2 H3 H4 H5 H6 H7).
Defined.

(** A call for two values of a function that returns one: a nil value
    and the value are left, the value on top. *)
Lemma ret_two_values_of_one :
  let s := set_stack_mem (store 10 (se_i 2) (stack_mem (at_ret (val_scalar seven)))) (at_ret (val_scalar seven)) in
  ∃ s', ret s = Dispatch s' ∧ sp s' = 4 ∧ ip s' = 14 ∧ bsp s' = 0 ∧
        TOP_OV s' = Some (val_scalar seven) ∧ SEC_OV s' = Some val_undef.
Proof.
  intros s. eexists. split; [vm_compute; reflexivity|]. repeat split.
Qed.

End ret_examples.

(** ** Binary operators: the generic handlers and their specializations *)

Section binop_facts.
Context {host : host_ops}.
Implicit Types (s : vm) (l : label) (op : binary_op) (lhs rhs : octave_value).

(** The two tables of the instances of the macros fit: the specialized
    variant of a generic handler names it as its generic form. *)
Lemma binop_tables l op l_dbl specialized :
  binop_selfmodifying l = Some (op, l_dbl, specialized) →
  instr specialized = l_dbl ∧
  binop_selfmodifying l_dbl = None ∧
  ∃ generic, binop_specialized l_dbl = Some (op, l, generic) ∧
             instr generic = l.
Proof.
  destruct l; try discriminate; intros [= <- <- <-];
    (split; [reflexivity|]); (split; [reflexivity|]);
    eexists; split; reflexivity.
Qed.

Lemma handler_selfmodifying l op l_dbl specialized :
  binop_selfmodifying l = Some (op, l_dbl, specialized) →
  handler l = Some (MAKE_BINOP_SELFMODIFYING op l_dbl specialized).
Proof. intros H. unfold handler. by rewrite H. Qed.

Lemma handler_specialized l op l_generic generic :
  binop_selfmodifying l = None →
  binop_specialized l = Some (op, l_generic, generic) →
  handler l = Some (MAKE_BINOP_SPECIALIZED (m_fn_dbl op) l_generic generic
                      m_scalar_typeid).
Proof. intros H1 H2. unfold handler. by rewrite H1, H2. Qed.

Lemma catch_one_code_mem c e s o s' :
  catch_one c e s = Some o → outcome_state o = Some s' →
  code_mem s' = code_mem s.
Proof.
  destruct c, e; cbn; intros [= <-]; cbn; try (by intros [= <-]).
  destruct (name_at s slot); cbn; [by intros [= <-] | done].
Qed.

Lemma catch_code_mem cs e s s' :
  outcome_state (catch cs e s) = Some s' → code_mem s' = code_mem s.
Proof.
  induction cs as [|c cs IH]; cbn [catch]; [by intros [= <-]|].
  destruct (catch_one c e s) eqn:E; [|done].
  by eapply catch_one_code_mem.
Qed.

(** The plain handler does not write to the code. *)
Lemma MAKE_BINOP_code_mem op s s' :
  outcome_state (MAKE_BINOP op s) = Some s' → code_mem s' = code_mem s.
Proof.
  unfold MAKE_BINOP.
  destruct (TOP_OV s); [|done]. destruct (SEC_OV s); [|done].
  cbn [bind_load]. unfold try_call.
  destruct (typed_binary_op _ _ _ _) as [[ans|e] h']; cbn [fst snd].
  - cbn. by intros [= <-].
  - intros H%catch_code_mem. by rewrite H.
Qed.

(** A byte written where it is already leaves the state. *)
Lemma code_write_same s p b : code_at s p = Some b → code_write p b s = s.
Proof.
  intros H. destruct s. unfold code_write, code_at, set_code_mem in *.
  cbn in *. by rewrite (store_load _ _ _ H).
Qed.

(** The end of the plain handler is no [goto]. *)
Lemma try_call_stays {A : Type} cs s (call : host_call A) k :
  (∀ a s1 l' s', k a s1 ≠ Goto l' s') →
  match try_call cs s call k with
  | Goto l' s' => exec 0 l' s'
  | o => o
  end = try_call cs s call k.
Proof.
  intros Hk. unfold try_call.
  destruct (call (m_tw s)) as [[a|e] h']; cbn [fst snd].
  - destruct (k a _) eqn:E; try done. by apply Hk in E.
  - destruct (catch cs e _) eqn:E; try done. by apply catch_not_Goto in E.
Qed.

Lemma exec_1 l h s :
  handler l = Some h →
  exec 1 l s = match h s with
               | Goto l' s' => exec 0 l' s'
               | o => o
               end.
Proof. intros H. cbn [exec]. by rewrite H. Qed.

(** The two regimes.  Whichever of the two handlers runs, the opcode byte
    is afterwards the one that the types of the operands select, and the
    outcome is that of the plain handler, which applies the typed
    dispatch. *)
Lemma binop_regimes s l op l_dbl generic specialized lhs rhs :
  binop_selfmodifying l = Some (op, l_dbl, specialized) →
  binop_specialized l_dbl = Some (op, l, generic) →
  TOP_OV s = Some rhs → SEC_OV s = Some lhs →
  is_Some (m_fn_dbl op) →
  let s' := code_write (ip s - 2)
              (opcode_of (binop_opcode generic specialized lhs rhs)) s in
  (code_at s (ip s - 2) = Some (opcode_of generic) →
   exec 1 l s = MAKE_BINOP op s') ∧
  (code_at s (ip s - 2) = Some (opcode_of specialized) →
   exec 1 l_dbl s = MAKE_BINOP op s').
Proof.
  intros Hsm Hsp Htop Hsec [op_fn Hfn]. cbv zeta.
  destruct (binop_tables _ _ _ _ Hsm) as (_ & Hnone & _).
  pose proof (handler_selfmodifying _ _ _ _ Hsm) as Hh.
  pose proof (handler_specialized _ _ _ _ Hnone Hsp) as Hh'.
  rewrite (exec_1 _ _ _ Hh), (exec_1 _ _ _ Hh').
  unfold MAKE_BINOP_SELFMODIFYING, MAKE_BINOP_SPECIALIZED, binop_opcode.
  rewrite Htop, Hsec. cbn [bind_load].
  destruct (decide (type_id lhs = m_scalar_typeid)) as [El|El];
    [destruct (decide (type_id rhs = m_scalar_typeid)) as [Er|Er]|].
  - (* both operands are doubles *)
    rewrite (bool_decide_eq_true_2 _ El), (bool_decide_eq_true_2 _ Er).
    rewrite (bool_decide_eq_true_2 (type_id rhs = type_id lhs)) by congruence.
    rewrite (bool_decide_eq_false_2 (type_id lhs ≠ _)) by (intros ?; done).
    rewrite (bool_decide_eq_false_2 (type_id rhs ≠ _)) by (intros ?; done).
    cbn [andb orb]. rewrite Hfn. cbn [bind_load].
    set (s' := code_write _ _ s).
    assert (Ht : typed_binary_op op lhs rhs = op_fn lhs rhs).
    { unfold typed_binary_op. rewrite El, Er.
      unfold m_fn_dbl in Hfn. by rewrite Hfn. }
    split.
    + intros _. rewrite (exec_0 _ _ _ Hh').
      unfold MAKE_BINOP_SPECIALIZED, MAKE_BINOP.
      change (TOP_OV s') with (TOP_OV s). change (SEC_OV s') with (SEC_OV s).
      rewrite Htop, Hsec. cbn [bind_load].
      rewrite (bool_decide_eq_false_2 (type_id lhs ≠ _)) by (intros ?; done).
      rewrite (bool_decide_eq_false_2 (type_id rhs ≠ _)) by (intros ?; done).
      cbn [orb]. rewrite Hfn, Ht. done.
    + intros Hc. unfold s'. rewrite (code_write_same _ _ _ Hc).
      unfold MAKE_BINOP. rewrite Htop, Hsec. cbn [bind_load]. rewrite Ht.
      by apply try_call_stays.
  - (* the right operand is not a double *)
    rewrite (bool_decide_eq_false_2 _ Er), !andb_false_r.
    rewrite (bool_decide_eq_true_2 (type_id rhs ≠ _)) by done.
    rewrite orb_true_r.
    set (s' := code_write _ _ s).
    split.
    + intros Hc. unfold s'. rewrite (code_write_same _ _ _ Hc).
      unfold MAKE_BINOP. rewrite Htop, Hsec. cbn [bind_load].
      by apply try_call_stays.
    + intros _. rewrite (exec_0 _ _ _ Hh).
      unfold MAKE_BINOP_SELFMODIFYING, MAKE_BINOP.
      change (TOP_OV s') with (TOP_OV s). change (SEC_OV s') with (SEC_OV s).
      rewrite Htop, Hsec. cbn [bind_load].
      rewrite (bool_decide_eq_false_2 (type_id rhs = m_scalar_typeid)) by done.
      rewrite andb_false_r. done.
  - (* the left operand is not a double *)
    rewrite (bool_decide_eq_false_2 _ El). cbn [andb].
    assert (Hc : bool_decide (type_id rhs = type_id lhs) &&
                 bool_decide (type_id rhs = m_scalar_typeid) = false).
    { apply andb_false_iff.
      destruct (decide (type_id rhs = m_scalar_typeid)) as [E|E].
      - left. apply bool_decide_eq_false_2. congruence.
      - right. by apply bool_decide_eq_false_2. }
    rewrite Hc. rewrite (bool_decide_eq_true_2 (type_id lhs ≠ _)) by done.
    cbn [orb]. set (s' := code_write _ _ s). split.
    + intros Hb. unfold s'. rewrite (code_write_same _ _ _ Hb).
      unfold MAKE_BINOP. rewrite Htop, Hsec. cbn [bind_load].
      by apply try_call_stays.
    + intros _. rewrite (exec_0 _ _ _ Hh).
      unfold MAKE_BINOP_SELFMODIFYING, MAKE_BINOP.
      change (TOP_OV s') with (TOP_OV s). change (SEC_OV s') with (SEC_OV s).
      rewrite Htop, Hsec. cbn [bind_load]. by rewrite Hc.
Qed.

(** The binary operators without a specialized form: the handler is the
    plain macro, whose end is no [goto] and which leaves the code as it
    is. *)
Lemma binop_plain_handler l op s lhs rhs :
  binop_plain l = Some op →
  TOP_OV s = Some rhs → SEC_OV s = Some lhs →
  binop_selfmodifying l = None ∧ binop_specialized l = None ∧
  exec 1 l s =
    try_call catch_all s (typed_binary_op op lhs rhs)
      (fun ans s1 => Dispatch1 (PUSH_OV ans (STACK_DESTROY 2 s1))) ∧
  ∀ s3, outcome_state (exec 1 l s) = Some s3 → code_mem s3 = code_mem s.
Proof.
  intros Hp Htop Hsec.
  assert (Hh : binop_selfmodifying l = None ∧ binop_specialized l = None ∧
               handler l = Some (MAKE_BINOP op)).
  { destruct l; try discriminate Hp; injection Hp as <-; done. }
  destruct Hh as (H1 & H2 & Hh). split; [done|]. split; [done|].
  assert (E : exec 1 l s = MAKE_BINOP op s).
  { rewrite (exec_1 _ _ _ Hh). unfold MAKE_BINOP.
    rewrite Htop, Hsec. cbn [bind_load]. by apply try_call_stays. }
  split.
  - rewrite E. unfold MAKE_BINOP. by rewrite Htop, Hsec.
  - intros s3. rewrite E. apply MAKE_BINOP_code_mem.
Qed.

Lemma binop_opcode_types generic specialized lhs rhs lhs2 rhs2 :
  type_id lhs2 = type_id lhs → type_id rhs2 = type_id rhs →
  binop_opcode generic specialized lhs2 rhs2
    = binop_opcode generic specialized lhs rhs.
Proof. intros E1 E2. unfold binop_opcode. by rewrite E1, E2. Qed.

(** C1, for the binary operators that have a specialized form: MUL, DIV,
    ADD, SUB, POW, LE, LE_EQ, GR, GR_EQ, EQ and NEQ.  The generic handler
    on two operands of the cached scalar-double type-id writes the opcode
    of its _DBL form over its own opcode byte and goes there; the
    specialized handler on an operand of another type-id writes the
    opcode of the generic form back and goes there.  In both regimes the
    outcome is that of the plain handler on the code with the opcode that
    the types select: the operands are replaced by the result of the
    typed dispatch of the host.  A second run, on operands of the same
    types, from the handler that the opcode byte now names, leaves the
    code bytes as the first run left them, and its outcome is again that
    of the typed dispatch on its operands.  The binary operators LDIV,
    EL_MUL, EL_DIV, EL_POW, EL_AND, EL_OR, EL_LDIV, TRANS_MUL, MUL_TRANS,
    HERM_MUL, MUL_HERM, TRANS_LDIV and HERM_LDIV have no specialized form:
    their handler is in neither table of the self-modifying pairs, its
    outcome is that of the typed dispatch, and it leaves the code as it
    is.  (The operators with a constant right operand, MUL_CST to
    POW_CST, which pop one operand, are not in this development.) *)
Theorem binop_inline_cache (s : vm) (l l_dbl : label) (op : binary_op)
    (generic specialized : INSTR) (lhs rhs : octave_value) :
  binop_selfmodifying l = Some (op, l_dbl, specialized) →
  binop_specialized l_dbl = Some (op, l, generic) →
  TOP_OV s = Some rhs → SEC_OV s = Some lhs →
  0 ≤ ip s - 2 < Z.of_nat (length (code_mem s)) →
  is_Some (m_fn_dbl op) →
    instr generic = l ∧ instr specialized = l_dbl ∧
    let opcode := binop_opcode generic specialized lhs rhs in
    let s' := code_write (ip s - 2) (opcode_of opcode) s in
    (type_id lhs = m_scalar_typeid → type_id rhs = m_scalar_typeid →
     opcode = specialized ∧
     ∃ h, handler l = Some h ∧ h s = Goto l_dbl s') ∧
    (type_id lhs ≠ m_scalar_typeid ∨ type_id rhs ≠ m_scalar_typeid →
     opcode = generic ∧
     ∃ h, handler l_dbl = Some h ∧ h s = Goto l s') ∧
    (code_at s (ip s - 2) = Some (opcode_of generic) →
     exec 1 l s = MAKE_BINOP op s') ∧
    (code_at s (ip s - 2) = Some (opcode_of specialized) →
     exec 1 l_dbl s = MAKE_BINOP op s') ∧
    MAKE_BINOP op s' =
      try_call catch_all s' (typed_binary_op op lhs rhs)
        (fun ans s1 => Dispatch1 (PUSH_OV ans (STACK_DESTROY 2 s1))) ∧
    (∀ s2 lhs2 rhs2,
       code_mem s2 = code_mem s' → ip s2 = ip s →
       TOP_OV s2 = Some rhs2 → SEC_OV s2 = Some lhs2 →
       type_id lhs2 = type_id lhs → type_id rhs2 = type_id rhs →
       exec 1 (instr opcode) s2 = MAKE_BINOP op s2 ∧
       MAKE_BINOP op s2 =
         try_call catch_all s2 (typed_binary_op op lhs2 rhs2)
           (fun ans s1 => Dispatch1 (PUSH_OV ans (STACK_DESTROY 2 s1))) ∧
       ∀ s3, outcome_state (exec 1 (instr opcode) s2) = Some s3 →
             code_mem s3 = code_mem s') ∧
    (∀ l0 op0 s0 lhs0 rhs0,
       binop_plain l0 = Some op0 →
       TOP_OV s0 = Some rhs0 → SEC_OV s0 = Some lhs0 →
       binop_selfmodifying l0 = None ∧ binop_specialized l0 = None ∧
       exec 1 l0 s0 =
         try_call catch_all s0 (typed_binary_op op0 lhs0 rhs0)
           (fun ans s1 => Dispatch1 (PUSH_OV ans (STACK_DESTROY 2 s1))) ∧
       ∀ s3, outcome_state (exec 1 l0 s0) = Some s3 →
             code_mem s3 = code_mem s0).
Proof.
  intros Hsm Hsp Htop Hsec Hip Hfn.
  destruct (binop_tables _ _ _ _ Hsm) as (Hi' & Hnone & generic' & Hsp' & Hi).
  assert (generic' = generic) as -> by congruence.
  split; [done|]. split; [done|]. cbv zeta.
  pose proof (handler_selfmodifying _ _ _ _ Hsm) as Hh.
  pose proof (handler_specialized _ _ _ _ Hnone Hsp) as Hh'.
  destruct (binop_regimes s _ _ _ _ _ _ _ Hsm Hsp Htop Hsec Hfn) as [R1 R2].
  split; [|split; [|split; [done|split; [done|split; [|split]]]]].
  - intros El Er. unfold binop_opcode.
    rewrite (bool_decide_eq_true_2 _ El), (bool_decide_eq_true_2 _ Er).
    cbn [andb]. split; [done|].
    eexists. split; [exact Hh|]. unfold MAKE_BINOP_SELFMODIFYING.
    rewrite Htop, Hsec. cbn [bind_load].
    rewrite (bool_decide_eq_true_2 (type_id rhs = type_id lhs)) by congruence.
    by rewrite (bool_decide_eq_true_2 _ Er).
  - intros Hne.
    assert (Hb : bool_decide (type_id lhs = m_scalar_typeid) &&
                 bool_decide (type_id rhs = m_scalar_typeid) = false).
    { apply andb_false_iff.
      destruct Hne; [left|right]; by apply bool_decide_eq_false_2. }
    unfold binop_opcode. rewrite Hb. split; [done|].
    eexists. split; [exact Hh'|]. unfold MAKE_BINOP_SPECIALIZED.
    rewrite Htop, Hsec. cbn [bind_load].
    assert (Hc : bool_decide (type_id lhs ≠ m_scalar_typeid) ||
                 bool_decide (type_id rhs ≠ m_scalar_typeid) = true).
    { apply orb_true_iff.
      destruct Hne; [left|right]; by apply bool_decide_eq_true_2. }
    by rewrite Hc.
  - unfold MAKE_BINOP.
    change (TOP_OV (code_write _ _ s)) with (TOP_OV s).
    change (SEC_OV (code_write _ _ s)) with (SEC_OV s).
    by rewrite Htop, Hsec.
  - intros s2 lhs2 rhs2 Hcode Hip2 Htop2 Hsec2 El Er.
    set (opcode := binop_opcode generic specialized lhs rhs) in *.
    assert (Hbyte : code_at s2 (ip s2 - 2) = Some (opcode_of opcode)).
    { unfold code_at. rewrite Hcode, Hip2. cbn. by apply load_store_eq. }
    destruct (binop_regimes s2 _ _ _ _ _ _ _ Hsm Hsp Htop2 Hsec2 Hfn)
      as [R1' R2'].
    rewrite (binop_opcode_types _ _ lhs rhs) in R1', R2' by done.
    fold opcode in R1', R2'. rewrite (code_write_same _ _ _ Hbyte) in R1', R2'.
    assert (E : exec 1 (instr opcode) s2 = MAKE_BINOP op s2).
    { unfold opcode, binop_opcode in *.
      destruct (_ && _); [rewrite Hi'; by apply R2'|rewrite Hi; by apply R1']. }
    split; [done|]. split.
    + unfold MAKE_BINOP. by rewrite Htop2, Hsec2.
    + intros s3. rewrite E. intros H%MAKE_BINOP_code_mem. by rewrite H.
  - intros l0 op0 s0 lhs0 rhs0. apply binop_plain_handler.
Qed.

End binop_facts.

Section binop_examples.
Import small_host.

(** The theorem at [2 * 3] with the generic opcode MUL in the code: the
    handler rewrites itself to MUL_DBL, and 6 is pushed. *)
Lemma binop_inline_cache_witness :
  let s := at_binop MUL (val_scalar two) (val_scalar three) in
  (binop_selfmodifying L_mul = Some (op_mul, L_mul_dbl, MUL_DBL) ∧
   binop_specialized L_mul_dbl = Some (op_mul, L_mul, MUL) ∧
   TOP_OV s = Some (val_scalar three) ∧
   SEC_OV s = Some (val_scalar two) ∧
   0 ≤ ip s - 2 < Z.of_nat (length (code_mem s)) ∧
   is_Some (m_fn_dbl op_mul)) ∧
  exec 1 L_mul s =
    MAKE_BINOP op_mul (code_write (ip s - 2) (opcode_of MUL_DBL) s) ∧
  ∃ s', exec 1 L_mul s = Dispatch1 s' ∧
        code_at s' 0 = Some (opcode_of MUL_DBL) ∧
        TOP_OV s' = Some (val_scalar (dbl_mul two three)).
Proof.
  intros s.
  assert (H1 : binop_selfmodifying L_mul = Some (op_mul, L_mul_dbl, MUL_DBL))
    by reflexivity.
  assert (H2 : binop_specialized L_mul_dbl = Some (op_mul, L_mul, MUL))
    by reflexivity.
  assert (H3 : TOP_OV s = Some (val_scalar three)) by reflexivity.
  assert (H4 : SEC_OV s = Some (val_scalar two)) by reflexivity.
  assert (H5 : 0 ≤ ip s - 2 < Z.of_nat (length (code_mem s))) by by_compute.
  assert (H6 : is_Some (m_fn_dbl op_mul)) by (by eexists).
  split; [exact (conj H1 (conj H2 (conj H3 (conj H4 (conj H5 H6)))))|].
  destruct (binop_inline_cache s _ _ _ _ _ _ _ H1 H2 H3 H4 H5 H6)
    as (_ & _ & _ & _ & R & _).
  split; [apply R; reflexivity|].
  eexists. split; [vm_compute; reflexivity|]. split; reflexivity.
Defined.

(** The claim as the specification has it fails for the binary operators
    without a specialized form: EL_MUL on two doubles, [2 .* 3], leaves
    its opcode byte as it is, and no handler rewrites itself to one of
    EL_MUL; the result is that of the typed dispatch. *)
Lemma el_mul_does_not_specialize :
  let s := at_binop EL_MUL (val_scalar two) (val_scalar three) in
  type_id (val_scalar two) = m_scalar_typeid ∧
  type_id (val_scalar three) = m_scalar_typeid ∧
  binop_selfmodifying L_el_mul = None ∧
  ∃ s', exec 1 L_el_mul s = Dispatch1 s' ∧
        code_mem s' = code_mem s ∧
        code_at s' 0 = Some (opcode_of EL_MUL) ∧
        TOP_OV s' = Some (val_scalar (dbl_mul two three)).
Proof.
  intros s. split; [reflexivity|]. split; [reflexivity|].
  split; [reflexivity|].
  eexists. split; [vm_compute; reflexivity|]. repeat split.
Qed.

End binop_examples.

(** * More properties of the handlers *)

(** ** Signal checks: the handlers that make none *)

Section signal_free.
Context {host : host_ops}.
Implicit Types (s : vm) (o : outcome) (h : interp).














Lemma m_tw_destroy_range p n s : m_tw (destroy_range p n s) = m_tw s.
Proof. revert p s. induction n as [|n IH]; intros p s; [done|]. cbn. by rewrite IH. Qed.

Lemma m_tw_place_values p vs s : m_tw (place_values p vs s) = m_tw s.
Proof. revert p s. induction vs as [|v vs IH]; intros p s; [done|]. cbn. by rewrite IH. Qed.

Lemma m_tw_push_nils n s : m_tw (push_nils n s) = m_tw s.
Proof. revert s. induction n as [|n IH]; intros s; [done|]. cbn. by rewrite IH. Qed.



End signal_free.





Section signal_free_handlers.
Context {host : host_ops}.
Implicit Types (s : vm) (o : outcome).




























(** *** RET *)


Lemma m_tw_move_returns first k s s' :
  move_returns first k s = Some s' → m_tw s' = m_tw s.
Proof.
  revert s. induction k as [|k IH]; intros s; cbn [move_returns].
  - by intros [= <-].
  - destruct (load_ov s _); [|done]. cbn. intros H%IH. by rewrite H.
Qed.

Lemma m_tw_ret_move cse expects has s s' :
  ret_move cse expects has s = Some s' → m_tw s' = m_tw s.
Proof.
  unfold ret_move.
  destruct (_ && _); [destruct (load_ov s _); [|done]; by intros [= <-]|].
  destruct (_ && _); [by intros [= <-]|].
  destruct (bool_decide _).
  { destruct (copy_many_args_to_caller _ _ _ _ _); [|done]. by intros [= <-]. }
  intros H%m_tw_move_returns. by rewrite H, m_tw_push_nils.
Qed.

Lemma ret_expand_varargout_m_tw cse expects has s :
  match ret_expand_varargout cse expects has s with
  | Continue (_, s') => m_tw s' = m_tw s
  | Stop o => ∀ s', outcome_state o = Some s' → m_tw s' = m_tw s
  end.
Proof.
  unfold ret_expand_varargout.
  destruct (load_ov s _); [|done].
  destruct (is_defined _).
  - destruct (cell_value _); [|done].
    destruct (decide _); [by rewrite m_tw_place_values|].
    by intros s' [= <-].
  - by destruct (decide _).
Qed.



(** *** ASSIGNN *)








End signal_free_handlers.

Section signal_check_examples.
Import small_host.




End signal_check_examples.

(** ** RET: the three ways out *)

Section ret_stages.
Context {host : host_ops}.
Implicit Types (s : vm) (o : outcome).

Lemma same_frame_refl s : same_frame s s.
Proof. by repeat split. Qed.

Lemma same_frame_trans s1 s2 s3 :
  same_frame s1 s2 → same_frame s2 s3 → same_frame s1 s3.
Proof.
  intros (?&?&?&?&?&?&?&?&?&?) (?&?&?&?&?&?&?&?&?&?).
  repeat split; congruence.
Qed.

Lemma same_frame_destroy_range p n s : same_frame (destroy_range p n s) s.
Proof.
  revert p s. induction n as [|n IH]; intros p s; cbn [destroy_range].
  - apply same_frame_refl.
  - eapply same_frame_trans; [apply IH|]. by repeat split.
Qed.

(** The first stage of RET: the frame is told that it unwinds and the
    locals that are no return values are destroyed.  What follows is
    decided on the state [s1] this leaves. *)
Lemma ret_locals_destroyed s o :
  ret s = o → o ≠ Fault →
  ∃ n_locals n_returns s1,
    N_LOCALS s = Some n_locals ∧ N_RETURNS s = Some n_returns ∧
    bsp s + n_locals = sp s ∧
    0 < n_returns_callee n_returns ≤ n_locals ∧
    sp s1 = bsp s + n_returns_callee n_returns ∧
    same_frame s1 s ∧
    m_tw s1 = log ev_vm_unwinds (m_tw s) ∧
    length (stack_mem s1) = length (stack_mem s) ∧
    (∀ q, q < bsp s + n_returns_callee n_returns →
          load (stack_mem s1) q = load (stack_mem s) q) ∧
    o = (let? vararg_ok :=
           (if bool_decide (n_returns < 0)
            then ov_vararg ← load_ov s1 (sp s1 - 1);
                 Some (negb (is_defined ov_vararg && negb (iscell ov_vararg)))
            else Some true) in
         if negb vararg_ok then
           Unwind (push (se_err EXECUTION_EXC)
                     (push (se_pee (mk_execution_exception "error" ""
                                      "varargout must be a cell array object"))
                        s1))
         else if decide (bsp s1 = rsp s1)
         then ret_root (bool_decide (n_returns < 0))
                (n_returns_callee n_returns) s1
         else ret_to_caller (bool_decide (n_returns < 0))
                (n_returns_callee n_returns) s1).
Proof.
  unfold ret. set (s0 := set_m_tw _ s). intros H Ho.
  change (N_LOCALS s0) with (N_LOCALS s) in H.
  change (N_RETURNS s0) with (N_RETURNS s) in H.
  destruct (N_LOCALS s) as [n_locals|]; [|by subst o].
  cbn [bind_load] in H.
  destruct (decide (_ ≠ _)) as [|Hsp]; [by subst o|].
  destruct (N_RETURNS s) as [n_ret|]; [|by subst o]. cbn [bind_load] in H.
  fold (n_returns_callee n_ret) in H.
  set (n := n_returns_callee n_ret) in *.
  destruct (decide (n ≤ 0)) as [|Hpos]; [by subst o|].
  destruct (decide (_ < 0)) as [|Hdtor]; [by subst o|].
  set (s1 := set_sp _ (destroy_range _ _ s0)) in H.
  assert (Hsp' : bsp s + n_locals = sp s).
  { destruct (decide (bsp s + n_locals = sp s)); [done|by destruct Hsp]. }
  exists n_locals, n_ret, s1.
  split; [done|]. split; [done|]. split; [done|]. split; [lia|].
  split. { unfold s1. cbn [sp set_sp]. rewrite sp_destroy_range.
           change (sp s0) with (sp s). lia. }
  split. { apply (same_frame_trans _ s0); [|by repeat split]. unfold s1.
           eapply same_frame_trans; [|apply same_frame_destroy_range].
           by repeat split. }
  split. { unfold s1. cbn [m_tw set_sp]. by rewrite m_tw_destroy_range. }
  split. { unfold s1. cbn [stack_mem set_sp]. by rewrite length_destroy_range. }
  split. { intros q Hq. unfold s1. cbn [stack_mem set_sp].
           rewrite load_destroy_range; [done|].
           change (sp s0) with (sp s). lia. }
  by subst o.
Qed.

(** The same stage for a frame whose header and stack pointer are as the
    handler asserts them. *)
Lemma ret_after_locals s n_locals n_returns :
  N_LOCALS s = Some n_locals → N_RETURNS s = Some n_returns →
  bsp s + n_locals = sp s →
  0 < n_returns_callee n_returns ≤ n_locals →
  ∃ s1,
    sp s1 = bsp s + n_returns_callee n_returns ∧
    same_frame s1 s ∧
    m_tw s1 = log ev_vm_unwinds (m_tw s) ∧
    length (stack_mem s1) = length (stack_mem s) ∧
    (∀ q, q < bsp s + n_returns_callee n_returns →
          load (stack_mem s1) q = load (stack_mem s) q) ∧
    ret s = (let? vararg_ok :=
           (if bool_decide (n_returns < 0)
            then ov_vararg ← load_ov s1 (sp s1 - 1);
                 Some (negb (is_defined ov_vararg && negb (iscell ov_vararg)))
            else Some true) in
         if negb vararg_ok then
           Unwind (push (se_err EXECUTION_EXC)
                     (push (se_pee (mk_execution_exception "error" ""
                                      "varargout must be a cell array object"))
                        s1))
         else if decide (bsp s1 = rsp s1)
         then ret_root (bool_decide (n_returns < 0))
                (n_returns_callee n_returns) s1
         else ret_to_caller (bool_decide (n_returns < 0))
                (n_returns_callee n_returns) s1).
Proof.
  intros Hl Hr Hsp Hn. unfold ret. set (s0 := set_m_tw _ s).
  change (N_LOCALS s0) with (N_LOCALS s).
  change (N_RETURNS s0) with (N_RETURNS s).
  rewrite Hl, Hr. cbn [bind_load].
  change (bsp s0) with (bsp s). change (sp s0) with (sp s).
  rewrite decide_False by lia.
  fold (n_returns_callee n_returns).
  set (n := n_returns_callee n_returns) in *.
  rewrite !decide_False by lia.
  set (s1 := set_sp _ (destroy_range _ _ s0)).
  exists s1.
  split. { unfold s1. cbn [sp set_sp]. rewrite sp_destroy_range.
           change (sp s0) with (sp s). lia. }
  split. { apply (same_frame_trans _ s0); [|by repeat split]. unfold s1.
           eapply same_frame_trans; [|apply same_frame_destroy_range].
           by repeat split. }
  split. { unfold s1. cbn [m_tw set_sp]. by rewrite m_tw_destroy_range. }
  split. { unfold s1. cbn [stack_mem set_sp]. by rewrite length_destroy_range. }
  split. { intros q Hq. unfold s1. cbn [stack_mem set_sp].
           rewrite load_destroy_range; [done|].
           change (sp s0) with (sp s). lia. }
  done.
Qed.

Lemma same_frame_place_values p vs s : same_frame (place_values p vs s) s.
Proof.
  revert p s. induction vs as [|v vs IH]; intros p s; cbn [place_values].
  - apply same_frame_refl.
  - eapply same_frame_trans; [apply IH|]. by repeat split.
Qed.

Lemma same_frame_push_nils n s : same_frame (push_nils n s) s.
Proof.
  revert s. induction n as [|n IH]; intros s; cbn [push_nils].
  - apply same_frame_refl.
  - eapply same_frame_trans; [apply IH|]. by repeat split.
Qed.

Lemma same_frame_move_returns first k s s' :
  move_returns first k s = Some s' → same_frame s' s.
Proof.
  revert s. induction k as [|k IH]; intros s; cbn [move_returns].
  - intros [= <-]. apply same_frame_refl.
  - destruct (load_ov s _); [|done]. cbn [mbind option_bind]. intros H%IH.
    eapply same_frame_trans; [apply H|]. by repeat split.
Qed.

Lemma same_frame_ret_move cse expects has s s' :
  ret_move cse expects has s = Some s' → same_frame s' s.
Proof.
  unfold ret_move.
  destruct (_ && _).
  { destruct (load_ov s _); [|done]. intros [= <-]. by repeat split. }
  destruct (_ && _); [intros [= <-]; by repeat split|].
  destruct (bool_decide _).
  { destruct (copy_many_args_to_caller _ _ _ _ _); [|done].
    intros [= <-]; by repeat split. }
  intros H%same_frame_move_returns.
  eapply same_frame_trans; [apply H|]. apply same_frame_push_nils.
Qed.

Lemma same_frame_ret_expand_varargout cse expects has s has' s' :
  ret_expand_varargout cse expects has s = Continue (has', s') →
  same_frame s' s.
Proof.
  unfold ret_expand_varargout.
  destruct (load_ov s _); [|done].
  destruct (is_defined _).
  - destruct (cell_value _); [|done].
    destruct (decide _); [|done]. intros [= _ <-].
    eapply same_frame_trans; [apply same_frame_place_values|].
    by repeat split.
  - destruct (decide _); intros [= _ <-]; by repeat split.
Qed.

(** The registers that the restoring of the frame of the caller sets. *)
Lemma ret_restore_caller_registers cse s r :
  ret_restore_caller cse s = Some r →
  ∃ regs,
    load (stack_mem s) (cse - 2) ≫= as_puc = Some (saved_ip regs) ∧
    load (stack_mem s) (cse - 3) ≫= as_pse = Some (saved_bsp regs) ∧
    load (stack_mem s) (cse - 4) ≫= as_ps = Some (saved_name_data regs) ∧
    load (stack_mem s) (cse - 5) ≫= as_pov = Some (saved_data regs) ∧
    load (stack_mem s) (cse - 6) ≫= as_puc = Some (saved_code regs) ∧
    load (stack_mem s) (cse - 7) ≫= as_pud = Some (saved_unwind_data regs) ∧
    ip (snd r) = saved_ip regs ∧ bsp (snd r) = saved_bsp regs ∧
    name_data (snd r) = saved_name_data regs ∧
    data (snd r) = saved_data regs ∧ code (snd r) = saved_code regs ∧
    unwind_data (snd r) = saved_unwind_data regs ∧
    arg0 (snd r) = arg0 s ∧ rsp (snd r) = rsp s ∧
    code_mem (snd r) = code_mem s ∧ name_mem (snd r) = name_mem s.
Proof.
  unfold ret_restore_caller. intros H.
  destruct (load_i s (cse - 1)) as [e|]; [|done]. cbn [mbind option_bind] in H.
  destruct (load (stack_mem s) (cse - 2) ≫= as_puc) as [ip'|]; [|done].
  cbn [mbind option_bind] in H.
  destruct (load (stack_mem s) (cse - 3) ≫= as_pse) as [bsp'|]; [|done].
  cbn [mbind option_bind] in H.
  destruct (load (stack_mem s) (cse - 4) ≫= as_ps) as [name_data'|]; [|done].
  cbn [mbind option_bind] in H.
  destruct (load (stack_mem s) (cse - 5) ≫= as_pov) as [data'|]; [|done].
  cbn [mbind option_bind] in H.
  destruct (load (stack_mem s) (cse - 6) ≫= as_puc) as [code'|]; [|done].
  cbn [mbind option_bind] in H.
  destruct (load (stack_mem s) (cse - 7) ≫= as_pud) as [unwind_data'|]; [|done].
  cbn [mbind option_bind] in H.
  destruct (load (stack_mem s) (cse - 8) ≫= as_pse) as [pse|]; [|done].
  cbn [mbind option_bind] in H.
  apply (inj Some) in H. subst r.
  by exists (mk_saved_registers ip' bsp' name_data' data' code' unwind_data').
Qed.

(** X2.  A RET that goes on in a bytecode caller has restored the
    registers of the caller from the bookkeeping words that the call left
    under the frame of the callee: the instruction pointer, the base of the
    frame and the pointers to the names, the constants, the code and the
    unwind data.  The root of the stack, the code and the names are as they
    were, and the host has been told, in this order, that the frame unwinds
    and that the frame is popped. *)
Theorem ret_restores_caller_registers (s s' : vm) :
  ret s = Dispatch s' →
  ∃ regs,
    caller_registers s = Some regs ∧
    ip s' = saved_ip regs ∧ bsp s' = saved_bsp regs ∧
    name_data s' = saved_name_data regs ∧ data s' = saved_data regs ∧
    code s' = saved_code regs ∧ unwind_data s' = saved_unwind_data regs ∧
    rsp s' = rsp s ∧ code_mem s' = code_mem s ∧ name_mem s' = name_mem s ∧
    m_tw s' = log ev_pop_return_stack_frame (log ev_vm_unwinds (m_tw s)).
Proof.
  intros H.
  destruct (ret_locals_destroyed s _ H)
    as (n_locals & n_returns & s1 & _ & _ & _ & Hn & Hsp1 & Hfr & Hm & _
        & Hload & Heq); [done|].
  set (n := n_returns_callee n_returns) in *.
  destruct (if bool_decide _ then _ else _) as [vararg_ok|]; [|done].
  cbn [bind_load] in Heq. destruct (negb vararg_ok); [done|].
  destruct (decide (bsp s1 = rsp s1)).
  { symmetry in Heq. by apply ret_root_not_Dispatch in Heq. }
  symmetry in Heq. revert Heq. unfold ret_to_caller.
  destruct (ret_restore_caller _ s1) as [r|] eqn:Hrest; [|done].
  cbn [bind_load].
  pose proof (ret_restore_caller_Some _ _ _ Hrest) as (_ & _ & _ & _ & _ & Hm2).
  apply ret_restore_caller_registers in Hrest
    as (regs & L2 & L3 & L4 & L5 & L6 & L7 & R).
  replace (sp s1 - n) with (bsp s) in * by lia.
  assert (Hregs : caller_registers s = Some regs).
  { unfold caller_registers.
    rewrite <- !Hload by lia. rewrite L2, L3, L4, L5, L6, L7.
    by destruct regs. }
  destruct Hfr as (_ & _ & _ & Frsp & _ & _ & _ & _ & Fcode & Fname).
  assert (Hend : ∀ has s3,
    same_frame s3 (snd r) → m_tw s3 = m_tw (snd r) →
    (let? s4 := ret_move (bsp s) (fst r) has s3 in
     Dispatch (set_m_tw (log ev_pop_return_stack_frame
                       (m_tw (destroy_range (bsp s + 1) (Z.to_nat has) s4)))
                 (destroy_range (bsp s + 1) (Z.to_nat has) s4))) = Dispatch s' →
    ∃ regs,
      caller_registers s = Some regs ∧
      ip s' = saved_ip regs ∧ bsp s' = saved_bsp regs ∧
      name_data s' = saved_name_data regs ∧ data s' = saved_data regs ∧
      code s' = saved_code regs ∧ unwind_data s' = saved_unwind_data regs ∧
      rsp s' = rsp s ∧ code_mem s' = code_mem s ∧ name_mem s' = name_mem s ∧
      m_tw s' = log ev_pop_return_stack_frame (log ev_vm_unwinds (m_tw s))).
  { intros has s3 F3 M3.
    destruct (ret_move _ _ _ s3) as [s4|] eqn:Hmove; [|done]. cbn [bind_load].
    intros [= <-].
    pose proof (m_tw_ret_move _ _ _ _ _ Hmove) as M4.
    apply same_frame_ret_move in Hmove.
    pose proof (same_frame_trans _ _ _
      (same_frame_trans _ _ _ (same_frame_destroy_range (bsp s + 1)
                                 (Z.to_nat has) s4) Hmove) F3)
      as (_ & Fip & Fbsp & Frsp' & Fc & Fd & Fn & Fu & Fcm & Fnm).
    destruct R as (R1 & R2 & R3 & R4 & R5 & R6 & _ & R8 & R9 & R10).
    exists regs. cbn.
    rewrite m_tw_destroy_range, M4, M3, Hm2, Hm.
    repeat split; congruence. }
  destruct (bool_decide (n_returns < 0)).
  - destruct (ret_expand_varargout _ _ _ _) as [[has s3]|o] eqn:Hx.
    + apply Hend.
      * by apply same_frame_ret_expand_varargout in Hx.
      * pose proof (ret_expand_varargout_m_tw (bsp s) (fst r) (n - 1) (snd r))
          as Hx'. by rewrite Hx in Hx'.
    + intros ->. by apply ret_expand_varargout_Stop with (s' := s') in Hx.
  - apply Hend; [apply same_frame_refl|done].
Qed.

(** X3.  A RET of a frame with varargout, whose varargout slot, the last
    of the return slots, holds a defined value that is no cell: the handler
    goes to [unwind] with the tag EXECUTION_EXC on the top of the stack and
    under it the error "varargout must be a cell array object".  The error
    is raised in the frame of the callee, above its return slots: no
    register of the caller is restored. *)
Theorem ret_varargout_must_be_cell (s : vm) (n_locals n_returns : Z)
    (v : octave_value) :
  N_LOCALS s = Some n_locals → N_RETURNS s = Some n_returns →
  n_returns < 0 → - n_returns ≤ n_locals →
  bsp s + n_locals = sp s →
  0 ≤ bsp s → bsp s - n_returns + 2 ≤ Z.of_nat (length (stack_mem s)) →
  load_ov s (bsp s - n_returns - 1) = Some v →
  is_defined v = true → iscell v = false →
  ∃ s', ret s = Unwind s' ∧
        signalled s' EXECUTION_EXC ∧
        load (stack_mem s') (sp s' - 2) =
          Some (se_pee (mk_execution_exception "error" ""
                          "varargout must be a cell array object")) ∧
        sp s' = bsp s - n_returns + 2 ∧
        same_frame s' s.
Proof.
  intros Hl Hr Hneg Hle Hsp Hbsp Hroom Hv Hdef Hcell.
  assert (Hn : n_returns_callee n_returns = - n_returns).
  { unfold n_returns_callee. by rewrite bool_decide_eq_true_2. }
  destruct (ret_after_locals s n_locals n_returns Hl Hr Hsp)
    as (s1 & Hsp1 & Hfr & _ & Hlen & Hload & ->); [lia|].
  rewrite Hn in *. rewrite bool_decide_eq_true_2 by done.
  unfold load_ov in *. rewrite Hsp1, Hload by lia.
  replace (bsp s + - n_returns - 1) with (bsp s - n_returns - 1) by lia.
  rewrite Hv. cbn [mbind option_bind bind_load]. rewrite Hdef, Hcell.
  cbn [andb negb]. eexists. split; [done|].
  split; [|split; [|split]].
  - apply signalled_push. cbn. rewrite length_store. lia.
  - cbn. rewrite load_store_ne by lia.
    apply load_store_same; lia.
  - cbn. lia.
  - eapply same_frame_trans; [|apply Hfr]. by repeat split.
Qed.

Lemma length_load_ovs s p n l :
  load_ovs s p n = Some l → length l = n.
Proof.
  revert p l. induction n as [|n IH]; intros p l; cbn [load_ovs].
  - by intros [= <-].
  - destruct (load_ov s p); [|done]. cbn [mbind option_bind].
    destruct (load_ovs s (p + 1) n) eqn:E; [|done]. cbn.
    intros [= <-]. cbn. f_equal. by eapply IH.
Qed.

(** The values the return from the root frame hands to the host. *)
Lemma ret_root_Return b (n : Z) s vs s' root_nargout :
  ret_root b n s = Return vs s' →
  load_i s (bsp s) = Some root_nargout →
  Z.of_nat (length vs) ≤ Z.max root_nargout 1.
Proof.
  unfold ret_root. intros H Hroot. rewrite Hroot in H. cbn [bind_load] in H.
  destruct b.
  - destruct (decide (n < 2)); [done|].
    destruct (load_ov s _) as [ov_vararg|]; [|done]. cbn [bind_load] in H.
    destruct (load_ovs s _ _) as [fixed|] eqn:Hfixed; [|done].
    cbn [bind_load] in H. apply length_load_ovs in Hfixed.
    destruct (is_defined ov_vararg && bool_decide _) eqn:Hc.
    + destruct (cell_value ov_vararg) as [elems|]; [|done].
      cbn [mbind option_bind bind_load] in H. injection H as <- _.
      apply andb_true_iff in Hc as [_ Hj%bool_decide_eq_true_1].
      rewrite length_app, length_fmap, length_take, Hfixed. lia.
    + cbn [bind_load] in H. injection H as <- _.
      rewrite length_app, length_fmap, Hfixed. cbn. lia.
  - destruct (load_ovs s _ _) as [fixed|] eqn:Hfixed; [|done].
    cbn [bind_load] in H. apply length_load_ovs in Hfixed.
    injection H as <- _. rewrite length_fmap, Hfixed. lia.
Qed.

Lemma ret_to_caller_not_Return b (n : Z) s vs s' :
  ret_to_caller b n s ≠ Return vs s'.
Proof.
  unfold ret_to_caller.
  destruct (ret_restore_caller _ s) as [r|]; [|done]. cbn [bind_load].
  assert (Hend : ∀ has s3,
    (let? s4 := ret_move (sp s - n) (fst r) has s3 in
     Dispatch (set_m_tw (log ev_pop_return_stack_frame
                 (m_tw (destroy_range (sp s - n + 1) (Z.to_nat has) s4)))
                 (destroy_range (sp s - n + 1) (Z.to_nat has) s4)))
    ≠ Return vs s').
  { intros has s3. by destruct (ret_move _ _ _ s3). }
  destruct b; [|apply Hend].
  unfold ret_expand_varargout.
  destruct (load_ov _ _) as [ov_vararg|]; [|done].
  destruct (is_defined ov_vararg).
  - destruct (cell_value ov_vararg); [|done].
    destruct (decide (sp _ + _ ≤ _)); [apply Hend|done].
  - destruct (decide (fst r ≠ 0)); apply Hend.
Qed.

(** X4.  RET returns to the host from the root frame only, and it hands
    over no more values than the host asked for, where a request for no
    value counts as a request for one: with [root_nargout] in the
    [%nargout] slot of the frame, where the entry of the VM has stored it,
    the list returned has at most [max root_nargout 1] values, however many
    return slots the frame has and however long its varargout is. *)
Theorem ret_root_returns_at_most_wanted (s s' : vm)
    (vs : list octave_value) (root_nargout : Z) :
  ret s = Return vs s' →
  load_i s (bsp s) = Some root_nargout →
  bsp s = rsp s ∧ Z.of_nat (length vs) ≤ Z.max root_nargout 1.
Proof.
  intros H Hroot.
  destruct (ret_locals_destroyed s _ H)
    as (n_locals & n_returns & s1 & _ & _ & _ & Hn & Hsp1 & Hfr & _ & _
        & Hload & Heq); [done|].
  destruct (if bool_decide _ then _ else _) as [vararg_ok|]; [|done].
  cbn [bind_load] in Heq. destruct (negb vararg_ok); [done|].
  destruct Hfr as (_ & _ & Fbsp & Frsp & _).
  destruct (decide (bsp s1 = rsp s1)) as [Hrsp|].
  - split; [congruence|]. symmetry in Heq.
    apply (ret_root_Return _ _ _ _ _ root_nargout) in Heq; [done|].
    unfold load_i in *. rewrite Fbsp, Hload by lia. done.
  - symmetry in Heq. by apply ret_to_caller_not_Return in Heq.
Qed.

End ret_stages.

Section ret_stages_examples.
Import small_host more_examples.

(** The theorem at the RET of [at_ret]: the caller goes on at the code
    offset 14 with its frame at the bottom of the stack. *)
Lemma ret_restores_caller_registers_witness :
  let s := at_ret (val_scalar seven) in
  let s' := match ret s with Dispatch s' => s' | _ => s end in
  ret s = Dispatch s' ∧
  ∃ regs,
    caller_registers s = Some regs ∧
    ip s' = saved_ip regs ∧ bsp s' = saved_bsp regs ∧
    name_data s' = saved_name_data regs ∧ data s' = saved_data regs ∧
    code s' = saved_code regs ∧ unwind_data s' = saved_unwind_data regs ∧
    rsp s' = rsp s ∧ code_mem s' = code_mem s ∧ name_mem s' = name_mem s ∧
    m_tw s' = log ev_pop_return_stack_frame (log ev_vm_unwinds (m_tw s)).
Proof.
  intros s s'.
  assert (H1 : ret s = Dispatch s') by (vm_compute; reflexivity).
  exact (conj H1 (ret_restores_caller_registers s s' H1)).
Defined.

(** The theorem at [varargout = 7]. *)
Lemma ret_varargout_must_be_cell_witness :
  let s := at_ret_varargout (val_scalar seven) in
  (N_LOCALS s = Some 3 ∧ N_RETURNS s = Some (-2) ∧ -2 < 0 ∧ - -2 ≤ 3 ∧
   bsp s + 3 = sp s ∧ 0 ≤ bsp s ∧
   bsp s - -2 + 2 ≤ Z.of_nat (length (stack_mem s)) ∧
   load_ov s (bsp s - -2 - 1) = Some (val_scalar seven) ∧
   is_defined (val_scalar seven) = true ∧
   iscell (val_scalar seven) = false) ∧
  ∃ s', ret s = Unwind s' ∧
        signalled s' EXECUTION_EXC ∧
        load (stack_mem s') (sp s' - 2) =
          Some (se_pee (mk_execution_exception "error" ""
                          "varargout must be a cell array object")) ∧
        sp s' = bsp s - -2 + 2 ∧
        same_frame s' s.
Proof.
  intros s.
  assert (H1 : N_LOCALS s = Some 3) by reflexivity.
  assert (H2 : N_RETURNS s = Some (-2)) by reflexivity.
  assert (H3 : -2 < 0) by reflexivity.
  assert (H4 : - -2 ≤ 3) by (vm_compute; discriminate).
  assert (H5 : bsp s + 3 = sp s) by reflexivity.
  assert (H6 : 0 ≤ bsp s) by (vm_compute; discriminate).
  assert (H7 : bsp s - -2 + 2 ≤ Z.of_nat (length (stack_mem s)))
    by (vm_compute; discriminate).
  assert (H8 : load_ov s (bsp s - -2 - 1) = Some (val_scalar seven))
    by reflexivity.
  exact (conj (conj H1 (conj H2 (conj H3 (conj H4 (conj H5 (conj H6
           (conj H7 (conj H8 (conj eq_refl eq_refl)))))))))
         (ret_varargout_must_be_cell s 3 (-2) (val_scalar seven)
            H1 H2 H3 H4 H5 H6 H7 H8 eq_refl eq_refl)).
Defined.

(** The theorem at the root frame of [[a, b] = f ()] called for one
    value: one value is returned. *)
Lemma ret_root_returns_at_most_wanted_witness :
  let s := at_ret_root 1 (val_scalar seven) (val_scalar two) in
  (ret s = Return [val_scalar seven] (set_m_tw (log ev_vm_unwinds idle)
            (poke 2 se_dead (poke 1 se_dead s))) ∧
   load_i s (bsp s) = Some 1) ∧
  bsp s = rsp s ∧ Z.of_nat (length [val_scalar seven]) ≤ Z.max 1 1.
Proof.
  intros s.
  assert (H1 : ret s = Return [val_scalar seven]
                 (set_m_tw (log ev_vm_unwinds idle)
                    (poke 2 se_dead (poke 1 se_dead s))))
    by (vm_compute; reflexivity).
  assert (H2 : load_i s (bsp s) = Some 1) by reflexivity.
  exact (conj (conj H1 H2)
           (ret_root_returns_at_most_wanted s _ _ 1 H1 H2)).
Defined.

End ret_stages_examples.

(** ** Conditional jumps: the two senses *)

Section jump_senses.
Context {host : host_ops}.
Implicit Types (s : vm) (v : octave_value).

Lemma catch_not_Dispatch cs e s s1 : catch cs e s ≠ Dispatch s1.
Proof.
  induction cs as [|c cs IH]; cbn [catch]; [done|].
  destruct c, e; cbn; try done.
  destruct (name_at s slot); done.
Qed.

(** What a conditional jump with the condition [v] on the stack does when
    it dispatches, through the generic handler or through the boolean one
    that the generic handler goes to. *)
Lemma exec_jmp_generic_Dispatch negate special l l_bool generic s v b1 s1 :
  handler l = Some (jmp_generic negate special l_bool) →
  handler l_bool = Some (jmp_bool negate generic l) →
  TOP_OV s = Some v → code_at s (ip s) = Some b1 →
  exec 1 l s = Dispatch s1 →
  ∃ (truth : bool) (h' : interp),
    (match v with
     | val_bool b => truth = b ∧ h' = m_tw s
     | _ => is_defined v = true ∧ is_true v (m_tw s) = (h_ok truth, h')
     end) ∧
    sp s1 = sp s - 1 ∧
    stack_mem s1 = store (sp s - 1) se_dead (stack_mem s) ∧
    m_tw s1 = h' ∧
    ip s1 = if xorb negate truth
            then code s + USHORT_FROM_UCHARS (arg0 s) b1
            else ip s + 1.
Proof.
  intros Hl Hlb Htop Hb1. rewrite (exec_1 _ _ _ Hl).
  unfold jmp_generic at 1. rewrite Htop. cbn [bind_load].
  destruct (decide (type_id v = m_bool_typeid)) as [Hbool|Hbool].
  - rewrite (exec_0 _ _ _ Hlb). unfold jmp_bool.
    set (sw := code_write _ _ s).
    change (TOP_OV sw) with (TOP_OV s). rewrite Htop. cbn [bind_load].
    rewrite decide_False by (intros ?; done).
    change (ip sw) with (ip s). unfold sw.
    rewrite code_at_code_write_ne by lia. rewrite Hb1. cbn [bind_load].
    destruct v; try done. intros [= <-]. exists b, (m_tw s).
    split; [done|]. by destruct (xorb negate b).
  - rewrite Hb1. cbn [bind_load].
    destruct (is_defined v) eqn:Hdef; [|done].
    unfold try_call. cbn [m_tw set_ip].
    destruct (is_true v (m_tw s)) as [[b|e] h'] eqn:Hb; cbn [fst snd].
    + intros [= <-]. exists b, h'. split; [by destruct v|].
      by destruct (xorb negate b).
    + intros H. exfalso. revert H.
      destruct (catch _ _ _) eqn:E; try done.
      * intros _. by apply catch_not_Dispatch in E.
      * by apply catch_not_Goto in E.
Qed.

Lemma exec_jmp_generic_sense negate special l l_bool generic s v b1
    (truth : bool) (h' : interp) :
  handler l = Some (jmp_generic negate special l_bool) →
  handler l_bool = Some (jmp_bool negate generic l) →
  TOP_OV s = Some v → code_at s (ip s) = Some b1 →
  (match v with
   | val_bool b => truth = b ∧ h' = m_tw s
   | _ => is_defined v = true ∧ is_true v (m_tw s) = (h_ok truth, h')
   end) →
  ∃ s1, exec 1 l s = Dispatch s1 ∧
    sp s1 = sp s - 1 ∧
    stack_mem s1 = store (sp s - 1) se_dead (stack_mem s) ∧
    m_tw s1 = h' ∧
    ip s1 = if xorb negate truth
            then code s + USHORT_FROM_UCHARS (arg0 s) b1
            else ip s + 1.
Proof.
  intros Hl Hlb Htop Hb1 Hv. rewrite (exec_1 _ _ _ Hl).
  unfold jmp_generic at 1. rewrite Htop. cbn [bind_load].
  destruct (decide (type_id v = m_bool_typeid)) as [Hbool|Hbool].
  - rewrite (exec_0 _ _ _ Hlb). unfold jmp_bool.
    set (sw := code_write _ _ s).
    change (TOP_OV sw) with (TOP_OV s). rewrite Htop. cbn [bind_load].
    rewrite decide_False by (intros ?; done).
    change (ip sw) with (ip s). unfold sw.
    rewrite code_at_code_write_ne by lia. rewrite Hb1. cbn [bind_load].
    destruct v; try done. destruct Hv as [-> ->]. eexists. split; [done|].
    by destruct (xorb negate b).
  - rewrite Hb1. cbn [bind_load].
    assert (Hv' : is_defined v = true ∧
                  is_true v (m_tw s) = (h_ok truth, h'))
      by (by destruct v).
    destruct Hv' as [-> Hv']. unfold try_call. cbn [m_tw set_ip].
    rewrite Hv'. cbn [fst snd]. eexists. split; [done|].
    by destruct (xorb negate truth).
Qed.

(** X5.  JMP_IF and JMP_IFN are the two senses of one test.  With the
    same condition on the stack and the same target in the code, if JMP_IF
    dispatches the next instruction then so does JMP_IFN; both have popped
    the condition and left the stack and the host in the same state, and
    exactly one of them has gone to the target while the other goes on
    after its operand.  This holds whether the generic handler decides or
    the boolean one that it hands a boolean condition to. *)
Theorem jmp_if_and_jmp_ifn_are_opposite (s s1 : vm) (v : octave_value)
    (b1 : Z) :
  TOP_OV s = Some v → code_at s (ip s) = Some b1 →
  exec 1 L_jmp_if s = Dispatch s1 →
  ∃ s2, exec 1 L_jmp_ifn s = Dispatch s2 ∧
    sp s1 = sp s - 1 ∧ sp s2 = sp s - 1 ∧
    stack_mem s2 = stack_mem s1 ∧ m_tw s2 = m_tw s1 ∧
    ((ip s1 = code s + USHORT_FROM_UCHARS (arg0 s) b1 ∧ ip s2 = ip s + 1) ∨
     (ip s1 = ip s + 1 ∧ ip s2 = code s + USHORT_FROM_UCHARS (arg0 s) b1)).
Proof.
  intros Htop Hb1 H1.
  destruct (exec_jmp_generic_Dispatch false JMP_IF_BOOL L_jmp_if
              L_jmp_if_bool JMP_IF s v b1 s1 eq_refl eq_refl Htop Hb1 H1)
    as (b & h' & Hb & Hsp1 & Hst1 & Hm1 & Hip1).
  destruct (exec_jmp_generic_sense true JMP_IFN_BOOL L_jmp_ifn
              L_jmp_ifn_bool JMP_IFN s v b1 b h' eq_refl eq_refl Htop Hb1 Hb)
    as (s2 & H2 & Hsp2 & Hst2 & Hm2 & Hip2).
  exists s2. split; [done|]. split; [done|]. split; [done|].
  split; [congruence|]. split; [congruence|].
  destruct b; cbn [xorb] in *; [left|right]; done.
Qed.

(** X6.  A conditional jump on an undefined condition is an error: each of
    JMP_IF and JMP_IFN goes to [unwind] with the tag IF_UNDEFINED pushed
    over the condition, which is not popped; the operand of the jump has
    been read, and no branch is taken. *)
Theorem jmp_on_undefined_condition (s : vm) (l : label) (b1 : Z) :
  l = L_jmp_if ∨ l = L_jmp_ifn →
  TOP_OV s = Some val_undef → code_at s (ip s) = Some b1 →
  sp s < Z.of_nat (length (stack_mem s)) →
  ∃ s', exec 1 l s = Unwind s' ∧
        signalled s' IF_UNDEFINED ∧
        sp s' = sp s + 1 ∧ SEC_OV s' = Some val_undef ∧
        ip s' = ip s + 1 ∧ code_mem s' = code_mem s ∧ m_tw s' = m_tw s.
Proof.
  intros Hl Htop Hb1 Hroom.
  assert (Hsp : 0 ≤ sp s - 1).
  { unfold TOP_OV, load_ov in Htop.
    destruct (load (stack_mem s) (sp s - 1)) eqn:E; [|done].
    apply load_Some_lt in E. lia. }
  assert (H : ∀ negate special l_bool,
    handler l = Some (jmp_generic negate special l_bool) →
    ∃ s', exec 1 l s = Unwind s' ∧
        signalled s' IF_UNDEFINED ∧
        sp s' = sp s + 1 ∧ SEC_OV s' = Some val_undef ∧
        ip s' = ip s + 1 ∧ code_mem s' = code_mem s ∧ m_tw s' = m_tw s).
  { intros negate special l_bool Hh. rewrite (exec_1 _ _ _ Hh).
    unfold jmp_generic. rewrite Htop. cbn [bind_load].
    rewrite decide_False by done. rewrite Hb1. cbn [bind_load is_defined].
    eexists. split; [done|]. split; [apply signalled_push; cbn; lia|].
    split; [done|]. split; [|done].
    unfold SEC_OV, TOP_OV, load_ov in *. cbn.
    replace (sp s + 1 - 2) with (sp s - 1) by lia.
    by rewrite load_store_ne by lia. }
  destruct Hl as [-> | ->]; eapply H; reflexivity.
Qed.

End jump_senses.

Section jump_examples.
Import small_host.

(** The theorem at [if (true)]: JMP_IF goes to the target 6, JMP_IFN goes
    on at 3. *)
Lemma jmp_if_and_jmp_ifn_are_opposite_witness :
  let s := at_jmp JMP_IF (val_bool true) in
  let s1 := match exec 1 L_jmp_if s with Dispatch s1 => s1 | _ => s end in
  (TOP_OV s = Some (val_bool true) ∧ code_at s (ip s) = Some 0 ∧
   exec 1 L_jmp_if s = Dispatch s1) ∧
  ∃ s2, exec 1 L_jmp_ifn s = Dispatch s2 ∧
    sp s1 = sp s - 1 ∧ sp s2 = sp s - 1 ∧
    stack_mem s2 = stack_mem s1 ∧ m_tw s2 = m_tw s1 ∧
    ((ip s1 = code s + USHORT_FROM_UCHARS (arg0 s) 0 ∧ ip s2 = ip s + 1) ∨
     (ip s1 = ip s + 1 ∧ ip s2 = code s + USHORT_FROM_UCHARS (arg0 s) 0)).
Proof.
  intros s s1.
  assert (H1 : TOP_OV s = Some (val_bool true)) by reflexivity.
  assert (H2 : code_at s (ip s) = Some 0) by reflexivity.
  assert (H3 : exec 1 L_jmp_if s = Dispatch s1) by (vm_compute; reflexivity).
  exact (conj (conj H1 (conj H2 H3))
           (jmp_if_and_jmp_ifn_are_opposite s s1 _ _ H1 H2 H3)).
Defined.

(** The theorem at [if (x)] for an [x] without a value. *)
Lemma jmp_on_undefined_condition_witness :
  let s := at_jmp JMP_IF val_undef in
  (L_jmp_if = L_jmp_if ∨ L_jmp_if = L_jmp_ifn) ∧
  TOP_OV s = Some val_undef ∧ code_at s (ip s) = Some 0 ∧
  sp s < Z.of_nat (length (stack_mem s)) ∧
  ∃ s', exec 1 L_jmp_if s = Unwind s' ∧
        signalled s' IF_UNDEFINED ∧
        sp s' = sp s + 1 ∧ SEC_OV s' = Some val_undef ∧
        ip s' = ip s + 1 ∧ code_mem s' = code_mem s ∧ m_tw s' = m_tw s.
Proof.
  intros s.
  assert (H0 : L_jmp_if = L_jmp_if ∨ L_jmp_if = L_jmp_ifn) by (by left).
  assert (H1 : TOP_OV s = Some val_undef) by reflexivity.
  assert (H2 : code_at s (ip s) = Some 0) by reflexivity.
  assert (H3 : sp s < Z.of_nat (length (stack_mem s))) by reflexivity.
  exact (conj H0 (conj H1 (conj H2 (conj H3
           (jmp_on_undefined_condition s L_jmp_if 0 H0 H1 H2 H3))))).
Defined.

End jump_examples.

(** ** The stack instructions: ROT and DUPN *)

Section stack_instructions.
Context {host : host_ops}.
Implicit Types (s : vm) (p q : Z).

Lemma load_ext {A : Type} (m1 m2 : list A) :
  (∀ q, load m1 q = load m2 q) → m1 = m2.
Proof.
  intros H. apply list_eq. intros i. specialize (H (Z.of_nat i)).
  unfold load in H. rewrite !decide_True in H by lia.
  by rewrite Nat2Z.id in H.
Qed.

Lemma load_ov_Some_lt s p v :
  load_ov s p = Some v → 0 ≤ p < Z.of_nat (length (stack_mem s)).
Proof.
  unfold load_ov. destruct (load (stack_mem s) p) eqn:E; [|done].
  intros _. by apply load_Some_lt in E.
Qed.

Lemma load_ov_Some s p v :
  load_ov s p = Some v → load (stack_mem s) p = Some (se_ov v).
Proof.
  unfold load_ov. destruct (load (stack_mem s) p) as [[]|]; try done.
  by intros [= ->].
Qed.

(** X7.  ROT is its own inverse: a ROT after a ROT gives the state back
    in which the first one ran, the two values on the top of the stack in
    their places and the rest of the machine as it was. *)
Theorem rot_rot (s s1 : vm) :
  rot s = Dispatch1 s1 → rot s1 = Dispatch1 s.
Proof.
  unfold rot, TOP_OV, SEC_OV.
  destruct (load_ov s (sp s - 1)) as [top_ov|] eqn:Htop; [|done].
  destruct (load_ov s (sp s - 2)) as [sec_ov|] eqn:Hsec; [|done].
  cbn [bind_load]. intros [= <-].
  pose proof (load_ov_Some_lt _ _ _ Htop) as Bt.
  pose proof (load_ov_Some_lt _ _ _ Hsec) as Bs.
  apply load_ov_Some in Htop, Hsec.
  destruct s as [a sp0 i b r c d nd ud m cm nm h].
  cbv [PUSH_OV push poke set_sp set_stack_mem load_ov STACK_DESTROY arg0 sp
       ip bsp rsp code data name_data unwind_data stack_mem code_mem
       name_mem m_tw] in *.
  replace (sp0 - 1 - 1 + 1 + 1 - 1) with (sp0 - 1) by lia.
  replace (sp0 - 1 - 1 + 1 + 1 - 2) with (sp0 - 2) by lia.
  replace (sp0 - 1 - 1 + 1) with (sp0 - 1) by lia.
  replace (sp0 - 1 - 1) with (sp0 - 2) by lia.
  stack_reads. cbn [mbind option_bind as_ov bind_load].
  replace (sp0 - 1 - 1) with (sp0 - 2) by lia.
  replace (sp0 - 2 + 1) with (sp0 - 1) by lia.
  replace (sp0 - 1 + 1) with sp0 by lia.
  f_equal. f_equal. apply load_ext. intros q.
  destruct (decide (q = sp0 - 1)) as [->|];
    [|destruct (decide (q = sp0 - 2)) as [->|]]; by stack_reads.
Qed.

(** The copies of DUPN. *)
Lemma dupn_loop_copies (k : nat) first i s vs :
  load_ovs s (first + i) k = Some vs →
  first + i + Z.of_nat k ≤ sp s → 0 ≤ sp s →
  sp s + Z.of_nat k ≤ Z.of_nat (length (stack_mem s)) →
  ∃ s', dupn_loop first i k s = Some s' ∧
        sp s' = sp s + Z.of_nat k ∧ same_frame s' s ∧ m_tw s' = m_tw s ∧
        length (stack_mem s') = length (stack_mem s) ∧
        (∀ q, q < sp s → load (stack_mem s') q = load (stack_mem s) q) ∧
        load_ovs s' (sp s) k = Some vs.
Proof.
  revert i s vs. induction k as [|k IH]; intros i s vs; cbn [dupn_loop load_ovs].
  - intros [= <-] _ _ _. exists s. split; [done|]. split; [lia|].
    split; [apply same_frame_refl|]. done.
  - destruct (load_ov s (first + i)) as [v|] eqn:Hv; [|done].
    cbn [mbind option_bind].
    destruct (load_ovs s (first + i + 1) k) as [vs'|] eqn:Hvs; [|done].
    cbn [mbind option_bind]. intros [= <-] Hle Hsp Hroom.
    destruct (IH (i + 1) (PUSH_OV v s) vs') as
      (s' & Hloop & Hsp' & Hfr & Hm & Hlen & Hbelow & Hcopies).
    + rewrite <- Hvs. replace (first + (i + 1)) with (first + i + 1) by lia.
      apply load_ovs_agree. intros q Hq. cbn. apply load_store_ne. lia.
    + cbn. lia.
    + cbn. lia.
    + cbn. rewrite length_store. lia.
    + exists s'. split; [done|]. cbn in Hsp', Hlen.
      rewrite length_store in Hlen.
      split; [lia|]. split.
      { eapply same_frame_trans; [apply Hfr|]. by repeat split. }
      split; [done|]. split; [done|]. split.
      { intros q Hq. rewrite Hbelow by (cbn; lia). cbn.
        apply load_store_ne. lia. }
      unfold load_ov at 1. rewrite Hbelow by (cbn; lia). cbn.
      rewrite load_store_eq by lia. cbn [mbind option_bind as_ov].
      cbn in Hcopies. by rewrite Hcopies.
Qed.

(** X8.  DUPN offset n copies a block of the stack: with [n] values in
    the [n] elements that end [offset] elements under the top, and room
    for [n] more, it pushes these values in their order; the stack under
    the old top is unchanged, the operand [n] has been read, and the
    registers but [sp] and [ip] are as they were. *)
Theorem dupn_copies (s : vm) (n : Z) (vs : list octave_value) :
  code_at s (ip s) = Some n → 0 ≤ n → 0 ≤ arg0 s → 0 ≤ sp s →
  sp s + n ≤ Z.of_nat (length (stack_mem s)) →
  load_ovs s (sp s - n - arg0 s) (Z.to_nat n) = Some vs →
  ∃ s', dupn s = Dispatch s' ∧
        sp s' = sp s + n ∧ ip s' = ip s + 1 ∧
        load_ovs s' (sp s) (Z.to_nat n) = Some vs ∧
        (∀ q, q < sp s → load (stack_mem s') q = load (stack_mem s) q) ∧
        bsp s' = bsp s ∧ code_mem s' = code_mem s ∧ m_tw s' = m_tw s.
Proof.
  intros Hn Hpos Hoff Hsp Hroom Hvs. unfold dupn. rewrite Hn.
  cbn [bind_load]. set (s0 := set_ip _ s).
  destruct (dupn_loop_copies (Z.to_nat n) (sp s0 - n - arg0 s) 0 s0 vs)
    as (s' & Hloop & Hsp' & Hfr & Hm & _ & Hbelow & Hcopies).
  - rewrite Z.add_0_r, <- Hvs. by apply load_ovs_agree.
  - cbn. lia.
  - done.
  - cbn. lia.
  - rewrite Hloop. cbn [bind_load]. exists s'. split; [done|].
    destruct Hfr as (_ & Fip & Fbsp & _ & _ & _ & _ & _ & Fcm & _).
    cbn in *. rewrite Z2Nat.id in Hsp' by done. done.
Qed.

(** X9.  FORCE_ASSIGN is the slow path of ASSIGN without its checks.  On
    a right-hand side that is defined and no cs-list the two handlers do
    the same: the old value is offered to its destructor, the storable
    form of the right-hand side is written by the discipline of the slot,
    and the operand is popped.  FORCE_ASSIGN never goes to [unwind]: a
    right-hand side that ASSIGN refuses, an undefined value or a cs-list,
    is stored as it is. *)
Theorem force_assign_is_unchecked_assign (s : vm) (rhs : octave_value) :
  TOP_OV s = Some rhs →
  (is_defined rhs = true → is_cs_list rhs = false →
   force_assign s = assign_dispath s) ∧
  (∀ s', force_assign s ≠ Unwind s') ∧
  (∀ lhs, load_slot s (arg0 s) = Some lhs →
     ∃ s', force_assign s = Dispatch s' ∧ sp s' = sp s - 1 ∧
           (slot_addr s (arg0 s) < sp s - 1 →
            written_through lhs (arg0 s) (storable rhs) s')).
Proof.
  intros Htop. unfold force_assign, assign_dispath. rewrite Htop.
  cbn [bind_load]. split; [|split].
  - intros Hdef Hcs. rewrite Hcs. unfold is_undefined. rewrite Hdef. done.
  - intros s'. by destruct (load_slot s (arg0 s)).
  - intros lhs Hlhs. rewrite Hlhs. cbn [bind_load]. eexists.
    split; [done|]. split; [by destruct lhs|].
    intros Hbelow. pose proof (load_slot_Some_lt _ _ _ Hlhs) as Hb.
    unfold written_through, assign_slot, maybe_call_dtor.
    destruct lhs; cbn [STACK_DESTROY].
    all: try (unfold load_slot, load_ov, slot_addr, store_slot in *; cbn;
              unfold slot_addr in *; cbn; by stack_reads).
    split.
    + unfold load_slot, load_ov, slot_addr in *. cbn.
      by rewrite load_store_ne by lia.
    + cbn. apply ref_deref_set_value.
Qed.

End stack_instructions.

Section stack_examples.
Import small_host more_examples.

(** The theorem at a ROT with 2 and 3 on the top of the stack. *)
Lemma rot_rot_witness :
  let s := at_stack_op ROT 0 0 in
  let s1 := match rot s with Dispatch1 s1 => s1 | _ => s end in
  rot s = Dispatch1 s1 ∧ rot s1 = Dispatch1 s.
Proof.
  intros s s1.
  assert (H1 : rot s = Dispatch1 s1) by (vm_compute; reflexivity).
  exact (conj H1 (rot_rot s s1 H1)).
Defined.

(** The theorem at DUPN 0 2: the values 2 and 3 are pushed again. *)
Lemma dupn_copies_witness :
  let s := at_stack_op DUPN 0 2 in
  (code_at s (ip s) = Some 2 ∧ 0 ≤ 2 ∧ 0 ≤ arg0 s ∧ 0 ≤ sp s ∧
   sp s + 2 ≤ Z.of_nat (length (stack_mem s)) ∧
   load_ovs s (sp s - 2 - arg0 s) (Z.to_nat 2) =
     Some [val_scalar two; val_scalar three]) ∧
  ∃ s', dupn s = Dispatch s' ∧
        sp s' = sp s + 2 ∧ ip s' = ip s + 1 ∧
        load_ovs s' (sp s) (Z.to_nat 2) =
          Some [val_scalar two; val_scalar three] ∧
        (∀ q, q < sp s → load (stack_mem s') q = load (stack_mem s) q) ∧
        bsp s' = bsp s ∧ code_mem s' = code_mem s ∧ m_tw s' = m_tw s.
Proof.
  intros s.
  assert (H1 : code_at s (ip s) = Some 2) by reflexivity.
  assert (H2 : 0 ≤ 2) by (vm_compute; discriminate).
  assert (H3 : 0 ≤ arg0 s) by (vm_compute; discriminate).
  assert (H4 : 0 ≤ sp s) by (vm_compute; discriminate).
  assert (H5 : sp s + 2 ≤ Z.of_nat (length (stack_mem s)))
    by (vm_compute; discriminate).
  assert (H6 : load_ovs s (sp s - 2 - arg0 s) (Z.to_nat 2) =
                 Some [val_scalar two; val_scalar three]) by reflexivity.
  exact (conj (conj H1 (conj H2 (conj H3 (conj H4 (conj H5 H6)))))
           (dupn_copies s 2 _ H1 H2 H3 H4 H5 H6)).
Defined.

(** The theorem at [x = 7]. *)
Lemma force_assign_is_unchecked_assign_witness :
  let s := at_assign (val_scalar seven) in
  TOP_OV s = Some (val_scalar seven) ∧
  (is_defined (val_scalar seven) = true →
   is_cs_list (val_scalar seven) = false →
   force_assign s = assign_dispath s) ∧
  (∀ s', force_assign s ≠ Unwind s') ∧
  (∀ lhs, load_slot s (arg0 s) = Some lhs →
     ∃ s', force_assign s = Dispatch s' ∧ sp s' = sp s - 1 ∧
           (slot_addr s (arg0 s) < sp s - 1 →
            written_through lhs (arg0 s) (storable (val_scalar seven)) s')).
Proof.
  intros s.
  assert (H1 : TOP_OV s = Some (val_scalar seven)) by reflexivity.
  exact (conj H1 (force_assign_is_unchecked_assign s _ H1)).
Defined.

End stack_examples.

(** ** ASSIGN and PUSH_SLOT_INDEXED: a variable written and read *)

Section assign_and_read.
Context {host : host_ops}.
Implicit Types (s : vm) (rhs lhs v : octave_value).

(** What the slow path of ASSIGN has done when it dispatches. *)
Lemma assign_dispath_Dispatch s s1 rhs :
  TOP_OV s = Some rhs → slot_addr s (arg0 s) < sp s - 1 →
  assign_dispath s = Dispatch s1 →
  ∃ lhs, load_slot s (arg0 s) = Some lhs ∧
    sp s1 = sp s - 1 ∧ bsp s1 = bsp s ∧
    length (stack_mem s1) = length (stack_mem s) ∧
    written_through lhs (arg0 s) (storable (assigned_value rhs)) s1.
Proof.
  intros Htop Hlt. unfold assign_dispath. rewrite Htop. cbn [bind_load].
  assert (Hsp : 0 ≤ sp s - 1 < Z.of_nat (length (stack_mem s)))
    by (by apply load_ov_Some_lt in Htop).
  assert (Hend : ∀ v s0,
    load_slot s0 (arg0 s) = load_slot s (arg0 s) →
    sp s0 = sp s → bsp s0 = bsp s →
    length (stack_mem s0) = length (stack_mem s) →
    (if is_undefined v
     then Unwind (push (se_err RHS_UNDEF_IN_ASSIGNMENT) s0)
     else let? ov_lhs := load_slot s0 (arg0 s) in
          Dispatch (STACK_DESTROY 1
                      (assign_slot (arg0 s) ov_lhs (storable v)
                         (maybe_call_dtor ov_lhs s0)))) = Dispatch s1 →
    ∃ lhs, load_slot s (arg0 s) = Some lhs ∧
      sp s1 = sp s - 1 ∧ bsp s1 = bsp s ∧
      length (stack_mem s1) = length (stack_mem s) ∧
      written_through lhs (arg0 s) (storable v) s1).
  { intros v s0 Hslot Hsp0 Hbsp0 Hlen0. destruct (is_undefined v); [done|].
    rewrite Hslot. destruct (load_slot s (arg0 s)) as [lhs|] eqn:Hlhs; [|done].
    cbn [bind_load]. intros [= <-]. exists lhs. split; [done|].
    split; [cbn; rewrite sp_assign_slot; cbn; lia|].
    split; [cbn; rewrite bsp_assign_slot; cbn; lia|].
    split. { cbn. rewrite length_store, length_stack_assign_slot. done. }
    eapply written_through_frame; last first.
    - apply written_through_assign_slot
        with (s := maybe_call_dtor lhs s0). by rewrite <- Hslot in Hlhs.
    - done.
    - apply load_slot_STACK_DESTROY_1. rewrite sp_assign_slot.
      unfold slot_addr in *. rewrite bsp_assign_slot. cbn. lia. }
  destruct rhs; cbn [is_cs_list list_value assigned_value];
    try (by apply Hend).
  destruct l as [|v0 l']; [done|].
  apply Hend; try done.
  - apply load_slot_poke_ne. lia.
  - cbn. apply length_store.
Qed.

(** What ASSIGN has done when it dispatches, on its fast path or through
    its slow one. *)
Lemma assign_Dispatch s s1 rhs :
  TOP_OV s = Some rhs → slot_addr s (arg0 s) < sp s - 1 →
  exec 1 L_assign s = Dispatch s1 →
  ∃ lhs, load_slot s (arg0 s) = Some lhs ∧
    sp s1 = sp s - 1 ∧ bsp s1 = bsp s ∧
    length (stack_mem s1) = length (stack_mem s) ∧
    written_through lhs (arg0 s) (storable (assigned_value rhs)) s1.
Proof.
  intros Htop Hlt. rewrite (exec_1 _ assign) by done.
  unfold assign. rewrite Htop. cbn [bind_load].
  destruct (vm_need_dispatch_assign_rhs rhs) eqn:Hrhs.
  { rewrite (exec_0 _ assign_dispath) by done.
    by apply assign_dispath_Dispatch. }
  destruct (load_slot s (arg0 s)) as [lhs|] eqn:Hlhs; [|done].
  cbn [bind_load].
  destruct (vm_need_dispatch_assign_lhs lhs) eqn:Hl.
  { rewrite (exec_0 _ assign_dispath) by done. intros H.
    rewrite <- Hlhs. by apply assign_dispath_Dispatch. }
  intros [= <-]. exists lhs. split; [done|].
  pose proof (load_slot_Some_lt _ _ _ Hlhs) as Hb.
  unfold vm_need_dispatch_assign_rhs in Hrhs.
  apply orb_false_iff in Hrhs as [Hrhs Hst].
  apply orb_false_iff in Hrhs as [_ Hcs].
  assert (Hv : storable (assigned_value rhs) = rhs).
  { unfold storable. destruct rhs; try done; cbn in *; by rewrite Hst. }
  rewrite Hv. split; [done|]. split; [done|].
  split. { cbn. by rewrite !length_store. }
  assert (Hread : load_slot
            (STACK_SHRINK 1
               (poke (sp (store_slot (arg0 s) rhs s) - 1) se_dead
                  (store_slot (arg0 s) rhs s))) (arg0 s) = Some rhs).
  { unfold load_slot, load_ov, slot_addr, store_slot in *. cbn.
    unfold slot_addr. by stack_reads. }
  by destruct lhs.
Qed.

(** X10.  A variable that was assigned reads back what was assigned.
    When an ASSIGN to a slot under the operand dispatches, the
    PUSH_SLOT_INDEXED of the same slot pushes the value that ASSIGN
    stores: the right-hand side in its storable form, or the first element
    of a cs-list right-hand side.  This holds for a slot with a value of
    its own and for a slot with a reference wrapper to a global or
    persistent binding, which ASSIGN writes through and the read
    dereferences; the stack is as high as before the ASSIGN. *)
Theorem assign_then_push_slot_indexed (s s1 : vm) (rhs : octave_value) :
  TOP_OV s = Some rhs → slot_addr s (arg0 s) < sp s - 1 →
  is_ref (storable (assigned_value rhs)) = false →
  exec 1 L_assign s = Dispatch s1 →
  ∃ s2, push_slot_indexed (set_arg0 (arg0 s) s1) = Dispatch s2 ∧
        sp s2 = sp s ∧ m_tw s2 = m_tw s1 ∧
        TOP_OV s2 = Some (storable (assigned_value rhs)).
Proof.
  intros Htop Hlt Hnoref H.
  assert (Hsp : 0 ≤ sp s - 1 < Z.of_nat (length (stack_mem s)))
    by (by apply load_ov_Some_lt in Htop).
  destruct (assign_Dispatch s s1 rhs Htop Hlt H)
    as (lhs & Hlhs & Hsp1 & Hbsp1 & Hlen1 & Hw).
  set (v := storable (assigned_value rhs)) in *.
  unfold push_slot_indexed.
  change (load_slot (set_arg0 (arg0 s) s1) (arg0 (set_arg0 (arg0 s) s1)))
    with (load_slot s1 (arg0 s)).
  assert (Htop2 : ∀ s0, sp s0 = sp s1 →
    length (stack_mem s0) = length (stack_mem s1) →
    TOP_OV (PUSH_OV v s0) = Some v).
  { intros s0 E1 E2. unfold TOP_OV, load_ov. cbn.
    replace (sp s0 + 1 - 1) with (sp s0) by lia.
    rewrite load_store_eq by lia. done. }
  clearbody v. unfold written_through in Hw. destruct lhs.
  all: try (rewrite Hw; cbn [bind_load]; destruct v; try done;
            eexists; (split; [done|]); (split; [cbn; lia|]);
            (split; [done|]); by apply Htop2).
  destruct Hw as [-> Hd]. cbn [bind_load].
  change (m_tw (set_arg0 (arg0 s) s1)) with (m_tw s1). rewrite Hd.
  eexists. split; [done|]. split; [cbn; lia|]. split; [done|].
  by apply Htop2.
Qed.

End assign_and_read.

Section assign_and_read_examples.
Import small_host.

(** The theorem at [x = 7]. *)
Lemma assign_then_push_slot_indexed_witness :
  let s := at_assign (val_scalar seven) in
  let s1 := match exec 1 L_assign s with Dispatch s1 => s1 | _ => s end in
  (TOP_OV s = Some (val_scalar seven) ∧ slot_addr s (arg0 s) < sp s - 1 ∧
   is_ref (storable (assigned_value (val_scalar seven))) = false ∧
   exec 1 L_assign s = Dispatch s1) ∧
  ∃ s2, push_slot_indexed (set_arg0 (arg0 s) s1) = Dispatch s2 ∧
        sp s2 = sp s ∧ m_tw s2 = m_tw s1 ∧
        TOP_OV s2 = Some (storable (assigned_value (val_scalar seven))).
Proof.
  intros s s1.
  assert (H1 : TOP_OV s = Some (val_scalar seven)) by reflexivity.
  assert (H2 : slot_addr s (arg0 s) < sp s - 1) by reflexivity.
  assert (H3 : is_ref (storable (assigned_value (val_scalar seven))) = false)
    by reflexivity.
  assert (H4 : exec 1 L_assign s = Dispatch s1) by (vm_compute; reflexivity).
  exact (conj (conj H1 (conj H2 (conj H3 H4)))
           (assign_then_push_slot_indexed s s1 _ H1 H2 H3 H4)).
Defined.

End assign_and_read_examples.

(** ** The numeric for loop: the rounds of FOR_COND *)

Section for_rounds.
Context {host : host_ops}.
Implicit Types (s : vm) (slot n c : Z) (ov_range v : octave_value).

Lemma octave_quit_idle h :
  pending_signal h = None → octave_quit h = (log ev_octave_quit h, None).
Proof. unfold octave_quit. by intros ->. Qed.

Lemma load_assign_slot_ne slot lhs v s q :
  q ≠ slot_addr s slot →
  load (stack_mem (assign_slot slot lhs v s)) q = load (stack_mem s) q.
Proof.
  intros H. destruct lhs; cbn; try done; by apply load_store_ne.
Qed.

Lemma pending_signal_assign_slot slot lhs v s :
  pending_signal (m_tw (assign_slot slot lhs v s)) = pending_signal (m_tw s).
Proof. destruct lhs; try done. by destruct r. Qed.

Lemma load_slot_assign_slot slot lhs v s :
  load_slot s slot = Some lhs →
  load_slot (assign_slot slot lhs v s) slot =
    Some (if is_ref lhs then lhs else v).
Proof.
  intros H. pose proof (load_slot_Some_lt _ _ _ H) as Hb.
  destruct lhs; cbn [assign_slot is_ref]; try by apply load_slot_store_slot.
  done.
Qed.

(** One FOR_COND. *)
Lemma for_cond_round slot ov_range n c s b0 b1 :
  in_for_loop slot ov_range n c s → arg0 s = slot →
  code_at s (ip s) = Some b0 → code_at s (ip s + 1) = Some b1 →
  ∃ s', for_cond s = Dispatch s' ∧
    sp s' = sp s ∧ bsp s' = bsp s ∧ code s' = code s ∧
    code_mem s' = code_mem s ∧ arg0 s' = arg0 s ∧
    if decide (c + 1 = n) then ip s' = code s + USHORT_FROM_UCHARS b0 b1
    else ip s' = ip s + 2 ∧ in_for_loop slot ov_range n (c + 1) s' ∧
         (is_trivial_range ov_range = true →
          (∀ v, load_slot s slot = Some v → is_ref v = false) →
          load_slot s' slot =
            Some (val_scalar (vm_extract_forloop_double ov_range (c + 1)))).
Proof.
  intros (Hrange & Hn & Hc & Hslot & [v Hv] & Hidle) Harg Hb0 Hb1.
  pose proof (load_slot_Some_lt _ _ _ Hv) as Hvb.
  unfold for_cond, poll_signals. rewrite (octave_quit_idle _ Hidle).
  set (s0 := set_m_tw _ s).
  change (load_i s0 (sp s0 - 1)) with (load_i s (sp s - 1)). rewrite Hc.
  cbn [bind_load]. set (s1 := poke _ _ s0).
  assert (Hcb : 0 ≤ sp s - 1 < Z.of_nat (length (stack_mem s))).
  { unfold load_i in Hc. destruct (load (stack_mem s) (sp s - 1)) eqn:E; [|done].
    by apply load_Some_lt in E. }
  assert (Hn1 : load_i s1 (sp s1 - 2) = Some n).
  { unfold load_i, s1 in *. cbn. by rewrite load_store_ne by lia. }
  rewrite Hn1. cbn [bind_load].
  destruct (decide (c + 1 = n)) as [Hexit|Hgo].
  - change (code_at s1 (ip s1)) with (code_at s (ip s)).
    change (code_at s1 (ip s1 + 1)) with (code_at s (ip s + 1)).
    rewrite Hb0, Hb1. cbn [bind_load]. by eexists.
  - change (arg0 s1) with (arg0 s). rewrite Harg. set (s2 := set_ip _ s1).
    assert (Hr2 : THIRD_OV s2 = Some ov_range).
    { unfold THIRD_OV, load_ov, s2, s1 in *. cbn.
      by rewrite load_store_ne by lia. }
    assert (Hv2 : load_slot s2 slot = Some v).
    { unfold load_slot, load_ov, slot_addr, s2, s1 in *. cbn.
      by rewrite load_store_ne by lia. }
    rewrite Hr2, Hv2. cbn [bind_load].
    assert (Hc2 : load_i s2 (sp s2 - 1) = Some (c + 1)).
    { unfold load_i, s2, s1. cbn. by rewrite load_store_eq by lia. }
    assert (Hlen2 : length (stack_mem s2) = length (stack_mem s)).
    { unfold s2, s1. cbn. apply length_store. }
    assert (Hend : ∀ w s',
      s' = assign_slot slot v w s2 ∨
      (is_ref v = false ∧ s' = store_slot slot w s2) →
      sp s' = sp s ∧ bsp s' = bsp s ∧ code s' = code s ∧
      code_mem s' = code_mem s ∧ arg0 s' = slot ∧
      ip s' = ip s + 2 ∧ in_for_loop slot ov_range n (c + 1) s' ∧
      ((∀ v, load_slot s slot = Some v → is_ref v = false) →
       load_slot s' slot = Some w)).
    { intros w s' Hs'.
      assert (Hs'' : s' = assign_slot slot v w s2 ∨
                     (is_ref v = false ∧ s' = assign_slot slot v w s2)).
      { destruct Hs' as [?|[Hnr ->]]; [by left|right].
        split; [done|]. by destruct v. }
      assert (E : s' = assign_slot slot v w s2) by (by destruct Hs'' as [?|[_ ?]]).
      clear Hs' Hs''. subst s'.
      rewrite sp_assign_slot, bsp_assign_slot, ip_assign_slot,
        code_mem_assign_slot.
      split; [done|]. split; [done|]. split; [by destruct v|].
      split; [done|]. split; [by destruct v|]. split; [done|].
      split.
      { unfold in_for_loop, THIRD_OV, load_ov, load_i.
        rewrite sp_assign_slot, pending_signal_assign_slot.
        unfold slot_addr in *. rewrite bsp_assign_slot.
        rewrite !load_assign_slot_ne by (unfold slot_addr; cbn; lia).
        split; [exact Hr2|]. split; [exact Hn1|]. split; [exact Hc2|].
        split; [cbn; lia|]. split; [|done].
        rewrite (load_slot_assign_slot _ _ _ _ Hv2). by eexists. }
      intros Hnr.
      rewrite (load_slot_assign_slot _ _ _ _ Hv2).
      by rewrite (Hnr v Hv). }
    destruct (is_trivial_range ov_range) eqn:Htriv.
    + destruct (maybe_update_double v _) as [w|] eqn:Hupd.
      * assert (Hw : w = val_scalar (vm_extract_forloop_double ov_range (c + 1))
                     ∧ is_ref v = false).
        { unfold maybe_update_double in Hupd. destruct v; try done.
          by injection Hupd as <-. }
        destruct Hw as [-> Hnr].
        eexists. split; [reflexivity|].
        destruct (Hend (val_scalar (vm_extract_forloop_double ov_range (c + 1)))
                    _ (or_intror (conj Hnr eq_refl)))
          as (E1 & E2 & E3 & E4 & E5 & E6 & E7 & E8).
        exact (conj E1 (conj E2 (conj E3 (conj E4 (conj E5
                 (conj E6 (conj E7 (λ _, E8)))))))).
      * eexists. split; [reflexivity|].
        destruct (Hend (val_scalar (vm_extract_forloop_double ov_range (c + 1)))
                    _ (or_introl eq_refl))
          as (E1 & E2 & E3 & E4 & E5 & E6 & E7 & E8).
        exact (conj E1 (conj E2 (conj E3 (conj E4 (conj E5
                 (conj E6 (conj E7 (λ _, E8)))))))).
    + eexists. split; [reflexivity|].
      destruct (Hend (vm_extract_forloop_value ov_range (c + 1))
                  _ (or_introl eq_refl))
        as (E1 & E2 & E3 & E4 & E5 & E6 & E7 & E8).
      split; [done|]. split; [done|]. split; [done|]. split; [done|].
      split; [done|]. split; [done|]. split; [done|]. done.
Qed.

(** The rounds of a loop from a state between two rounds: as long as
    the counter has not reached the number of rounds, a FOR_COND goes on
    into the body. *)
Lemma for_cond_rounds_spec slot ov_range n b0 b1 (k : nat) :
  ∀ c s,
  in_for_loop slot ov_range n c s → arg0 s = slot →
  code_at s (ip s) = Some b0 → code_at s (ip s + 1) = Some b1 →
  (∀ j, 0 ≤ j < Z.of_nat k → c + 1 + j ≠ n) →
  ∃ s', for_cond_rounds k s = Dispatch s' ∧ sp s' = sp s ∧
    if decide (c + 1 + Z.of_nat k = n)
    then ip s' = code s + USHORT_FROM_UCHARS b0 b1
    else ip s' = ip s + 2 ∧
         in_for_loop slot ov_range n (c + 1 + Z.of_nat k) s' ∧
         (is_trivial_range ov_range = true →
          (∀ v, load_slot s slot = Some v → is_ref v = false) →
          load_slot s' slot =
            Some (val_scalar
                    (vm_extract_forloop_double ov_range
                       (c + 1 + Z.of_nat k)))).
Proof.
  induction k as [|k IH]; intros c s Hin Harg Hb0 Hb1 Hgo;
    cbn [for_cond_rounds].
  - destruct (for_cond_round _ _ _ _ _ _ _ Hin Harg Hb0 Hb1)
      as (s' & -> & Hsp & _ & _ & _ & _ & H).
    exists s'. split; [done|]. split; [done|].
    change (Z.of_nat 0) with 0. by rewrite Z.add_0_r.
  - destruct (for_cond_round _ _ _ _ _ _ _ Hin Harg Hb0 Hb1)
      as (s1 & -> & Hsp & Hbsp & Hcode & Hcm & Harg1 & H).
    rewrite decide_False in H by (pose proof (Hgo 0); lia).
    destruct H as (Hip & Hin1 & Hvar).
    set (s1' := set_arg0 (arg0 s) (set_ip (ip s) s1)).
    destruct (IH (c + 1) s1') as (s' & Hr & Hsp' & H).
    + exact Hin1.
    + exact Harg.
    + unfold code_at in *. change (code_mem s1') with (code_mem s1).
      by rewrite Hcm.
    + unfold code_at in *. change (code_mem s1') with (code_mem s1).
      by rewrite Hcm.
    + intros j Hj. replace (c + 1 + 1 + j) with (c + 1 + (j + 1)) by lia.
      apply Hgo. lia.
    + exists s'. split; [done|].
      change (sp s1') with (sp s1) in Hsp'. split; [lia|].
      replace (c + 1 + Z.of_nat (S k)) with (c + 1 + 1 + Z.of_nat k) by lia.
      destruct (decide (c + 1 + 1 + Z.of_nat k = n)).
      * change (code s1') with (code s1) in H. by rewrite <- Hcode.
      * destruct H as (Hip' & Hin' & Hvar'). split; [done|].
        split; [done|]. intros Htriv Hnr. apply Hvar'; [done|].
        change (load_slot s1' slot) with (load_slot s1 slot).
        rewrite (Hvar Htriv Hnr). by intros v [= <-].
Qed.

(** X11.  A numeric for loop runs its body as many times as FOR_SETUP
    counted.  From the state that FOR_SETUP leaves, with the number of
    rounds [n] and the counter -1 on the stack, and for a body that leaves
    the stack, the loop variable and the host alone: each of the first [n]
    FOR_CONDs goes on into the body, with the counter telling the round,
    and the one after them leaves the loop for the address in its
    operand.  For a range in its trivial form the loop variable, when it
    is no reference wrapper, holds base + k * increment in round [k]. *)
Theorem for_loop_rounds (slot n b0 b1 : Z) (ov_range : octave_value)
    (s : vm) :
  in_for_loop slot ov_range n (-1) s → arg0 s = slot →
  code_at s (ip s) = Some b0 → code_at s (ip s + 1) = Some b1 →
  0 ≤ n →
  (∀ k : nat, Z.of_nat k < n →
     ∃ s', for_cond_rounds k s = Dispatch s' ∧
           ip s' = ip s + 2 ∧ sp s' = sp s ∧
           load_i s' (sp s' - 1) = Some (Z.of_nat k) ∧
           (is_trivial_range ov_range = true →
            (∀ v, load_slot s slot = Some v → is_ref v = false) →
            load_slot s' slot =
              Some (val_scalar
                      (vm_extract_forloop_double ov_range (Z.of_nat k))))) ∧
  (∃ s', for_cond_rounds (Z.to_nat n) s = Dispatch s' ∧
         ip s' = code s + USHORT_FROM_UCHARS b0 b1 ∧ sp s' = sp s).
Proof.
  intros Hin Harg Hb0 Hb1 Hn. split.
  - intros k Hk.
    destruct (for_cond_rounds_spec slot ov_range n b0 b1 k (-1) s
                Hin Harg Hb0 Hb1) as (s' & Hr & Hsp & H); [lia|].
    rewrite decide_False in H by lia.
    replace (-1 + 1 + Z.of_nat k) with (Z.of_nat k) in H by lia.
    destruct H as (Hip & Hin' & Hvar). exists s'.
    split; [done|]. split; [done|]. split; [done|]. split; [|done].
    by destruct Hin' as (_ & _ & Hc & _).
  - destruct (for_cond_rounds_spec slot ov_range n b0 b1 (Z.to_nat n) (-1) s
                Hin Harg Hb0 Hb1) as (s' & Hr & Hsp & H); [lia|].
    rewrite decide_True in H by lia. by exists s'.
Qed.

(** FOR_SETUP and the dispatch of the FOR_COND after it leave the state
    of a loop before its first round. *)
Lemma for_setup_enters_loop s v v' n slot lhs_ov :
  TOP_OV s = Some v →
  for_setup_count v = Some (v', n) →
  1 ≤ sp s ∧ sp s + 1 < Z.of_nat (length (stack_mem s)) →
  arg0 s = opcode_of FOR_COND → code_at s (ip s) = Some slot →
  load_slot s slot = Some lhs_ov →
  0 ≤ slot_addr s slot < sp s - 1 →
  (n = 0 → is_defined v' = true → storable_value v' = h_ok v') →
  pending_signal (m_tw s) = None →
  ∃ s1 s2, for_setup s = Dispatch1 s1 ∧
    DISPATCH_1BYTEOP s1 = Some (L_for_cond, s2) ∧
    in_for_loop slot v' n (-1) s2 ∧
    arg0 s2 = slot ∧ ip s2 = ip s + 1 ∧ sp s2 = sp s + 2 ∧
    code s2 = code s ∧ code_mem s2 = code_mem s ∧
    (n = 0 → is_defined v' = true → written_through lhs_ov slot v' s2).
Proof.
  intros Htop Hcount [Hsp Hroom] Harg Hcode Hlhs Haddr Hst Hidle.
  unfold for_setup. rewrite Htop. cbn [bind_load]. rewrite Hcount.
  set (s1 := for_setup_warn (is_range v) v' (poke (sp s - 1) (se_ov v') s)).
  assert (Hs1 : sp s1 = sp s ∧ bsp s1 = bsp s ∧ ip s1 = ip s ∧
                arg0 s1 = arg0 s ∧ code_mem s1 = code_mem s ∧
                code s1 = code s ∧
                pending_signal (m_tw s1) = pending_signal (m_tw s) ∧
                stack_mem s1 = store (sp s - 1) (se_ov v') (stack_mem s)).
  { unfold s1, for_setup_warn.
    destruct (negb _ && _); [|done]. destruct v'; try done.
    by destruct (isinf _ || isinf _). }
  destruct Hs1 as (E1 & E2 & E3 & E4 & E5 & E5' & E5'' & E6).
  set (s2 := push (se_i (-1)) (push (se_i n) s1)).
  assert (Hlen : length (stack_mem s2) = length (stack_mem s)).
  { unfold s2, push. cbn. rewrite !length_store, E6, length_store. done. }
  assert (Hsp2 : sp s2 = sp s + 2) by (unfold s2, push; cbn; lia).
  assert (Hn : load (stack_mem s2) (sp s) = Some (se_i n)).
  { unfold s2, push. cbn. rewrite E1.
    rewrite load_store_ne by lia. apply load_store_eq.
    rewrite E6, length_store. lia. }
  assert (Hc : load (stack_mem s2) (sp s + 1) = Some (se_i (-1))).
  { unfold s2, push. cbn. rewrite E1. apply load_store_eq.
    rewrite length_store, E6, length_store. lia. }
  assert (Hv : load (stack_mem s2) (sp s - 1) = Some (se_ov v')).
  { unfold s2, push. cbn. rewrite E1, E6.
    rewrite !load_store_ne by lia. apply load_store_eq. lia. }
  assert (Hslot2 : load_slot s2 slot = Some lhs_ov).
  { unfold load_slot, load_ov, slot_addr in *. unfold s2, push. cbn.
    rewrite E1, E2, E6. rewrite !load_store_ne by lia. done. }
  assert (Hfs : for_setup_slot s2 = Some slot).
  { unfold for_setup_slot, code_at in *. unfold s2, push. cbn.
    rewrite E3, E4, E5, Harg. by rewrite decide_False by done. }
  assert (Hdisp : ∀ s3,
    arg0 s3 = arg0 s → ip s3 = ip s → code_mem s3 = code_mem s →
    DISPATCH_1BYTEOP s3 = Some (L_for_cond, set_ip (ip s + 1) (set_arg0 slot s3))).
  { intros s3 A1 A2 A3. unfold DISPATCH_1BYTEOP, code_at in *.
    rewrite A1, A2, A3, Hcode, Harg. cbn [mbind option_bind].
    by rewrite INSTR_of_opcode_of. }
  assert (Hloop : ∀ s3,
    sp s3 = sp s + 2 → bsp s3 = bsp s →
    (∀ q, q ≠ slot_addr s slot →
          load (stack_mem s3) q = load (stack_mem s2) q) →
    (∃ w, load_slot s3 slot = Some w) →
    pending_signal (m_tw s3) = None →
    in_for_loop slot v' n (-1) (set_ip (ip s + 1) (set_arg0 slot s3))).
  { intros s3 A1 A2 A3 A4 A5.
    unfold in_for_loop, THIRD_OV, load_ov, load_i, slot_addr in *. cbn.
    rewrite A1, A2. rewrite !A3 by lia.
    replace (sp s + 2 - 3) with (sp s - 1) by lia.
    replace (sp s + 2 - 2) with (sp s) by lia.
    replace (sp s + 2 - 1) with (sp s + 1) by lia.
    rewrite Hv, Hn, Hc. split; [done|]. split; [done|]. split; [done|].
    split; [lia|]. done. }
  destruct (bool_decide (n = 0) && is_defined v') eqn:Hz.
  - fold s2. rewrite Hfs. cbn [bind_load]. rewrite Hslot2. cbn [bind_load].
    assert (Hst' : storable_value v' = h_ok v').
    { apply andb_true_iff in Hz as [Hz1 Hz2].
      apply Hst; [by apply bool_decide_eq_true in Hz1|done]. }
    rewrite Hst'. cbn [try_catch].
    set (s3 := assign_slot slot lhs_ov v' s2).
    assert (Hw : written_through lhs_ov slot v' s3)
      by by apply written_through_assign_slot.
    exists s3, (set_ip (ip s + 1) (set_arg0 slot s3)).
    split; [done|]. split.
    { apply Hdisp; unfold s3.
      - by destruct lhs_ov.
      - by rewrite ip_assign_slot.
      - by rewrite code_mem_assign_slot. }
    split.
    { apply Hloop; unfold s3.
      - by rewrite sp_assign_slot.
      - by rewrite bsp_assign_slot.
      - intros q Hq. apply load_assign_slot_ne.
        unfold slot_addr in *. cbn. by rewrite E2.
      - rewrite (load_slot_assign_slot _ _ _ _ Hslot2). by eexists.
      - rewrite pending_signal_assign_slot. cbn. by rewrite E5''. }
    split; [done|]. split; [done|].
    split; [cbn; unfold s3; by rewrite sp_assign_slot|].
    split; [unfold s3; by destruct lhs_ov|].
    split; [cbn; unfold s3; by rewrite code_mem_assign_slot|].
    intros _ _. done.
  - fold s2. exists s2, (set_ip (ip s + 1) (set_arg0 slot s2)).
    split; [done|]. split; [by apply Hdisp|]. split.
    { apply Hloop; try done.
      - by eexists.
      - cbn. by rewrite E5''. }
    split; [done|]. split; [done|]. split; [done|]. split; [done|].
    split; [done|].
    intros -> Hd. rewrite Hd in Hz. done.
Qed.

(** X15.  A for loop over an iterable, from its FOR_SETUP on.  With the
    iterable on the stack, FOR_SETUP followed by the FOR_COND of its loop
    variable, and a body that leaves the stack, the loop variable and the
    host alone: the body is entered in exactly as many rounds as FOR_SETUP
    counts for the iterable, and then the loop is left for the address in
    the operand of FOR_COND, with the three loop values still on the
    stack for the POP_N_INTS there; no signal is pending at the start.
    For an iterable that counts zero rounds the first FOR_COND leaves the
    loop at once, and a defined iterable, when the host makes its storable
    copy without an error and without changing it, has been assigned to
    the loop variable all the same. *)
Theorem for_loop_over_iterable (s : vm) (v v' lhs_ov : octave_value)
    (n slot b0 b1 : Z) :
  TOP_OV s = Some v →
  for_setup_count v = Some (v', n) → 0 ≤ n →
  1 ≤ sp s ∧ sp s + 1 < Z.of_nat (length (stack_mem s)) →
  arg0 s = opcode_of FOR_COND → code_at s (ip s) = Some slot →
  code_at s (ip s + 1) = Some b0 → code_at s (ip s + 2) = Some b1 →
  load_slot s slot = Some lhs_ov →
  0 ≤ slot_addr s slot < sp s - 1 →
  (n = 0 → is_defined v' = true → storable_value v' = h_ok v') →
  pending_signal (m_tw s) = None →
  ∃ s1 s2, for_setup s = Dispatch1 s1 ∧
    DISPATCH_1BYTEOP s1 = Some (L_for_cond, s2) ∧
    (∀ k : nat, Z.of_nat k < n →
       ∃ s', for_cond_rounds k s2 = Dispatch s' ∧
             ip s' = ip s + 3 ∧ sp s' = sp s + 2 ∧
             load_i s' (sp s' - 1) = Some (Z.of_nat k)) ∧
    (∃ s', for_cond_rounds (Z.to_nat n) s2 = Dispatch s' ∧
           ip s' = code s + USHORT_FROM_UCHARS b0 b1 ∧ sp s' = sp s + 2) ∧
    (n = 0 → is_defined v' = true → written_through lhs_ov slot v' s2).
Proof.
  intros Htop Hcount Hn Hsp Harg Hcode Hb0 Hb1 Hlhs Haddr Hst Hidle.
  destruct (for_setup_enters_loop s v v' n slot lhs_ov Htop Hcount Hsp Harg
              Hcode Hlhs Haddr Hst Hidle)
    as (s1 & s2 & E1 & E2 & Hin & Ha2 & Hip2 & Hsp2 & Hc2 & Hcm2 & Hw).
  exists s1, s2. split; [done|]. split; [done|].
  assert (Hb0' : code_at s2 (ip s2) = Some b0).
  { unfold code_at in *. by rewrite Hcm2, Hip2. }
  assert (Hb1' : code_at s2 (ip s2 + 1) = Some b1).
  { unfold code_at in *. rewrite Hcm2, Hip2.
    by replace (ip s + 1 + 1) with (ip s + 2) by lia. }
  split; [|split; [|done]].
  - intros k Hk.
    destruct (for_cond_rounds_spec slot v' n b0 b1 k (-1) s2
                Hin Ha2 Hb0' Hb1') as (s' & Hr & Hsp' & H); [lia|].
    rewrite decide_False in H by lia.
    replace (-1 + 1 + Z.of_nat k) with (Z.of_nat k) in H by lia.
    destruct H as (Hip & Hin' & _). exists s'.
    split; [done|]. split; [lia|]. split; [lia|].
    by destruct Hin' as (_ & _ & Hc & _).
  - destruct (for_cond_rounds_spec slot v' n b0 b1 (Z.to_nat n) (-1) s2
                Hin Ha2 Hb0' Hb1') as (s' & Hr & Hsp' & H); [lia|].
    rewrite decide_True in H by lia. exists s'.
    split; [done|]. split; [by rewrite <- Hc2|lia].
Qed.

End for_rounds.

Section for_rounds_examples.
Import small_host more_examples.

(** The theorem at [for x = 1:3]. *)
Lemma for_loop_rounds_witness :
  let s := at_for_cond in
  let r := val_trivial_range dbl_one dbl_one 3 in
  (in_for_loop 1 r 3 (-1) s ∧ arg0 s = 1 ∧
   code_at s (ip s) = Some 9 ∧ code_at s (ip s + 1) = Some 0 ∧ 0 ≤ 3) ∧
  (∀ k : nat, Z.of_nat k < 3 →
     ∃ s', for_cond_rounds k s = Dispatch s' ∧
           ip s' = ip s + 2 ∧ sp s' = sp s ∧
           load_i s' (sp s' - 1) = Some (Z.of_nat k) ∧
           (is_trivial_range r = true →
            (∀ v, load_slot s 1 = Some v → is_ref v = false) →
            load_slot s' 1 =
              Some (val_scalar
                      (vm_extract_forloop_double r (Z.of_nat k))))) ∧
  (∃ s', for_cond_rounds (Z.to_nat 3) s = Dispatch s' ∧
         ip s' = code s + USHORT_FROM_UCHARS 9 0 ∧ sp s' = sp s).
Proof.
  intros s r.
  assert (H1 : in_for_loop 1 r 3 (-1) s).
  { split; [reflexivity|]. split; [reflexivity|]. split; [reflexivity|].
    split; [reflexivity|]. split; [by exists val_undef|reflexivity]. }
  assert (H2 : arg0 s = 1) by reflexivity.
  assert (H3 : code_at s (ip s) = Some 9) by reflexivity.
  assert (H4 : code_at s (ip s + 1) = Some 0) by reflexivity.
  assert (H5 : 0 ≤ 3) by (vm_compute; discriminate).
  exact (conj (conj H1 (conj H2 (conj H3 (conj H4 H5))))
           (for_loop_rounds 1 3 9 0 r s H1 H2 H3 H4 H5)).
Defined.

(** The theorem at [for x = [1, 2, 3]]: a matrix of one row and three
    columns gives three rounds, and the fourth FOR_COND leaves the loop for
    the code offset 9. *)
Lemma for_loop_over_iterable_witness :
  let v := one_two_three in
  let s := at_for_setup v in
  (TOP_OV s = Some v ∧ for_setup_count v = Some (v, 3) ∧ 0 ≤ 3 ∧
   (1 ≤ sp s ∧ sp s + 1 < Z.of_nat (length (stack_mem s))) ∧
   arg0 s = opcode_of FOR_COND ∧ code_at s (ip s) = Some 1 ∧
   code_at s (ip s + 1) = Some 9 ∧ code_at s (ip s + 2) = Some 0 ∧
   load_slot s 1 = Some val_undef ∧ 0 ≤ slot_addr s 1 < sp s - 1 ∧
   (3 = 0 → is_defined v = true → storable_value v = h_ok v) ∧
   pending_signal (m_tw s) = None) ∧
  ∃ s1 s2, for_setup s = Dispatch1 s1 ∧
    DISPATCH_1BYTEOP s1 = Some (L_for_cond, s2) ∧
    (∀ k : nat, Z.of_nat k < 3 →
       ∃ s', for_cond_rounds k s2 = Dispatch s' ∧
             ip s' = ip s + 3 ∧ sp s' = sp s + 2 ∧
             load_i s' (sp s' - 1) = Some (Z.of_nat k)) ∧
    (∃ s', for_cond_rounds (Z.to_nat 3) s2 = Dispatch s' ∧
           ip s' = code s + USHORT_FROM_UCHARS 9 0 ∧ sp s' = sp s + 2) ∧
    (3 = 0 → is_defined v = true → written_through val_undef 1 v s2).
Proof.
  intros v s.
  assert (H1 : TOP_OV s = Some v) by reflexivity.
  assert (H2 : for_setup_count v = Some (v, 3)) by reflexivity.
  assert (H3 : 0 ≤ 3) by (vm_compute; discriminate).
  assert (H4 : 1 ≤ sp s ∧ sp s + 1 < Z.of_nat (length (stack_mem s)))
    by (split; [vm_compute; discriminate|reflexivity]).
  assert (H5 : arg0 s = opcode_of FOR_COND) by reflexivity.
  assert (H6 : code_at s (ip s) = Some 1) by reflexivity.
  assert (H7 : code_at s (ip s + 1) = Some 9) by reflexivity.
  assert (H8 : code_at s (ip s + 2) = Some 0) by reflexivity.
  assert (H9 : load_slot s 1 = Some val_undef) by reflexivity.
  assert (H10 : 0 ≤ slot_addr s 1 < sp s - 1)
    by (split; [vm_compute; discriminate|reflexivity]).
  assert (H11 : 3 = 0 → is_defined v = true → storable_value v = h_ok v)
    by (intros _ _; reflexivity).
  assert (H12 : pending_signal (m_tw s) = None) by reflexivity.
  exact (conj (conj H1 (conj H2 (conj H3 (conj H4 (conj H5 (conj H6
           (conj H7 (conj H8 (conj H9 (conj H10 (conj H11 H12)))))))))))
         (for_loop_over_iterable s v v val_undef 3 1 9 0
            H1 H2 H3 H4 H5 H6 H7 H8 H9 H10 H11 H12)).
Defined.

End for_rounds_examples.

(** ** Cell construction: a row of values *)

Section cell_rows.
Context {host : host_ops}.
Implicit Types (s : vm) (ov : octave_value) (filled : list octave_value)
  (m c : Z).

Lemma lookup_row filled m (i : nat) :
  Z.of_nat (length filled) ≤ m → Z.of_nat i < m →
  (filled ++ replicate (Z.to_nat (m - Z.of_nat (length filled))) cell_fill)
    !! i = Some (default cell_fill (filled !! i)).
Proof.
  intros Hle Hi. destruct (decide (i < length filled)%nat) as [Hlt|Hge].
  - rewrite lookup_app_l by done.
    destruct (lookup_lt_is_Some_2 filled i Hlt) as [v ->]. done.
  - rewrite lookup_app_r by lia.
    rewrite (lookup_ge_None_2 filled i) by lia.
    rewrite lookup_replicate_2 by lia. done.
Qed.

(** The resize of a row keeps what was filled in. *)
Lemma cell_resize_row filled m c :
  Z.of_nat (length filled) ≤ m → Z.of_nat (length filled) ≤ c →
  cell_resize 1 c (row_cell filled m) = row_cell filled c.
Proof.
  intros Hm Hc. unfold row_cell, cell_resize. f_equal.
  rewrite Z.mul_1_l. apply list_eq. intros i.
  rewrite list_lookup_fmap.
  destruct (decide (Z.of_nat i < c)) as [Hi|Hi].
  - rewrite lookup_seqZ_lt by lia. cbn [fmap option_fmap option_map].
    rewrite lookup_row by lia. f_equal.
    rewrite Z.mod_1_r, Z.div_1_r, Z.add_0_l. unfold cell_elem.
    change (dv_rows [1; m]) with 1. change (dv_cols [1; m]) with m.
    rewrite (bool_decide_eq_true_2 (0 ≤ 0 < 1)) by lia. cbn [andb].
    rewrite Z.add_0_l, Z.mul_1_l.
    case_bool_decide as Him.
    + unfold load. rewrite decide_True by lia. rewrite Nat2Z.id.
      rewrite lookup_row by lia. done.
    + rewrite (lookup_ge_None_2 filled i) by lia. done.
  - rewrite lookup_seqZ_ge by lia. cbn.
    symmetry. apply lookup_ge_None_2.
    rewrite length_app, length_replicate. lia.
Qed.

(** An element is put into the first free column of a row with room. *)
Lemma cell_assign_row_cell filled m ov :
  Z.of_nat (length filled) < m →
  cell_assign 0 (Z.of_nat (length filled)) ov (row_cell filled m)
    = Some (row_cell (filled ++ [ov]) m).
Proof.
  intros Hm. unfold cell_assign, row_cell.
  change (dv_rows [1; m]) with 1. change (dv_cols [1; m]) with m.
  rewrite !bool_decide_eq_true_2 by lia. cbn [andb]. f_equal. f_equal.
  rewrite Z.add_0_l, Z.mul_1_l. unfold store. rewrite decide_True by lia.
  rewrite Nat2Z.id, length_app. cbn [length].
  replace (Z.to_nat (m - Z.of_nat (length filled)))
    with (S (Z.to_nat (m - Z.of_nat (length filled + 1)))) by lia.
  cbn [replicate]. rewrite insert_app_r_alt by lia.
  rewrite Nat.sub_diag. cbn. by rewrite <- app_assoc.
Qed.

(** The insert of one element into the first row: the row grows by one
    column when it is full. *)
Lemma append_cell_insert_element filled m ov n_rows :
  is_element ov = true → Z.of_nat (length filled) ≤ m →
  append_cell_insert ov (row_cell filled m) n_rows m 0
    (Z.of_nat (length filled))
  = Some (row_cell (filled ++ [ov]) (Z.max m (Z.of_nat (length filled) + 1)),
          Z.max m (Z.of_nat (length filled) + 1),
          Z.of_nat (length filled) + 1).
Proof.
  intros [Hdef Hcs%negb_true_iff]%andb_true_iff Hm.
  unfold append_cell_insert. rewrite Hcs, Hdef.
  rewrite (bool_decide_eq_true_2 (0 = 0)) by done. cbn [andb].
  case_bool_decide as Hfull.
  - rewrite cell_resize_row by lia.
    rewrite bool_decide_eq_true_2 by lia.
    rewrite cell_assign_row_cell by lia. cbn [mbind option_bind].
    replace (Z.max m (Z.of_nat (length filled) + 1)) with (m + 1) by lia.
    by replace (Z.of_nat (length filled)) with m by lia.
  - rewrite bool_decide_eq_true_2 by lia.
    rewrite cell_assign_row_cell by lia. cbn [mbind option_bind].
    by replace (Z.max m (Z.of_nat (length filled) + 1)) with m by lia.
Qed.

(** APPEND_CELL of an element that is not the last of its row. *)
Lemma append_cell_arg_element_0 s filled m ov :
  cell_triple s (row_cell filled m) (Z.of_nat (length filled)) 0 →
  3 ≤ sp s < Z.of_nat (length (stack_mem s)) →
  is_element ov = true → Z.of_nat (length filled) ≤ m →
  ∃ s2, append_cell_arg ov 0 s = Dispatch s2 ∧
        sp s2 = sp s ∧
        length (stack_mem s2) = length (stack_mem s) ∧
        (∀ q, q < sp s - 3 → load (stack_mem s2) q = load (stack_mem s) q) ∧
        cell_triple s2
          (row_cell (filled ++ [ov]) (Z.max m (Z.of_nat (length filled) + 1)))
          (Z.of_nat (length (filled ++ [ov]))) 0.
Proof.
  intros (H3 & H2 & H1) Hsp Hel Hm.
  destruct s as [a0 sp0 ip0 ? ? ? ? ? ? stk ? ? ?].
  unfold append_cell_arg, append_cell.
  unfold cell_triple, THIRD_OV, SEC_OV, TOP_OV, load_ov, PUSH_OV, push, poke,
    STACK_SHRINK in *.
  cbn -[Z.add Z.sub append_cell_insert row_cell] in *. stack_reads.
  rewrite !Z.add_simpl_r. stack_reads. rewrite H3, H2, H1.
  cbn -[Z.add Z.sub append_cell_insert row_cell Z.max].
  change (cell_dims (row_cell filled m)) with (Some (1, m)).
  cbn -[Z.add Z.sub append_cell_insert row_cell Z.max].
  rewrite append_cell_insert_element by done.
  cbn -[Z.add Z.sub row_cell Z.max].
  eexists. split; [reflexivity|]. cbn -[Z.add Z.sub row_cell Z.max].
  split; [lia|]. split; [by rewrite !length_store|].
  split. { intros q Hq. by stack_reads. }
  stack_reads. rewrite length_app. cbn [length].
  replace (Z.of_nat (length filled + 1)) with (Z.of_nat (length filled) + 1)
    by lia.
  done.
Qed.

(** APPEND_CELL of the element that ends the one row of a cell: the cell
    has the columns that were filled, the counters are destroyed. *)
Lemma append_cell_arg_element_3 s filled m ov :
  cell_triple s (row_cell filled m) (Z.of_nat (length filled)) 0 →
  3 ≤ sp s < Z.of_nat (length (stack_mem s)) →
  is_element ov = true → Z.of_nat (length filled) ≤ m →
  ∃ s3, append_cell_arg ov 3 s = Dispatch s3 ∧
        sp s3 = sp s - 2 ∧
        length (stack_mem s3) = length (stack_mem s) ∧
        (∀ q, q < sp s - 3 → load (stack_mem s3) q = load (stack_mem s) q) ∧
        TOP_OV s3 =
          Some (val_cell [1; Z.of_nat (length (filled ++ [ov]))]
                  (filled ++ [ov])).
Proof.
  intros (H3 & H2 & H1) Hsp Hel Hm.
  destruct s as [a0 sp0 ip0 ? ? ? ? ? ? stk ? ? ?].
  unfold append_cell_arg, append_cell.
  unfold cell_triple, THIRD_OV, SEC_OV, TOP_OV, load_ov, PUSH_OV, push, poke,
    STACK_SHRINK in *.
  cbn -[Z.add Z.sub append_cell_insert row_cell] in *. stack_reads.
  rewrite !Z.add_simpl_r. stack_reads. rewrite H3, H2, H1.
  cbn -[Z.add Z.sub append_cell_insert row_cell Z.max].
  change (cell_dims (row_cell filled m)) with (Some (1, m)).
  cbn -[Z.add Z.sub append_cell_insert row_cell Z.max].
  rewrite append_cell_insert_element by done.
  cbn -[Z.add Z.sub row_cell Z.max cell_resize].
  eexists. split; [reflexivity|]. unfold poke.
  cbn -[Z.add Z.sub row_cell Z.max cell_resize].
  split; [lia|]. split; [by rewrite !length_store|].
  split. { intros q Hq. by stack_reads. }
  replace (sp0 - 1 - 1 - 1) with (sp0 - 3) by lia. stack_reads.
  cbn [mbind option_bind as_ov]. f_equal.
  rewrite (decide_True (P := Z.of_nat (length filled) + 1 ≠ 0)) by lia.
  assert (Hrow : ∀ l, row_cell l (Z.of_nat (length l)) =
                      val_cell [1; Z.of_nat (length l)] l).
  { intros l. unfold row_cell. rewrite Z.sub_diag. cbn.
    by rewrite app_nil_r. }
  assert (Hlen : Z.of_nat (length filled) + 1 =
                 Z.of_nat (length (filled ++ [ov]))).
  { rewrite length_app. cbn. lia. }
  destruct (decide (_ < _)).
  - rewrite cell_resize_row by lia. by rewrite Hlen, Hrow.
  - replace (Z.max m (Z.of_nat (length filled) + 1))
      with (Z.of_nat (length filled) + 1) by lia.
    by rewrite Hlen, Hrow.
Qed.

(** The APPEND_CELLs of a row of elements, from a row under
    construction. *)
Lemma append_cell_row_elements (ovs : list octave_value) :
  ∀ filled m s,
  ovs ≠ [] → forallb is_element ovs = true →
  cell_triple s (row_cell filled m) (Z.of_nat (length filled)) 0 →
  3 ≤ sp s < Z.of_nat (length (stack_mem s)) →
  Z.of_nat (length filled) ≤ m →
  ∃ s', append_cell_row ovs s = Dispatch s' ∧
        sp s' = sp s - 2 ∧
        (∀ q, q < sp s - 3 → load (stack_mem s') q = load (stack_mem s) q) ∧
        TOP_OV s' =
          Some (val_cell [1; Z.of_nat (length (filled ++ ovs))]
                  (filled ++ ovs)).
Proof.
  induction ovs as [|ov rest IH]; intros filled m s Hne Hel T Hsp Hm; [done|].
  cbn [forallb] in Hel. apply andb_true_iff in Hel as [Hov Hrest].
  destruct rest as [|ov2 rest'].
  - cbn [append_cell_row].
    destruct (append_cell_arg_element_3 s filled m ov T Hsp Hov Hm)
      as (s3 & -> & Hsp3 & _ & Hbelow & Htop).
    by exists s3.
  - change (append_cell_row (ov :: ov2 :: rest') s)
      with (match append_cell_arg ov 0 s with
            | Dispatch s => append_cell_row (ov2 :: rest') s
            | o => o
            end).
    destruct (append_cell_arg_element_0 s filled m ov T Hsp Hov Hm)
      as (s2 & -> & Hsp2 & Hlen2 & Hbelow2 & T2).
    destruct (IH (filled ++ [ov])
                (Z.max m (Z.of_nat (length filled) + 1)) s2)
      as (s' & Hrow & Hsp' & Hbelow & Htop); try done.
    + lia.
    + rewrite length_app. cbn [length]. lia.
    + exists s'. split; [done|]. split; [lia|]. split.
      * intros q Hq. rewrite Hbelow by lia. by apply Hbelow2.
      * by rewrite <- app_assoc in Htop.
Qed.

Lemma push_cell_below s s1 :
  push_cell s = Dispatch s1 →
  ∀ q, q < sp s → load (stack_mem s1) q = load (stack_mem s) q.
Proof.
  unfold push_cell. destruct (code_at s (ip s)); [|done]. cbn [bind_load].
  intros [= <-] q Hq. cbn. by stack_reads.
Qed.

(** X12.  The cell of a row of values.  [{e1, ..., ek}] for element
    expressions that each leave one defined value (no cs-list): after the
    PUSH_CELL for one row, with whatever guess of columns, and the
    APPEND_CELL after each element, the counters are gone and the top of
    the stack is a cell of one row and [k] columns that holds the values
    in their order; the stack under it is untouched.  A guess that is too
    small is made good as the row grows, one that is too large by the
    last APPEND_CELL. *)
Theorem cell_row_of_elements (s : vm) (n_cols : Z)
    (ovs : list octave_value) :
  arg0 s = 1 → code_at s (ip s) = Some n_cols → 0 ≤ n_cols →
  0 ≤ sp s → sp s + 3 < Z.of_nat (length (stack_mem s)) →
  ovs ≠ [] → forallb is_element ovs = true →
  ∃ s', cell_row ovs s = Dispatch s' ∧
        sp s' = sp s + 1 ∧
        TOP_OV s' = Some (val_cell [1; Z.of_nat (length ovs)] ovs) ∧
        (∀ q, q < sp s → load (stack_mem s') q = load (stack_mem s) q).
Proof.
  intros Ha Hn Hcols H0 Hroom Hne Hel.
  destruct (push_cell_triple s n_cols Hn H0) as (s1 & E1 & Hsp1 & Hl1 & T1);
    [lia|].
  rewrite Ha in T1.
  assert (Hnew : new_Cell 1 n_cols = row_cell [] n_cols).
  { unfold new_Cell, row_cell. cbn [length app].
    by rewrite Z.mul_1_l, Z.sub_0_r. }
  rewrite Hnew in T1.
  destruct (append_cell_row_elements ovs [] n_cols s1 Hne Hel T1)
    as (s' & Hrow & Hsp' & Hbelow & Htop); [lia|cbn; lia|].
  exists s'. unfold cell_row. rewrite E1. split; [done|].
  split; [lia|]. split; [done|].
  intros q Hq. rewrite Hbelow by lia. by apply (push_cell_below s).
Qed.

(** The insert of one element into a row after the first: the cell is
    not resized. *)
Lemma append_cell_insert_later_row ov dv elems n_rows i_row i_col :
  is_element ov = true → 0 < i_row < dv_rows dv → 0 ≤ i_col →
  ∃ cell', append_cell_insert ov (val_cell dv elems) n_rows (dv_cols dv)
             i_row i_col = Some (cell', dv_cols dv, i_col + 1).
Proof.
  intros [Hdef Hcs%negb_true_iff]%andb_true_iff Hrow Hcol.
  unfold append_cell_insert. rewrite Hcs, Hdef.
  rewrite (bool_decide_eq_false_2 (i_row = 0)) by lia. cbn [andb].
  case_bool_decide.
  - unfold cell_assign. rewrite !bool_decide_eq_true_2 by lia.
    cbn [andb mbind option_bind]. by eexists.
  - by eexists.
Qed.

(** X13.  The rows of a cell have the same number of columns.  An
    APPEND_CELL that ends a row after the first one, be it a middle row or
    the last one, with an element that leaves the row shorter or longer
    than the first row, goes to [unwind]: the tag EXECUTION_EXC is on the
    top of the stack and the error "number of columns must match" under
    it, above the cell and the two counters, which are not popped. *)
Theorem append_cell_columns_must_match (s : vm) (dv : dim_vector)
    (elems : list octave_value) (i_col i_row last : Z) (ov : octave_value) :
  cell_triple s (val_cell dv elems) i_col i_row →
  last = 1 ∨ last = 2 →
  is_element ov = true → 0 < i_row < dv_rows dv → 0 ≤ i_col →
  i_col + 1 ≠ dv_cols dv →
  3 ≤ sp s → sp s + 2 ≤ Z.of_nat (length (stack_mem s)) →
  ∃ s', append_cell_arg ov last s = Unwind s' ∧
        signalled s' EXECUTION_EXC ∧
        load (stack_mem s') (sp s' - 2) =
          Some (se_pee (mk_execution_exception "error" ""
                          "number of columns must match")) ∧
        sp s' = sp s + 2.
Proof.
  intros (H3 & H2 & H1) Hlast Hel Hrow Hcol Hne Hsp Hroom.
  destruct (append_cell_insert_later_row ov dv elems (dv_rows dv) i_row i_col
              Hel Hrow Hcol) as [cell' Hins].
  destruct s as [a0 sp0 ip0 ? ? ? ? ? ? stk ? ? ?].
  unfold append_cell_arg, append_cell.
  unfold cell_triple, THIRD_OV, SEC_OV, TOP_OV, load_ov, PUSH_OV, push, poke,
    STACK_SHRINK in *.
  cbn -[Z.add Z.sub append_cell_insert] in *. stack_reads.
  rewrite !Z.add_simpl_r. stack_reads. rewrite H3, H2, H1.
  cbn -[Z.add Z.sub append_cell_insert]. rewrite Hins.
  cbn -[Z.add Z.sub].
  rewrite (bool_decide_eq_true_2 (i_col + 1 ≠ 0)) by lia.
  rewrite (bool_decide_eq_true_2 (i_col + 1 ≠ dv_cols dv)) by lia.
  cbn [andb].
  assert (Hend : ∀ s0,
    sp s0 = sp0 → length (stack_mem s0) = length stk →
    ∃ s', columns_must_match s0 = Unwind s' ∧
        signalled s' EXECUTION_EXC ∧
        load (stack_mem s') (sp s' - 2) =
          Some (se_pee (mk_execution_exception "error" ""
                          "number of columns must match")) ∧
        sp s' = sp0 + 2).
  { intros s0 E1 E2. unfold columns_must_match. eexists. split; [done|].
    split; [apply signalled_push; cbn; rewrite length_store; lia|].
    split; [|cbn; lia]. cbn.
    replace (sp s0 + 1 + 1 - 2) with (sp s0) by lia.
    rewrite load_store_ne by lia. apply load_store_eq. lia. }
  destruct Hlast as [-> | ->].
  - rewrite decide_True by done. apply Hend; [done|].
    cbn. by rewrite !length_store.
  - rewrite decide_False by done. rewrite decide_True by done.
    apply Hend; [done|]. cbn. by rewrite !length_store.
Qed.

End cell_rows.

Section cell_rows_examples.
Import small_host.

(** The theorem at [{1, 2, 3}] with a guess of two columns. *)
Lemma cell_row_of_elements_witness :
  let s := at_push_cell 2 in
  let ovs := [val_scalar dbl_one; val_scalar two; val_scalar three] in
  (arg0 s = 1 ∧ code_at s (ip s) = Some 2 ∧ 0 ≤ 2 ∧ 0 ≤ sp s ∧
   sp s + 3 < Z.of_nat (length (stack_mem s)) ∧
   ovs ≠ [] ∧ forallb is_element ovs = true) ∧
  ∃ s', cell_row ovs s = Dispatch s' ∧
        sp s' = sp s + 1 ∧
        TOP_OV s' = Some (val_cell [1; Z.of_nat (length ovs)] ovs) ∧
        (∀ q, q < sp s → load (stack_mem s') q = load (stack_mem s) q).
Proof.
  intros s ovs.
  assert (H1 : arg0 s = 1) by reflexivity.
  assert (H2 : code_at s (ip s) = Some 2) by reflexivity.
  assert (H3 : 0 ≤ 2) by (vm_compute; discriminate).
  assert (H4 : 0 ≤ sp s) by (vm_compute; discriminate).
  assert (H5 : sp s + 3 < Z.of_nat (length (stack_mem s))) by reflexivity.
  assert (H6 : ovs ≠ []) by discriminate.
  assert (H7 : forallb is_element ovs = true) by reflexivity.
  exact (conj (conj H1 (conj H2 (conj H3 (conj H4 (conj H5 (conj H6 H7))))))
           (cell_row_of_elements s 2 ovs H1 H2 H3 H4 H5 H6 H7)).
Defined.

(** The theorem at [{1, 2; 3}]: the second row has one column. *)
Lemma append_cell_columns_must_match_witness :
  let s := more_examples.at_append_cell in
  let dv := [2; 2] in
  let elems := [val_scalar dbl_one; cell_fill; val_scalar two; cell_fill] in
  (cell_triple s (val_cell dv elems) 0 1 ∧ (2 = 1 ∨ 2 = 2) ∧
   is_element (val_scalar three) = true ∧ 0 < 1 < dv_rows dv ∧ 0 ≤ 0 ∧
   0 + 1 ≠ dv_cols dv ∧ 3 ≤ sp s ∧
   sp s + 2 ≤ Z.of_nat (length (stack_mem s))) ∧
  ∃ s', append_cell_arg (val_scalar three) 2 s = Unwind s' ∧
        signalled s' EXECUTION_EXC ∧
        load (stack_mem s') (sp s' - 2) =
          Some (se_pee (mk_execution_exception "error" ""
                          "number of columns must match")) ∧
        sp s' = sp s + 2.
Proof.
  intros s dv elems.
  assert (H1 : cell_triple s (val_cell dv elems) 0 1) by (by repeat split).
  assert (H2 : 2 = 1 ∨ 2 = 2) by (by right).
  assert (H3 : is_element (val_scalar three) = true) by reflexivity.
  assert (H4 : 0 < 1 < dv_rows dv) by (by split).
  assert (H5 : 0 ≤ 0) by (vm_compute; discriminate).
  assert (H6 : 0 + 1 ≠ dv_cols dv) by discriminate.
  assert (H7 : 3 ≤ sp s) by (vm_compute; discriminate).
  assert (H8 : sp s + 2 ≤ Z.of_nat (length (stack_mem s)))
    by (vm_compute; discriminate).
  exact (conj (conj H1 (conj H2 (conj H3 (conj H4 (conj H5 (conj H6
                 (conj H7 H8)))))))
           (append_cell_columns_must_match s dv elems 0 1 2 _
              H1 H2 H3 H4 H5 H6 H7 H8)).
Defined.

End cell_rows_examples.

(** ** The jumps between handlers come to an end *)

Section goes_facts.
Context {host : host_ops}.
Implicit Types (s : vm) (o : outcome) (P : label → vm → Prop).

Lemma goes_Fault P : goes_to P Fault.
Proof. by intros ? ?. Qed.

Lemma goes_bind_load {A : Type} P (o : option A) k :
  (∀ a, goes_to P (k a)) → goes_to P (bind_load o k).
Proof. intros H. destruct o; [apply H | apply goes_Fault]. Qed.

Lemma goes_catch P cs e s : goes_to P (catch cs e s).
Proof. intros l' s' H. by apply catch_not_Goto in H. Qed.

Lemma goes_try_catch {A : Type} P cs s (r : host_result A) k :
  (∀ a, goes_to P (k a)) → goes_to P (try_catch cs s r k).
Proof. intros Hk. destruct r; [apply Hk | apply goes_catch]. Qed.

Lemma goes_try_call {A : Type} P cs s (call : host_call A) k :
  (∀ a s1, goes_to P (k a s1)) → goes_to P (try_call cs s call k).
Proof.
  intros Hk. unfold try_call.
  destruct (fst (call (m_tw s))); [apply Hk | apply goes_catch].
Qed.

End goes_facts.

(** The cases of a handler, down to its [goto]s. *)
Ltac goes_tac :=
  repeat (lazy beta;
    match goal with
    | |- goes_to ?P (let x := ?v in @?k x) =>
        let y := fresh x in
        pose (y := v); change (goes_to P (k y)); lazy beta
    | |- goes_to _ (bind_load _ _) => apply goes_bind_load; intros
    | |- goes_to _ (try_catch _ _ _ _) => apply goes_try_catch; intros
    | |- goes_to _ (try_call _ _ _ _) => apply goes_try_call; intros
    | |- goes_to _ (catch _ _ _) => apply goes_catch
    | |- goes_to _ Fault => apply goes_Fault
    | |- goes_to _ (Dispatch _) => by intros ? ?
    | |- goes_to _ (Dispatch1 _) => by intros ? ?
    | |- goes_to _ (Unwind _) => by intros ? ?
    | |- goes_to _ (Call _) => by intros ? ?
    | |- goes_to _ (Return _ _) => by intros ? ?
    | |- goes_to _ (Throw _ _) => by intros ? ?
    | |- goes_to outside (Goto _ _) => by intros ? ? [= <- <-]
    | |- goes_to _ (match (if ?b then _ else _) with _ => _ end) => destruct b
    | |- goes_to _ (match (match ?x with _ => _ end) with _ => _ end) =>
        destruct x
    | |- goes_to _ (if ?b then _ else _) => destruct b
    | |- goes_to _ (match ?x with _ => _ end) => destruct x
    end).

Section stays.
Context {host : host_ops}.
Implicit Types (s : vm) (o : outcome).

Lemma stays_assign_dispath s : goes_to outside (assign_dispath s).
Proof. cbv delta [assign_dispath]. goes_tac. Qed.

Lemma stays_jmp s : goes_to outside (jmp s).
Proof. cbv delta [jmp]. goes_tac. Qed.

Lemma stays_handle_signals s : goes_to outside (handle_signals s).
Proof. cbv delta [handle_signals poll_signals]. goes_tac. Qed.

Lemma stays_for_setup s : goes_to outside (for_setup s).
Proof. cbv delta [for_setup]. goes_tac. Qed.

Lemma stays_for_cond s : goes_to outside (for_cond s).
Proof. cbv delta [for_cond poll_signals]. goes_tac. Qed.

Lemma stays_pop_n_ints s : goes_to outside (pop_n_ints s).
Proof. cbv delta [pop_n_ints]. goes_tac. Qed.

Lemma stays_for_complex_setup s : goes_to outside (for_complex_setup s).
Proof. cbv delta [for_complex_setup]. goes_tac. Qed.

Lemma stays_for_complex_cond s : goes_to outside (for_complex_cond s).
Proof. cbv delta [for_complex_cond]. goes_tac. Qed.

Lemma stays_push_slot_indexed s : goes_to outside (push_slot_indexed s).
Proof. cbv delta [push_slot_indexed]. goes_tac. Qed.

Lemma stays_push_cell s : goes_to outside (push_cell s).
Proof. cbv delta [push_cell push_cell_common]. goes_tac. Qed.

Lemma stays_push_cell_big s : goes_to outside (push_cell_big s).
Proof. cbv delta [push_cell_big push_cell_common]. goes_tac. Qed.

Lemma stays_append_cell s : goes_to outside (append_cell s).
Proof. cbv delta [append_cell columns_must_match]. goes_tac. Qed.

Lemma stays_MAKE_BINOP op s : goes_to outside (MAKE_BINOP op s).
Proof. cbv delta [MAKE_BINOP]. goes_tac. Qed.

Lemma stays_ret_root b (n : Z) s : goes_to outside (ret_root b n s).
Proof. cbv delta [ret_root]. goes_tac. Qed.

Lemma stays_ret_to_caller b (n : Z) s : goes_to outside (ret_to_caller b n s).
Proof.
  intros l' s' H. exfalso. revert H. unfold ret_to_caller.
  destruct (ret_restore_caller _ s) as [r|]; [|done]. cbn [bind_load].
  assert (Hend : ∀ has s3,
    (let? s4 := ret_move (sp s - n) (fst r) has s3 in
     Dispatch (set_m_tw (log ev_pop_return_stack_frame
                 (m_tw (destroy_range (sp s - n + 1) (Z.to_nat has) s4)))
                 (destroy_range (sp s - n + 1) (Z.to_nat has) s4)))
    ≠ Goto l' s').
  { intros has s3. by destruct (ret_move _ _ _ s3). }
  destruct b; [|apply Hend].
  unfold ret_expand_varargout.
  destruct (load_ov _ _) as [ov_vararg|]; [|done].
  destruct (is_defined ov_vararg).
  - destruct (cell_value ov_vararg); [|done].
    destruct (decide (sp _ + _ ≤ _)); [apply Hend|done].
  - destruct (decide (fst r ≠ 0)); apply Hend.
Qed.

Lemma stays_ret s : goes_to outside (ret s).
Proof.
  cbv delta [ret].
  repeat (lazy beta;
    match goal with
    | |- goes_to _ (ret_root _ _ _) => apply stays_ret_root
    | |- goes_to _ (ret_to_caller _ _ _) => apply stays_ret_to_caller
    | |- goes_to ?P (let x := ?v in @?k x) =>
        let y := fresh x in
        pose (y := v); change (goes_to P (k y)); lazy beta
    | |- goes_to _ (bind_load _ _) => apply goes_bind_load; intros
    | |- goes_to _ Fault => apply goes_Fault
    | |- goes_to _ (if ?b then _ else _) => destruct b
    | |- goes_to _ (Unwind _) => by intros ? ?
    end).
Qed.

Lemma assign_n_value_stays slot v (n : Z) s o :
  assign_n_value slot v n s = Stop o → goes_to outside o.
Proof.
  unfold assign_n_value. destruct (load_slot s slot); [|by intros [= <-]].
  destruct (if is_undefined _ then _ else _) as [[]|]; try done;
    by intros [= <-].
Qed.

Lemma assign_n_cs_list_stays slot args (n : Z) s o :
  assign_n_cs_list slot args n s = Stop o → goes_to outside o.
Proof.
  revert n s. induction args as [|v args IH]; intros n s; [done|].
  cbn [assign_n_cs_list].
  destruct (assign_n_value slot v n s) as [[n1 s1]|o1] eqn:E.
  - apply IH.
  - intros [= <-]. by eapply assign_n_value_stays.
Qed.

Lemma stays_assign_n_loop fuel (n_slots n_actual : Z) s :
  goes_to outside (assign_n_loop fuel n_slots n_actual s).
Proof.
  revert n_actual s. induction fuel as [|fuel IH]; intros n_actual s;
    [apply goes_Fault|].
  cbn [assign_n_loop]. apply goes_bind_load. intros arg.
  destruct (POP_CODE_USHORT _) as [[slot s1]|]; [|apply goes_Fault].
  cbn [bind_load fst snd].
  destruct (is_cs_list arg).
  - destruct (assign_n_cs_list _ _ _ _) as [[n1 s2]|o] eqn:E.
    + destruct (decide _); [apply IH|by intros ? ?].
    + by eapply assign_n_cs_list_stays.
  - destruct (assign_n_value _ _ _ _) as [[n1 s2]|o] eqn:E.
    + destruct (decide _); [apply IH|by intros ? ?].
    + by eapply assign_n_value_stays.
Qed.

Lemma stays_assign_n s : goes_to outside (assign_n s).
Proof. apply stays_assign_n_loop. Qed.

End stays.

Section families.
Context {host : host_ops}.
Implicit Types (s : vm) (o : outcome) (l : label).

(** *** ASSIGN, the conditional jumps and the binary operators: one jump *)

Lemma goes_assign s : goes_to (λ l' _, l' = L_assign_dispath) (assign s).
Proof.
  cbv delta [assign]. goes_tac; by intros ? ? [= <- <-].
Qed.

Lemma goes_jmp_generic negate special l_bool s :
  goes_to (λ l' s', l' = l_bool ∧
             ∃ v, TOP_OV s' = Some v ∧ type_id v = m_bool_typeid)
    (jmp_generic negate special l_bool s).
Proof.
  unfold jmp_generic. destruct (TOP_OV s) as [v|] eqn:Htop; [|apply goes_Fault].
  cbn [bind_load]. destruct (decide _) as [Hb|].
  - intros ? ? [= <- <-]. split; [done|]. by exists v.
  - goes_tac.
Qed.

Lemma goes_jmp_bool negate generic l s :
  goes_to (λ l' s', l' = l ∧
             ∃ v, TOP_OV s' = Some v ∧ type_id v ≠ m_bool_typeid)
    (jmp_bool negate generic l s).
Proof.
  unfold jmp_bool. destruct (TOP_OV s) as [v|] eqn:Htop; [|apply goes_Fault].
  cbn [bind_load]. destruct (decide _) as [Hb|].
  - intros ? ? [= <- <-]. split; [done|]. by exists v.
  - goes_tac.
Qed.

Lemma stays_jmp_bool negate generic l s v :
  TOP_OV s = Some v → type_id v = m_bool_typeid →
  goes_to outside (jmp_bool negate generic l s).
Proof.
  intros Htop Hb. unfold jmp_bool. rewrite Htop. cbn [bind_load].
  rewrite decide_False by (by intros ?). goes_tac.
Qed.

Lemma stays_jmp_generic negate special l_bool s v :
  TOP_OV s = Some v → type_id v ≠ m_bool_typeid →
  goes_to outside (jmp_generic negate special l_bool s).
Proof.
  intros Htop Hb. unfold jmp_generic. rewrite Htop. cbn [bind_load].
  rewrite decide_False by done. goes_tac.
Qed.

Lemma goes_MAKE_BINOP_SELFMODIFYING op l_dbl specialized s :
  goes_to (λ l' s', l' = l_dbl ∧
             ∃ rhs lhs, TOP_OV s' = Some rhs ∧ SEC_OV s' = Some lhs ∧
               type_id lhs = m_scalar_typeid ∧ type_id rhs = m_scalar_typeid)
    (MAKE_BINOP_SELFMODIFYING op l_dbl specialized s).
Proof.
  unfold MAKE_BINOP_SELFMODIFYING.
  destruct (TOP_OV s) as [rhs|] eqn:Htop; [|apply goes_Fault].
  destruct (SEC_OV s) as [lhs|] eqn:Hsec; [|apply goes_Fault].
  cbn [bind_load]. destruct (_ && _) eqn:Hc; [|goes_tac].
  apply andb_true_iff in Hc as [H1%bool_decide_eq_true_1
                                 H2%bool_decide_eq_true_1].
  intros ? ? [= <- <-]. split; [done|]. exists rhs, lhs.
  split; [done|]. split; [done|]. split; congruence.
Qed.

Lemma goes_MAKE_BINOP_SPECIALIZED op_fn l generic s :
  goes_to (λ l' s', l' = l ∧
             ∃ rhs lhs, TOP_OV s' = Some rhs ∧ SEC_OV s' = Some lhs ∧
               ¬ (type_id rhs = type_id lhs ∧ type_id rhs = m_scalar_typeid))
    (MAKE_BINOP_SPECIALIZED op_fn l generic m_scalar_typeid s).
Proof.
  unfold MAKE_BINOP_SPECIALIZED.
  destruct (TOP_OV s) as [rhs|] eqn:Htop; [|apply goes_Fault].
  destruct (SEC_OV s) as [lhs|] eqn:Hsec; [|apply goes_Fault].
  cbn [bind_load]. destruct (_ || _) eqn:Hc; [|goes_tac].
  apply orb_true_iff in Hc as [H%bool_decide_eq_true_1
                               |H%bool_decide_eq_true_1].
  all: intros ? ? [= <- <-]; split; [done|]; exists rhs, lhs;
    split; [done|]; split; [done|]; intros [E1 E2]; congruence.
Qed.

Lemma stays_MAKE_BINOP_SPECIALIZED op_fn l generic s rhs lhs :
  TOP_OV s = Some rhs → SEC_OV s = Some lhs →
  type_id lhs = m_scalar_typeid → type_id rhs = m_scalar_typeid →
  goes_to outside (MAKE_BINOP_SPECIALIZED op_fn l generic m_scalar_typeid s).
Proof.
  intros Htop Hsec Hl Hr. unfold MAKE_BINOP_SPECIALIZED.
  rewrite Htop, Hsec. cbn [bind_load].
  rewrite !bool_decide_eq_false_2 by (by intros ?). cbn [orb]. goes_tac.
Qed.

Lemma stays_MAKE_BINOP_SELFMODIFYING op l_dbl specialized s rhs lhs :
  TOP_OV s = Some rhs → SEC_OV s = Some lhs →
  ¬ (type_id rhs = type_id lhs ∧ type_id rhs = m_scalar_typeid) →
  goes_to outside (MAKE_BINOP_SELFMODIFYING op l_dbl specialized s).
Proof.
  intros Htop Hsec Hty. unfold MAKE_BINOP_SELFMODIFYING.
  rewrite Htop, Hsec. cbn [bind_load].
  destruct (_ && _) eqn:Hc; [|goes_tac].
  apply andb_true_iff in Hc as [H1%bool_decide_eq_true_1
                                 H2%bool_decide_eq_true_1].
  by destruct Hty.
Qed.

(** *** The indexed read: two jumps *)

Lemma goes_index_id1_mat_1d s :
  goes_to (λ l' _, l' = L_index_id1) (index_id1_mat_1d s).
Proof.
  cbv delta [index_id1_mat_1d]. goes_tac; by intros ? ? [= <- <-].
Qed.

Lemma goes_index_id1_mat_2d s :
  goes_to (λ l' _, l' = L_index_id1) (index_id1_mat_2d s).
Proof.
  cbv delta [index_id1_mat_2d]. goes_tac; by intros ? ? [= <- <-].
Qed.

Lemma stays_index_id1_mat_1d s :
  index_operands 1 s → goes_to outside (index_id1_mat_1d s).
Proof.
  intros [(_ & arg1 & mat & Htop & Hsec & Ht & Hm)|[? _]]; [|done].
  unfold index_id1_mat_1d.
  change (TOP_OV (set_ip (ip s + 1) s)) with (TOP_OV s).
  change (SEC_OV (set_ip (ip s + 1) s)) with (SEC_OV s).
  rewrite Htop, Hsec. cbn [bind_load]. rewrite Hm.
  rewrite bool_decide_eq_true_2 by done. cbn [negb orb]. goes_tac.
Qed.

Lemma stays_index_id1_mat_2d s :
  index_operands 2 s → goes_to outside (index_id1_mat_2d s).
Proof.
  intros [[? _]|(_ & arg2 & arg1 & mat & Htop & Hsec & Hthird & Ht2 & Ht1
                   & Hm)]; [done|].
  unfold index_id1_mat_2d.
  change (TOP_OV (set_ip (ip s + 1) s)) with (TOP_OV s).
  change (SEC_OV (set_ip (ip s + 1) s)) with (SEC_OV s).
  change (THIRD_OV (set_ip (ip s + 1) s)) with (THIRD_OV s).
  rewrite Htop, Hsec, Hthird. cbn [bind_load]. rewrite Hm.
  rewrite !bool_decide_eq_true_2 by done. cbn [negb orb andb]. goes_tac.
Qed.

Lemma all_of_type_1 t args s p :
  load_ovs s p 1 = Some args → all_of_type t args = true →
  ∃ a, load_ov s p = Some a ∧ type_id a = t.
Proof.
  cbn [load_ovs]. destruct (load_ov s p) as [a|]; [|done].
  cbn. intros [= <-]. cbn. rewrite andb_true_r.
  intros H%bool_decide_eq_true_1. by exists a.
Qed.

Lemma all_of_type_2 t args s p :
  load_ovs s p 2 = Some args → all_of_type t args = true →
  ∃ a b, load_ov s p = Some a ∧ load_ov s (p + 1) = Some b ∧
         type_id a = t ∧ type_id b = t.
Proof.
  cbn [load_ovs]. destruct (load_ov s p) as [a|]; [|done].
  cbn [mbind option_bind].
  destruct (load_ov s (p + 1)) as [b|]; [|done].
  cbn. intros [= <-]. cbn. rewrite andb_true_r.
  intros [H1%bool_decide_eq_true_1 H2%bool_decide_eq_true_1]%andb_true_iff.
  by exists a, b.
Qed.

Lemma goes_index_id_common nargout ok s :
  goes_to (λ l' s',
             outside l' s' ∨
             (l' = L_index_id1_mat_1d ∧ index_operands 1 s') ∨
             (l' = L_index_id1_mat_2d ∧ index_operands 2 s'))
    (index_id_common nargout ok s).
Proof.
  unfold index_id_common.
  destruct (code_at s (ip s)) as [n|]; [|apply goes_Fault]. cbn [bind_load].
  set (s1 := set_ip _ s).
  destruct (load_ov s1 _) as [ov|] eqn:Hov; [|apply goes_Fault].
  cbn [bind_load].
  destruct (vm_dispatch_call ov);
    try (intros ? ? [= <- <-]; by left); try (by intros ? ?).
  destruct (load_ovs s1 _ _) as [args|] eqn:Hargs; [|apply goes_Fault].
  cbn [bind_load].
  destruct (_ && _ && _ && _ && _) eqn:Hc.
  - apply andb_true_iff in Hc as [Hc Hn].
    apply andb_true_iff in Hc as [Hc _].
    apply andb_true_iff in Hc as [Hc Hm].
    apply andb_true_iff in Hc as [_ Hall].
    apply goes_bind_load. intros cur.
    destruct (decide (cur = _)); [|by intros ? ?].
    destruct (decide (n = 1)) as [->|Hn1].
    + intros ? ? [= <- <-]. right. left. split; [done|]. left.
      split; [done|].
      change (Z.to_nat 1) with 1%nat in Hargs.
      destruct (all_of_type_1 _ _ _ _ Hargs Hall) as (a & Ha & Hta).
      exists a, ov. split; [exact Ha|]. split; [|done].
      rewrite <- Hov. unfold SEC_OV. f_equal. cbn. lia.
    + assert (n = 2) as ->.
      { apply orb_true_iff in Hn as [H%bool_decide_eq_true_1
                                     |H%bool_decide_eq_true_1]; done. }
      intros ? ? [= <- <-]. right. right. split; [done|]. right.
      split; [done|].
      change (Z.to_nat 2) with 2%nat in Hargs.
      destruct (all_of_type_2 _ _ _ _ Hargs Hall) as (a & b & Ha & Hb & Hta & Htb).
      exists b, a, ov. split.
      { rewrite <- Hb. unfold TOP_OV. f_equal. cbn. lia. }
      split. { rewrite <- Ha. unfold SEC_OV. f_equal. }
      split; [|done].
      rewrite <- Hov. unfold THIRD_OV. f_equal. cbn. lia.
  - goes_tac.
Qed.

(** *** The indexed assignment: three jumps *)

(** A specialization goes to the generic handler only, and with operands
    that fit it goes there as it is, for an index out of bound. *)
Lemma goes_subassign_id_mat_1d s :
  goes_to (λ l' s', l' = L_subassign_id ∧ (subassign_operands 1 s → s' = s))
    (subassign_id_mat_1d s).
Proof.
  unfold subassign_id_mat_1d.
  change (TOP_OV (set_ip (ip s + 1) s)) with (TOP_OV s).
  change (SEC_OV (set_ip (ip s + 1) s)) with (SEC_OV s).
  change (load_slot (set_ip (ip s + 1) s) (arg0 s)) with (load_slot s (arg0 s)).
  destruct (TOP_OV s) as [rhs|] eqn:Htop; [|apply goes_Fault].
  destruct (SEC_OV s) as [arg|] eqn:Hsec; [|apply goes_Fault].
  destruct (load_slot s (arg0 s)) as [mat|] eqn:Hslot; [|apply goes_Fault].
  cbn [bind_load]. destruct (_ || _ || _) eqn:Hc.
  - intros ? ? [= <- <-]. split; [done|].
    intros (rhs' & mat' & E1 & E2 & T1 & T2 & [(_ & arg' & E3 & T3)|[? _]]);
      [|done].
    exfalso. rewrite Htop in E1. rewrite Hslot in E2. rewrite Hsec in E3.
    injection E1 as <-. injection E2 as <-. injection E3 as <-.
    rewrite !bool_decide_eq_false_2 in Hc by (by intros ?). done.
  - change (ip (set_ip (ip s + 1) s)) with (ip s + 1). rewrite set_ip_back.
    clear Hc. destruct rhs, arg, mat; try apply goes_Fault.
    destruct (_ || _ || _); [|by intros ? ?].
    by intros ? ? [= <- <-].
Qed.

Lemma goes_subassign_id_mat_2d s :
  goes_to (λ l' s', l' = L_subassign_id ∧ (subassign_operands 2 s → s' = s))
    (subassign_id_mat_2d s).
Proof.
  unfold subassign_id_mat_2d.
  change (TOP_OV (set_ip (ip s + 1) s)) with (TOP_OV s).
  change (SEC_OV (set_ip (ip s + 1) s)) with (SEC_OV s).
  change (THIRD_OV (set_ip (ip s + 1) s)) with (THIRD_OV s).
  change (load_slot (set_ip (ip s + 1) s) (arg0 s)) with (load_slot s (arg0 s)).
  destruct (TOP_OV s) as [rhs|] eqn:Htop; [|apply goes_Fault].
  destruct (SEC_OV s) as [arg2|] eqn:Hsec; [|apply goes_Fault].
  destruct (THIRD_OV s) as [arg1|] eqn:Hthird; [|apply goes_Fault].
  destruct (load_slot s (arg0 s)) as [mat|] eqn:Hslot; [|apply goes_Fault].
  cbn [bind_load]. destruct (_ || _ || _ || _) eqn:Hc.
  - intros ? ? [= <- <-]. split; [done|].
    intros (rhs' & mat' & E1 & E2 & T1 & T2 &
            [[? _]|(_ & arg1' & arg2' & E3 & E4 & T3 & T4)]); [done|].
    exfalso. rewrite Htop in E1. rewrite Hslot in E2. rewrite Hthird in E3.
    rewrite Hsec in E4.
    injection E1 as <-. injection E2 as <-. injection E3 as <-.
    injection E4 as <-.
    rewrite !bool_decide_eq_false_2 in Hc by (by intros ?). done.
  - change (ip (set_ip (ip s + 1) s)) with (ip s + 1). rewrite !set_ip_back.
    clear Hc. destruct rhs, arg1, arg2, mat; try apply goes_Fault.
    repeat (destruct (_ || _ || _); [by intros ? ? [= <- <-]|]).
    destruct (bool_decide _); [|by intros ? ?].
    by intros ? ? [= <- <-].
Qed.

Lemma goes_subassign_id s :
  goes_to (λ l' s',
             ∃ k, code_at s (ip s) = Some k ∧
               code_at s (opcode_addr s) ≠ None ∧
               subassign_operands k s ∧
               ((k = 1 ∧ l' = L_subassign_id_mat_1d ∧
                 s' = code_write (opcode_addr s)
                        (opcode_of SUBASSIGN_ID_MAT_1D) s) ∨
                (k = 2 ∧ l' = L_subassign_id_mat_2d ∧
                 s' = code_write (opcode_addr s)
                        (opcode_of SUBASSIGN_ID_MAT_2D) s)))
    (subassign_id s).
Proof.
  unfold subassign_id.
  destruct (code_at s (ip s)) as [nargs|] eqn:Hn; [|apply goes_Fault].
  cbn [bind_load].
  change (TOP_OV (set_ip (ip s + 1) s)) with (TOP_OV s).
  destruct (TOP_OV s) as [rhs|] eqn:Htop; [|apply goes_Fault].
  cbn [bind_load].
  rewrite (load_ovs_ext (set_ip (ip s + 1) s) s) by done.
  change (sp (set_ip (ip s + 1) s)) with (sp s).
  destruct (load_ovs s _ _) as [args|] eqn:Hargs; [|apply goes_Fault].
  cbn [bind_load].
  change (load_slot (set_ip (ip s + 1) s) (arg0 s)) with (load_slot s (arg0 s)).
  destruct (load_slot s (arg0 s)) as [mat|] eqn:Hslot; [|apply goes_Fault].
  cbn [bind_load].
  change (ip (set_ip (ip s + 1) s)) with (ip s + 1).
  change (code_at (set_ip (ip s + 1) s)) with (code_at s).
  replace (ip s + 1 - 3 + wide_opcode_offset (arg0 s)) with (opcode_addr s)
    by (unfold opcode_addr; lia).
  destruct (_ && _ && _ && _) eqn:Hc; [|cbn [bind_load]; goes_tac].
  apply andb_true_iff in Hc as [Hc Hrhs%bool_decide_eq_true_1].
  apply andb_true_iff in Hc as [Hc Hmat%bool_decide_eq_true_1].
  apply andb_true_iff in Hc as [Hk Hall].
  destruct (code_at s (opcode_addr s)) as [cur|] eqn:Hcur; [|apply goes_Fault].
  cbn [mbind option_bind bind_load].
  destruct (bool_decide (cur ≠ _)); [|goes_tac].
  change (ip (set_ip (ip s + 1) s)) with (ip s + 1). rewrite set_ip_back.
  replace (ip s + 1 - 1 - 2 + wide_opcode_offset (arg0 s))
    with (opcode_addr s) by (unfold opcode_addr; lia).
  intros ? ? [= <- <-]. exists nargs. split; [done|]. split; [done|].
  destruct (decide (nargs = 1)) as [->|Hn1].
  - split; [|left; done]. exists rhs, mat.
    split; [done|]. split; [done|]. split; [done|]. split; [done|]. left.
    split; [done|].
    change (Z.to_nat 1) with 1%nat in Hargs.
    destruct (all_of_type_1 _ _ _ _ Hargs Hall) as (a & Ha & Hta).
    exists a. split; [|done]. rewrite <- Ha. unfold SEC_OV. f_equal. lia.
  - assert (nargs = 2) as ->.
    { apply orb_true_iff in Hk as [H%bool_decide_eq_true_1
                                   |H%bool_decide_eq_true_1]; done. }
    split; [|right; done]. exists rhs, mat.
    split; [done|]. split; [done|]. split; [done|]. split; [done|]. right.
    split; [done|].
    change (Z.to_nat 2) with 2%nat in Hargs.
    destruct (all_of_type_2 _ _ _ _ Hargs Hall) as (a & b & Ha & Hb & Hta & Htb).
    exists a, b. split. { rewrite <- Ha. unfold THIRD_OV. f_equal. lia. }
    split. { rewrite <- Hb. unfold SEC_OV. f_equal. lia. }
    split; congruence.
Qed.

(** The generic handler does not send an instruction again to the
    specialization whose opcode the instruction has. *)
Lemma stays_subassign_id s k :
  code_at s (ip s) = Some k →
  code_at s (opcode_addr s) =
    Some (if decide (k = 1) then opcode_of SUBASSIGN_ID_MAT_1D
          else opcode_of SUBASSIGN_ID_MAT_2D) →
  goes_to outside (subassign_id s).
Proof.
  intros Hn Hcur. unfold subassign_id. rewrite Hn. cbn [bind_load].
  apply goes_bind_load. intros rhs. apply goes_bind_load. intros args.
  apply goes_bind_load. intros mat.
  change (ip (set_ip (ip s + 1) s)) with (ip s + 1).
  change (code_at (set_ip (ip s + 1) s)) with (code_at s).
  replace (ip s + 1 - 3 + wide_opcode_offset (arg0 s)) with (opcode_addr s)
    by (unfold opcode_addr; lia).
  rewrite Hcur.
  destruct (_ && _ && _ && _); cbn [mbind option_bind bind_load].
  - rewrite bool_decide_eq_false_2 by (by intros ?). goes_tac.
  - goes_tac.
Qed.

(** *** The runs of [exec] *)

Lemma exec_step fuel l h s :
  handler l = Some h →
  exec (S fuel) l s = match h s with
                      | Goto l' s' => exec fuel l' s'
                      | o => o
                      end.
Proof. intros H. cbn [exec]. by rewrite H. Qed.

Lemma settled_outside fuel l s :
  handler l = None → goes_to outside (exec fuel l s).
Proof.
  intros H l' s'. destruct fuel; cbn [exec]; rewrite H; by intros [= <- <-].
Qed.

Lemma settled_0 l h s :
  handler l = Some h → goes_to outside (h s) → goes_to outside (exec 0 l s).
Proof. intros Hh H. by rewrite (exec_0 _ _ _ Hh). Qed.

Lemma settled_step fuel l h s (P : label → vm → Prop) :
  handler l = Some h → goes_to P (h s) →
  (∀ l' s', P l' s' → goes_to outside (exec fuel l' s')) →
  goes_to outside (exec (S fuel) l s).
Proof.
  intros Hh HP Hnext. rewrite (exec_step _ _ _ _ Hh).
  destruct (h s) eqn:E; try (by intros ? ?).
  apply Hnext. by apply HP.
Qed.

(** More fuel does not change a run that has come to its end. *)
Lemma settled_S fuel l s :
  goes_to outside (exec fuel l s) → goes_to outside (exec (S fuel) l s).
Proof.
  revert l s. induction fuel as [|fuel IH]; intros l s H.
  - destruct (handler l) as [h|] eqn:Hh; [|by apply settled_outside].
    rewrite (exec_0 _ _ _ Hh) in H.
    apply (settled_step _ _ _ _ outside Hh H).
    intros l' s' Hl'. by apply settled_outside.
  - destruct (handler l) as [h|] eqn:Hh; [|by apply settled_outside].
    rewrite (exec_step _ _ _ _ Hh) in H. rewrite (exec_step _ _ _ _ Hh).
    destruct (h s) eqn:E; try done. by apply IH.
Qed.

Lemma binop_tables_back l op l_generic generic :
  binop_specialized l = Some (op, l_generic, generic) →
  ∃ op' l_dbl specialized,
    binop_selfmodifying l_generic = Some (op', l_dbl, specialized).
Proof.
  destruct l; try discriminate; intros [= <- <- <-]; by repeat eexists.
Qed.

Lemma settled_binop_selfmodifying l op l_dbl specialized s :
  binop_selfmodifying l = Some (op, l_dbl, specialized) →
  goes_to outside (exec 1 l s).
Proof.
  intros Hl. pose proof (handler_selfmodifying _ _ _ _ Hl) as Hh.
  destruct (binop_tables _ _ _ _ Hl) as (_ & Hn & generic & Hd & _).
  pose proof (handler_specialized _ _ _ _ Hn Hd) as Hh'.
  eapply settled_step; [exact Hh|apply goes_MAKE_BINOP_SELFMODIFYING|].
  intros l' s' (-> & rhs & lhs & Htop & Hsec & T1 & T2).
  eapply settled_0; [exact Hh'|].
  by eapply stays_MAKE_BINOP_SPECIALIZED.
Qed.

Lemma settled_binop_specialized l op l_generic generic s :
  binop_selfmodifying l = None →
  binop_specialized l = Some (op, l_generic, generic) →
  goes_to outside (exec 1 l s).
Proof.
  intros Hn Hl. pose proof (handler_specialized _ _ _ _ Hn Hl) as Hh.
  destruct (binop_tables_back _ _ _ _ Hl) as (op' & l_dbl & sp' & Hg).
  pose proof (handler_selfmodifying _ _ _ _ Hg) as Hh'.
  eapply settled_step; [exact Hh|apply goes_MAKE_BINOP_SPECIALIZED|].
  intros l' s' (-> & rhs & lhs & Htop & Hsec & Hty).
  eapply settled_0; [exact Hh'|].
  by eapply stays_MAKE_BINOP_SELFMODIFYING.
Qed.

Lemma settled_jmp_generic negate special l l_bool generic s :
  handler l = Some (jmp_generic negate special l_bool) →
  handler l_bool = Some (jmp_bool negate generic l) →
  goes_to outside (exec 1 l s).
Proof.
  intros Hh Hh'.
  eapply settled_step; [exact Hh|apply goes_jmp_generic|].
  intros l' s' (-> & v & Htop & Hb).
  eapply settled_0; [exact Hh'|]. by eapply stays_jmp_bool.
Qed.

Lemma settled_jmp_bool negate special l l_bool generic s :
  handler l = Some (jmp_generic negate special l_bool) →
  handler l_bool = Some (jmp_bool negate generic l) →
  goes_to outside (exec 1 l_bool s).
Proof.
  intros Hh Hh'.
  eapply settled_step; [exact Hh'|apply goes_jmp_bool|].
  intros l' s' (-> & v & Htop & Hb).
  eapply settled_0; [exact Hh|]. by eapply stays_jmp_generic.
Qed.

Lemma settled_assign s : goes_to outside (exec 1 L_assign s).
Proof.
  eapply settled_step; [reflexivity|apply goes_assign|].
  intros l' s' ->. eapply settled_0; [reflexivity|].
  apply stays_assign_dispath.
Qed.

Lemma settled_index_id_common l nargout ok s :
  handler l = Some (index_id_common nargout ok) →
  goes_to outside (exec 1 l s).
Proof.
  intros Hh.
  eapply settled_step; [exact Hh|apply goes_index_id_common|].
  intros l' s' [Hout|[[-> Hops]|[-> Hops]]].
  - by apply settled_outside.
  - eapply settled_0; [reflexivity|]. by apply stays_index_id1_mat_1d.
  - eapply settled_0; [reflexivity|]. by apply stays_index_id1_mat_2d.
Qed.

Lemma settled_index_idn l h s :
  handler l = Some h →
  (∀ s, ∃ nargout : option Z, ∃ k,
      h s = bind_load nargout (λ n, index_id_common n false (k n))) →
  goes_to outside (exec 1 l s).
Proof.
  intros Hh Hs. destruct (Hs s) as (nargout & k & E).
  eapply settled_step; [exact Hh| |].
  - rewrite E. apply goes_bind_load. intros n. apply goes_index_id_common.
  - intros l' s' [Hout|[[-> Hops]|[-> Hops]]].
    + by apply settled_outside.
    + eapply settled_0; [reflexivity|]. by apply stays_index_id1_mat_1d.
    + eapply settled_0; [reflexivity|]. by apply stays_index_id1_mat_2d.
Qed.

Lemma settled_index_id1_mat l h s :
  handler l = Some h → goes_to (λ l' _, l' = L_index_id1) (h s) →
  goes_to outside (exec 2 l s).
Proof.
  intros Hh Hg. eapply settled_step; [exact Hh|exact Hg|].
  intros l' s' ->. by apply (settled_index_id_common _ 1 true).
Qed.

Lemma subassign_operands_code_write k p b s :
  subassign_operands k s → subassign_operands k (code_write p b s).
Proof. done. Qed.

Lemma settled_subassign_id s : goes_to outside (exec 2 L_subassign_id s).
Proof.
  eapply settled_step; [reflexivity|apply goes_subassign_id|].
  intros l' s' (k & Hk & Hcur & Hops & Hl').
  assert (Hip : opcode_addr s ≠ ip s).
  { unfold opcode_addr.
    destruct (wide_opcode_offset_cases (arg0 s)) as [-> | ->]; lia. }
  assert (Hin : 0 ≤ opcode_addr s < Z.of_nat (length (code_mem s))).
  { unfold code_at in Hcur.
    destruct (load (code_mem s) (opcode_addr s)) eqn:E; [|done].
    by apply load_Some_lt in E. }
  assert (Hback : ∀ b, k = 1 ∧ b = opcode_of SUBASSIGN_ID_MAT_1D ∨
                       k = 2 ∧ b = opcode_of SUBASSIGN_ID_MAT_2D →
    goes_to outside
      (exec 0 L_subassign_id (code_write (opcode_addr s) b s))).
  { intros b Hb. eapply settled_0; [reflexivity|].
    apply (stays_subassign_id _ k).
    - change (ip (code_write (opcode_addr s) b s)) with (ip s).
      by rewrite code_at_code_write_ne.
    - change (opcode_addr (code_write (opcode_addr s) b s))
        with (opcode_addr s).
      rewrite code_at_code_write_eq by done.
      by destruct Hb as [[-> ->]|[-> ->]]. }
  destruct Hl' as [(-> & -> & ->)|(-> & -> & ->)].
  - eapply settled_step; [reflexivity|apply goes_subassign_id_mat_1d|].
    intros l' s' [-> Hs']. rewrite (Hs' Hops). apply Hback. by left.
  - eapply settled_step; [reflexivity|apply goes_subassign_id_mat_2d|].
    intros l' s' [-> Hs']. rewrite (Hs' Hops). apply Hback. by right.
Qed.

Lemma settled_subassign_id_mat l h s (k : Z) :
  handler l = Some h →
  goes_to (λ l' s', l' = L_subassign_id ∧ (subassign_operands k s → s' = s))
    (h s) →
  goes_to outside (exec 3 l s).
Proof.
  intros Hh Hg. eapply settled_step; [exact Hh|exact Hg|].
  intros l' s' [-> _]. apply settled_subassign_id.
Qed.

Lemma settled_handlers l h s :
  handler l = Some h → l ≠ L_wide → goes_to outside (exec 3 l s).
Proof.
  intros Hh Hw.
  assert (H0 : goes_to outside (h s) → goes_to outside (exec 3 l s)).
  { intros H. do 3 apply settled_S. by eapply settled_0. }
  assert (H1 : goes_to outside (exec 1 l s) → goes_to outside (exec 3 l s)).
  { intros H. by do 2 apply settled_S. }
  assert (H2 : goes_to outside (exec 2 l s) → goes_to outside (exec 3 l s)).
  { intros H. by apply settled_S. }
  destruct (binop_selfmodifying l) as [[[op j] i]|] eqn:B1.
  { apply H1. by eapply settled_binop_selfmodifying. }
  destruct (binop_specialized l) as [[[op j] i]|] eqn:B2.
  { apply H1. by eapply settled_binop_specialized. }
  unfold handler in Hh. rewrite B1, B2 in Hh.
  destruct (binop_plain l) as [op|] eqn:B3.
  { injection Hh as <-. apply H0, stays_MAKE_BINOP. }
  destruct l; try discriminate Hh; try done; injection Hh as <-.
  all: first
    [ apply H0;
      first [ apply stays_ret | apply stays_assign_dispath | apply stays_jmp
            | apply stays_handle_signals | apply stays_for_setup
            | apply stays_for_cond | apply stays_pop_n_ints
            | apply stays_for_complex_setup | apply stays_for_complex_cond
            | apply stays_assign_n | apply stays_push_slot_indexed
            | apply stays_push_cell | apply stays_push_cell_big
            | apply stays_append_cell ]
    | apply H1;
      first [ apply settled_assign
            | by eapply (settled_jmp_generic false)
            | by eapply (settled_jmp_generic true)
            | by eapply (settled_jmp_bool false _ L_jmp_if)
            | by eapply (settled_jmp_bool true _ L_jmp_ifn)
            | by eapply settled_index_id_common
            | eapply settled_index_idn; [reflexivity|];
              intros s0; eexists; eexists; reflexivity ]
    | apply H2;
      first [ apply settled_subassign_id
            | eapply settled_index_id1_mat;
              [reflexivity
              |first [ apply goes_index_id1_mat_1d
                     | apply goes_index_id1_mat_2d ]] ]
    | eapply settled_subassign_id_mat;
      [reflexivity
      |first [ apply goes_subassign_id_mat_1d
             | apply goes_subassign_id_mat_2d ]] ].
Qed.

(** X14.  The jumps between handlers come to an end.  A handler may go
    to another one with [goto]: a generic handler to the specialization
    that it has written into the code, a specialization back to the
    generic handler when the operands do not fit or an index is out of
    bound, ASSIGN to its slow path.  From every handler but that of the
    prefix WIDE, after at most three such jumps a handler has run to its
    end, or control has left for a label outside this development: a
    generic handler and its specialization do not send an instruction to
    and fro without end. *)
Theorem handler_jumps_come_to_an_end (l : label) (h : vm → outcome)
    (s : vm) :
  handler l = Some h → l ≠ L_wide →
  match exec 3 l s with
  | Goto l' _ => handler l' = None
  | _ => True
  end.
Proof.
  intros Hh Hw. pose proof (settled_handlers l h s Hh Hw) as H.
  destruct (exec 3 l s) eqn:E; try done. by apply (H _ _ eq_refl).
Qed.

End families.

Section families_examples.
Import small_host.

(** The theorem at [x (7) = 2] for [x = [1 2 3]]: the specialization
    sends the index out of bound to the generic handler, which has the
    host assign. *)
Lemma handler_jumps_come_to_an_end_witness :
  let s := at_subassign SUBASSIGN_ID_MAT_1D one_two_three
             (val_scalar seven) (val_scalar two) in
  (handler L_subassign_id_mat_1d = Some subassign_id_mat_1d ∧
   L_subassign_id_mat_1d ≠ L_wide) ∧
  match exec 3 L_subassign_id_mat_1d s with
  | Goto l' _ => handler l' = None
  | _ => True
  end.
Proof.
  intros s.
  assert (H1 : handler L_subassign_id_mat_1d = Some subassign_id_mat_1d)
    by reflexivity.
  assert (H2 : L_subassign_id_mat_1d ≠ L_wide) by discriminate.
  exact (conj (conj H1 H2)
           (handler_jumps_come_to_an_end _ _ s H1 H2)).
Defined.

End families_examples.

(** ** RET: the values that the caller gets *)

Section ret_values.
Context {host : host_ops}.
Implicit Types (s : vm) (p q : Z) (k j n : nat) (vs : list octave_value).

Lemma load_ovs_take s p n vs k :
  load_ovs s p n = Some vs → (k ≤ n)%nat →
  load_ovs s p k = Some (take k vs).
Proof.
  revert p n vs. induction k as [|k IH]; intros p n vs H Hk; [done|].
  destruct n as [|n]; [lia|]. cbn [load_ovs] in *.
  destruct (load_ov s p) as [v|]; [|done]. cbn [mbind option_bind] in *.
  destruct (load_ovs s (p + 1) n) as [vs'|] eqn:E; [|done].
  cbn in H. injection H as <-.
  rewrite (IH _ _ _ E) by lia. done.
Qed.

Lemma load_ovs_app s p j k l1 l2 :
  load_ovs s p j = Some l1 → load_ovs s (p + Z.of_nat j) k = Some l2 →
  load_ovs s p (j + k) = Some (l1 ++ l2).
Proof.
  revert p l1. induction j as [|j IH]; intros p l1.
  - intros [= <-]. by rewrite Z.add_0_r.
  - cbn [load_ovs Nat.add].
    destruct (load_ov s p) as [v|]; [|done]. cbn [mbind option_bind].
    destruct (load_ovs s (p + 1) j) as [l|] eqn:E; [|done].
    cbn. intros [= <-] H2.
    rewrite (IH (p + 1) l E); [done|].
    by replace (p + 1 + Z.of_nat j) with (p + Z.of_nat (S j)) by lia.
Qed.

Lemma load_ovs_snoc s p k vs :
  load_ovs s p (S k) = Some vs →
  ∃ vs' v, load_ovs s p k = Some vs' ∧
           load_ov s (p + Z.of_nat k) = Some v ∧ vs = vs' ++ [v].
Proof.
  revert p vs. induction k as [|k IH]; intros p vs.
  - cbn [load_ovs]. destruct (load_ov s p) as [v|] eqn:E; [|done].
    cbn. intros [= <-]. exists [], v. rewrite Z.add_0_r. done.
  - intros H.
    change (load_ovs s p (S (S k)))
      with (load_ov s p ≫= λ v, load_ovs s (p + 1) (S k) ≫= λ vs,
            Some (v :: vs)) in H.
    destruct (load_ov s p) as [v0|] eqn:E0; [|done].
    cbn [mbind option_bind] in H.
    destruct (load_ovs s (p + 1) (S k)) as [l|] eqn:E; [|done].
    cbn in H. injection H as <-.
    destruct (IH _ _ E) as (vs' & v & H1 & H2 & ->).
    exists (v0 :: vs'), v. split.
    + cbn [load_ovs]. rewrite E0. cbn [mbind option_bind]. by rewrite H1.
    + split; [|done].
      by replace (p + Z.of_nat (S k)) with (p + 1 + Z.of_nat k) by lia.
Qed.

Lemma push_nils_spec j s :
  0 ≤ sp s → sp s + Z.of_nat j ≤ Z.of_nat (length (stack_mem s)) →
  load_ovs (push_nils j s) (sp s) j = Some (replicate j val_undef) ∧
  length (stack_mem (push_nils j s)) = length (stack_mem s) ∧
  (∀ q, q < sp s ∨ sp s + Z.of_nat j ≤ q →
        load (stack_mem (push_nils j s)) q = load (stack_mem s) q).
Proof.
  revert s. induction j as [|j IH]; intros s Hsp Hroom; [done|].
  cbn [push_nils]. destruct (IH (PUSH_OV val_undef s)) as (H1 & H2 & H3).
  - cbn. lia.
  - cbn. rewrite length_store. lia.
  - cbn in H1, H2, H3. rewrite length_store in H2.
    split; [|split; [done|]].
    + cbn [load_ovs replicate]. unfold load_ov at 1.
      rewrite H3 by lia. rewrite load_store_eq by lia.
      cbn [mbind option_bind as_ov]. by rewrite H1.
    + intros q Hq. rewrite H3 by lia. apply load_store_ne. lia.
Qed.

(** The move of [k] values from [first] on to the top of a stack that
    ends under them: they arrive in the reverse order. *)
Lemma move_returns_spec k first s vs :
  load_ovs s first k = Some vs →
  0 ≤ sp s → sp s + Z.of_nat k ≤ first →
  sp s + Z.of_nat k ≤ Z.of_nat (length (stack_mem s)) →
  ∃ s', move_returns first k s = Some s' ∧
        load_ovs s' (sp s) k = Some (reverse vs) ∧
        length (stack_mem s') = length (stack_mem s) ∧
        (∀ q, q < sp s → load (stack_mem s') q = load (stack_mem s) q).
Proof.
  revert s vs. induction k as [|k IH]; intros s vs H Hsp Hle Hlen.
  - injection H as <-. by exists s.
  - destruct (load_ovs_snoc _ _ _ _ H) as (vs' & v & H1 & H2 & ->).
    cbn [move_returns]. rewrite H2. cbn [mbind option_bind].
    set (s1 := PUSH_OV v (poke _ _ s)).
    destruct (IH s1 vs') as (s' & Hm & Hr & Hl & Hb).
    + rewrite <- H1. apply load_ovs_agree. intros q Hq. unfold s1. cbn.
      by rewrite !load_store_ne by lia.
    + unfold s1. cbn. lia.
    + unfold s1. cbn. lia.
    + unfold s1. cbn. rewrite !length_store. lia.
    + exists s'. split; [done|].
      unfold s1 in Hr, Hl, Hb. cbn in Hr, Hl, Hb.
      rewrite !length_store in Hl.
      split; [|split; [done|]].
      * rewrite reverse_app. cbn [reverse app load_ovs].
        unfold load_ov at 1. rewrite Hb by lia.
        rewrite load_store_eq by (rewrite length_store; lia).
        cbn [mbind option_bind as_ov]. rewrite Hr. done.
      * intros q Hq. rewrite Hb by lia.
        by rewrite !load_store_ne by lia.
Qed.

(** X16.  The values a caller gets from RET.  A RET from a frame
    without varargout that goes on in a bytecode caller which wants
    [expects] values, at least one, and whose stack does not reach the
    frame of the callee: the [expects] elements from the place of the
    object that was called are, from the top down, the first return
    values of the callee in their order; when the callee has fewer than
    the caller wants, nil values lie under them. *)
Theorem ret_moves_the_return_values (s s' : vm) (n_returns expects top : Z)
    (returns : list octave_value) :
  ret s = Dispatch s' →
  N_RETURNS s = Some n_returns → 0 ≤ n_returns →
  caller_nval_back s = Some expects → 1 ≤ expects →
  caller_top s = Some top → 0 ≤ top → top + expects < bsp s →
  callee_returns s = Some returns →
  let moved := Z.to_nat (Z.min expects (n_returns - 1)) in
  sp s' = top + expects ∧
  load_ovs s' top (Z.to_nat expects) =
    Some (replicate (Z.to_nat expects - moved) val_undef ++
          reverse (take moved returns)).
Proof.
  intros H Hnr Hpos Hexp He Htop Htop0 Hfree Hreturns moved.
  destruct (ret_locals_destroyed s _ H)
    as (n_locals & n_returns' & s1 & Hl & Hr & Hsp & Hn & Hsp1 & Hfr & Hm
        & Hlen & Hload & Heq); [done|].
  assert (n_returns' = n_returns) as -> by congruence.
  assert (Hnc : n_returns_callee n_returns = n_returns).
  { unfold n_returns_callee. by rewrite bool_decide_eq_false_2 by lia. }
  rewrite Hnc in *. rewrite bool_decide_eq_false_2 in Heq by lia.
  cbn [bind_load negb] in Heq.
  destruct Hfr as (_ & _ & Fbsp & _).
  destruct (decide (bsp s1 = rsp s1)).
  { symmetry in Heq. by apply ret_root_not_Dispatch in Heq. }
  symmetry in Heq. revert Heq. unfold ret_to_caller.
  replace (sp s1 - n_returns) with (bsp s) by lia.
  destruct (ret_restore_caller _ s1) as [r|] eqn:Hrest; [|done].
  cbn [bind_load].
  apply ret_restore_caller_Some in Hrest
    as (Hback & pse & Hpse & Hsp2 & Hst2 & _).
  unfold caller_nval_back, caller_top, load_i in *.
  rewrite Hload in Hback, Hpse by lia.
  rewrite Hexp in Hback. injection Hback as Hback.
  rewrite Hpse in Htop. injection Htop as Htop.
  rewrite <- Hback.
  destruct r as [e s2]. cbn [fst snd] in *. subst e.
  assert (Hbsp : bsp s ≤ Z.of_nat (length (stack_mem s))).
  { destruct (load (stack_mem s) (bsp s - 1)) eqn:E; [|done].
    apply load_Some_lt in E. lia. }
  assert (Hlen2 : length (stack_mem s2) = length (stack_mem s)).
  { by rewrite Hst2, length_store. }
  assert (Hret2 : load_ovs s2 (bsp s + 1) (Z.to_nat (n_returns - 1))
                  = Some returns).
  { unfold callee_returns in Hreturns. rewrite Hnr in Hreturns.
    cbn [mbind option_bind] in Hreturns.
    rewrite decide_False in Hreturns by lia. rewrite <- Hreturns.
    apply load_ovs_agree. intros q Hq. rewrite Hst2.
    rewrite load_store_ne by lia. apply Hload. lia. }
  pose proof (length_load_ovs _ _ _ _ Hret2) as Hlr.
  unfold ret_move.
  rewrite (bool_decide_eq_false_2 (expects = 0)) by lia. cbn [andb].
  rewrite bool_decide_eq_false_2 by lia.
  unfold moved. clear moved.
  assert (∃ m : Z, m = Z.min expects (n_returns - 1)) as [m Hk]
    by by eexists.
  rewrite <- Hk.
  set (s3 := push_nils (Z.to_nat (expects - m)) s2).
  destruct (push_nils_spec (Z.to_nat (expects - m)) s2) as (N1 & N2 & N3);
    [lia|lia|]. fold s3 in N1, N2, N3.
  assert (Hsp3 : sp s3 = top + (expects - m)).
  { unfold s3. rewrite sp_push_nils. lia. }
  destruct (move_returns_spec (Z.to_nat m) (bsp s + 1) s3
              (take (Z.to_nat m) returns)) as (s4 & M1 & M2 & M3 & M4).
  { rewrite <- (load_ovs_take s2 _ _ _ _ Hret2) by lia.
    apply load_ovs_agree. intros q Hq. apply N3. lia. }
  { lia. } { lia. } { lia. }
  rewrite M1. cbn [bind_load]. intros [= <-].
  pose proof (sp_move_returns _ _ _ _ M1) as Hsp4.
  split.
  { cbn. rewrite sp_destroy_range. lia. }
  replace (Z.to_nat expects)
    with (Z.to_nat (expects - m) + Z.to_nat m)%nat by lia.
  replace (Z.to_nat (expects - m) + Z.to_nat m - Z.to_nat m)%nat
    with (Z.to_nat (expects - m)) by lia.
  rewrite Hsp2, Htop in N1.
  apply load_ovs_app.
  - rewrite <- N1. apply load_ovs_agree. intros q Hq. cbn.
    rewrite load_destroy_range by lia. apply M4. lia.
  - replace (top + Z.of_nat (Z.to_nat (expects - m))) with (sp s3) by lia.
    rewrite <- M2. apply load_ovs_agree. intros q Hq. cbn.
    apply load_destroy_range. lia.
Qed.

End ret_values.

Section ret_values_examples.
Import small_host more_examples.

(** The theorem at [[x, y] = f ()] for a function [f] with one return
    value 7: 7 on the top, a nil value under it. *)
Lemma ret_moves_the_return_values_witness :
  let s := at_ret_for_two (val_scalar seven) in
  let s' := match ret s with Dispatch s' => s' | _ => s end in
  (ret s = Dispatch s' ∧ N_RETURNS s = Some 2 ∧ 0 ≤ 2 ∧
   caller_nval_back s = Some 2 ∧ 1 ≤ 2 ∧
   caller_top s = Some 2 ∧ 0 ≤ 2 ∧ 2 + 2 < bsp s ∧
   callee_returns s = Some [val_scalar seven]) ∧
  sp s' = 2 + 2 ∧
  load_ovs s' 2 (Z.to_nat 2) =
    Some (replicate (Z.to_nat 2 - Z.to_nat (Z.min 2 (2 - 1))) val_undef ++
          reverse (take (Z.to_nat (Z.min 2 (2 - 1))) [val_scalar seven])).
Proof.
  intros s s'.
  assert (H1 : ret s = Dispatch s') by (vm_compute; reflexivity).
  assert (H2 : N_RETURNS s = Some 2) by reflexivity.
  assert (H3 : 0 ≤ 2) by (vm_compute; discriminate).
  assert (H4 : caller_nval_back s = Some 2) by reflexivity.
  assert (H5 : 1 ≤ 2) by (vm_compute; discriminate).
  assert (H6 : caller_top s = Some 2) by reflexivity.
  assert (H7 : 2 + 2 < bsp s) by reflexivity.
  assert (H8 : callee_returns s = Some [val_scalar seven]) by reflexivity.
  exact (conj (conj H1 (conj H2 (conj H3 (conj H4 (conj H5 (conj H6
           (conj H3 (conj H7 H8))))))))
         (ret_moves_the_return_values s s' 2 2 2 _
            H1 H2 H3 H4 H5 H6 H3 H7 H8)).
Defined.

End ret_values_examples.

(** ** ASSIGNN: the values of a call to its variables *)

Section assign_n_rounds.
Context `{host : host_ops}.
Implicit Types (s : vm) (v lhs : octave_value) (slot : Z).

(** One round of the loop of ASSIGNN for a plain value. *)
Lemma assign_n_round fuel n_slots n_actual s v b0 b1 lhs :
  load_ov s (sp s - 1) = Some v →
  code_at s (ip s) = Some b0 → code_at s (ip s + 1) = Some b1 →
  is_cs_list v = false → is_undefined (storable v) = false →
  load_slot s (Z.lor b0 (Z.shiftl b1 8)) = Some lhs →
  assign_n_loop (S fuel) n_slots n_actual s =
    let s1 := set_ip (ip s + 2) (set_sp (sp s - 1) s) in
    let s2 := assign_slot (Z.lor b0 (Z.shiftl b1 8)) lhs (storable v)
                (maybe_call_dtor lhs s1) in
    let s' := poke (sp s2) se_dead s2 in
    if decide (n_actual + 1 < n_slots)
    then assign_n_loop fuel n_slots (n_actual + 1) s'
    else Dispatch s'.
Proof.
  intros Hv Hb0 Hb1 Hcs Hdef Hlhs.
  cbn [assign_n_loop].
  change (sp (set_sp (sp s - 1) s)) with (sp s - 1).
  replace (load_ov (set_sp (sp s - 1) s) (sp s - 1)) with (Some v)
    by (by rewrite <- Hv).
  cbn [bind_load].
  unfold POP_CODE_USHORT.
  change (ip (set_sp (sp s - 1) s)) with (ip s).
  replace (code_at (set_sp (sp s - 1) s) (ip s)) with (Some b0)
    by (by rewrite <- Hb0).
  replace (code_at (set_sp (sp s - 1) s) (ip s + 1)) with (Some b1)
    by (by rewrite <- Hb1).
  cbn [mbind option_bind bind_load]. rewrite Hcs.
  unfold assign_n_value. cbn [fst snd].
  replace (load_slot (set_ip (ip s + 2) (set_sp (sp s - 1) s))
             (Z.lor b0 (Z.shiftl b1 8))) with (Some lhs)
    by (by rewrite <- Hlhs).
  rewrite Hdef. done.
Qed.

Lemma code_ushorts_ext s s' p n :
  code_mem s = code_mem s' → code_ushorts s p n = code_ushorts s' p n.
Proof.
  intros H. revert p. induction n as [|n IH]; intros p; [done|].
  cbn [code_ushorts]. unfold code_at. rewrite H.
  by rewrite (IH (p + 2)).
Qed.

Lemma assign_slot_plain slot lhs v s :
  is_ref lhs = false → assign_slot slot lhs v s = store_slot slot v s.
Proof. by destruct lhs. Qed.

(** The loop of ASSIGNN over plain, defined values [ws], from the top of
    the stack down, for the slots [slots]. *)
Lemma assign_n_loop_spec (ws : list octave_value) :
  ∀ (slots : list Z) (fuel : nat) (n_slots n_actual : Z) s,
  ws ≠ [] → (length ws ≤ fuel)%nat →
  n_actual + Z.of_nat (length ws) = n_slots →
  load_ovs s (sp s - Z.of_nat (length ws)) (length ws) = Some (reverse ws) →
  code_ushorts s (ip s) (length ws) = Some slots →
  Forall (λ v, is_cs_list v = false ∧ is_undefined (storable v) = false) ws →
  Forall (λ slot, slot_addr s slot < sp s - Z.of_nat (length ws) ∧
                  ∃ lhs, load_slot s slot = Some lhs ∧ is_ref lhs = false)
    slots →
  NoDup slots →
  ∃ s', assign_n_loop fuel n_slots n_actual s = Dispatch s' ∧
        sp s' = sp s - Z.of_nat (length ws) ∧
        ip s' = ip s + 2 * Z.of_nat (length ws) ∧
        bsp s' = bsp s ∧ code_mem s' = code_mem s ∧
        (∀ i slot v, slots !! i = Some slot → ws !! i = Some v →
                     load_slot s' slot = Some (storable v)) ∧
        (∀ q, q < sp s - Z.of_nat (length ws) →
              (∀ slot, slot ∈ slots → q ≠ slot_addr s slot) →
              load (stack_mem s') q = load (stack_mem s) q).
Proof.
  induction ws as [|w ws IH]; [done|].
  intros slots fuel n_slots n_actual s _ Hfuel Hn Hvs Hcode Hws Hslots Hnd.
  destruct fuel as [|fuel]; [cbn in Hfuel; lia|].
  cbn [length] in *.
  rewrite reverse_cons in Hvs.
  destruct (load_ovs_snoc _ _ _ _ Hvs) as (vs' & v & Hvs' & Hv & Heq).
  apply app_inj_tail in Heq as [<- <-].
  replace (sp s - Z.of_nat (S (length ws)) + Z.of_nat (length ws))
    with (sp s - 1) in Hv by lia.
  cbn [code_ushorts] in Hcode.
  destruct (code_at s (ip s)) as [b0|] eqn:Hb0; [|done].
  destruct (code_at s (ip s + 1)) as [b1|] eqn:Hb1; [|done].
  cbn [mbind option_bind] in Hcode.
  destruct (code_ushorts s (ip s + 2) (length ws)) as [slots'|] eqn:Hcode';
    [|done].
  cbn in Hcode. injection Hcode as <-.
  apply Forall_cons in Hws as [[Hcs Hdef] Hws].
  apply Forall_cons in Hslots as [(Hlt & lhs & Hlhs & Hplain) Hslots].
  apply NoDup_cons in Hnd as [Hnotin Hnd].
  set (slot := Z.lor b0 (Z.shiftl b1 8)) in *.
  rewrite (assign_n_round fuel n_slots n_actual s w b0 b1 lhs)
    by done.
  cbv zeta. fold slot. rewrite (assign_slot_plain _ _ _ _ Hplain).
  set (s1 := poke _ se_dead _).
  pose proof (load_slot_Some_lt _ _ _ Hlhs) as Hb.
  pose proof (load_ov_Some_lt _ _ _ Hv) as Hb'.
  assert (Hsp1 : sp s1 = sp s - 1) by done.
  assert (Hip1 : ip s1 = ip s + 2) by done.
  assert (Hbsp1 : bsp s1 = bsp s) by done.
  assert (Hcode1 : code_mem s1 = code_mem s) by done.
  assert (Hstack1 : stack_mem s1 =
            store (sp s - 1) se_dead
              (store (slot_addr s slot) (se_ov (storable w)) (stack_mem s)))
    by done.
  assert (Hframe1 : ∀ q, q ≠ sp s - 1 → q ≠ slot_addr s slot →
            load (stack_mem s1) q = load (stack_mem s) q).
  { intros q Hq1 Hq2. rewrite Hstack1.
    rewrite load_store_ne by lia. by rewrite load_store_ne by lia. }
  assert (Hslot1 : load_slot s1 slot = Some (storable w)).
  { unfold load_slot, load_ov, slot_addr. rewrite Hbsp1, Hstack1.
    unfold slot_addr in *.
    rewrite load_store_ne by lia. rewrite load_store_eq by lia. done. }
  destruct ws as [|w' ws'].
  { (* the last value *)
    rewrite decide_False by (cbn in Hn; lia).
    exists s1. cbn [length] in *.
    split; [done|]. split; [lia|]. split; [lia|].
    split; [done|]. split; [done|]. split.
    - intros [|i] slot0 v0; cbn; [|by destruct slots'].
      by intros [= <-] [= <-].
    - intros q Hq Hne. apply Hframe1; [lia|].
      apply Hne. left. }
  rewrite decide_True by (cbn [length] in Hn; lia).
  destruct (IH slots' fuel n_slots (n_actual + 1) s1) as
    (s' & Hrun & Hsp' & Hip' & Hbsp' & Hcode'' & Hass & Hframe).
  - done.
  - lia.
  - lia.
  - rewrite Hsp1.
    replace (sp s - 1 - Z.of_nat (length (w' :: ws')))
      with (sp s - Z.of_nat (S (length (w' :: ws')))) by lia.
    rewrite <- Hvs'. apply load_ovs_agree. intros q Hq.
    apply Hframe1; lia.
  - rewrite Hip1. rewrite <- Hcode'. by apply code_ushorts_ext.
  - done.
  - apply Forall_forall. intros slot' Hin.
    rewrite Forall_forall in Hslots.
    destruct (Hslots slot' Hin) as (Hlt' & lhs' & Hlhs' & Hplain').
    assert (slot' ≠ slot) by (intros ->; done).
    unfold slot_addr in *. rewrite Hbsp1, Hsp1. split; [lia|].
    exists lhs'. split; [|done].
    rewrite <- Hlhs'. unfold load_slot, load_ov, slot_addr. rewrite Hbsp1.
    rewrite Hframe1; [done|lia|unfold slot_addr; lia].
  - done.
  - exists s'. split; [done|]. split; [lia|]. split; [lia|].
    split; [congruence|]. split; [congruence|]. split.
    + intros [|i] slot0 v0; cbn [lookup list_lookup].
      * intros [= <-] [= <-].
        rewrite <- Hslot1. unfold load_slot, load_ov, slot_addr.
        rewrite Hbsp', Hbsp1. f_equal. apply Hframe.
        -- unfold slot_addr in Hlt. lia.
        -- intros slot' Hin. unfold slot_addr. rewrite Hbsp1.
           assert (slot' ≠ slot) by (intros ->; done). lia.
      * apply Hass.
    + intros q Hq Hne. rewrite Hframe.
      * apply Hframe1; [lia|]. apply Hne. left.
      * lia.
      * intros slot' Hin. unfold slot_addr. rewrite Hbsp1.
        apply (Hne slot'). by right.
Qed.

(** X17.  ASSIGNN hands the values of a call to its variables in the
    order of its operands.  With [n] plain, defined values on the stack,
    from the top down [ws], and [n] different slots in the operands, each
    below the values and none a reference wrapper: ASSIGNN dispatches, the
    slot of its [i]-th operand holds the storable form of the [i]-th value
    from the top, the [n] values are popped, [ip] has passed the [n]
    shorts, and no other element under the values has changed. *)
Theorem assign_n_assigns_in_order (s : vm) (ws : list octave_value)
  (slots : list Z) :
  ws ≠ [] → arg0 s = Z.of_nat (length ws) →
  load_ovs s (sp s - Z.of_nat (length ws)) (length ws) = Some (reverse ws) →
  code_ushorts s (ip s) (length ws) = Some slots →
  Forall (λ v, is_cs_list v = false ∧ is_undefined (storable v) = false) ws →
  Forall (λ slot, slot_addr s slot < sp s - Z.of_nat (length ws) ∧
                  ∃ lhs, load_slot s slot = Some lhs ∧ is_ref lhs = false)
    slots →
  NoDup slots →
  ∃ s', assign_n s = Dispatch s' ∧
        sp s' = sp s - Z.of_nat (length ws) ∧
        ip s' = ip s + 2 * Z.of_nat (length ws) ∧
        (∀ i slot v, slots !! i = Some slot → ws !! i = Some v →
                     load_slot s' slot = Some (storable v)) ∧
        (∀ q, q < sp s - Z.of_nat (length ws) →
              (∀ slot, slot ∈ slots → q ≠ slot_addr s slot) →
              load (stack_mem s') q = load (stack_mem s) q).
Proof.
  intros Hne Harg Hvs Hcode Hws Hslots Hnd.
  unfold assign_n.
  destruct (assign_n_loop_spec ws slots (Z.to_nat (sp s) + 1) (arg0 s) 0 s)
    as (s' & Hrun & Hsp & Hip & _ & _ & Hass & Hframe); try done.
  - destruct ws as [|w ws]; [done|].
    cbn [load_ovs length] in Hvs.
    destruct (load_ov s (sp s - Z.of_nat (S (length ws)))) eqn:E; [|done].
    apply load_ov_Some_lt in E. cbn [length]. lia.
  - by exists s'.
Qed.

End assign_n_rounds.

Section assign_n_rounds_examples.
Import small_host more_examples.

(** The theorem at [[a, b] = f ()] with 2 on the top of the stack and 7
    under it: [a] is 2 and [b] is 7. *)
Lemma assign_n_assigns_in_order_witness :
  let s := at_assign_two (val_scalar seven) (val_scalar two) in
  let ws := [val_scalar two; val_scalar seven] in
  ∃ s', assign_n s = Dispatch s' ∧
        sp s' = sp s - Z.of_nat (length ws) ∧
        ip s' = ip s + 2 * Z.of_nat (length ws) ∧
        (∀ i slot v, [1; 2] !! i = Some slot → ws !! i = Some v →
                     load_slot s' slot = Some (storable v)) ∧
        (∀ q, q < sp s - Z.of_nat (length ws) →
              (∀ slot, slot ∈ [1; 2] → q ≠ slot_addr s slot) →
              load (stack_mem s') q = load (stack_mem s) q).
Proof.
  intros s ws.
  apply (assign_n_assigns_in_order s ws [1; 2]).
  - done.
  - reflexivity.
  - reflexivity.
  - reflexivity.
  - repeat constructor.
  - repeat constructor; cbn; try lia; by eexists.
  - apply NoDup_cons. split; [by intros ?%list_elem_of_singleton|].
    apply NoDup_singleton.
Defined.

End assign_n_rounds_examples.

(** ** Struct loops: FOR_COMPLEX_SETUP and FOR_COMPLEX_COND *)

Section struct_loops.
Context `{host : host_ops}.

Lemma map_contents_lookup dv (fields : list (string * Cell)) (i : nat) key
    val_lst :
  NoDup (fst <$> fields) → fields !! i = Some (key, val_lst) →
  map_contents (val_struct dv fields) key = Some val_lst.
Proof.
  intros Hnd Hi. cbn [map_contents].
  match goal with
  | |- context [@list_find ?A ?P ?D fields] =>
      destruct (@list_find A P D fields) as [[j [key' c']]|] eqn:E
  end.
  - apply list_find_Some in E as (Hj & Heq & _). cbn in Heq. subst key'.
    assert (i = j) as <-.
    { apply (NoDup_lookup (fst <$> fields) i j key Hnd).
      - rewrite list_lookup_fmap. by rewrite Hi.
      - rewrite list_lookup_fmap. exact (f_equal (fmap fst) Hj). }
    assert (Some (key, c') = Some (key, val_lst)) as [= ->].
    { etrans; [symmetry; exact Hj|exact Hi]. }
    done.
  - apply list_find_None in E.
    eapply Forall_lookup_1 in E; [|exact Hi]. done.
Qed.

Lemma for_complex_cond_round sk sv dv fields c s a1 k0 k1 v0 v1 key val_lst :
  in_struct_loop sk sv (val_struct dv fields) c s →
  code_at s (ip s) = Some a1 →
  code_at s (ip s + 1) = Some k0 → code_at s (ip s + 2) = Some k1 →
  code_at s (ip s + 3) = Some v0 → code_at s (ip s + 4) = Some v1 →
  sk = Z.lor k0 (Z.shiftl k1 8) → sv = Z.lor v0 (Z.shiftl v1 8) → sk ≠ sv →
  NoDup (fst <$> fields) →
  Forall (λ f, is_ref (field_value (snd f)) = false) fields →
  0 ≤ c + 1 → fields !! Z.to_nat (c + 1) = Some (key, val_lst) →
  ∃ s', for_complex_cond s = Dispatch s' ∧
    sp s' = sp s ∧ bsp s' = bsp s ∧ code s' = code s ∧
    code_mem s' = code_mem s ∧ arg0 s' = arg0 s ∧ ip s' = ip s + 5 ∧
    in_struct_loop sk sv (val_struct dv fields) (c + 1) s' ∧
    load_slot s' sk = Some (ov_of_string key) ∧
    load_slot s' sv = Some (field_value val_lst).
Proof.
  intros (Hrhs & (keys & Hkeys & Hn) & Hc & Hak & Hav & (lk & Hlk & Hrk)
          & (lv & Hlv & Hrv)) Ha1 Hk0 Hk1 Hv0 Hv1 Esk Esv Hne Hnd Hplain
    Hc0 Hfield.
  injection Hkeys as <-. rewrite length_fmap in Hn.
  pose proof (lookup_lt_Some _ _ _ Hfield) as Hlt.
  pose proof (load_slot_Some_lt _ _ _ Hlk) as Hkb.
  pose proof (load_slot_Some_lt _ _ _ Hlv) as Hvb.
  pose proof (Forall_lookup_1 _ _ _ _ Hplain Hfield) as Hval. cbn in Hval.
  assert (Hcb : 0 ≤ sp s - 1 < Z.of_nat (length (stack_mem s))).
  { unfold load_i in Hc.
    destruct (load (stack_mem s) (sp s - 1)) eqn:E; [|done].
    by apply load_Some_lt in E. }
  unfold for_complex_cond. rewrite Hc. cbn [bind_load].
  set (s1 := poke _ _ s).
  assert (Hn1 : load_i s1 (sp s1 - 2) = Some (Z.of_nat (length fields))).
  { unfold load_i, s1 in *. cbn. by rewrite load_store_ne by lia. }
  rewrite Hn1. cbn [bind_load].
  rewrite decide_False by (unfold Cell in *; lia).
  set (s2 := set_ip (ip s1 + 1) s1).
  assert (Hp1 : POP_CODE_USHORT s2 = Some (sk, set_ip (ip s + 3) s2)).
  { unfold POP_CODE_USHORT, code_at in *. cbn. rewrite Hk0.
    replace (ip s + 1 + 1) with (ip s + 2) by lia. rewrite Hk1. cbn.
    subst sk. by replace (ip s + 1 + 2) with (ip s + 3) by lia. }
  rewrite Hp1. cbn [bind_load fst snd].
  set (s3 := set_ip (ip s + 3) s2).
  assert (Hp2 : POP_CODE_USHORT s3 = Some (sv, set_ip (ip s + 5) s3)).
  { unfold POP_CODE_USHORT, code_at in *. cbn. rewrite Hv0.
    replace (ip s + 3 + 1) with (ip s + 4) by lia. rewrite Hv1. cbn.
    subst sv. by replace (ip s + 3 + 2) with (ip s + 5) by lia. }
  rewrite Hp2. cbn [bind_load fst snd].
  set (s4 := set_ip (ip s + 5) s3).
  assert (Hstack4 : stack_mem s4 =
            store (sp s - 1) (se_i (c + 1)) (stack_mem s)) by done.
  assert (Hr4 : THIRD_OV s4 = Some (val_struct dv fields)).
  { unfold THIRD_OV, load_ov in *. rewrite Hstack4.
    change (sp s4) with (sp s). by rewrite load_store_ne by lia. }
  rewrite Hr4. cbn [bind_load map_keys].
  assert (Hkey : load (fst <$> fields) (c + 1) = Some key).
  { unfold load. rewrite decide_True by lia.
    rewrite list_lookup_fmap. exact (f_equal (fmap fst) Hfield). }
  rewrite Hkey. cbn [bind_load].
  rewrite (map_contents_lookup dv fields _ key val_lst Hnd Hfield).
  cbn [bind_load].
  assert (Hfv : (if decide (Z.of_nat (length (snd val_lst)) = 1)
                 then head (snd val_lst)
                 else Some (val_cell (fst val_lst) (snd val_lst)))
                = Some (field_value val_lst)).
  { unfold field_value. destruct val_lst as [d [|v [|v' l]]]; cbn [snd fst].
    - by rewrite decide_False by done.
    - by rewrite decide_True by done.
    - rewrite decide_False; [done|]. cbn [length]. lia. }
  rewrite Hfv. cbn [bind_load].
  assert (Hlv4 : load_slot s4 sv = Some lv).
  { unfold load_slot, load_ov, slot_addr in *. rewrite Hstack4.
    change (bsp s4) with (bsp s). by rewrite load_store_ne by lia. }
  assert (Hlk4 : load_slot s4 sk = Some lk).
  { unfold load_slot, load_ov, slot_addr in *. rewrite Hstack4.
    change (bsp s4) with (bsp s). by rewrite load_store_ne by lia. }
  rewrite Hlv4, Hlk4. cbn [bind_load].
  set (s5 := if decide (c + 1 = 0) then _ else s4).
  assert (Hs5 : stack_mem s5 = stack_mem s4 ∧ sp s5 = sp s ∧
                bsp s5 = bsp s ∧ ip s5 = ip s + 5 ∧ code s5 = code s ∧
                code_mem s5 = code_mem s ∧ arg0 s5 = arg0 s).
  { unfold s5. by destruct (decide (c + 1 = 0)). }
  destruct Hs5 as (E1 & E2 & E3 & E4 & E5 & E6 & E7).
  rewrite (assign_slot_plain _ _ _ _ Hrv).
  set (s6 := store_slot sv (field_value val_lst) s5).
  assert (Hstack6 : stack_mem s6 =
            store (slot_addr s sv) (se_ov (field_value val_lst))
              (stack_mem s4)).
  { unfold s6, store_slot, slot_addr. cbn. by rewrite E1, E3. }
  assert (Hlen4 : length (stack_mem s4) = length (stack_mem s)).
  { rewrite Hstack4. apply length_store. }
  assert (Hlv6 : load_slot s6 sv = Some (field_value val_lst)).
  { unfold load_slot, load_ov. change (slot_addr s6 sv) with (slot_addr s5 sv).
    unfold slot_addr at 1. rewrite E3. fold (slot_addr s sv). rewrite Hstack6.
    rewrite load_store_eq by (rewrite Hlen4; lia). done. }
  assert (Hlk6 : load_slot s6 sk = Some lk).
  { unfold load_slot, load_ov. change (slot_addr s6 sk) with (slot_addr s5 sk).
    unfold slot_addr at 1. rewrite E3. fold (slot_addr s sk). rewrite Hstack6.
    rewrite load_store_ne by (unfold slot_addr; lia).
    unfold load_slot, load_ov in Hlk4.
    change (slot_addr s4 sk) with (slot_addr s sk) in Hlk4. done. }
  rewrite Hlv6, Hlk6. cbn [bind_load]. rewrite Hval.
  set (s7 := store_slot sk (ov_of_string key) s6).
  assert (Hstack7 : stack_mem s7 =
            store (slot_addr s sk) (se_ov (ov_of_string key))
              (stack_mem s6)).
  { unfold s7, store_slot, slot_addr. cbn. by rewrite E3. }
  assert (Hload7 : ∀ q, q ≠ slot_addr s sk → q ≠ slot_addr s sv →
            q ≠ sp s - 1 → load (stack_mem s7) q = load (stack_mem s) q).
  { intros q Q1 Q2 Q3. rewrite Hstack7, Hstack6, Hstack4.
    by rewrite !load_store_ne by lia. }
  assert (Hlen6 : length (stack_mem s6) = length (stack_mem s)).
  { rewrite Hstack6, length_store. done. }
  assert (Hk7 : load_slot s7 sk = Some (ov_of_string key)).
  { unfold load_slot, load_ov. change (slot_addr s7 sk) with (slot_addr s5 sk).
    unfold slot_addr at 1. rewrite E3. fold (slot_addr s sk). rewrite Hstack7.
    rewrite load_store_eq by (rewrite Hlen6; lia). done. }
  assert (Hv7 : load_slot s7 sv = Some (field_value val_lst)).
  { unfold load_slot, load_ov. change (slot_addr s7 sv) with (slot_addr s5 sv).
    unfold slot_addr at 1. rewrite E3. fold (slot_addr s sv). rewrite Hstack7.
    rewrite load_store_ne by (unfold slot_addr; lia).
    rewrite Hstack6. rewrite load_store_eq by (rewrite Hlen4; lia). done. }
  exists s7. split; [done|].
  split; [exact E2|]. split; [exact E3|]. split; [exact E5|].
  split; [exact E6|]. split; [exact E7|]. split; [exact E4|].
  split; [|by split].
  unfold in_struct_loop.
  change (sp s7) with (sp s5). change (slot_addr s7) with (slot_addr s5).
  unfold slot_addr in *. rewrite E2, E3.
  split.
  { unfold THIRD_OV, load_ov in *. change (sp s7) with (sp s5). rewrite E2.
    rewrite Hload7 by lia. done. }
  split.
  { exists (fst <$> fields). split; [done|]. rewrite length_fmap.
    unfold load_i in *. rewrite Hload7 by lia. done. }
  split.
  { unfold load_i. rewrite Hstack7, Hstack6, Hstack4.
    rewrite !load_store_ne by lia. rewrite load_store_eq by lia. done. }
  split; [lia|]. split; [lia|].
  split.
  - exists (ov_of_string key). split; [|done].
    by rewrite <- Hk7.
  - exists (field_value val_lst). split; [|done].
    by rewrite <- Hv7.
Qed.

(** The FOR_COMPLEX_COND after the last round. *)
Lemma for_complex_cond_exit sk sv dv fields c s a1 :
  in_struct_loop sk sv (val_struct dv fields) c s →
  code_at s (ip s) = Some a1 → c + 1 = Z.of_nat (length fields) →
  ∃ s', for_complex_cond s = Dispatch s' ∧ sp s' = sp s ∧
        ip s' = code s + USHORT_FROM_UCHARS (arg0 s) a1.
Proof.
  intros (Hrhs & (keys & Hkeys & Hn) & Hc & _) Ha1 Hlast.
  injection Hkeys as <-. rewrite length_fmap in Hn.
  assert (Hcb : 0 ≤ sp s - 1 < Z.of_nat (length (stack_mem s))).
  { unfold load_i in Hc.
    destruct (load (stack_mem s) (sp s - 1)) eqn:E; [|done].
    by apply load_Some_lt in E. }
  unfold for_complex_cond. rewrite Hc. cbn [bind_load].
  set (s1 := poke _ _ s).
  assert (Hn1 : load_i s1 (sp s1 - 2) = Some (Z.of_nat (length fields))).
  { unfold load_i, s1 in *. cbn. by rewrite load_store_ne by lia. }
  rewrite Hn1. cbn [bind_load].
  rewrite decide_True by (unfold Cell in *; lia).
  change (code_at s1 (ip s1)) with (code_at s (ip s)). rewrite Ha1.
  cbn [bind_load]. by eexists.
Qed.

Lemma for_complex_cond_rounds_spec sk sv dv fields a1 k0 k1 v0 v1 (k : nat) :
  sk = Z.lor k0 (Z.shiftl k1 8) → sv = Z.lor v0 (Z.shiftl v1 8) → sk ≠ sv →
  NoDup (fst <$> fields) →
  Forall (λ f, is_ref (field_value (snd f)) = false) fields →
  ∀ c s,
  in_struct_loop sk sv (val_struct dv fields) c s →
  code_at s (ip s) = Some a1 →
  code_at s (ip s + 1) = Some k0 → code_at s (ip s + 2) = Some k1 →
  code_at s (ip s + 3) = Some v0 → code_at s (ip s + 4) = Some v1 →
  0 ≤ c + 1 → c + 1 + Z.of_nat k ≤ Z.of_nat (length fields) →
  ∃ s', for_complex_cond_rounds k s = Dispatch s' ∧ sp s' = sp s ∧
    if decide (c + 1 + Z.of_nat k = Z.of_nat (length fields))
    then ip s' = code s + USHORT_FROM_UCHARS (arg0 s) a1
    else ip s' = ip s + 5 ∧
         ∀ key val_lst,
           fields !! Z.to_nat (c + 1 + Z.of_nat k) = Some (key, val_lst) →
           load_slot s' sk = Some (ov_of_string key) ∧
           load_slot s' sv = Some (field_value val_lst).
Proof.
  intros Esk Esv Hne Hnd Hplain.
  induction k as [|k IH]; intros c s Hin Ha1 Hk0 Hk1 Hv0 Hv1 Hc0 Hle;
    cbn [for_complex_cond_rounds].
  - change (Z.of_nat 0) with 0. rewrite Z.add_0_r.
    destruct (decide (c + 1 = Z.of_nat (length fields))) as [Hlast|Hgo].
    + destruct (for_complex_cond_exit _ _ _ _ _ _ _ Hin Ha1 Hlast)
        as (s' & Hr & Hsp & Hip).
      by exists s'.
    + destruct (lookup_lt_is_Some_2 fields (Z.to_nat (c + 1)))
        as [[key val_lst] Hfield]; [lia|].
      destruct (for_complex_cond_round _ _ _ _ _ _ _ _ _ _ _ _ _
                  Hin Ha1 Hk0 Hk1 Hv0 Hv1 Esk Esv Hne Hnd Hplain Hc0 Hfield)
        as (s' & Hr & Hsp & _ & _ & _ & _ & Hip & _ & Hk & Hv).
      exists s'. split; [done|]. split; [done|]. split; [done|].
      intros key' val_lst' Hfield'.
      assert (Some (key', val_lst') = Some (key, val_lst)) as [= -> ->].
      { etrans; [symmetry; exact Hfield'|exact Hfield]. }
      done.
  - destruct (lookup_lt_is_Some_2 fields (Z.to_nat (c + 1)))
      as [[key val_lst] Hfield]; [lia|].
    destruct (for_complex_cond_round _ _ _ _ _ _ _ _ _ _ _ _ _
                Hin Ha1 Hk0 Hk1 Hv0 Hv1 Esk Esv Hne Hnd Hplain Hc0 Hfield)
      as (s1 & -> & Hsp & Hbsp & Hcode & Hcm & Harg & Hip & Hin1 & _).
    set (s1' := set_arg0 (arg0 s) (set_ip (ip s) s1)).
    destruct (IH (c + 1) s1') as (s' & Hr & Hsp' & H).
    + exact Hin1.
    + unfold code_at in *. change (code_mem s1') with (code_mem s1).
      by rewrite Hcm.
    + unfold code_at in *. change (code_mem s1') with (code_mem s1).
      by rewrite Hcm.
    + unfold code_at in *. change (code_mem s1') with (code_mem s1).
      by rewrite Hcm.
    + unfold code_at in *. change (code_mem s1') with (code_mem s1).
      by rewrite Hcm.
    + unfold code_at in *. change (code_mem s1') with (code_mem s1).
      by rewrite Hcm.
    + lia.
    + lia.
    + exists s'. split; [done|].
      change (sp s1') with (sp s1) in Hsp'. split; [lia|].
      replace (c + 1 + Z.of_nat (S k)) with (c + 1 + 1 + Z.of_nat k) by lia.
      destruct (decide (c + 1 + 1 + Z.of_nat k = Z.of_nat (length fields))).
      * change (code s1') with (code s1) in H.
        change (arg0 s1') with (arg0 s) in H. by rewrite <- Hcode.
      * done.
Qed.

(** FOR_COMPLEX_SETUP for a struct, and the dispatch to the
    FOR_COMPLEX_COND after it. *)
Lemma for_complex_setup_enters_loop s dv fields b1 a0 sk sv :
  TOP_OV s = Some (val_struct dv fields) →
  sp s + 1 < Z.of_nat (length (stack_mem s)) →
  code_at s (ip s) = Some b1 →
  code_at s (ip s + 1) = Some (opcode_of FOR_COMPLEX_COND) →
  code_at s (ip s + 2) = Some a0 →
  slot_addr s sk < sp s - 1 → slot_addr s sv < sp s - 1 →
  (∃ v, load_slot s sk = Some v ∧ is_ref v = false) →
  (∃ v, load_slot s sv = Some v ∧ is_ref v = false) →
  ∃ s1 s2, for_complex_setup s = Dispatch s1 ∧
    DISPATCH s1 = Some (L_for_complex_cond, s2) ∧
    in_struct_loop sk sv (val_struct dv fields) (-1) s2 ∧
    arg0 s2 = a0 ∧ ip s2 = ip s + 3 ∧ sp s2 = sp s + 2 ∧
    code s2 = code s ∧ code_mem s2 = code_mem s.
Proof.
  intros Htop Hroom Hb1 Hop Ha0 Hak Hav (lk & Hlk & Hrk) (lv & Hlv & Hrv).
  pose proof (load_ov_Some_lt _ _ _ Htop) as Hb.
  unfold for_complex_setup. rewrite Htop. cbn [bind_load]. rewrite Hb1.
  cbn [bind_load is_undefined is_defined isstruct negb map_keys].
  set (s1 := push _ (push _ _)).
  assert (Hstack1 : stack_mem s1 =
            store (sp s + 1) (se_i (-1))
              (store (sp s) (se_i (Z.of_nat (length (fst <$> fields))))
                 (stack_mem s))) by done.
  exists s1, (set_ip (ip s + 3) (set_arg0 a0 s1)).
  split; [done|]. split.
  { unfold DISPATCH, code_at in *.
    change (ip s1) with (ip s + 1). change (code_mem s1) with (code_mem s).
    rewrite Hop. replace (ip s + 1 + 1) with (ip s + 2) by lia.
    rewrite Ha0. cbn [mbind option_bind]. rewrite INSTR_of_opcode_of.
    cbn [mbind option_bind instr].
    by replace (ip s + 1 + 2) with (ip s + 3) by lia. }
  split; [|split; [done|]; split; [done|]; split; [|done];
           change (sp s + 1 + 1 = sp s + 2); lia].
  unfold in_struct_loop, THIRD_OV, load_slot, load_ov, load_i, slot_addr
    in *.
  cbn [sp bsp stack_mem set_ip set_arg0].
  change (sp s1) with (sp s + 1 + 1). change (bsp s1) with (bsp s).
  rewrite Hstack1.
  replace (sp s + 1 + 1 - 3) with (sp s - 1) by lia.
  replace (sp s + 1 + 1 - 2) with (sp s) by lia.
  replace (sp s + 1 + 1 - 1) with (sp s + 1) by lia.
  split.
  { by rewrite !load_store_ne by lia. }
  split.
  { exists (fst <$> fields). split; [done|].
    rewrite load_store_ne by lia. rewrite load_store_eq by lia. done. }
  split.
  { rewrite load_store_eq by (rewrite length_store; lia). done. }
  split; [lia|]. split; [lia|].
  split.
  - exists lk. split; [|done]. by rewrite !load_store_ne by lia.
  - exists lv. split; [|done]. by rewrite !load_store_ne by lia.
Qed.

(** X18.  A struct loop [for [v, k] = s] runs its body once for every
    field of [s], in the order of the fields.  With the struct on the
    stack, its field names all different and no field holding a reference
    wrapper, and with the key and the value variable two different plain
    slots of the frame, FOR_COMPLEX_SETUP followed by FOR_COMPLEX_COND and
    a body that leaves the stack and the two slots alone: in the round of
    the [k]-th field the key variable holds the name of the field as a
    string and the value variable its contents, the single value itself
    or else the cell of the values; the FOR_COMPLEX_COND after the last
    field leaves for the after address in its operand, with the three loop
    values still on the stack. *)
Theorem struct_loop_rounds (s : vm) (dv : dim_vector)
    (fields : list (string * Cell)) (b1 a0 a1 slot_key slot_value : Z) :
  TOP_OV s = Some (val_struct dv fields) →
  NoDup (fst <$> fields) →
  Forall (λ f, is_ref (field_value (snd f)) = false) fields →
  sp s + 1 < Z.of_nat (length (stack_mem s)) →
  code_at s (ip s) = Some b1 →
  code_at s (ip s + 1) = Some (opcode_of FOR_COMPLEX_COND) →
  code_at s (ip s + 2) = Some a0 → code_at s (ip s + 3) = Some a1 →
  code_ushorts s (ip s + 4) 2 = Some [slot_key; slot_value] →
  slot_key ≠ slot_value →
  slot_addr s slot_key < sp s - 1 → slot_addr s slot_value < sp s - 1 →
  (∃ v, load_slot s slot_key = Some v ∧ is_ref v = false) →
  (∃ v, load_slot s slot_value = Some v ∧ is_ref v = false) →
  ∃ s1 s2, for_complex_setup s = Dispatch s1 ∧
    DISPATCH s1 = Some (L_for_complex_cond, s2) ∧
    (∀ (k : nat) key val_lst, fields !! k = Some (key, val_lst) →
       ∃ s', for_complex_cond_rounds k s2 = Dispatch s' ∧
             ip s' = ip s + 8 ∧ sp s' = sp s + 2 ∧
             load_slot s' slot_key = Some (ov_of_string key) ∧
             load_slot s' slot_value = Some (field_value val_lst)) ∧
    (∃ s', for_complex_cond_rounds (length fields) s2 = Dispatch s' ∧
           ip s' = code s + USHORT_FROM_UCHARS a0 a1 ∧ sp s' = sp s + 2).
Proof.
  intros Htop Hnd Hplain Hroom Hb1 Hop Ha0 Ha1 Hslots Hne Hak Hav Hlk Hlv.
  cbn [code_ushorts] in Hslots.
  destruct (code_at s (ip s + 4)) as [k0|] eqn:Hk0; [|done].
  destruct (code_at s (ip s + 4 + 1)) as [k1|] eqn:Hk1; [|done].
  destruct (code_at s (ip s + 4 + 2)) as [v0|] eqn:Hv0; [|done].
  destruct (code_at s (ip s + 4 + 2 + 1)) as [v1|] eqn:Hv1; [|done].
  cbn in Hslots. injection Hslots as Esk Esv.
  symmetry in Esk, Esv.
  destruct (for_complex_setup_enters_loop s dv fields b1 a0 slot_key
              slot_value Htop Hroom Hb1 Hop Ha0 Hak Hav Hlk Hlv)
    as (s1 & s2 & Hsetup & Hdisp & Hin & Harg & Hip & Hsp & Hcode & Hcm).
  assert (Hcodes : code_at s2 (ip s2) = Some a1 ∧
                   code_at s2 (ip s2 + 1) = Some k0 ∧
                   code_at s2 (ip s2 + 2) = Some k1 ∧
                   code_at s2 (ip s2 + 3) = Some v0 ∧
                   code_at s2 (ip s2 + 4) = Some v1).
  { unfold code_at in *. rewrite Hcm, Hip.
    replace (ip s + 3 + 1) with (ip s + 4) by lia.
    replace (ip s + 3 + 2) with (ip s + 4 + 1) by lia.
    replace (ip s + 3 + 3) with (ip s + 4 + 2) by lia.
    replace (ip s + 3 + 4) with (ip s + 4 + 2 + 1) by lia.
    done. }
  destruct Hcodes as (C0 & C1 & C2 & C3 & C4).
  exists s1, s2. split; [done|]. split; [done|]. split.
  - intros k key val_lst Hfield.
    pose proof (lookup_lt_Some _ _ _ Hfield) as Hlt.
    destruct (for_complex_cond_rounds_spec slot_key slot_value dv fields
                a1 k0 k1 v0 v1 k Esk Esv Hne Hnd Hplain (-1) s2
                Hin C0 C1 C2 C3 C4)
      as (s' & Hr & Hsp' & H); [lia|unfold Cell in *; lia|].
    rewrite decide_False in H by (unfold Cell in *; lia).
    destruct H as (Hip' & Hvars).
    exists s'. split; [done|]. split; [lia|]. split; [lia|].
    apply Hvars. replace (Z.to_nat (-1 + 1 + Z.of_nat k)) with k by lia.
    done.
  - destruct (for_complex_cond_rounds_spec slot_key slot_value dv fields
                a1 k0 k1 v0 v1 (length fields) Esk Esv Hne Hnd Hplain (-1) s2
                Hin C0 C1 C2 C3 C4)
      as (s' & Hr & Hsp' & H); [lia|unfold Cell in *; lia|].
    rewrite decide_True in H by (unfold Cell in *; lia).
    exists s'. split; [done|]. split; [|lia].
    by rewrite H, Hcode, Harg.
Qed.

End struct_loops.

Section struct_loops_examples.
Import small_host more_examples.

(** The theorem at [for [v, k] = struct ("f", 7, "g", {{2, 3}})]: the
    rounds of "f" and of "g", and the end of the loop at the code
    offset 12. *)
Lemma struct_loop_rounds_witness :
  let s := at_for_complex_setup in
  let fields := [("f", ([1; 1], [val_scalar seven]));
                 ("g", ([1; 2], [val_scalar two; val_scalar three]))] in
  ∃ s1 s2, for_complex_setup s = Dispatch s1 ∧
    DISPATCH s1 = Some (L_for_complex_cond, s2) ∧
    (∀ (k : nat) key val_lst, fields !! k = Some (key, val_lst) →
       ∃ s', for_complex_cond_rounds k s2 = Dispatch s' ∧
             ip s' = ip s + 8 ∧ sp s' = sp s + 2 ∧
             load_slot s' 1 = Some (ov_of_string key) ∧
             load_slot s' 2 = Some (field_value val_lst)) ∧
    (∃ s', for_complex_cond_rounds (length fields) s2 = Dispatch s' ∧
           ip s' = code s + USHORT_FROM_UCHARS 12 0 ∧ sp s' = sp s + 2).
Proof.
  intros s fields.
  apply (struct_loop_rounds s [1; 1] fields 0 12 0 1 2).
  - reflexivity.
  - apply NoDup_cons. split; [by intros ?%list_elem_of_singleton|].
    apply NoDup_singleton.
  - repeat constructor.
  - cbn. lia.
  - reflexivity.
  - reflexivity.
  - reflexivity.
  - reflexivity.
  - reflexivity.
  - done.
  - reflexivity.
  - reflexivity.
  - by exists val_undef.
  - by exists val_undef.
Defined.

End struct_loops_examples.
